(* ===== verification/_CoqProject ===== *)
-Q . S2P
Prelude.v
Logger.v
Steps.v
Sync.v
Singleton.v
Thread.v
CxxString.v
StrUtils.v
Strtod.v
Any.v
Socket.v
TlsSocket.v
OpenSslSocket.v
StdMap.v
Streams.v
Base64.v
Md5.v
Uuid.v
DateTime.v
I18n.v
HttpHeader.v
Url.v
Factory.v
HttpContentParser.v
HttpServer.v
WebApplication.v
CgiApplication.v
ApacheApplication.v
IsapiApplication.v
TcpServer.v
HttpOverTcp.v
TcpLifecycle.v
TcpThreads.v
Pool.v
Filesys.v
Config.v
Connection.v
Query.v
Application.v
Process.v
Plugin.v
DaemonApplication.v
ProcessPipes.v
WebServer.v
WinSync.v
WinFilesys.v
WinPlugin.v
WinStrptime.v
WinThread.v
WinProcess.v
WinDaemon.v
Tests.v
