(* ===== verification/Prelude.v ===== *)
(** * DCL (dbPager Classes Library): verification development

    DCL is a C++ class library: strings and encodings, identifiers, dates, files and
    configuration, an HTTP server over a threaded TCP server, an object pool, ODBC access and an
    application frame.  This library translates its logic into Rocq, file by file, and proves
    what the parts promise.  Paths below are relative to [src/]; [.cpp] files are in [src/dcl/]
    and headers in [include/dcl/] there.  The development models the POSIX build, and in the files
    [Win...] and [IsapiApplication] what the Windows build has of its own.

    ** How code is modelled

    - A byte string is [list ascii]; [int], [unsigned], [size_t] and [char] values are integers,
      wrapped by [s32], [u32], [u64], [schar] where the code relies on the width.
    - A call returns an [outcome]: a value, an exception, or [Undef] for a use the language
      leaves undefined, such as an index out of range.  Operations that change an object are
      functions on its record; the ODBC classes use the state and error monad [stm] with the
      weakest preconditions [wp].
    - A loop whose recursion is not structural takes a fuel and returns an option.  Its
      properties state how much fuel is enough and that the loop then gives its result.
    - Code outside the repository is a class of functions that the definitions take: [TimeLib]
      (time.h), [Services] (getservbyname), [Posix] (chdir, glob, reading files), [Odbc] (the
      driver manager), [Getopt] (getopt_long), [Locale] (codecvt), [Pthread] (mutexes, locks,
      semaphores), [SocketOs] (sockets), [Gnutls] and [Openssl] (TLS), [Dl] (the dynamic
      linker), [Apr] (tables of the Apache server), [Gettext], [AnyTypes] (the types an any
      holds), [Win32Sync], [Win32Search] and [Win32Dl] (kernel objects, directory searches and
      modules of Windows), [Messages] (numbers of a generated header), the function fields of
      [EXTENSION_CONTROL_BLOCK] (Internet Information Services), and the client's handlers.  Where a property relies on its documented behaviour,
      a second class ([TimeLaws], [PosixLaws], [OdbcConnLaws], [OdbcStmtLaws], [OdbcDataLaws],
      [GetoptLaws], [MutexLaws], [DefaultMutex], [RwlockLaws], [SocketLaws], [OpensslLaws],
      [AprLaws], [Win32SyncLaws], [Win32SearchLaws]) states it, and an instance in the same file shows that it can hold.
    - Threads are relations: a step is what one thread does between two points where another
      one can act, and a theorem is about every state that steps reach.
    - Messages passed through the message catalogue are their English originals.

    ** The files

    Foundations:
    - [Prelude]: bytes, outcomes, machine integers, the monad, automation (hint databases
      [dcl], [by_bytes] for statements decided on all 256 bytes, [div_lia]).  [Logger]
      (logger.h): the interface of loggers, a class with its instances where they are used.
    - [Steps]: reachability, measures, lists of threads, tables of descriptors.  [Sync] (posix/
      mutex_impl.cpp, rwlock_impl.cpp, semaphore_impl.cpp, atomic_counter.h and the guards): the
      wrappers of the system's locks, and [locked], the relation between a mutex and the regions
      it guards.
      [Thread] (thread.cpp, posix/thread_impl.cpp): thread objects.
    - [CxxString]: character classes, the find family of std::string, strtol, printing of
      integers.  [StdMap]: std::map as a sorted association list over the class [KeyOrder] of
      its comparator.  [Streams]: std::stringstream with its state bits and positions.

    Values and texts:
    - [StrUtils] (strutils.cpp, .h): trim, compare, tokenize, format, conversions of integers.
      [Strtod]: my_strtod on binary64 numbers and the printing of a double.
    - [Any] (any.h): the any container on a store of heap cells.  [Singleton] (singleton.h).
    - [Base64] (codec_base64.cpp), [Md5] (encoder_md5.cpp), [Uuid] (uuid.cpp), [DateTime]
      (datetime.cpp), [I18n] (i18n.cpp): message catalogues and locale objects.

    Network and web:
    - [Socket] (socket.cpp): socket objects and who owns their descriptors.  [TlsSocket]
      (ssl_socket.cpp, gnutls_socket.cpp) and [OpenSslSocket] (openssl_socket.cpp).
    - [HttpHeader] (http_header.cpp): Modules [http_error] and [http_method] for the two
      tables; cookies, header map, content, requests and responses.  [Url] (url.cpp).
    - [Factory] (factory.h): the class registry and its interface [FactoryOps];
      [HttpContentParser] (http_content_parser.cpp) creates its parsers through it.
    - [HttpServer] (http_server.cpp): [http_step] is a turn of the loop of process_data, [run]
      the loop, [process_data] the handler with its table of suspended requests.
    - [TcpServer] (tcp_server.cpp): requests, [connection_read], [connection_write], [work],
      the listening sockets, and the server as a relation [step] whose actions are the bodies of
      its regions.  [TcpLifecycle]: the life of a connection, which these steps refine.
      [TcpThreads]: the program of each thread - guards, event, flag, joins - whose
      interleavings refine the steps.
    - [HttpOverTcp] composes the two: [HttpServer.process_data] is the handler of
      [TcpServer.connection_read] and [work], [pass] is what the threads do with one connection
      when its socket has events, [converse] what it sends through a series of them.
    - [WebApplication] (web_application.h): the interface of web applications and [answer], the
      run of a handler its front ends share; [CgiApplication] (cgi_application.cpp),
      [ApacheApplication] and [IsapiApplication] (.cpp and .h) are the front ends.

    Resources and data:
    - [Pool] (pool.h): the object pool as a relation [step] between the synchronised regions,
      and the allocator it implements.
    - [Filesys] (filesystem.h, posix/filefs_impl.cpp): the search iterator, the current
      directory; [Config]
      (app_config.cpp, mimetype.cpp): configuration files with includes, MIME types.
    - [Connection] and [Query] (connection.cpp, query.cpp): ODBC connections and statements.

    Programs:
    - [Application] (cmdline_parameters.cpp, application.cpp): command line, dispatch to
      handlers, help page.  [DaemonApplication] (posix/daemon_application.cpp): daemons and
      their signals.
    - [Process] and [ProcessPipes] (posix/process_impl.cpp): arguments of a child, and the child
      behind its pipes.  [Plugin] (plugin.cpp, posix/plugin_impl.cpp): dynamic libraries.
    - [WebServer] (examples/web_server/src/): the web server the library comes with, a client of
      [Url], [Config] and [HttpOverTcp].

    Windows (win32/):
    - [WinSync] (mutex_impl.cpp, rwlock_impl.cpp, semaphore_impl.cpp, event_impl.cpp): locks on
      kernel objects; [rw_step] interleaves the users of a reader-writer lock.  [WinThread]
      (thread_impl.cpp): thread handles.
    - [WinFilesys] (filefs_impl.cpp) and [WinPlugin] (plugin_impl.cpp): what differs from
      [Filesys] and [Plugin], whose states they share.  [WinProcess] (process_impl.cpp): a child
      of [ProcessPipes] behind Windows' pipes.
    - [WinStrptime] (strptime.h): reading dates, an instance of [TimeLib] for [DateTime].
    - [WinDaemon] (daemon_application.cpp): a service under the service manager, and its
      installation and removal.

    [Tests] evaluates the unit tests of the repository on the models.

    ** What the theorems show

    - Server: once the head of a request is in, the request handler is called once, on the
      request the client sent, and its response is written; a request that arrives in pieces is
      resumed to the same answer.  Every accepted connection is in exactly one place of the
      server and no reachable one is deleted; closing is final; writing neither loses nor
      repeats a byte.
    - Composition: through any events of its socket a connection sends the answer to its
      request, once, and closes; what the threads do to it are steps of the server.  A
      connection that asks to be kept is answered twice and closed.  The example server names
      files below its root, or, with enough dots, any other.
    - Threads: every interleaving of the server's threads is an execution of its steps, one
      thread at a time is in a region, no wake-up is lost, a waiting connection is served after
      those before it, and stop returns.  A singleton is constructed once.
    - Refinement: the server's steps are steps of a connection's life, the pool is an allocator
      by key, an any is a plain value.
    - Ownership: descriptors of sockets, handles of TLS sessions, cells of anys, libraries of
      plugins and pooled objects have one owner and are released once - except in the cases
      the examples show.
    - Round trips: header blocks, cookies, URLs and their escapes, form data, Base64, dates,
      identifiers, numbers, rows of a query, configuration files, child arguments.
    - Equivalence with a reference: MD5 with the text of RFC 1321, tokenize with splitting and
      trimming, URL normalisation with a stack of segments, format with substitution.
    - Functional behaviour: CGI, Apache and ISAPI requests and answers, daemons under signals,
      services under the service manager, decimal
      numbers, named parameters of SQL statements, execution of streamed rounds of values,
      dispatch of the command line, layout of the help page.
    - Bounds: the Windows strptime stays in its text and its fields in their ranges; a child that writes more than its pipes hold is never waited for to its end; the
      queue of the TCP server is not bounded by its parameter.
    - Windows: the reader-writer lock excludes, but one successful try_enter_write keeps every
      other thread from writing for good; an event wakes one waiter; a search passes over its first find; every library a plugin
      loads is freed once; a service that is installed and removed leaves nothing behind.
    - Shortcomings, proved as they are and listed with their source lines in the manifest.

    ** Fuel

    - Loops over a text or a stream consume a character or a position per turn: the length of
      the text (plus a constant) is enough, and the callers pass exactly that.
    - [HttpServer.run] needs a turn per line and per state; [http_loop_ends] gives the bound.
    - [Query.get_field] reads 255 bytes per turn; [Application.init_loop] consumes, per turn, a
      part of what getopt has left to scan or one file name.
    - [ApacheApplication.input] takes the answers of the server's input filters, one per turn:
      it ends at the first error or end of stream among them.
    - [Filesys.getcwd_loop] doubles a buffer per turn: it ends once the buffer holds the answer.
      [WinFilesys.win_search_loop] takes a find per turn.
    - [WinStrptime.win_strptime] is three levels deep, which is enough for the formats its
      conversions pass on: [win_strptime_recursive] is the equation of the source.
    - [Config.do_load] takes the nesting depth of includes, which the program does not bound: a
      file that includes itself recurses for ever, and then no fuel is enough.

    ** Not modelled

    - win32/locmap.c: IBM's table of locales, which no file includes.  libdclbase_msgs.h is
      generated.  win32/socket_impl.cpp starts and stops the
      socket library, and socket.cpp replaces inet_ntop and inet_pton where Windows lacks them.
    - delegate.h: the FastDelegate library of another author; a delegate is a Rocq function.
    - gui_application and the GTK dialogs: calls of a widget library only.
    - The hello_world examples print a greeting.  The tests of threads, sockets, pools,
      databases, plugins and child processes depend on the system.
    - socket_stream and tcp_client: the first has empty virtual functions, the second is
      commented out as a whole.
    - shared_ptr.h, noncopyable.h and the umbrella headers only choose between libraries, hide
      copying or include. *)
From stdpp Require Export base tactics decidable numbers option list strings gmap.
From Stdlib Require Export Ascii ZArith Lia.

(** ** Bytes and strings

    A C++ [std::string] is a sequence of bytes, modelled by [list ascii]; [lit] writes a
    string literal.  [ord] is the value of a byte read as [unsigned char], [schar] its value
    read as a (signed) [char], and [chr] truncates an integer to a byte. *)
Abbreviation str := (list ascii).

Definition lit (s : string) : str := String.list_ascii_of_string s.
#[global] Arguments lit : simpl never.
#[global] Arguments Nat.ltb _ _ : simpl nomatch.

Definition ord (c : ascii) : Z := Z.of_N (N_of_ascii c).

Definition schar (c : ascii) : Z := if (ord c <? 128)%Z then ord c else (ord c - 256)%Z.

Definition chr (z : Z) : ascii := ascii_of_N (Z.to_N (z mod 256)).

Definition nul : ascii := chr 0.

(** All the bytes, for properties decided by evaluation. *)
Definition all_bytes : list ascii := (λ n, ascii_of_nat n) <$> seq 0 256.

(** ** Outcomes

    A C++ computation returns a value, throws one of the exceptions the sources declare, or
    reaches a use the language leaves undefined (an index out of range, a null string). *)
Inductive exn_class : Set :=
  | type_conversion_exception
  | out_of_range
  | factory_non_reg_exception
  | factory_already_reg_exception
  | factory_unreg_exception
  | socket_exception
  | query_exception
  | connection_exception
  | app_config_exception
  | cmdline_parameters_exception
  | mutex_exception
  | rwlock_exception
  | thread_exception
  | plugin_exception
  | process_exception
  | codec_exception
  | user_exception
  | dbp_exception
  | bad_alloc.

Record exn : Set := Exn { exn_cls : exn_class; exn_what : str }.

Inductive outcome (A : Type) : Type :=
  | Ret (a : A)
  | Throw (e : exn)
  | Undef.
Arguments Ret {A} a.
Arguments Throw {A} e.
Arguments Undef {A}.

#[global] Instance exn_class_eq_dec : EqDecision exn_class.
Proof. solve_decision. Defined.

#[global] Instance exn_eq_dec : EqDecision exn.
Proof. solve_decision. Defined.

#[global] Instance outcome_eq_dec {A} `{EqDecision A} : EqDecision (outcome A).
Proof. solve_decision. Defined.

#[global] Instance outcome_ret : MRet outcome := @Ret.

#[global] Instance outcome_bind : MBind outcome := λ A B f m,
  match m with
  | Ret a => f a
  | Throw e => Throw e
  | Undef => Undef
  end.

#[global] Instance outcome_fmap : FMap outcome := λ A B f m,
  match m with
  | Ret a => Ret (f a)
  | Throw e => Throw e
  | Undef => Undef
  end.

(** A pointer to characters: a string that lives, one whose storage is gone, or null; and a
    [std::string] made from it. *)
Inductive char_ptr := Live (s : str) | Dangling | Null.

Definition deref (p : char_ptr) : outcome str := match p with Live s => Ret s | _ => Undef end.

(** An operation on the state [S]: its outcome and the state it leaves, exceptions included. *)
Definition stm (S A : Type) : Type := S → outcome A * S.

#[global] Instance stm_ret {S} : MRet (stm S) := λ A a s, (Ret a, s).

#[global] Instance stm_bind {S} : MBind (stm S) := λ A B f m s,
  match m s with
  | (Ret a, s') => f a s'
  | (Throw e, s') => (Throw e, s')
  | (Undef, s') => (Undef, s')
  end.

#[global] Instance stm_fmap {S} : FMap (stm S) := λ A B f m s,
  let '(o, s') := m s in (f <$> o, s').

Definition lift {S A} (o : outcome A) : stm S A := λ s, (o, s).

(** Element access and assignment of an array or a [std::vector]: undefined out of range. *)
Definition vec_at {A} (v : list A) (i : Z) : outcome A :=
  if (i <? 0)%Z then Undef
  else match v !! Z.to_nat i with Some x => Ret x | None => Undef end.

Definition vec_store {A} (v : list A) (i : nat) (x : A) : outcome (list A) :=
  if i <? length v then Ret (<[i := x]> v) else Undef.

(** The operands of the library's fixed-width integer types. *)
Definition u8 (z : Z) : Z := z mod 2 ^ 8.

Definition u32 (z : Z) : Z := z mod 2 ^ 32.

Definition u64 (z : Z) : Z := z mod 2 ^ 64.

Definition s32 (z : Z) : Z := (z + 2 ^ 31) mod 2 ^ 32 - 2 ^ 31.

Definition INT_MAX : Z := 2 ^ 31 - 1.

Definition INT_MIN : Z := - 2 ^ 31.

(** ** Automation *)
Create HintDb dcl.
Create Rewrite HintDb dcl.

(** Decide a statement about one byte by trying all 256. *)
Ltac by_bytes c :=
  revert c;
  match goal with
  | |- ∀ c : ascii, @?P c =>
      let H := fresh in
      intros c; destruct c as [[] [] [] [] [] [] [] []]; vm_compute; try done; try congruence
  end.

(** ** Lemmas on bytes *)
Lemma ord_range c : (0 ≤ ord c < 256)%Z.
Proof. unfold ord. pose proof (N_ascii_bounded c). lia. Qed.

Lemma chr_ord c : chr (ord c) = c.
Proof.
  unfold chr. rewrite Z.mod_small by apply ord_range.
  unfold ord. rewrite N2Z.id. apply ascii_N_embedding.
Qed.

Lemma ord_chr z : ord (chr z) = (z mod 256)%Z.
Proof.
  unfold ord, chr. pose proof (Z.mod_pos_bound z 256 eq_refl).
  rewrite N_ascii_embedding by lia. lia.
Qed.

Lemma ord_chr_small z : (0 ≤ z < 256)%Z → ord (chr z) = z.
Proof. intros. rewrite ord_chr. by apply Z.mod_small. Qed.

#[global] Instance ord_inj : Inj (=) (=) ord.
Proof. intros a b H. rewrite <- (chr_ord a), <- (chr_ord b). by f_equal. Qed.

Lemma elem_of_all_bytes c : c ∈ all_bytes.
Proof.
  unfold all_bytes. apply list_elem_of_fmap. exists (nat_of_ascii c).
  split; [symmetry; apply ascii_nat_embedding |].
  apply elem_of_seq. pose proof (nat_ascii_bounded c). lia.
Qed.

(** A boolean property of bytes holds as soon as it evaluates to true on all of them. *)
Lemma all_bytes_forall (p : ascii → bool) : forallb p all_bytes = true → ∀ c, p c = true.
Proof.
  intros H c. rewrite forallb_forall in H. apply H, list_elem_of_In, elem_of_all_bytes.
Qed.

Lemma forallb_Forall {A} (p : A → bool) l : forallb p l = true ↔ Forall (λ x, p x = true) l.
Proof. rewrite forallb_forall, Forall_forall. by setoid_rewrite list_elem_of_In. Qed.

(** ** Lemmas on machine integers *)
Lemma s32_range z : (INT_MIN ≤ s32 z ≤ INT_MAX)%Z.
Proof.
  unfold s32, INT_MIN, INT_MAX.
  pose proof (Z.mod_pos_bound (z + 2 ^ 31) (2 ^ 32) eq_refl). lia.
Qed.

Lemma s32_small z : (INT_MIN ≤ z ≤ INT_MAX)%Z → s32 z = z.
Proof. unfold s32, INT_MIN, INT_MAX. intros. rewrite Z.mod_small; lia. Qed.

Lemma u32_small z : (0 ≤ z < 2 ^ 32)%Z → u32 z = z.
Proof. apply Z.mod_small. Qed.

Lemma u32_range z : (0 ≤ u32 z < 2 ^ 32)%Z.
Proof. by apply Z.mod_pos_bound. Qed.

Lemma u64_small z : (0 ≤ z < 2 ^ 64)%Z → u64 z = z.
Proof. apply Z.mod_small. Qed.

Lemma u64_range z : (0 ≤ u64 z < 2 ^ 64)%Z.
Proof. by apply Z.mod_pos_bound. Qed.

#[export] Hint Resolve ord_range s32_range u32_range u64_range : dcl.

(** ** Lemmas on outcomes *)
Lemma bind_Ret {A B} (m : outcome A) (f : A → outcome B) b :
  m ≫= f = Ret b ↔ ∃ a, m = Ret a ∧ f a = Ret b.
Proof.
  destruct m as [a' | e |]; cbn; (split; [intros H | intros (a & H1 & H2)]); simplify_eq; eauto.
Qed.

Lemma fmap_Ret {A B} (f : A → B) (m : outcome A) b :
  f <$> m = Ret b ↔ ∃ a, m = Ret a ∧ f a = b.
Proof.
  destruct m as [a' | e |]; cbn; (split; [intros H | intros (a & H1 & H2)]); simplify_eq; eauto.
Qed.

Lemma vec_at_nat {A} (v : list A) n x : v !! n = Some x → vec_at v (Z.of_nat n) = Ret x.
Proof.
  intros H. unfold vec_at. destruct (Z.ltb_spec (Z.of_nat n) 0); [lia |]. by rewrite Nat2Z.id, H.
Qed.

Lemma vec_store_middle {A} (l k : list A) y x :
  vec_store (l ++ y :: k) (length l) x = Ret (l ++ x :: k).
Proof.
  unfold vec_store. rewrite length_app. cbn [length].
  destruct (Nat.ltb_spec (length l) (length l + S (length k))); [| lia].
  rewrite insert_app_r_alt by done. by rewrite Nat.sub_diag.
Qed.

Lemma lit_app s1 s2 : lit (s1 +:+ s2) = lit s1 ++ lit s2.
Proof. unfold lit. induction s1 as [| c s1 IH]; [done |].
  exact (f_equal (cons c) IH).
Qed.

(** ** Reasoning on stateful operations *)
Definition wp {S A} (m : stm S A) (s : S) (Q : outcome A → S → Prop) : Prop :=
  let '(o, s') := m s in Q o s'.

Lemma wp_bind {S A B} (m : stm S A) (f : A → stm S B) s Q :
  wp m s (λ o s', match o with
                  | Ret a => wp (f a) s' Q
                  | Throw e => Q (Throw e) s'
                  | Undef => Q Undef s'
                  end) →
  wp (m ≫= f) s Q.
Proof. unfold wp, mbind, stm_bind. destruct (m s) as [[a | e |] s']; done. Qed.

Lemma wp_mono {S A} (m : stm S A) s (Q Q' : outcome A → S → Prop) :
  wp m s Q → (∀ o s', Q o s' → Q' o s') → wp m s Q'.
Proof. unfold wp. destruct (m s). auto. Qed.

Lemma wp_ret {S A} (a : A) s (Q : outcome A → S → Prop) : Q (Ret a) s → wp (mret a) s Q.
Proof. done. Qed.

(** ** Bit operations as arithmetic *)
Lemma lor_shiftl_add a b k :
  (0 ≤ k)%Z → (0 ≤ b < 2 ^ k)%Z → Z.lor (Z.shiftl a k) b = (a * 2 ^ k + b)%Z.
Proof.
  intros Hk Hb. rewrite <- Z.shiftl_mul_pow2 by done.
  symmetry. apply Z.add_nocarry_lor, Z.bits_inj'. intros n Hn.
  rewrite Z.land_spec, Z.bits_0, Z.shiftl_spec by done.
  destruct (Z.lt_ge_cases n k) as [Hlt | Hge]; [by rewrite Z.testbit_neg_r by lia |].
  assert (Z.testbit b n = false) as ->; [| apply andb_false_r].
  destruct (Z.eq_dec b 0) as [-> |]; [apply Z.bits_0 |].
  apply Z.bits_above_log2; [lia |].
  apply Z.log2_lt_pow2; [lia |].
  apply Z.lt_le_trans with (2 ^ k)%Z; [lia | by apply Z.pow_le_mono_r; lia].
Qed.

Lemma land_mask a k : (0 ≤ k)%Z → Z.land a (2 ^ k - 1) = (a mod 2 ^ k)%Z.
Proof. intros. rewrite <- Z.land_ones by done. f_equal. by rewrite Z.ones_equiv, Z.sub_1_r. Qed.

(** [lia] after expanding division and remainder by constants. *)
Ltac div_lia := Z.div_mod_to_equations; lia.
