(* ===== verification/Logger.v ===== *)
(** * [src/include/dcl/logger.h]: the interface of loggers

    A logger is a state with one operation, [log]; the named operations only choose the level.
    The library's loggers are instances: the standard streams here and in [Application], the
    system's log in [DaemonApplication]. *)
From S2P Require Export Prelude.

Inductive log_level := debug | info | notice | warning | error | critical | alert | emergency.

#[global] Instance log_level_eq_dec : EqDecision log_level.
Proof. solve_decision. Defined.

(** The values of the enumeration, those of syslog. *)
Definition level_code (l : log_level) : Z :=
  match l with
  | debug => 7 | info => 6 | notice => 5 | warning => 4
  | error => 3 | critical => 2 | alert => 1 | emergency => 0
  end.

Class Logger (L : Type) := log : log_level → str → L → L.

Section logger.
Context `{Logger L}.

Definition log_debug : str → L → L := log debug.

Definition log_info : str → L → L := log info.

Definition log_notice : str → L → L := log notice.

Definition log_warning : str → L → L := log warning.

Definition log_error : str → L → L := log error.

Definition log_critical : str → L → L := log critical.

Definition log_alert : str → L → L := log alert.

Definition log_emergency : str → L → L := log emergency.
End logger.

(** The loggers of the web applications: a line on the error stream, whatever the level. *)
Definition cerr_log (level : log_level) (message out : str) : str := out ++ message ++ [chr 10].

#[export] Instance cerr_logger : Logger str := cerr_log.

(** The level of a message is its syslog priority, and levels are ordered by it. *)
Lemma level_code_range l : (0 ≤ level_code l ≤ 7)%Z.
Proof. destruct l; cbn; lia. Qed.

#[global] Instance level_code_inj : Inj (=) (=) level_code.
Proof. intros [] []; done. Qed.
