(* ===== verification/Steps.v ===== *)
(** * Step relations: invariants, refinement mappings and bounded progress.

    A component with several threads is a step relation on its states.  The lemmas here carry
    an invariant to every reachable state, a refinement mapping to every execution, and state
    progress along an execution given as the list of its states. *)
From S2P Require Export Prelude.

(** ** Invariants *)
Definition preserved {A} (step : A → A → Prop) (P : A → Prop) : Prop :=
  ∀ s s', step s s' → P s → P s'.

Lemma preserved_rtc {A} (step : A → A → Prop) P s s' :
  preserved step P → rtc step s s' → P s → P s'.
Proof. intros HP Hr. induction Hr; eauto. Qed.

(** ** Refinement mappings

    [abs] maps the states of an implementation to those of a specification so that a step is
    a step of the specification or leaves the specification's state alone. *)
Record refinement {C A} (stepC : C → C → Prop) (inv : C → Prop) (stepA : A → A → Prop)
    (abs : C → A) : Prop := {
  refine_inv : preserved stepC inv;
  refine_step : ∀ c c', inv c → stepC c c' → abs c' = abs c ∨ stepA (abs c) (abs c') }.

Lemma refinement_rtc {C A} (stepC : C → C → Prop) inv (stepA : A → A → Prop) abs c c' :
  refinement stepC inv stepA abs → inv c → rtc stepC c c' → rtc stepA (abs c) (abs c').
Proof.
  intros [Hinv Hstep] Hc Hr. induction Hr as [| c1 c2 c3 H12 _ IH]; [done |].
  specialize (IH (Hinv _ _ H12 Hc)). destruct (Hstep _ _ Hc H12) as [<- | Hs]; [done |].
  by eapply rtc_l.
Qed.

(** Refinements compose. *)
Lemma refinement_trans {C B A} (stepC : C → C → Prop) (invC : C → Prop) (stepB : B → B → Prop)
    (invB : B → Prop) (stepA : A → A → Prop) f g :
  refinement stepC invC stepB f → refinement stepB invB stepA g →
  (∀ c, invC c → invB (f c)) → refinement stepC invC stepA (g ∘ f).
Proof.
  intros [Hi Hf] [_ Hg] Hinv. split; [done |]. intros c c' Hc Hs. cbn.
  destruct (Hf c c' Hc Hs) as [-> | Hb]; [by left |]. apply Hg; auto.
Qed.

(** ** Placement

    A state that keeps things in several lists is mapped to the finite map from each thing to
    its place; a step that adds a thing or moves one is an insertion. *)
Section placement.
Context {P : Type}.
Implicit Types l : list (nat * P).

Lemma placed l l' i a :
  NoDup l'.*1 → l' ≡ₚ (i, a) :: l →
  list_to_map (M := gmap nat P) l' = <[i := a]> (list_to_map l) ∧
  list_to_map (M := gmap nat P) l !! i = None.
Proof.
  intros Hnd Hl. split; [by rewrite (list_to_map_proper _ _ Hnd Hl) |].
  apply not_elem_of_list_to_map. rewrite Hl in Hnd. cbn in Hnd. by apply NoDup_cons in Hnd as [? _].
Qed.

Lemma moved l l' rest i a b :
  NoDup l.*1 → l ≡ₚ (i, a) :: rest → l' ≡ₚ (i, b) :: rest →
  list_to_map (M := gmap nat P) l' = <[i := b]> (list_to_map l) ∧
  list_to_map (M := gmap nat P) l !! i = Some a.
Proof.
  intros Hnd Hl Hl'. assert (NoDup l'.*1) as Hnd' by (rewrite Hl'; by rewrite Hl in Hnd).
  rewrite (list_to_map_proper _ _ Hnd Hl), (list_to_map_proper _ _ Hnd' Hl'). cbn.
  by rewrite insert_insert_eq, lookup_insert_eq.
Qed.

Lemma unmoved l l' :
  NoDup l.*1 → l' ≡ₚ l → list_to_map (M := gmap nat P) l' = list_to_map l.
Proof. intros Hnd Hl. apply list_to_map_proper; [by rewrite Hl | done]. Qed.
End placement.

(** ** Executions

    [exec step s ss]: the states after [s], one step at a time. *)
Inductive exec {A} (step : A → A → Prop) : A → list A → Prop :=
  | exec_nil s : exec step s []
  | exec_cons s s' ss : step s s' → exec step s' ss → exec step s (s' :: ss).

(** How many of the steps of an execution are of a kind. *)
Fixpoint count_steps {A} (kind : A → A → bool) (s : A) (ss : list A) : nat :=
  match ss with
  | [] => 0
  | s' :: ss' => (if kind s s' then 1 else 0) + count_steps kind s' ss'
  end.

Lemma count_all {A} (s : A) ss : count_steps (λ _ _, true) s ss = length ss.
Proof. revert s. induction ss as [| s' ss IH]; intros s; [done |]. cbn. by rewrite IH. Qed.

(** A rank that no step raises and that every step of a kind lowers, until the goal [Q] is
    reached, is used up after as many steps of that kind. *)
Lemma exec_progress {A} (step : A → A → Prop) (inv Q : A → Prop) (kind : A → A → bool)
    (rank : A → nat) s ss :
  (∀ s s', inv s → step s s' → Q s' ∨
     inv s' ∧ rank s' + (if kind s s' then 1 else 0) ≤ rank s) →
  inv s → exec step s ss → rank s < count_steps kind s ss → Exists Q ss.
Proof.
  intros Hstep Hs He. revert Hs. induction He as [s | s s' ss Hss' _ IH]; intros Hs; cbn [count_steps];
    [lia |]. intros Hlt.
  destruct (Hstep s s' Hs Hss') as [HQ | [Hi Hr]]; [by apply Exists_cons_hd |].
  apply Exists_cons_tl, IH; [done |]. lia.
Qed.

Lemma exec_app {A} (step : A → A → Prop) s ss s' ss' :
  exec step s ss → last (s :: ss) = Some s' → exec step s' ss' → exec step s (ss ++ ss').
Proof.
  intros He. induction He as [s | s s1 ss Hs _ IH]; intros Hl He'.
  - by injection Hl as ->.
  - econstructor; [done |]. apply IH; [| done]. by rewrite last_cons_cons in Hl.
Qed.

(** ** Lists of threads

    The threads of a component are the list of their program counters.  *)

(** One thread's move in a list, as a permutation. *)
Lemma insert_perm {A} (l : list A) i x y :
  l !! i = Some x → ∃ k, l ≡ₚ x :: k ∧ <[i := y]> l ≡ₚ y :: k.
Proof.
  intros Hi. exists (take i l ++ drop (S i) l). split.
  - rewrite <- (take_drop_middle l i x Hi) at 1. by rewrite Permutation_middle.
  - rewrite insert_take_drop by by eapply lookup_lt_Some. by rewrite Permutation_middle.
Qed.

Lemma insert_elem {A} (l : list A) i x y z : l !! i = Some x → z ∈ <[i := y]> l → z = y ∨ z ∈ l.
Proof.
  intros Hi (j & Hj)%list_elem_of_lookup. destruct (decide (i = j)) as [<- | Hne].
  - rewrite list_lookup_insert_eq in Hj by by eapply lookup_lt_Some. left. congruence.
  - rewrite list_lookup_insert_ne in Hj by done. right. by eapply list_elem_of_lookup_2.
Qed.

Lemma insert_keeps {A} (l : list A) i x y z : l !! i = Some x → z ≠ x → z ∈ l → z ∈ <[i := y]> l.
Proof.
  intros Hi Hz (j & Hj)%list_elem_of_lookup. destruct (decide (i = j)) as [<- | Hne]; [congruence |].
  apply (list_elem_of_lookup_2 _ j). by rewrite list_lookup_insert_ne.
Qed.

Lemma insert_lookup {A} (l : list A) i x y j z :
  l !! i = Some x → <[i := y]> l !! j = Some z → (j = i ∧ z = y) ∨ (j ≠ i ∧ l !! j = Some z).
Proof.
  intros Hi Hj. destruct (decide (i = j)) as [<- | Hne].
  - rewrite list_lookup_insert_eq in Hj by by eapply lookup_lt_Some. left. split; congruence.
  - rewrite list_lookup_insert_ne in Hj by done. by right.
Qed.

(** ** Tables of descriptors, from numbers to open files *)
Definition dup2 {F} (old new : Z) (m : gmap Z F) : gmap Z F :=
  match m !! old with Some f => <[new := f]> m | None => m end.

Lemma dup2_lookup {F} old new (m : gmap Z F) k :
  is_Some (m !! old) → dup2 old new m !! k = if decide (k = new) then m !! old else m !! k.
Proof.
  intros [f Hf]. unfold dup2. rewrite Hf. destruct (decide (k = new)) as [-> | Hk].
  - by rewrite lookup_insert_eq.
  - by rewrite lookup_insert_ne.
Qed.

Definition close_all {F} (l : list Z) (m : gmap Z F) : gmap Z F := foldl (λ m fd, delete fd m) m l.

Lemma close_all_lookup {F} l (m : gmap Z F) k :
  close_all l m !! k = if decide (k ∈ l) then None else m !! k.
Proof.
  unfold close_all. revert m. induction l as [| fd l IH]; intros m; [done |]. cbn. rewrite IH.
  destruct (decide (k ∈ l)) as [Hk | Hk].
  - by rewrite decide_True by by right.
  - destruct (decide (k = fd)) as [-> | Hne].
    + rewrite decide_True by by left. apply lookup_delete_eq.
    + rewrite lookup_delete_ne by done. by rewrite decide_False by by intros [->|]%elem_of_cons.
Qed.
