(* ===== verification/Sync.v ===== *)
(** * [posix/mutex_impl.cpp], [rwlock_impl.cpp], [semaphore_impl.cpp] and their classes.

    The POSIX calls are the class [Pthread]: each takes the calling thread and the object and
    answers the code and the object afterwards, or nothing when the call blocks.  [MutexLaws],
    [DefaultMutex] and [RwlockLaws] state what the system documents of them (the reader-writer
    locks as long as the maximal number of read locks is not reached, whose code EAGAIN the
    wrappers take for success).  The wrappers translate codes into exceptions; the guards are the
    regions between a constructor and a destructor. *)
From S2P Require Export Steps.

Definition EPERM : Z := 1.

Definition EBUSY : Z := 16.

Definition EINVAL : Z := 22.

Definition EDEADLK : Z := 35.

Class Pthread := {
  mutex_t : Type;
  pthread_mutex_lock : nat → mutex_t → option (Z * mutex_t);
  pthread_mutex_trylock : nat → mutex_t → Z * mutex_t;
  pthread_mutex_unlock : nat → mutex_t → Z * mutex_t;
  rwlock_t : Type;
  pthread_rwlock_rdlock : nat → rwlock_t → option (Z * rwlock_t);
  pthread_rwlock_tryrdlock : nat → rwlock_t → Z * rwlock_t;
  pthread_rwlock_wrlock : nat → rwlock_t → option (Z * rwlock_t);
  pthread_rwlock_trywrlock : nat → rwlock_t → Z * rwlock_t;
  pthread_rwlock_unlock : nat → rwlock_t → Z * rwlock_t;
  sem_t : Type;
  sem_wait : sem_t → option (Z * sem_t);
  sem_trywait : sem_t → Z * sem_t;
  sem_post : sem_t → sem_t }.

(** ** The wrappers *)
Section wrappers.
Context `{Pthread}.

Definition throw_code {A} (c : exn_class) (msg : string) : outcome A := Throw (Exn c (lit msg)).

Definition mutex_invalid {A} : outcome A :=
  throw_code mutex_exception "the mutex has not been properly initialized".

(** [mutex_impl::enter]; [None] while it blocks. *)
Definition enter (t : nat) (m : mutex_t) : option (outcome unit * mutex_t) :=
  '(r, m') ← pthread_mutex_lock t m;
  Some (if (r =? EDEADLK)%Z
        then throw_code mutex_exception "the mutex is already locked by the calling thread"
        else if (r =? EINVAL)%Z then mutex_invalid
        else Ret (), m').

Definition try_enter (t : nat) (m : mutex_t) : outcome bool * mutex_t :=
  let '(r, m') := pthread_mutex_trylock t m in
  (if (r =? EBUSY)%Z then Ret true
   else if (r =? EINVAL)%Z then mutex_invalid
   else Ret false, m').

Definition leave (t : nat) (m : mutex_t) : outcome unit * mutex_t :=
  let '(r, m') := pthread_mutex_unlock t m in
  (if (r =? EPERM)%Z then throw_code mutex_exception "the calling thread does not own the mutex"
   else if (r =? EINVAL)%Z then mutex_invalid
   else Ret (), m').

Definition rwlock_invalid {A} : outcome A :=
  throw_code rwlock_exception "the rwlock has not been properly initialized".

(** The codes of the blocking calls, of the trying ones and of unlock. *)
Definition rwlock_entered (r : Z) : outcome unit :=
  if (r =? EDEADLK)%Z
  then throw_code rwlock_exception "the rwlock is already locked by the calling thread"
  else if (r =? EINVAL)%Z then rwlock_invalid
  else Ret ().

Definition rwlock_tried (r : Z) : outcome bool :=
  if (r =? EBUSY)%Z then Ret true
  else if (r =? EINVAL)%Z then rwlock_invalid
  else Ret false.

Definition rwlock_left (r : Z) : outcome unit :=
  if (r =? EPERM)%Z then throw_code rwlock_exception "the calling thread does not own the rwlock"
  else if (r =? EINVAL)%Z then rwlock_invalid
  else Ret ().

Definition enter_read (t : nat) (l : rwlock_t) : option (outcome unit * rwlock_t) :=
  '(r, l') ← pthread_rwlock_rdlock t l; Some (rwlock_entered r, l').

Definition try_enter_read (t : nat) (l : rwlock_t) : outcome bool * rwlock_t :=
  let '(r, l') := pthread_rwlock_tryrdlock t l in (rwlock_tried r, l').

Definition leave_read (t : nat) (l : rwlock_t) : outcome unit * rwlock_t :=
  let '(r, l') := pthread_rwlock_unlock t l in (rwlock_left r, l').

Definition enter_write (t : nat) (l : rwlock_t) : option (outcome unit * rwlock_t) :=
  '(r, l') ← pthread_rwlock_wrlock t l; Some (rwlock_entered r, l').

Definition try_enter_write (t : nat) (l : rwlock_t) : outcome bool * rwlock_t :=
  let '(r, l') := pthread_rwlock_trywrlock t l in (rwlock_tried r, l').

Definition leave_write (t : nat) (l : rwlock_t) : outcome unit * rwlock_t :=
  let '(r, l') := pthread_rwlock_unlock t l in (rwlock_left r, l').

(** [semaphore_impl::lock]: again while [sem_wait] fails; [None] while it blocks or when it
    fails [fuel] times. *)
Fixpoint sem_lock (fuel : nat) (s : sem_t) : option sem_t :=
  match fuel with
  | O => None
  | S f => '(r, s') ← sem_wait s; if (r =? 0)%Z then Some s' else sem_lock f s'
  end.

Definition sem_trylock_impl (s : sem_t) : bool * sem_t :=
  let '(r, s') := sem_trywait s in ((r =? 0)%Z, s').

(** [semaphore::trylock] calls the implementation and ends without a return statement. *)
Definition sem_trylock (s : sem_t) : outcome bool * sem_t := (Undef, snd (sem_trylock_impl s)).

Definition sem_unlock (s : sem_t) : sem_t := sem_post s.
End wrappers.

(** ** [atomic_counter.h]: a counter that threads increment and decrement, each in one step *)
Definition atomic_counter := Z.

Definition counter_new (value : Z) : atomic_counter := value.

Definition counter_inc (c : atomic_counter) : atomic_counter := s32 (c + 1).

Definition counter_dec (c : atomic_counter) : atomic_counter := s32 (c - 1).

(** ** What the system documents *)
Class MutexLaws `{Pthread} := {
  owner : mutex_t → option nat;
  lock_law : ∀ t m r m', pthread_mutex_lock t m = Some (r, m') →
    (r = 0%Z ∧ owner m = None ∧ owner m' = Some t) ∨
    ((r = EDEADLK ∨ r = EINVAL) ∧ owner m' = owner m);
  trylock_law : ∀ t m, let '(r, m') := pthread_mutex_trylock t m in
    (r = 0%Z ∧ owner m = None ∧ owner m' = Some t) ∨
    ((r = EBUSY ∨ r = EINVAL) ∧ owner m' = owner m);
  unlock_law : ∀ t m, owner m = Some t → let '(r, m') := pthread_mutex_unlock t m in
    r = 0%Z ∧ owner m' = None }.

(** An initialised mutex of the default kind: locking it answers no error, and blocks only
    while a thread owns it. *)
Class DefaultMutex `{MutexLaws} := {
  lock_default : ∀ t m r m', pthread_mutex_lock t m = Some (r, m') → r = 0%Z;
  lock_free : ∀ t m, owner m = None → ∃ m', pthread_mutex_lock t m = Some (0%Z, m') }.

(** Who is in a reader-writer lock: the threads reading, or the one writing. *)
Class RwlockLaws `{Pthread} := {
  readers : rwlock_t → list nat;
  writer : rwlock_t → option nat;
  rdlock_law : ∀ t l r l', pthread_rwlock_rdlock t l = Some (r, l') →
    (r = 0%Z ∧ writer l = None ∧ writer l' = None ∧ readers l' ≡ₚ t :: readers l) ∨
    ((r = EDEADLK ∨ r = EINVAL) ∧ writer l' = writer l ∧ readers l' = readers l);
  tryrdlock_law : ∀ t l, let '(r, l') := pthread_rwlock_tryrdlock t l in
    (r = 0%Z ∧ writer l = None ∧ writer l' = None ∧ readers l' ≡ₚ t :: readers l) ∨
    ((r = EBUSY ∨ r = EINVAL) ∧ writer l' = writer l ∧ readers l' = readers l);
  wrlock_law : ∀ t l r l', pthread_rwlock_wrlock t l = Some (r, l') →
    (r = 0%Z ∧ writer l = None ∧ readers l = [] ∧ writer l' = Some t ∧ readers l' = []) ∨
    ((r = EDEADLK ∨ r = EINVAL) ∧ writer l' = writer l ∧ readers l' = readers l);
  trywrlock_law : ∀ t l, let '(r, l') := pthread_rwlock_trywrlock t l in
    (r = 0%Z ∧ writer l = None ∧ readers l = [] ∧ writer l' = Some t ∧ readers l' = []) ∨
    ((r = EBUSY ∨ r = EINVAL) ∧ writer l' = writer l ∧ readers l' = readers l);
  runlock_law : ∀ t l, writer l = None → t ∈ readers l →
    let '(r, l') := pthread_rwlock_unlock t l in
    r = 0%Z ∧ writer l' = None ∧ readers l ≡ₚ t :: readers l';
  wunlock_law : ∀ t l, writer l = Some t →
    let '(r, l') := pthread_rwlock_unlock t l in
    r = 0%Z ∧ writer l' = None ∧ readers l' = readers l }.

(** ** Regions under a guard *)

(** Threads in and out of regions with a [mutex_guard], whose constructor calls [enter] and
    whose destructor [leave]; a thread whose [enter] throws stays outside. *)
Record guarded `{Pthread} := Guarded { mx : mutex_t; inside : list nat }.
Arguments Guarded {_} mx inside.

Inductive guard_step `{Pthread} (s : guarded) : guarded → Prop :=
  | guard_enter t m : enter t (mx s) = Some (Ret (), m) → guard_step s (Guarded m (t :: inside s))
  | guard_refused t e m : enter t (mx s) = Some (Throw e, m) → guard_step s (Guarded m (inside s))
  | guard_leave l1 t l2 o m :
      inside s = l1 ++ t :: l2 → leave t (mx s) = (o, m) → guard_step s (Guarded m (l1 ++ l2)).

Record shared `{Pthread} := Shared { rw : rwlock_t; reading : list nat; writing : list nat }.
Arguments Shared {_} rw reading writing.

Inductive share_step `{Pthread} (s : shared) : shared → Prop :=
  | share_read t l :
      enter_read t (rw s) = Some (Ret (), l) → share_step s (Shared l (t :: reading s) (writing s))
  | share_write t l :
      enter_write t (rw s) = Some (Ret (), l) → share_step s (Shared l (reading s) (t :: writing s))
  | share_refused t e l :
      enter_read t (rw s) = Some (Throw e, l) ∨ enter_write t (rw s) = Some (Throw e, l) →
      share_step s (Shared l (reading s) (writing s))
  | share_read_end l1 t l2 o l :
      reading s = l1 ++ t :: l2 → leave_read t (rw s) = (o, l) →
      share_step s (Shared l (l1 ++ l2) (writing s))
  | share_write_end l1 t l2 o l :
      writing s = l1 ++ t :: l2 → leave_write t (rw s) = (o, l) →
      share_step s (Shared l (reading s) (l1 ++ l2)).

(** ** Lemmas *)

(** However the threads interleave, the counter is the sum, in the width of an [int]. *)
Lemma counter_interleaved c (ops : list bool) :
  (INT_MIN ≤ c ≤ INT_MAX)%Z →
  foldl (λ c (up : bool), if up then counter_inc c else counter_dec c) c ops
  = s32 (c + Z.of_nat (length (List.filter (λ up : bool, up) ops)) - Z.of_nat (length (List.filter negb ops))).
Proof.
  assert (∀ x y, s32 (s32 x + y) = s32 (x + y)) as Hs.
  { intros x y. unfold s32. f_equal.
    replace ((x + 2 ^ 31) mod 2 ^ 32 - 2 ^ 31 + y + 2 ^ 31)%Z with ((x + 2 ^ 31) mod 2 ^ 32 + y)%Z by lia.
    rewrite Zplus_mod_idemp_l. f_equal. lia. }
  intros Hc. rewrite <- (s32_small c Hc) at 1. clear Hc. revert c. induction ops as [| [] ops IH]; intros c.
  - cbn. f_equal. lia.
  - cbn [foldl List.filter negb length]. unfold counter_inc at 2. rewrite Hs, IH. f_equal. lia.
  - cbn [foldl List.filter negb length]. unfold counter_dec at 2. unfold Z.sub at 1. rewrite Hs, IH. f_equal. lia.
Qed.

Section mutex.
Context `{MutexLaws}.

Lemma enter_spec t m o m' :
  enter t m = Some (o, m') →
  (o = Ret () ∧ owner m = None ∧ owner m' = Some t) ∨ ((∃ e, o = Throw e) ∧ owner m' = owner m).
Proof.
  unfold enter. destruct (pthread_mutex_lock t m) as [[r m1] |] eqn:E; [| done].
  cbn. intros [= <- <-]. destruct (lock_law _ _ _ _ E) as [(-> & Hn & Ho) | ([-> | ->] & Ho)]; eauto.
Qed.

Lemma leave_spec t m o m' :
  owner m = Some t → leave t m = (o, m') → o = Ret () ∧ owner m' = None.
Proof.
  intros Hm. unfold leave. pose proof (unlock_law t m Hm) as Hl.
  destruct (pthread_mutex_unlock t m) as [r m1]. destruct Hl as [-> Ho]. by intros [= <- <-].
Qed.

Lemma enter_default `{!DefaultMutex} t m o m' :
  enter t m = Some (o, m') → o = Ret () ∧ owner m = None ∧ owner m' = Some t.
Proof.
  intros He. destruct (enter_spec _ _ _ _ He) as [? | [[e ->] _]]; [done |]. unfold enter in He.
  destruct (pthread_mutex_lock t m) as [[r m1] |] eqn:E; [| done].
  by rewrite (lock_default _ _ _ _ E) in He.
Qed.

Lemma enter_free `{!DefaultMutex} t m : owner m = None → ∃ m', enter t m = Some (Ret (), m').
Proof. intros Hm. destruct (lock_free t m Hm) as [m' E]. exists m'. unfold enter. by rewrite E. Qed.

Definition one_inside (s : guarded) : Prop :=
  inside s = match owner (mx s) with Some t => [t] | None => [] end.

Lemma guard_preserved : preserved guard_step one_inside.
Proof.
  intros s s' Hs Hi. unfold one_inside in *.
  destruct Hs as [t m He | t e m He | l1 t l2 o m Hin Hl]; cbn [mx inside].
  - destruct (enter_spec _ _ _ _ He) as [(_ & Hn & ->) | [[? [=]] _]]. by rewrite Hi, Hn.
  - destruct (enter_spec _ _ _ _ He) as [([=] & _) | [_ ->]]. done.
  - rewrite Hi in Hin. destruct (owner (mx s)) as [t' |] eqn:E; [| by destruct l1].
    destruct l1 as [| ? [|]]; [| done..]. injection Hin as -> <-.
    by destruct (leave_spec _ _ _ _ E Hl) as [_ ->].
Qed.
End mutex.

(** ** Threads over one mutex

    [region p] tells whether a thread whose program counter is [p] is between the constructor
    and the destructor of a guard. *)
Section locked.
Context `{DefaultMutex} {P : Type} (region : P → bool).
Implicit Types l : list P.

(** The mutex is owned by the thread that is inside a region. *)
Definition locked (m : mutex_t) (l : list P) : Prop :=
  ∀ t, owner m = Some t ↔ from_option region false (l !! t) = true.

Lemma locked_acquire m m' l t p p' :
  locked m l → l !! t = Some p → region p' = true → enter t m = Some (Ret (), m') →
  locked m' (<[t := p']> l).
Proof.
  intros Hl Ht Hp (_ & Hn & Ho)%enter_default u. destruct (decide (t = u)) as [<- | Hne].
  - rewrite list_lookup_insert_eq by by eapply lookup_lt_Some. by rewrite Ho.
  - rewrite list_lookup_insert_ne, <- (Hl u), Hn, Ho by done. split; congruence.
Qed.

Lemma locked_release m m' l t p p' o :
  locked m l → l !! t = Some p → region p = true → region p' = false →
  leave t m = (o, m') → locked m' (<[t := p']> l).
Proof.
  intros Hl Ht Hp Hp' Hlv u.
  assert (owner m = Some t) as Hm by (apply Hl; by rewrite Ht).
  destruct (leave_spec _ _ _ _ Hm Hlv) as [_ Hn]. destruct (decide (t = u)) as [<- | Hne].
  - rewrite list_lookup_insert_eq by by eapply lookup_lt_Some. cbn. by rewrite Hn, Hp'.
  - rewrite list_lookup_insert_ne, <- (Hl u), Hn, Hm by done. split; congruence.
Qed.

Lemma locked_same m l t p p' :
  locked m l → l !! t = Some p → region p' = region p → locked m (<[t := p']> l).
Proof.
  intros Hl Ht Hp u. rewrite (Hl u). destruct (decide (t = u)) as [<- | Hne].
  - rewrite list_lookup_insert_eq, Ht by by eapply lookup_lt_Some. cbn. by rewrite Hp.
  - by rewrite list_lookup_insert_ne.
Qed.

Lemma locked_exclusive m l t u p q :
  locked m l → l !! t = Some p → l !! u = Some q → region p = true → region q = true → t = u.
Proof.
  intros Hl Ht Hu Hp Hq. cut (Some t = Some u); [congruence |].
  assert (owner m = Some t) as <- by (apply Hl; by rewrite Ht). apply Hl. by rewrite Hu.
Qed.
End locked.

Section rwlock.
Context `{RwlockLaws}.

Definition shared_ok (s : shared) : Prop :=
  reading s ≡ₚ readers (rw s) ∧
  writing s = match writer (rw s) with Some t => [t] | None => [] end ∧
  (writer (rw s) ≠ None → readers (rw s) = []).

Lemma share_preserved : preserved share_step shared_ok.
Proof.
  intros s s' Hs (Hr & Hw & Hx). unfold shared_ok.
  destruct Hs as [t l He | t l He | t e l He | l1 t l2 o l Hin Hl | l1 t l2 o l Hin Hl];
    cbn [rw reading writing].
  - unfold enter_read in He. destruct (pthread_rwlock_rdlock t (rw s)) as [[r l'] |] eqn:E; [| done].
    cbn in He. injection He as Ho ->.
    destruct (rdlock_law _ _ _ _ E) as [(-> & Hn & -> & Hp) | ([-> | ->] & _)]; [| done..].
    rewrite Hn in Hw. split_and!; [by rewrite Hp, Hr | done | done].
  - unfold enter_write in He. destruct (pthread_rwlock_wrlock t (rw s)) as [[r l'] |] eqn:E; [| done].
    cbn in He. injection He as Ho ->.
    destruct (wrlock_law _ _ _ _ E) as [(-> & Hn & Hnr & -> & ->) | ([-> | ->] & _)]; [| done..].
    rewrite Hn in Hw. rewrite Hnr in Hr. by rewrite Hw.
  - assert (writer l = writer (rw s) ∧ readers l = readers (rw s)) as [-> ->]; [| done].
    destruct He as [He | He]; unfold enter_read, enter_write in He;
      [destruct (pthread_rwlock_rdlock t (rw s)) as [[r l'] |] eqn:E
      | destruct (pthread_rwlock_wrlock t (rw s)) as [[r l'] |] eqn:E]; try done;
      cbn in He; injection He as Ho ->.
    + destruct (rdlock_law _ _ _ _ E) as [(-> & _) | (_ & ? & ?)]; [by vm_compute in Ho | done].
    + destruct (wrlock_law _ _ _ _ E) as [(-> & _) | (_ & ? & ?)]; [by vm_compute in Ho | done].
  - assert (t ∈ readers (rw s)) as Ht by (rewrite <- Hr, Hin; set_solver).
    assert (writer (rw s) = None) as Hn.
    { destruct (writer (rw s)); [| done]. rewrite Hx in Ht by done. by apply not_elem_of_nil in Ht. }
    unfold leave_read in Hl. pose proof (runlock_law t (rw s) Hn Ht) as Hu.
    destruct (pthread_rwlock_unlock t (rw s)) as [r l']. destruct Hu as (-> & Hn' & Hp).
    injection Hl as <- <-. rewrite Hn', Hw, Hn. split_and!; [| done..].
    apply (Permutation_cons_inv (a := t)). rewrite <- Hp, <- Hr, Hin. solve_Permutation.
  - rewrite Hw in Hin. destruct (writer (rw s)) as [t' |] eqn:E; [| by destruct l1].
    destruct l1 as [| ? [|]]; [| done..]. injection Hin as -> <-.
    unfold leave_write in Hl. pose proof (wunlock_law t (rw s) E) as Hu.
    destruct (pthread_rwlock_unlock t (rw s)) as [r l']. destruct Hu as (-> & Hn & Hp).
    injection Hl as <- <-. by rewrite Hn, Hp.
Qed.
End rwlock.

(** ** Properties *)

(** At most one thread is between the constructor and the destructor of a [mutex_guard] on
    the same mutex, its destructor never throws, and no thread that got the exception of
    [enter] is inside. *)
Theorem mutex_guard_exclusive `{MutexLaws} s s' :
  one_inside s → rtc guard_step s s' →
  length (inside s') ≤ 1 ∧ ∀ t, t ∈ inside s' → fst (leave t (mx s')) = Ret ().
Proof.
  intros Hi Hr. apply (preserved_rtc _ _ _ _ guard_preserved Hr) in Hi. unfold one_inside in Hi.
  rewrite Hi. destruct (owner (mx s')) as [u |] eqn:E; (split; [cbn; lia |]).
  - intros t ->%list_elem_of_singleton. destruct (leave u (mx s')) as [o m] eqn:El.
    by destruct (leave_spec _ _ _ _ E El).
  - by intros t ?%not_elem_of_nil.
Qed.

(** Under [rwlock_guard_write] a thread is alone: at most one thread writes, and none
    reads while it does. *)
Theorem rwlock_guard_exclusive `{RwlockLaws} s s' :
  shared_ok s → rtc share_step s s' →
  length (writing s') ≤ 1 ∧ (writing s' ≠ [] → reading s' = []).
Proof.
  intros Hi Hr. apply (preserved_rtc _ _ _ _ share_preserved Hr) in Hi as (Hrd & Hw & Hx).
  rewrite Hw. destruct (writer (rw s')) as [u |] eqn:E; cbn; (split; [lia |]); [| done].
  intros _. apply Permutation_nil_r. by rewrite Hrd, Hx.
Qed.

(** [try_enter] answers the opposite of what its documentation says: true when the
    mutex is taken already and is not entered, false exactly when it was entered; only an
    uninitialised mutex makes it throw. *)
Theorem try_enter_inverted `{MutexLaws} t m :
  let '(o, m') := try_enter t m in
  (o = Ret false ∧ owner m = None ∧ owner m' = Some t) ∨
  (o = Ret true ∧ owner m' = owner m) ∨ (o = mutex_invalid ∧ owner m' = owner m).
Proof.
  unfold try_enter. pose proof (trylock_law t m) as Hl.
  destruct (pthread_mutex_trylock t m) as [r m']. destruct Hl as [(-> & Hn & Ho) | ([-> | ->] & Ho)]; auto.
Qed.

(** ** Witnesses: a mutex that knows its owner and a lock that knows who is inside *)
#[global] Instance owned_locks : Pthread := {|
  mutex_t := option nat;
  pthread_mutex_lock t m := match m with None => Some (0%Z, Some t) | Some _ => None end;
  pthread_mutex_trylock t m := match m with None => (0%Z, Some t) | Some _ => (EBUSY, m) end;
  pthread_mutex_unlock t m := if decide (m = Some t) then (0%Z, None) else (EPERM, m);
  rwlock_t := list nat * option nat;
  pthread_rwlock_rdlock t l := match l.2 with None => Some (0%Z, (t :: l.1, None)) | Some _ => None end;
  pthread_rwlock_tryrdlock t l := match l.2 with None => (0%Z, (t :: l.1, None)) | Some _ => (EBUSY, l) end;
  pthread_rwlock_wrlock t l := match l with ([], None) => Some (0%Z, ([], Some t)) | _ => None end;
  pthread_rwlock_trywrlock t l := match l with ([], None) => (0%Z, ([], Some t)) | _ => (EBUSY, l) end;
  pthread_rwlock_unlock t l :=
    match l.2 with
    | Some u => if decide (u = t) then (0%Z, (l.1, None)) else (EPERM, l)
    | None => match list_find (eq t) l.1 with
              | Some (i, _) => (0%Z, (delete i l.1, None))
              | None => (EPERM, l)
              end
    end;
  sem_t := nat;
  sem_wait n := match n with O => None | S n' => Some (0%Z, n') end;
  sem_trywait n := match n with O => ((-1)%Z, O) | S n' => (0%Z, n') end;
  sem_post := S |}.

#[global] Instance owned_mutex_laws : MutexLaws (H := owned_locks).
Proof.
  refine (@Build_MutexLaws owned_locks (λ m, m) _ _ _).
  - intros t [u |] r m'; [done |]. intros [= <- <-]. by left.
  - intros t [u |]; [right | left]; cbn; auto.
  - intros t m ->. cbn. by rewrite decide_True.
Defined.

#[global] Instance owned_default : DefaultMutex (H := owned_locks).
Proof. split; [by intros t [u |] r m' [= <- <-] |]. intros t m Hm. cbn in *. subst. by eexists. Qed.

#[global] Instance owned_rwlock_laws : RwlockLaws (H := owned_locks).
Proof.
  refine (@Build_RwlockLaws owned_locks fst snd _ _ _ _ _ _).
  - intros t [l [u |]] r l'; [done |]. intros [= <- <-]. by left.
  - intros t [l [u |]]; [right | left]; cbn; auto.
  - intros t [[| v l] [u |]] r l'; try done. intros [= <- <-]. by left.
  - intros t [[| v l] [u |]]; cbn; (try by right; auto); by left.
  - intros t [l w] Hw Ht. cbn in *. subst w.
    destruct (list_find (eq t) l) as [[i x] |] eqn:E.
    + apply list_find_Some in E as (Hi & <- & _). cbn. split_and!; [done.. |].
      by apply delete_Permutation.
    + exfalso. apply list_find_None in E. rewrite Forall_forall in E. by apply (E t).
  - intros t [l w] Hw. cbn in *. subst w. by rewrite decide_True.
Defined.

Definition nobody : guarded := @Guarded owned_locks None [].

Definition one_thread : guarded := @Guarded owned_locks (Some 1) [1].

Lemma mutex_guard_exclusive_witness :
  rtc guard_step nobody one_thread ∧ fst (leave 1 (mx one_thread)) = Ret ().
Proof.
  assert (rtc guard_step nobody one_thread) as Hr
    by (apply rtc_once; exact (guard_enter nobody 1 (Some 1) eq_refl)).
  split; [exact Hr |].
  exact (proj2 (mutex_guard_exclusive nobody one_thread eq_refl Hr) 1
    (proj2 (list_elem_of_singleton 1 1) eq_refl)).
Defined.

Definition unshared : shared := @Shared owned_locks ([], None) [] [].

Definition one_reader : shared := @Shared owned_locks ([1], None) [1] [].

Definition two_readers : shared := @Shared owned_locks ([2; 1], None) [2; 1] [].

(** Two threads read together. *)
Lemma rwlock_guard_exclusive_witness :
  rtc share_step unshared two_readers ∧ length (writing two_readers) ≤ 1.
Proof.
  assert (rtc share_step unshared two_readers) as Hr.
  { eapply rtc_l; [exact (share_read unshared 1 ([1], None) eq_refl) |]. apply rtc_once.
    exact (share_read one_reader 2 ([2; 1], None) eq_refl). }
  split; [exact Hr |].
  assert (shared_ok unshared) as Ho by (split_and!; reflexivity).
  exact (proj1 (rwlock_guard_exclusive unshared two_readers Ho Hr)).
Defined.
