(* ===== verification/Singleton.v ===== *)
(** * [include/dcl/singleton.h]: one object, created when it is first asked for.

    [instance] tests the pointer, and only when it is null enters the mutex, tests again and
    constructs.  The first test, and the last use of the pointer, are outside the mutex, and the
    pointer is no atomic: a read and a write of it by two threads that nothing orders are a data
    race, and the behaviour of the program is undefined.  So the model keeps the accesses and what
    each thread knows of them (the accesses that happen before its next action: its own ones,
    those the last holder of the mutex knew when it left, and those that the program orders
    before it by other means, such as the start of a thread); a step that races ends in
    [Undefined].  Without a race the reads and writes of the pointer have one order.  The
    constructor of the client's class may throw. *)
From S2P Require Export Sync.

(** Where a thread is in [instance]: in [SCheck] to [SThrown] it has the mutex.  [SGot] and
    [SFailed] are after the call, [SUndef] is the use of a null pointer. *)
Inductive spc :=
  | SIdle | STest | SEnter | SCheck | SNew | SReset (i : nat) | SDone | SThrown (e : exn)
  | SDeref | SGot (i : nat) | SFailed (e : exn) | SUndef.

Definition in_guard (p : spc) : bool :=
  match p with SCheck | SNew | SReset _ | SDone | SThrown _ => true | _ => false end.

(** No call is in progress. *)
Definition between_calls (p : spc) : bool :=
  match p with SIdle | SGot _ | SFailed _ => true | _ => false end.

(** Whether the next action of a thread accesses the pointer, and whether it writes it. *)
Definition accesses (p : spc) : option bool :=
  match p with STest | SCheck | SDeref => Some false | SReset _ => Some true | _ => None end.

Section singleton.
Context `{Pthread} {S : Type}.
(** [new T()] in a state of the program. *)
Context (construct : S → S * outcome unit).

(** The static members, the objects ever constructed and deleted; and the accesses to the
    pointer, by thread and kind, which threads know which of them, and those the mutex hands on. *)
Record singleton := Single {
  cs : mutex_t;
  instance : option nat;
  built : list nat;
  deleted : list nat;
  prog : S;
  callers : list spc;
  log : list (nat * bool);
  facts : list (nat * nat);
  left : list nat }.

(** The accesses that thread [t] knows. *)
Definition known (s : singleton) (t : nat) : list nat :=
  omap (λ '(u, j), if decide (u = t) then Some j else None) (facts s).

(** What threads find when they come to [instance]; a rule of the program on the calls. *)
Context (may_call : singleton → nat → Prop).

Definition singleton_new (m : mutex_t) (st : S) (n : nat) : singleton :=
  Single m None [] [] st (replicate n SIdle) [] [] [].

(** An access of thread [t] races with one of another thread that it does not know, if one of the
    two is a write. *)
Definition races (s : singleton) (t : nat) (w : bool) : bool :=
  existsb (λ '(j, (u, w')), negb (u =? t)%nat && (w || w') && negb (bool_decide (j ∈ known s t)))
    (imap pair (log s)).

(** The thread [t] goes to [p], and accesses the pointer, enters or leaves the mutex. *)
Definition go (t : nat) (p : spc) (s : singleton) : singleton :=
  Single (cs s) (instance s) (built s) (deleted s) (prog s) (<[t := p]> (callers s)) (log s) (facts s) (left s).

Definition learn (t : nat) (k : list nat) (s : singleton) : singleton :=
  Single (cs s) (instance s) (built s) (deleted s) (prog s) (callers s) (log s)
    (facts s ++ (pair t <$> k)) (left s).

Definition access (t : nat) (w : bool) (s : singleton) : singleton :=
  learn t [length (log s)]
    (Single (cs s) (instance s) (built s) (deleted s) (prog s) (callers s) (log s ++ [(t, w)]) (facts s) (left s)).

Definition entered (t : nat) (m : mutex_t) (s : singleton) : singleton :=
  learn t (left s)
    (Single m (instance s) (built s) (deleted s) (prog s) (callers s) (log s) (facts s) (left s)).

Definition exited (t : nat) (m : mutex_t) (s : singleton) : singleton :=
  Single m (instance s) (built s) (deleted s) (prog s) (callers s) (log s) (facts s) (known s t).

Definition constructed (st : S) (objs : list nat) (s : singleton) : singleton :=
  Single (cs s) (instance s) (built s ++ objs) (deleted s) st (callers s) (log s) (facts s) (left s).

(** [_instance.reset(i)] deletes the object it had. *)
Definition reset (i : nat) (s : singleton) : singleton :=
  Single (cs s) (Some i) (built s) (deleted s ++ option_list (instance s)) (prog s) (callers s)
    (log s) (facts s) (left s).

(** The reads of the pointer, which is [s]. *)
Definition test (s : option nat) (p : spc) : option spc :=
  match p with
  | STest => Some (match s with None => SEnter | Some _ => SDeref end)
  | SCheck => Some (match s with None => SNew | Some _ => SDone end)
  | SDeref => Some (match s with None => SUndef | Some i => SGot i end)
  | _ => None
  end.

(** The destructor of the guard. *)
Definition exits (p : spc) : option spc :=
  match p with SDone => Some SDeref | SThrown e => Some (SFailed e) | _ => None end.

Inductive result := Running (s : singleton) | Undefined.

Inductive single_step (s : singleton) : result → Prop :=
  | s_call t p :
      callers s !! t = Some p → between_calls p = true → may_call s t →
      single_step s (Running (go t STest s))
  | s_test t p p' :
      callers s !! t = Some p → test (instance s) p = Some p' → races s t false = false →
      single_step s (Running (go t p' (access t false s)))
  | s_enter t m :
      callers s !! t = Some SEnter → enter t (cs s) = Some (Ret (), m) →
      single_step s (Running (go t SCheck (entered t m s)))
  | s_new t st :
      callers s !! t = Some SNew → construct (prog s) = (st, Ret ()) →
      let i := length (built s) in
      single_step s (Running (go t (SReset i) (constructed st [i] s)))
  | s_throw t st e :
      callers s !! t = Some SNew → construct (prog s) = (st, Throw e) →
      single_step s (Running (go t (SThrown e) (constructed st [] s)))
  | s_reset t i :
      callers s !! t = Some (SReset i) → races s t true = false →
      single_step s (Running (go t SDone (reset i (access t true s))))
  | s_leave t p p' o m :
      callers s !! t = Some p → exits p = Some p' → leave t (cs s) = (o, m) →
      single_step s (Running (go t p' (exited t m s)))
  (* the program orders what thread [t] did before what thread [u] will do *)
  | s_order t u p q :
      callers s !! t = Some p → callers s !! u = Some q → between_calls p = true → between_calls q = true →
      single_step s (Running (learn u (known s t) s))
  | s_race t p w :
      callers s !! t = Some p → accesses p = Some w → races s t w = true → single_step s Undefined.

(** The steps of defined behaviour. *)
Definition runs (s s' : singleton) : Prop := single_step s (Running s').
End singleton.
Arguments Single {_ _} cs instance built deleted prog callers log facts left.
Arguments Running {_ _} s.
Arguments Undefined {_ _}.

(** A program without a rule on its calls; and one in which a thread calls [instance] only after
    all it has to know: the write of the pointer, or, as long as there was none, all that was
    done, with no call in progress. *)
Definition any_call `{Pthread} {S} (s : singleton (S := S)) (t : nat) : Prop := True.

Definition ordered_call `{Pthread} {S} (s : singleton (S := S)) (t : nat) : Prop :=
  match instance s with
  | Some _ => ∀ j u, log s !! j = Some (u, true) → j ∈ known s t
  | None => (∀ u p, callers s !! u = Some p → between_calls p = true) ∧ ∀ j, j < length (log s) → j ∈ known s t
  end.

(** ** The invariant *)
Section invariant.
Context `{DefaultMutex} {S : Type} (construct : S → S * outcome unit).
Context (may_call : singleton (S := S) → nat → Prop).
Implicit Types s : singleton (S := S).

(** What a thread's place tells of the pointer and of the objects. *)
Definition sees (inst : option nat) (objs : list nat) (p : spc) : Prop :=
  match p with
  | SNew => inst = None ∧ objs = []
  | SReset i => inst = None ∧ objs = [i]
  | SDone | SDeref => is_Some inst
  | SGot i => inst = Some i
  | SUndef => False
  | _ => True
  end.

Record single_ok s : Prop := {
  so_lock : locked in_guard (cs s) (callers s);
  so_sees : ∀ t p, callers s !! t = Some p → sees (instance s) (built s) p;
  so_built : match instance s with
             | Some i => built s = [i]
             | None => built s = [] ∨ ∃ t i, callers s !! t = Some (SReset i)
             end;
  so_kept : deleted s = [] }.

Lemma sees_insert inst objs (l : list spc) t p p' :
  (∀ u q, l !! u = Some q → sees inst objs q) → l !! t = Some p → sees inst objs p' →
  ∀ u q, <[t := p']> l !! u = Some q → sees inst objs q.
Proof. intros Hs Ht Hp u q [[-> ->] | [_ ?]]%(insert_lookup _ _ _ _ _ _ Ht); eauto. Qed.

(** A step of a thread that is not constructing leaves pointer and objects alone; the accesses do
    not matter. *)
Lemma single_ok_move s s' t p p' :
  single_ok s → callers s !! t = Some p → (∀ i, p ≠ SReset i) →
  sees (instance s) (built s) p' → locked in_guard (cs s') (<[t := p']> (callers s)) →
  instance s' = instance s → built s' = built s → deleted s' = deleted s → callers s' = <[t := p']> (callers s) →
  single_ok s'.
Proof.
  intros [Hl Hs Hb Hk] Ht Hp Hp' Hm Ei Eb Ed Ec. split; rewrite ?Ei, ?Eb, ?Ed, ?Ec; try done.
  - by eapply sees_insert.
  - destruct (instance s); [done |]. destruct Hb as [? | (u & i & Hu)]; [by left |]. right.
    exists u, i. rewrite list_lookup_insert_ne; [done |]. intros ->. rewrite Ht in Hu.
    injection Hu as ->. by eapply Hp.
Qed.

Lemma single_ok_test s t p p' :
  single_ok s → callers s !! t = Some p → test (instance s) p = Some p' →
  single_ok (go t p' (access t false s)).
Proof.
  intros Hok Ht Hp. eapply (single_ok_move s _ t p p'); [done.. | | | | done | done | done | done].
  - by intros i ->.
  - pose proof (so_sees _ Hok t p Ht) as Hs. pose proof (so_built _ Hok) as Hb.
    destruct p; cbn in Hp; try discriminate Hp;
      destruct (instance s) as [o |] eqn:Hi; injection Hp as <-; cbn; try done.
    + split; [done |]. destruct Hb as [? | (u & k & Hu)]; [done |]. exfalso.
      pose proof (locked_exclusive _ _ _ _ _ _ _ (so_lock _ Hok) Ht Hu eq_refl eq_refl). congruence.
    + by destruct Hs.
  - cbn. eapply locked_same; [by apply so_lock | done |].
    destruct p, (instance s); cbn in Hp; naive_solver.
Qed.

(** The thread that constructs is alone with the pointer. *)
Lemma sees_alone s t p inst' objs' u q :
  single_ok s → callers s !! t = Some p → in_guard p = true → instance s = None →
  callers s !! u = Some q → u ≠ t → sees inst' objs' q.
Proof.
  intros Hok Ht Hp Hi Hu Hne. pose proof (so_sees _ Hok u q Hu) as Hs. rewrite Hi in Hs.
  destruct q; cbn in *; try done; try (by destruct Hs);
    by pose proof (locked_exclusive _ _ _ _ _ _ _ (so_lock _ Hok) Ht Hu Hp eq_refl).
Qed.

Lemma single_preserved : preserved (runs construct may_call) single_ok.
Proof.
  intros s s' Hs Hok. unfold runs in Hs.
  inversion Hs as [t p Ht Hp Hm | t p p' Ht Hp Hra | t m Ht He | t st Ht Hc i | t st e Ht Hc
    | t i Ht Hra | t p p' o m Ht Hp Hv | t u p q Ht Hu Hp Hq | ]; subst s'.
  - eapply (single_ok_move s _ t p STest); [done | done | by intros i -> | done | | done..].
    cbn. eapply locked_same; [by apply so_lock | done |]. by destruct p.
  - by eapply single_ok_test.
  - eapply (single_ok_move s _ t SEnter SCheck); [done | done | done | done | | done..].
    cbn. eapply locked_acquire; [by apply so_lock | done..].
  - destruct (so_sees _ Hok t _ Ht) as [Hi Hb]. split; cbn; rewrite ?Hi, ?Hb.
    + cbn. eapply locked_same; [by apply so_lock | done..].
    + intros u q [[-> ->] | [Hne Hu]]%(insert_lookup _ _ _ _ _ _ Ht); [done |].
      by eapply (sees_alone s t).
    + right. exists t. eexists. apply list_lookup_insert_eq. by eapply lookup_lt_Some.
    + by apply so_kept.
  - eapply (single_ok_move s _ t SNew (SThrown e)); [done | done | done | done | | done | | done | done].
    + cbn. eapply locked_same; [by apply so_lock | done..].
    + cbn. by rewrite app_nil_r.
  - destruct (so_sees _ Hok t _ Ht) as [Hi Hb]. split; cbn.
    + cbn. eapply locked_same; [by apply so_lock | done..].
    + intros u q [[-> ->] | [Hne Hu]]%(insert_lookup _ _ _ _ _ _ Ht); [by eexists |].
      by eapply (sees_alone s t).
    + done.
    + rewrite Hi. cbn. rewrite app_nil_r. by apply so_kept.
  - pose proof (so_sees _ Hok t p Ht) as Hs'.
    eapply (single_ok_move s _ t p p'); [done | done | | | | done..].
    + by intros i ->.
    + destruct p; by simplify_eq/=.
    + cbn. eapply locked_release; [by apply so_lock | done | by destruct p | | done].
      destruct p; by simplify_eq/=.
  - by destruct Hok.
Qed.

(** Once set, the pointer stays. *)
Lemma single_stays s s' i :
  rtc (runs construct may_call) s s' → single_ok s → instance s = Some i → instance s' = Some i.
Proof.
  intros Hr. induction Hr as [| s s1 s2 Hs _ IH]; intros Hok Hi; [done |].
  apply IH; [by eapply single_preserved |]. unfold runs in Hs.
  inversion Hs as [| | | | | t j Ht | | |]; subst s1; try done.
  destruct (so_sees _ Hok t _ Ht) as [? _]. congruence.
Qed.

Lemma singleton_new_ok m st n : owner m = None → single_ok (singleton_new m st n).
Proof.
  intros Hm. split; cbn; [| | by left | done].
  - intros t. rewrite Hm. destruct (replicate n SIdle !! t) as [p |] eqn:Ht; cbn; [| done].
    apply lookup_replicate in Ht as [-> _]. done.
  - intros t p [-> _]%lookup_replicate. done.
Qed.

(** Some call in progress can go on, or races: the one that has the mutex, or else any. *)
Lemma single_progress s t p :
  single_ok s → (∀ st, (construct st).2 ≠ Undef) → callers s !! t = Some p →
  between_calls p = false → ¬ single_step construct may_call s Undefined →
  ∃ s' u q, runs construct may_call s s' ∧ callers s !! u = Some q ∧ between_calls q = false ∧
    callers s' !! u ≠ Some q.
Proof.
  intros Hok Hc Ht Hp Hnr.
  assert (∀ u q w, callers s !! u = Some q → accesses q = Some w → races s u w = false) as Hra.
  { intros u q w Hu Hq. destruct (races s u w) eqn:E; [| done]. destruct Hnr. by eapply s_race. }
  assert (∀ u q, callers s !! u = Some q → between_calls q = false → in_guard q = true ∨
    (q = SEnter → owner (cs s) = None) → ∃ s' u q, runs construct may_call s s' ∧
    callers s !! u = Some q ∧ between_calls q = false ∧ callers s' !! u ≠ Some q) as Hgo.
  { intros u q Hu Hq Hg. pose proof (so_sees _ Hok u q Hu) as Hsee.
    assert (∀ q', <[u := q']> (callers s) !! u = Some q') as Hi
      by (intros; apply list_lookup_insert_eq; by eapply lookup_lt_Some).
    destruct (test (instance s) q) as [q' |] eqn:Htest.
    { eexists _, u, q. split_and!; [eapply s_test; [done | done |] | done | done |].
      - eapply Hra; [done |]. by destruct q.
      - cbn. rewrite Hi. intros [= ->]. by destruct q, (instance s). }
    destruct q; try discriminate Htest; try discriminate Hq.
    - destruct (enter_free u (cs s)) as [m Hm]; [by destruct Hg; auto |].
      eexists _, u, _. split_and!; [by eapply s_enter | done | done |]. cbn. by rewrite Hi.
    - destruct (construct (prog s)) as [st [[] | e |]] eqn:E; [| | by specialize (Hc (prog s)); rewrite E in Hc];
        (eexists _, u, _; split_and!; [first [by eapply s_new | by eapply s_throw] | done | done |]);
        cbn; by rewrite Hi.
    - eexists _, u, _. split_and!; [eapply s_reset; [done | by eapply Hra] | done | done |]. cbn. by rewrite Hi.
    - destruct (leave u (cs s)) as [o m] eqn:E.
      eexists _, u, _. split_and!; [by eapply s_leave | done | done |]. cbn. by rewrite Hi.
    - destruct (leave u (cs s)) as [o m] eqn:E.
      eexists _, u, _. split_and!; [by eapply s_leave | done | done |]. cbn. by rewrite Hi.
    - by destruct Hsee. }
  destruct (owner (cs s)) as [u |] eqn:Ho; [| by eapply Hgo; eauto].
  apply (so_lock _ Hok u) in Ho. destruct (callers s !! u) as [q |] eqn:Hu; [| done].
  apply (Hgo u q); [done | by destruct q | by left].
Qed.
End invariant.

(** ** Programs whose calls are ordered *)
Section ordered.
Context `{DefaultMutex} {S : Type} (construct : S → S * outcome unit).
Implicit Types s : singleton (S := S).

Lemma no_race s t w :
  (∀ j u w', log s !! j = Some (u, w') → u = t ∨ w || w' = false ∨ j ∈ known s t) → races s t w = false.
Proof.
  intros Hk. unfold races. apply not_true_iff_false. intros Hr.
  apply existsb_exists in Hr as ([j [u w']] & Hin & Hr). apply list_elem_of_In, list_elem_of_lookup in Hin as [k Hin].
  rewrite list_lookup_imap in Hin. destruct (log s !! k) as [a |] eqn:Hl; [| done]. injection Hin as <- ->.
  rewrite !andb_true_iff, !negb_true_iff, Nat.eqb_neq, bool_decide_eq_false in Hr. destruct Hr as [[Hu Hw] Hj].
  destruct (Hk _ _ _ Hl) as [? | [E | ?]]; [done | by rewrite E in Hw | done].
Qed.

(** Calls in progress know what they have to: before the write, the only one in progress knows
    all; after it, all know the write. *)
Record known_ok s : Prop := {
  ko_before : instance s = None → ∀ t u p q, callers s !! t = Some p → callers s !! u = Some q →
    between_calls p = false → between_calls q = false → t = u;
  ko_all : instance s = None → ∀ t p j, callers s !! t = Some p → between_calls p = false →
    j < length (log s) → j ∈ known s t;
  ko_write : is_Some (instance s) → ∀ t p j u, callers s !! t = Some p → between_calls p = false →
    log s !! j = Some (u, true) → j ∈ known s t;
  ko_bound : ∀ t j, j ∈ known s t ∨ j ∈ left s → j < length (log s) }.

(** A step of a call in progress, which reads the pointer at most. *)
Lemma known_ok_step s s' t p p' ev :
  known_ok s → callers s !! t = Some p → between_calls p = false →
  instance s' = instance s → callers s' = <[t := p']> (callers s) → log s' = log s ++ ev →
  (ev = [] ∨ ev = [(t, false)] ∧ length (log s) ∈ known s' t) →
  (∀ u j, j ∈ known s u → j ∈ known s' u) → (∀ u j, j ∈ known s' u ∨ j ∈ left s' → j < length (log s')) →
  known_ok s'.
Proof.
  intros [Hb Ha Hw Hbd] Ht Hp Ei Ec El Hev Hk Hbd'.
  assert (∀ u q, callers s' !! u = Some q → between_calls q = false →
    ∃ q0, callers s !! u = Some q0 ∧ between_calls q0 = false) as Hold.
  { intros u q Hu Hq. rewrite Ec in Hu. apply (insert_lookup _ _ _ _ _ _ Ht) in Hu as [[-> _] | [_ Hu]]; eauto. }
  split; rewrite ?Ei, ?El; [| | | by rewrite <- El].
  - intros Hi u v q r Hu Hv Hq Hr. destruct (Hold _ _ Hu Hq) as (q0 & ? & ?), (Hold _ _ Hv Hr) as (r0 & ? & ?).
    by eapply Hb.
  - intros Hi u q j Hu Hq Hj. destruct (Hold _ _ Hu Hq) as (q0 & Hu0 & Hq0).
    assert (u = t) as -> by by eapply Hb.
    destruct (decide (j < length (log s))) as [Hlt | Hge]; [by apply Hk; eapply Ha |].
    destruct Hev as [-> | [-> Hin]]; rewrite length_app in Hj; cbn in Hj; [lia |].
    by replace j with (length (log s)) by lia.
  - intros Hi u q j v Hu Hq Hj. destruct (Hold _ _ Hu Hq) as (q0 & Hu0 & Hq0). apply Hk.
    eapply Hw; [done.. |]. apply lookup_app_Some in Hj as [Hj | [_ Hj]]; [exact Hj |].
    destruct Hev as [-> | [-> _]]; [done |]. by apply list_lookup_singleton_Some in Hj as [_ [=]].
Qed.

Lemma learn_known t k s u j : j ∈ known (learn t k s) u ↔ j ∈ known s u ∨ (u = t ∧ j ∈ k).
Proof.
  unfold known, learn. cbn [facts]. rewrite omap_app, elem_of_app. f_equiv.
  rewrite list_elem_of_omap. split.
  - intros ([v i] & (i' & [= -> ->] & Hi)%list_elem_of_fmap & Hj). case_decide; [by simplify_eq | done].
  - intros [-> Hj]. exists (t, j). split; [by apply list_elem_of_fmap_2 |]. by rewrite decide_True.
Qed.

Lemma test_in_call i p p' : test i p = Some p' → between_calls p = false.
Proof. by destruct p. Qed.

Lemma known_preserved s s' :
  runs construct ordered_call s s' → single_ok s → known_ok s → known_ok s'.
Proof.
  intros Hs Hok Hkn. pose proof Hkn as [Hb Ha Hw Hbd]. unfold runs in Hs.
  inversion Hs as [t p Ht Hp Hm | t p p' Ht Hp Hra | t m Ht He | t st Ht Hc i | t st e Ht Hc
    | t i Ht Hra | t p p' o m Ht Hp Hv | t u p q Ht Hu Hp Hq | ]; subst s'.
  - unfold ordered_call in Hm.
    assert (∀ u q, <[t := STest]> (callers s) !! u = Some q → between_calls q = false →
      u = t ∨ (callers s !! u = Some q ∧ u ≠ t)) as Hold.
    { intros u q [[-> _] | [Hne Hu]]%(insert_lookup _ _ _ _ _ _ Ht) _; [by left | by right]. }
    split; cbn; [| | | done].
    + intros Hi u v q r Hu Hv Hq Hr. rewrite Hi in Hm. destruct Hm as [Hm _].
      destruct (Hold _ _ Hu Hq) as [-> | [Hu' _]]; [| by rewrite (Hm _ _ Hu') in Hq].
      destruct (Hold _ _ Hv Hr) as [-> | [Hv' _]]; [done | by rewrite (Hm _ _ Hv') in Hr].
    + intros Hi u q j Hu Hq. rewrite Hi in Hm. destruct Hm as [Hm Hall].
      destruct (Hold _ _ Hu Hq) as [-> | [Hu' _]]; [by apply Hall | by rewrite (Hm _ _ Hu') in Hq].
    + intros [i Hi] u q j v Hu Hq. rewrite Hi in Hm.
      destruct (Hold _ _ Hu Hq) as [-> | [Hu' _]]; [by apply Hm | by eapply Hw].
  - eapply (known_ok_step s _ t p p' [(t, false)]); [done | done | by eapply test_in_call | done.. | | |].
    + right. split; [done |]. apply learn_known. right. by rewrite list_elem_of_singleton.
    + intros u j Hj. apply learn_known. by left.
    + intros u j. cbn [left go access learn log]. rewrite length_app. cbn [length].
      intros [[Hj | [_ ->%list_elem_of_singleton]]%learn_known | Hj]; [| lia |];
        (assert (j < length (log s)); [| lia]); eapply (Hbd u); eauto.
  - eapply (known_ok_step s _ t SEnter SCheck []); [done.. | | | |].
    + cbn. by rewrite app_nil_r.
    + by left.
    + intros u j Hj. apply learn_known. by left.
    + intros u j [[Hj | [_ Hj]]%learn_known | Hj]; eapply (Hbd u); eauto.
  - eapply (known_ok_step s _ t SNew _ []); [done.. | | | |]; cbn; rewrite ?app_nil_r; eauto.
  - eapply (known_ok_step s _ t SNew _ []); [done.. | | | |]; cbn; rewrite ?app_nil_r; eauto.
  - destruct (so_sees _ Hok t _ Ht) as [Hi _].
    assert (∀ u q, <[t := SDone]> (callers s) !! u = Some q → between_calls q = false → u = t) as Hold.
    { intros u q [[-> _] | [Hne Hu]]%(insert_lookup _ _ _ _ _ _ Ht) Hq; [done |]. by eapply Hb. }
    split; [done | done | |].
    + intros _ u q j v Hu Hq Hj. assert (u = t) as -> by by eapply Hold. apply learn_known.
      cbn in Hj. apply lookup_app_Some in Hj as [Hj | [Hge Hj]].
      * left. eapply (Ha Hi t); [done | done |]. by eapply lookup_lt_Some.
      * right. apply list_lookup_singleton_Some in Hj as [Hj _]. split; [done |]. apply list_elem_of_singleton. lia.
    + intros u j. cbn [left go reset access learn log]. rewrite length_app. cbn [length].
      intros [[Hj | [_ ->%list_elem_of_singleton]]%learn_known | Hj]; [| lia |];
        (assert (j < length (log s)); [| lia]); eapply (Hbd u); eauto.
  - eapply (known_ok_step s _ t p p' []); [done | done | by destruct p | done | done | | | |]; cbn; rewrite ?app_nil_r; eauto.
    intros v j [Hj | Hj]; [exact (Hbd v j (or_introl Hj)) | exact (Hbd t j (or_introl Hj))].
  - split; [exact Hb | | | ].
    + intros Hi v r j Hv Hr Hj. apply learn_known. left. by eapply Ha.
    + intros Hi v r j w Hv Hr Hj. apply learn_known. left. by eapply Hw.
    + intros v j [[Hj | [_ Hj]]%learn_known | Hj];
        [exact (Hbd v j (or_introl Hj)) | exact (Hbd t j (or_introl Hj)) | exact (Hbd v j (or_intror Hj))].
Qed.

(** So their accesses do not race. *)
Lemma known_no_race s : single_ok s → known_ok s → ¬ single_step construct ordered_call s Undefined.
Proof.
  intros Hok Hkn Hs. inversion Hs as [| | | | | | | | t p w Ht Hp Hra].
  assert (between_calls p = false) as Hbc by by destruct p.
  enough (races s t w = false) by congruence. apply no_race. intros j u w' Hj.
  destruct (instance s) as [i |] eqn:Hi.
  - assert (w = false) as ->.
    { pose proof (so_sees _ Hok t p Ht) as Hs'. rewrite Hi in Hs'. destruct p; cbn in Hp; try congruence.
      by destruct Hs'. }
    destruct w'; [| by right; left]. right. right. eapply (ko_write _ Hkn); [by rewrite Hi | done..].
  - right. right. eapply (ko_all _ Hkn); [done.. |]. by eapply lookup_lt_Some.
Qed.

Lemma ordered_ok s s' :
  rtc (runs construct ordered_call) s s' → single_ok s → known_ok s → single_ok s' ∧ known_ok s'.
Proof.
  induction 1 as [| s s1 s2 Hs _ IH]; intros Hok Hk; [done |].
  apply IH; [by eapply single_preserved | by eapply known_preserved].
Qed.

Lemma singleton_new_known m (st : S) n : known_ok (singleton_new m st n).
Proof.
  split; cbn.
  - intros _ t u p q [-> _]%lookup_replicate _ Hp. done.
  - intros _ t p j _ _ Hj. lia.
  - intros [? [=]].
  - intros t j. set_solver.
Qed.
End ordered.

(** ** Property *)

(** C23. In every run without a data race, however the threads that call [instance] interleave,
    one object at most is ever constructed and none is deleted; every call that returns gives that
    object, to all threads the same one and at all later times; and no call uses a null pointer.
    There is no data race when the calls are ordered: until the pointer is set, one thread calls at
    a time and knows what was done before; afterwards, the threads that call know that it was set,
    as threads started after the first call do.  Then, while a call is in progress, one of the
    calls in progress can go on: a constructor that throws leaves the mutex free.  Two first calls
    at the same time are a data race, and undefined: [singleton_overlap_races]. *)
Theorem singleton_once `{DefaultMutex} {S} construct m (st : S) n (s : singleton (S := S)) :
  owner m = None → (∀ st, (construct st).2 ≠ Undef) →
  (∀ may_call, rtc (runs construct may_call) (singleton_new m st n) s →
     length (built s) ≤ 1 ∧ deleted s = [] ∧ (SUndef ∉ callers s) ∧
     (∀ t i, callers s !! t = Some (SGot i) → built s = [i] ∧
        ∀ s', rtc (runs construct may_call) s s' → instance s' = Some i)) ∧
  (rtc (runs construct ordered_call) (singleton_new m st n) s →
     ¬ single_step construct ordered_call s Undefined ∧
     (∀ t p, callers s !! t = Some p → between_calls p = false →
        ∃ s' u q, runs construct ordered_call s s' ∧ callers s !! u = Some q ∧ between_calls q = false ∧
          callers s' !! u ≠ Some q)).
Proof.
  intros Hm Hc. split.
  - intros may_call Hr.
    pose proof (preserved_rtc _ _ _ _ (single_preserved construct may_call) Hr (singleton_new_ok _ _ _ Hm)) as Hok.
    pose proof (so_sees _ Hok) as Hs. pose proof (so_built _ Hok) as Hb. split_and!.
    + destruct (instance s); [by rewrite Hb |]. destruct Hb as [-> | (t & i & Ht)]; [cbn; lia |].
      by destruct (Hs _ _ Ht) as [_ ->].
    + by apply so_kept.
    + intros (t & Ht)%list_elem_of_lookup. by destruct (Hs _ _ Ht).
    + intros t i Ht. pose proof (Hs _ _ Ht) as Hi. cbn in Hi. split; [by rewrite Hi in Hb |].
      intros s' Hr'. eapply (single_stays construct may_call); eauto.
  - intros Hr. destruct (ordered_ok construct _ _ Hr (singleton_new_ok _ _ _ Hm) (singleton_new_known construct m st n)) as [Hok Hk].
    assert (¬ single_step construct ordered_call s Undefined) as Hn by by apply known_no_race.
    split; [exact Hn |]. intros t p Ht Hp. by eapply single_progress.
Qed.

(** ** Two threads that both find the pointer null *)
Definition count_up (n : nat) : nat * outcome unit := (n + 1, Ret ()).

Definition two_threads : singleton (H := owned_locks) (S := nat) := @singleton_new owned_locks nat None 0 2.

(** Computes the state. *)
Ltac settle := match goal with |- rtc _ ?s _ => let s' := eval vm_compute in s in change s with s' end.

Ltac call t c := eapply rtc_l; [eapply (c _ _ _ _ _ t); first [done | vm_compute; reflexivity] |]; settle.

(** One of them has tested the pointer, unordered before the other sets it. *)
Example singleton_overlap_races :
  ∃ s, rtc (runs (H := owned_locks) count_up any_call) two_threads s ∧
    single_step (H := owned_locks) count_up any_call s Undefined.
Proof.
  eexists. split.
  - call 0 @s_call. call 1 @s_call. call 0 @s_test. call 1 @s_test.
    call 1 @s_enter. call 1 @s_test. call 1 @s_new. apply rtc_refl.
  - eapply (s_race _ _ _ 1); [reflexivity | reflexivity | vm_compute; reflexivity].
Qed.

(** ** Witness: two calls, the second ordered after the first *)
Lemma ordered_calls :
  ∃ s, rtc (runs (H := owned_locks) count_up ordered_call) two_threads s ∧ callers s = [SGot 0; SGot 0].
Proof.
  eexists. split.
  - eapply rtc_l; [eapply (s_call _ _ _ 0 SIdle); [done | done |] |].
    { split; cbn; [intros [| [| u]] p [= <-]; done | lia]. }
    settle.
    call 0 @s_test. call 0 @s_enter. call 0 @s_test. call 0 @s_new. call 0 @s_reset. call 0 @s_leave. call 0 @s_test.
    eapply rtc_l; [eapply (s_order _ _ _ 0 1); done |]. settle.
    eapply rtc_l; [eapply (s_call _ _ _ 1 SIdle); [done | done |] |].
    { intros [| [| [| [| j]]]] u [=]. apply (bool_decide_unpack _). vm_compute. reflexivity. }
    settle.
    call 1 @s_test. call 1 @s_test. apply rtc_refl.
  - vm_compute. reflexivity.
Qed.

Lemma singleton_once_witness :
  ∃ s : singleton (H := owned_locks) (S := nat), callers s = [SGot 0; SGot 0] ∧ built s = [0] ∧
    ¬ single_step (H := owned_locks) count_up ordered_call s Undefined.
Proof.
  destruct ordered_calls as (s & Hr & Hc). exists s.
  destruct (singleton_once (H1 := owned_default) count_up None 0 2 s eq_refl ltac:(done)) as [H1 H2].
  destruct (H1 _ Hr) as (_ & _ & _ & Hg). destruct (H2 Hr) as [Hn _].
  split; [exact Hc |]. split; [| exact Hn]. apply (proj1 (Hg 0 0 ltac:(rewrite Hc; reflexivity))).
Defined.
