(* ===== verification/Thread.v ===== *)
(** * [src/src/dcl/thread.cpp], [src/src/dcl/posix/thread_impl.cpp]: thread objects.

    A thread object keeps its handler twice, in itself and in its implementation, which holds the
    system's thread.  [thread_run] is a call on one of several objects; what the system's calls
    answer is part of the operation. *)
From S2P Require Export Sync.

Definition EAGAIN : Z := 11.

Section thread.
(** A handler; running it is the client's code. *)
Context {H : Type}.

(** [thread_impl]: the handler, and the thread once there was one. *)
Record thread_impl := ThreadImpl { impl_handler : option H; tid : option nat }.

Record thread := Thread { _handler : option H; pimpl : thread_impl }.

(** The objects, the system's threads that can be joined, those asked to end, whether the process
    is stopped, the number of threads created, and the handlers that threads entered. *)
Record thread_world := ThreadWorld {
  objects : gmap nat thread;
  joinable : gset nat;
  cancelled : gset nat;
  process_stopped : bool;
  created : nat;
  entered : list (nat * H) }.

Inductive thread_op :=
  | ThreadNew (i : nat) | ThreadCopy (i src : nat) | ThreadAssign (i src : nat)
  | OnExecute (i : nat) (h : H) | Start (i : nat) (code : Z) | WaitFor (i : nat)
  | Stop (i : nat) | Pause (i : nat) | Resume (i : nat) | ThreadDelete (i : nat).

Definition thread_new : thread := Thread None (ThreadImpl None None).

(** [thread(const thread&)]: a new implementation with the handler. *)
Definition thread_copy (src : thread) : thread := Thread (_handler src) (ThreadImpl (_handler src) None).

Definition on_execute (h : option H) (x : thread) : thread :=
  Thread h (ThreadImpl h (tid (pimpl x))).

(** What [pthread_create] answers. *)
Definition start_code (code : Z) : outcome unit :=
  if (code =? 0)%Z then Ret ()
  else if (code =? EAGAIN)%Z then
    throw_code thread_exception "The system lacked the necessary resources to create another thread, or the system-imposed limit on the total number of threads in a process would be exceeded"
  else if (code =? EINVAL)%Z then throw_code thread_exception "Can't create detached thread"
  else if (code =? EPERM)%Z then
    throw_code thread_exception "The caller does not have appropriate permission to set the required scheduling parameters or scheduling policy"
  else throw_code thread_exception "pthread_create() fails by unknown error".

Definition put (i : nat) (x : thread) (w : thread_world) : thread_world :=
  ThreadWorld (<[i := x]> (objects w)) (joinable w) (cancelled w) (process_stopped w) (created w) (entered w).

(** [thread_impl::start] and [execute], whose thread enters the handler the implementation has. *)
Definition start (i : nat) (code : Z) (x : thread) (w : thread_world) : outcome unit * thread_world :=
  match start_code code with
  | Ret _ =>
      let n := created w in
      (Ret (),
       ThreadWorld (<[i := Thread (_handler x) (ThreadImpl (impl_handler (pimpl x)) (Some n))]> (objects w))
         ({[n]} ∪ joinable w) (cancelled w) (process_stopped w) (S n)
         (entered w ++ match impl_handler (pimpl x) with Some h => [(n, h)] | None => [] end))
  | o => (o, w)
  end.

(** A call on the system's thread, which must not have been joined. *)
Definition on_thread (x : thread) (f : nat → thread_world) (w : thread_world) : outcome unit * thread_world :=
  match tid (pimpl x) with
  | Some n => if decide (n ∈ joinable w) then (Ret (), f n) else (Undef, w)
  | None => (Undef, w)
  end.

(** [pthread_join], once the thread has ended. *)
Definition wait_for (x : thread) (w : thread_world) : outcome unit * thread_world :=
  on_thread x (λ n, ThreadWorld (objects w) (joinable w ∖ {[n]}) (cancelled w) (process_stopped w)
                      (created w) (entered w)) w.

Definition stop (x : thread) (w : thread_world) : outcome unit * thread_world :=
  on_thread x (λ n, ThreadWorld (objects w) (joinable w) ({[n]} ∪ cancelled w) (process_stopped w)
                      (created w) (entered w)) w.

(** [pthread_kill] with [SIGSTOP] and [SIGCONT], which act on the process. *)
Definition pause_or_resume (stopped : bool) (x : thread) (w : thread_world) : outcome unit * thread_world :=
  on_thread x (λ n, ThreadWorld (objects w) (joinable w) (cancelled w) stopped (created w) (entered w)) w.

Definition with_object (i : nat) (f : thread → thread_world → outcome unit * thread_world) (w : thread_world)
    : outcome unit * thread_world :=
  match objects w !! i with Some x => f x w | None => (Undef, w) end.

Definition thread_run (op : thread_op) (w : thread_world) : outcome unit * thread_world :=
  match op with
  | ThreadNew i => (Ret (), put i thread_new w)
  | ThreadCopy i src => with_object src (λ x w, (Ret (), put i (thread_copy x) w)) w
  | ThreadAssign i src =>
      with_object src (λ s, with_object i (λ x w, (Ret (), put i (on_execute (_handler s) x) w))) w
  | OnExecute i h => with_object i (λ x w, (Ret (), put i (on_execute (Some h) x) w)) w
  | Start i code => with_object i (start i code) w
  | WaitFor i => with_object i wait_for w
  | Stop i => with_object i stop w
  | Pause i => with_object i (pause_or_resume true) w
  | Resume i => with_object i (pause_or_resume false) w
  | ThreadDelete i =>
      (Ret (), ThreadWorld (delete i (objects w)) (joinable w) (cancelled w) (process_stopped w)
                 (created w) (entered w))
  end.

Fixpoint thread_runs (ops : list thread_op) (w : thread_world) : outcome unit * thread_world :=
  match ops with
  | [] => (Ret (), w)
  | op :: ops' =>
      match thread_run op w with
      | (Undef, w') => (Undef, w')
      | (_, w') => thread_runs ops' w'
      end
  end.

Definition thread_world_new : thread_world := ThreadWorld ∅ ∅ ∅ false 0 [].

(** ** Lemmas *)

(** Both copies of the handler agree; threads are numbered from 0, those to be joined exist. *)
Record threads_ok (w : thread_world) : Prop := {
  same_handler : ∀ i x, objects w !! i = Some x → impl_handler (pimpl x) = _handler x;
  known_threads : ∀ n, n ∈ joinable w → n < created w }.

Lemma put_ok i x w :
  impl_handler (pimpl x) = _handler x → threads_ok w → threads_ok (put i x w).
Proof.
  intros Hx [Hs Hk]. split; [| done]. intros j y. cbn. destruct (decide (i = j)) as [-> | Hij].
  - rewrite lookup_insert_eq. by intros [= <-].
  - rewrite lookup_insert_ne by done. apply Hs.
Qed.

Lemma on_thread_ok x f w :
  threads_ok w → (∀ n, threads_ok (f n)) → threads_ok (on_thread x f w).2.
Proof. intros Hw Hf. unfold on_thread. destruct (tid (pimpl x)); [| done]. case_decide; [apply Hf | done]. Qed.

Lemma thread_run_ok op w : threads_ok w → threads_ok (thread_run op w).2.
Proof.
  intros Hw. destruct op as [i | i j | i j | i h | i c | i | i | i | i | i]; cbn [thread_run]; unfold with_object.
  - by apply put_ok.
  - destruct (objects w !! j); [by apply put_ok | done].
  - destruct (objects w !! j); [| done]. destruct (objects w !! i); [by apply put_ok | done].
  - destruct (objects w !! i); [by apply put_ok | done].
  - destruct (objects w !! i) as [x |] eqn:Hx; [| done]. unfold start.
    destruct (start_code c) as [[] | |]; [| done..]. destruct Hw as [Hs Hk]. split.
    + intros k y. cbn. destruct (decide (i = k)) as [-> | Hik].
      * rewrite lookup_insert_eq. intros [= <-]. exact (Hs k x Hx).
      * rewrite lookup_insert_ne by done. apply Hs.
    + intros n. cbn. rewrite elem_of_union, elem_of_singleton. intros [-> | Hn%Hk]; lia.
  - destruct (objects w !! i); [| done]. apply on_thread_ok; [done |]. destruct Hw as [Hs Hk].
    intros n. split; [done |]. intros m. cbn. rewrite elem_of_difference. intros [Hm _]. by apply Hk.
  - destruct (objects w !! i); [| done]. apply on_thread_ok; [done |]. by destruct Hw.
  - destruct (objects w !! i); [| done]. apply on_thread_ok; [done |]. by destruct Hw.
  - destruct (objects w !! i); [| done]. apply on_thread_ok; [done |]. by destruct Hw.
  - destruct Hw as [Hs Hk]. split; [| done]. intros j x. cbn. rewrite lookup_delete_Some. intros [_ Hx]. by eapply Hs.
Qed.

Lemma thread_runs_ok ops w : threads_ok w → threads_ok (thread_runs ops w).2.
Proof.
  revert w. induction ops as [| op ops IH]; intros w Hw; cbn [thread_runs]; [done |].
  pose proof (thread_run_ok op w Hw) as Hr. destruct (thread_run op w) as [[] w']; auto.
Qed.
End thread.
Arguments thread H : clear implicits.
Arguments thread_world H : clear implicits.
Arguments thread_op H : clear implicits.

(** ** Properties *)

(** Thread objects run the handler they were given, however they were copied and assigned:
    starting an object, when the system makes a thread, enters its handler once, in a thread
    not used before, and waiting for it takes back exactly that thread; when the system refuses
    there is an exception and nothing changes. *)
Theorem thread_starts_handler {H} ops (w : thread_world H) i x code :
  thread_runs ops thread_world_new = (Ret (), w) → objects w !! i = Some x →
  let '(o, w1) := thread_run (Start i code) w in
  if (code =? 0)%Z then
    o = Ret () ∧
    entered w1 = entered w ++ (match _handler x with Some h => [(created w, h)] | None => [] end) ∧
    (created w ∉ joinable w) ∧ joinable w1 = {[created w]} ∪ joinable w ∧
    let '(o2, w2) := thread_run (WaitFor i) w1 in
    o2 = Ret () ∧ joinable w2 = joinable w ∧ entered w2 = entered w1
  else (∃ msg, o = Throw (Exn thread_exception msg)) ∧ w1 = w.
Proof.
  intros Hr Hx. pose proof (thread_runs_ok ops thread_world_new ltac:(by split)) as [Hs Hk].
  rewrite Hr in Hs, Hk. cbn [snd] in *. specialize (Hs i x Hx).
  cbn [thread_run]. unfold with_object. rewrite Hx. unfold start, start_code.
  destruct (Z.eqb_spec code 0) as [-> | Hc].
  - assert (created w ∉ joinable w) as Hn by (intros Hin%Hk; lia).
    rewrite Hs. split_and!; [done | done | done | done |]. cbn [objects]. rewrite lookup_insert_eq.
    unfold wait_for, on_thread. cbn [tid pimpl joinable]. rewrite decide_True by set_solver.
    cbn. split_and!; [done | set_solver | done].
  - destruct (code =? EAGAIN)%Z, (code =? EINVAL)%Z, (code =? EPERM)%Z; (split; [by eexists | done]).
Qed.

(** An object that was copied from a running one cannot wait for its thread. *)
Example thread_copy_waits {H} (h : H) :
  fst (thread_runs [ThreadNew 0; OnExecute 0 h; Start 0 0; ThreadCopy 1 0; WaitFor 1] thread_world_new) = Undef.
Proof. reflexivity. Qed.

(** Pausing one thread stops the process. *)
Example thread_pause_stops_all {H} (h : H) :
  process_stopped (snd (thread_runs [ThreadNew 0; OnExecute 0 h; Start 0 0; Pause 0] thread_world_new)) = true.
Proof. reflexivity. Qed.

(** ** Witness *)
Definition two_threads : thread_world nat :=
  snd (thread_runs [ThreadNew 0; OnExecute 0 5; Start 0 0; ThreadCopy 1 0] thread_world_new).

Lemma thread_starts_handler_witness :
  let '(o, w1) := thread_run (Start 1 0) two_threads in
  o = Ret () ∧ entered w1 = [(0, 5); (1, 5)].
Proof.
  pose proof (thread_starts_handler [ThreadNew 0; OnExecute 0 5; Start 0 0; ThreadCopy 1 0] two_threads 1
    (Thread (Some 5) (ThreadImpl (Some 5) None)) 0 eq_refl eq_refl) as Ht.
  destruct (thread_run (Start 1 0) two_threads) as [o w1]. destruct Ht as (Ho & He & _). split; [exact Ho | exact He].
Defined.
