(* ===== verification/CxxString.v ===== *)
(** * The parts of the C and C++ standard libraries the sources use on characters, strings
    and numbers: [<cctype>] in the classic locale, the [find] family of [std::string],
    [strtol]/[strtoull], and the decimal and hexadecimal output of integers. *)
From S2P Require Export Prelude.

(** ** [<cctype>], classic locale *)
Definition in_range (lo hi : Z) (c : ascii) : bool := (lo <=? ord c)%Z && (ord c <=? hi)%Z.

Definition isspace (c : ascii) : bool := (ord c =? 32)%Z || in_range 9 13 c.

Definition isdigit (c : ascii) : bool := in_range 48 57 c.

Definition isupper (c : ascii) : bool := in_range 65 90 c.

Definition islower (c : ascii) : bool := in_range 97 122 c.

Definition isalnum (c : ascii) : bool := isdigit c || isupper c || islower c.

Definition isxdigit (c : ascii) : bool := isdigit c || in_range 65 70 c || in_range 97 102 c.

Definition toupper (c : ascii) : ascii := if islower c then chr (ord c - 32) else c.

Definition tolower (c : ascii) : ascii := if isupper c then chr (ord c + 32) else c.

(** ** Searching a [std::string] *)
Definition in_set (delims : str) (c : ascii) : bool := bool_decide (c ∈ delims).

Fixpoint find_index {A} (p : A → bool) (s : list A) : option nat :=
  match s with
  | [] => None
  | c :: s' => if p c then Some 0 else S <$> find_index p s'
  end.

Fixpoint find_last_index {A} (p : A → bool) (s : list A) : option nat :=
  match s with
  | [] => None
  | c :: s' =>
      match find_last_index p s' with
      | Some i => Some (S i)
      | None => if p c then Some 0 else None
      end
  end.

(** [None] is [std::string::npos]. *)
Definition find_first_of (delims : str) (s : str) (pos : nat) : option nat :=
  Nat.add pos <$> find_index (in_set delims) (drop pos s).

Definition find_last_of (delims : str) (s : str) : option nat :=
  find_last_index (in_set delims) s.

Definition find_first_not_of (delims : str) (s : str) : option nat :=
  find_index (λ c, negb (in_set delims c)) s.

Definition find_last_not_of (delims : str) (s : str) : option nat :=
  find_last_index (λ c, negb (in_set delims c)) s.

Definition find_char (c : ascii) (s : str) : option nat := find_index (λ d, bool_decide (c = d)) s.

Definition substr (pos len : nat) (s : str) : str := take len (drop pos s).

Definition str_eqb (a b : str) : bool := bool_decide (a = b).

(** [std::string(s.c_str())]: the bytes before the first NUL. *)
Fixpoint c_str (s : str) : str :=
  match s with
  | [] => []
  | c :: s' => if (ord c =? 0)%Z then [] else c :: c_str s'
  end.

(** ** Splitting: the reference the tokenizers are proved against *)
Fixpoint split_on {A} (p : A → bool) (s : list A) : list (list A) :=
  match s with
  | [] => [[]]
  | c :: s' =>
      if p c then [] :: split_on p s'
      else match split_on p s' with
           | w :: ws => (c :: w) :: ws
           | [] => [[c]]
           end
  end.

Fixpoint drop_while {A} (p : A → bool) (s : list A) : list A :=
  match s with
  | [] => []
  | c :: s' => if p c then drop_while p s' else s
  end.

Definition rdrop_while {A} (p : A → bool) (s : list A) : list A :=
  reverse (drop_while p (reverse s)).

(** ** Numbers *)
Definition digit_val (c : ascii) : option Z :=
  if isdigit c then Some (ord c - 48)%Z
  else if islower c then Some (ord c - 87)%Z
  else if isupper c then Some (ord c - 55)%Z
  else None.

Fixpoint strtol_digits (base acc : Z) (s : str) : Z :=
  match s with
  | c :: s' =>
      match digit_val c with
      | Some d => if (d <? base)%Z then strtol_digits base (acc * base + d) s' else acc
      | None => acc
      end
  | [] => acc
  end.

Definition strto_sign (s : str) : bool * str :=
  match s with
  | "-"%char :: s' => (true, s')
  | "+"%char :: s' => (false, s')
  | _ => (false, s)
  end.

(** The prefix rule of [strtol]: with base 0 or 16, "0x" followed by a hexadecimal digit is
    skipped and selects 16; with base 0, a leading "0" selects 8 and anything else 10. *)
Definition strto_prefix (base : Z) (s : str) : Z * str :=
  let plain := (if (base =? 0)%Z then match s with "0"%char :: _ => 8 | _ => 10 end else base, s)%Z in
  match s with
  | "0"%char :: x :: h :: s' =>
      if ((base =? 0)%Z || (base =? 16)%Z) && (bool_decide (x = "x"%char) || bool_decide (x = "X"%char))
         && isxdigit h
      then (16%Z, h :: s') else plain
  | _ => plain
  end.

Definition strto_value (base : Z) (s : str) : Z :=
  let '(neg, s1) := strto_sign (drop_while isspace s) in
  let '(b, s2) := strto_prefix base s1 in
  let v := strtol_digits b 0 s2 in
  if neg then (- v)%Z else v.

(** [long] has 64 bits: out of range values saturate. *)
Definition strtol (s : str) (base : Z) : Z :=
  Z.max (- 2 ^ 63) (Z.min (2 ^ 63 - 1) (strto_value base s)).

(** [strtoull] negates in the unsigned type and saturates on overflow. *)
Definition strtoull (s : str) (base : Z) : Z :=
  let v := strto_value base s in
  if (2 ^ 64 <=? Z.abs v)%Z then (2 ^ 64 - 1)%Z else u64 v.

Fixpoint digits (fuel : nat) (base n : Z) : list Z :=
  match fuel with
  | O => []
  | S f => if (n <? base)%Z then [n] else digits f base (n / base) ++ [(n mod base)%Z]
  end.

Definition digit_char (upper : bool) (d : Z) : ascii :=
  if (d <? 10)%Z then chr (48 + d) else if upper then chr (55 + d) else chr (87 + d).

Definition print_nat_base (upper : bool) (base n : Z) : str :=
  digit_char upper <$> digits (S (Z.to_nat (Z.log2 n))) base n.

(** [printf("%d")]. *)
Definition print_dec (n : Z) : str :=
  if (n <? 0)%Z then "-"%char :: print_nat_base false 10 (- n) else print_nat_base false 10 n.

(** [setw(2) << setfill('0') << hex], [upper] under [uppercase]. *)
Definition print_hex2 (upper : bool) (n : Z) : str :=
  let s := print_nat_base upper 16 n in
  replicate (2 - length s) "0"%char ++ s.

(** ** Searching: specifications *)
Section search.
Context {A : Type} (p : A → bool).
Implicit Types s : list A.

Lemma find_index_Some s i :
  find_index p s = Some i ↔
  ∃ c s2, s = take i s ++ c :: s2 ∧ length (take i s) = i ∧ p c = true ∧
          Forall (λ x, p x = false) (take i s).
Proof.
  revert i. induction s as [| c s IH]; intros i; cbn.
  - split; [done |]. intros (c & s2 & H & _). rewrite take_nil in H. done.
  - destruct (p c) eqn:Hc.
    + split.
      * intros [= <-]. exists c, s. by repeat split.
      * intros (d & s2 & Heq & Hlen & Hd & Hall). destruct i as [| i]; [done |].
        cbn in Hall. inv Hall. congruence.
    + rewrite fmap_Some. split.
      * intros (j & Hj & ->). apply IH in Hj as (d & s2 & Heq & Hlen & Hd & Hall).
        exists d, s2. cbn. repeat split; auto; congruence.
      * intros (d & s2 & Heq & Hlen & Hd & Hall). destruct i as [| i].
        { cbn in Heq. congruence. }
        exists i. split; [| done]. apply IH. cbn in *. inv Hall.
        exists d, s2. repeat split; auto; congruence.
Qed.

Lemma find_index_None s : find_index p s = None ↔ Forall (λ x, p x = false) s.
Proof.
  induction s as [| c s IH]; cbn; [by split |].
  rewrite Forall_cons. destruct (p c); [naive_solver |].
  rewrite fmap_None, IH. naive_solver.
Qed.

Lemma find_index_app_l s1 c s2 :
  Forall (λ x, p x = false) s1 → p c = true →
  find_index p (s1 ++ c :: s2) = Some (length s1).
Proof.
  intros H Hc. induction H as [| x s1 Hx _ IH]; cbn; [by rewrite Hc |].
  by rewrite Hx, IH.
Qed.

Lemma find_index_lt s i : find_index p s = Some i → i < length s.
Proof.
  intros (c & s2 & Heq & Hlen & _)%find_index_Some.
  apply (f_equal length) in Heq. rewrite length_app, Hlen in Heq. cbn in Heq. lia.
Qed.

Lemma find_last_index_app s1 c s2 :
  p c = true → Forall (λ x, p x = false) s2 →
  find_last_index p (s1 ++ c :: s2) = Some (length s1).
Proof.
  intros Hc H.
  assert (find_last_index p s2 = None) as Hn.
  { induction H as [| x s2 Hx _ IH]; cbn; [done |]. by rewrite IH, Hx. }
  induction s1 as [| x s1 IH]; cbn; [by rewrite Hn, Hc | by rewrite IH].
Qed.

Lemma find_last_index_None s : find_last_index p s = None ↔ Forall (λ x, p x = false) s.
Proof.
  induction s as [| c s IH]; cbn; [by split |].
  rewrite Forall_cons. destruct (find_last_index p s) as [i |].
  - split; [done |]. intros [_ H]. by apply IH in H.
  - destruct (p c); naive_solver.
Qed.

(** Every list is either free of [p], or splits at the last element satisfying it. *)
Lemma find_last_index_split s :
  Forall (λ x, p x = false) s ∨
  ∃ s1 c s2, s = s1 ++ c :: s2 ∧ p c = true ∧ Forall (λ x, p x = false) s2.
Proof.
  induction s as [| c s [H | (s1 & d & s2 & -> & Hd & H)]]; [by left | |].
  - destruct (p c) eqn:Hc; [right; by exists [], c, s | left; by constructor].
  - right. by exists (c :: s1), d, s2.
Qed.

Lemma find_index_split s :
  Forall (λ x, p x = false) s ∨
  ∃ s1 c s2, s = s1 ++ c :: s2 ∧ p c = true ∧ Forall (λ x, p x = false) s1.
Proof.
  induction s as [| c s IH]; [by left |]. destruct (p c) eqn:Hc.
  - right. by exists [], c, s.
  - destruct IH as [H | (s1 & d & s2 & -> & Hd & H)]; [left; by constructor |].
    right. exists (c :: s1), d, s2. repeat split; auto.
Qed.
End search.

(** ** Dropping and splitting: lemmas *)
Section dropping.
Context {A : Type} (p : A → bool).
Implicit Types s : list A.

Lemma drop_while_all s : Forall (λ x, p x = true) s → drop_while p s = [].
Proof. induction 1 as [| x s Hx _ IH]; cbn; [done |]. by rewrite Hx. Qed.

Lemma drop_while_stop s c s2 :
  Forall (λ x, p x = true) s → p c = false → drop_while p (s ++ c :: s2) = c :: s2.
Proof. intros H Hc. induction H as [| x s Hx _ IH]; cbn; [by rewrite Hc | by rewrite Hx]. Qed.

Lemma drop_while_head s c : p c = false → drop_while p (c :: s) = c :: s.
Proof. cbn. by intros ->. Qed.

Lemma drop_while_spec s :
  ∃ pre, s = pre ++ drop_while p s ∧ Forall (λ x, p x = true) pre ∧
         (drop_while p s = [] ∨ ∃ c s2, drop_while p s = c :: s2 ∧ p c = false).
Proof.
  induction s as [| c s (pre & Heq & Hpre & Hrest)]; cbn.
  - exists []. repeat split; auto.
  - destruct (p c) eqn:Hc.
    + exists (c :: pre). cbn. rewrite <- Heq. repeat split; auto.
    + exists []. repeat split; eauto.
Qed.

Lemma split_on_sep s1 c s2 :
  Forall (λ x, p x = false) s1 → p c = true →
  split_on p (s1 ++ c :: s2) = s1 :: split_on p s2.
Proof.
  intros H Hc. induction H as [| x s1 Hx _ IH]; cbn; [by rewrite Hc |].
  by rewrite Hx, IH.
Qed.

Lemma split_on_none s : Forall (λ x, p x = false) s → split_on p s = [s].
Proof. induction 1 as [| x s Hx _ IH]; cbn; [done |]. by rewrite Hx, IH. Qed.

Lemma split_on_not_nil s : split_on p s ≠ [].
Proof. destruct s as [| c s]; cbn; [done |]. by repeat case_match. Qed.

Lemma split_on_pieces s : Forall (Forall (λ x, p x = false)) (split_on p s).
Proof.
  induction s as [| c s IH]; cbn; [by repeat constructor |].
  destruct (p c) eqn:Hc; [by constructor |].
  destruct (split_on p s); inv IH; by repeat constructor.
Qed.

Lemma split_on_length s : length (split_on p s) = S (length (List.filter p s)).
Proof.
  induction s as [| c s IH]; cbn; [done |].
  destruct (p c) eqn:Hc; cbn; [by rewrite IH |].
  destruct (split_on p s) eqn:He; [by apply split_on_not_nil in He | done].
Qed.
End dropping.

(** Joining with a separator, the inverse of splitting on it. *)
Fixpoint join {A} (sep : list A) (ws : list (list A)) : list A :=
  match ws with
  | [] => []
  | [w] => w
  | w :: ws' => w ++ sep ++ join sep ws'
  end.

Lemma split_on_join {A} (p : A → bool) c (ws : list (list A)) :
  p c = true → ws ≠ [] → Forall (Forall (λ x, p x = false)) ws →
  split_on p (join [c] ws) = ws.
Proof.
  intros Hc Hne H. induction H as [| w ws Hw Hws IH]; [done |].
  destruct ws as [| w' ws]; [by apply split_on_none |].
  change (join [c] (w :: w' :: ws)) with (w ++ c :: join [c] (w' :: ws)).
  rewrite split_on_sep by done. by rewrite IH.
Qed.

Lemma join_split_on {A} (p : A → bool) c (s : list A) :
  (∀ x, p x = true → x = c) → join [c] (split_on p s) = s.
Proof.
  intros Hp. induction s as [| x s IH]; cbn; [done |].
  destruct (split_on p s) as [| w ws] eqn:He; [by apply split_on_not_nil in He |].
  destruct (p x) eqn:Hx.
  - apply Hp in Hx as ->. cbn in *. by rewrite IH.
  - destruct ws; cbn in *; by rewrite <- IH.
Qed.

Lemma in_set_spec delims c : in_set delims c = true ↔ c ∈ delims.
Proof. apply bool_decide_eq_true. Qed.

Lemma in_set_false delims c : in_set delims c = false ↔ c ∉ delims.
Proof. apply bool_decide_eq_false. Qed.

Lemma c_str_id s : nul ∉ s → c_str s = s.
Proof.
  induction s as [| c s IH]; cbn; [done |]. rewrite not_elem_of_cons. intros [Hc Hs].
  destruct (Z.eqb_spec (ord c) 0) as [H0 |]; [| by rewrite IH].
  destruct Hc. apply (inj ord). rewrite H0. reflexivity.
Qed.

(** ** Numbers: lemmas *)
Definition of_digits (base acc : Z) (ds : list Z) : Z := foldl (λ a d, a * base + d)%Z acc ds.

Lemma digits_value fuel base n :
  (2 ≤ base)%Z → (0 ≤ n < base ^ Z.of_nat fuel)%Z → of_digits base 0 (digits fuel base n) = n.
Proof.
  intros Hb. revert n. induction fuel as [| f IH]; intros n Hn; cbn [digits].
  - cbn in *. lia.
  - destruct (Z.ltb_spec n base); [done |].
    unfold of_digits in *. rewrite foldl_app, IH; cbn.
    + pose proof (Z.div_mod n base). lia.
    + rewrite Nat2Z.inj_succ, Z.pow_succ_r in Hn by lia.
      split; [apply Z.div_pos; lia |]. apply Z.div_lt_upper_bound; lia.
Qed.

Lemma digits_range fuel base n :
  (2 ≤ base)%Z → (0 ≤ n)%Z → Forall (λ d, 0 ≤ d < base)%Z (digits fuel base n).
Proof.
  intros Hb. revert n. induction fuel as [| f IH]; intros n Hn; cbn; [constructor |].
  destruct (Z.ltb_spec n base); [by repeat constructor |].
  apply Forall_app. split; [apply IH, Z.div_pos; lia |].
  repeat constructor; apply Z.mod_pos_bound; lia.
Qed.

Lemma digits_head fuel base n :
  (2 ≤ base)%Z → (0 < n < base ^ Z.of_nat fuel)%Z →
  ∃ d ds, digits fuel base n = d :: ds ∧ (0 < d < base)%Z.
Proof.
  intros Hb. revert n. induction fuel as [| f IH]; intros n Hn; cbn [digits].
  - cbn in *. lia.
  - destruct (Z.ltb_spec n base); [exists n, []; split; [done | lia] |].
    destruct (IH (n / base)%Z) as (d & ds & -> & Hd).
    + rewrite Nat2Z.inj_succ, Z.pow_succ_r in Hn by lia.
      split; [apply Z.div_str_pos; lia |]. apply Z.div_lt_upper_bound; lia.
    + by eexists _, _.
Qed.

Lemma digits_fuel base n :
  (2 ≤ base)%Z → (0 ≤ n)%Z → (n < base ^ Z.of_nat (S (Z.to_nat (Z.log2 n))))%Z.
Proof.
  intros Hb Hn. rewrite Nat2Z.inj_succ, Z2Nat.id by apply Z.log2_nonneg.
  destruct (Z.eq_dec n 0) as [-> |]; [cbn; lia |].
  apply Z.lt_le_trans with (2 ^ Z.succ (Z.log2 n))%Z; [apply Z.log2_spec; lia |].
  pose proof (Z.log2_nonneg n). apply Z.pow_le_mono_l. lia.
Qed.

Lemma digit_val_char upper d : (0 ≤ d < 16)%Z → digit_val (digit_char upper d) = Some d.
Proof.
  intros. assert (∃ n, n < 16 ∧ d = Z.of_nat n) as (n & Hn & ->).
  { exists (Z.to_nat d). lia. }
  do 16 (destruct n as [| n]; [by destruct upper |]). lia.
Qed.

Lemma strtol_digits_print base upper acc ds rest :
  (base ≤ 16)%Z → Forall (λ d, 0 ≤ d < base)%Z ds →
  strtol_digits base acc ((digit_char upper <$> ds) ++ rest)
  = strtol_digits base (of_digits base acc ds) rest.
Proof.
  intros Hb H. revert acc. induction H as [| d ds Hd _ IH]; intros acc; [done |].
  cbn -[of_digits]. rewrite digit_val_char by lia.
  destruct (Z.ltb_spec d base); [| lia]. by rewrite IH.
Qed.

Lemma print_nat_base_value upper base n rest :
  (2 ≤ base ≤ 16)%Z → (0 ≤ n)%Z →
  strtol_digits base 0 (print_nat_base upper base n ++ rest) = strtol_digits base n rest.
Proof.
  intros Hb Hn. unfold print_nat_base.
  rewrite strtol_digits_print by (try apply digits_range; lia).
  rewrite digits_value; [done | lia |]. split; [done | apply digits_fuel; lia].
Qed.

(** The first character printed for a positive number is a digit other than "0". *)
Lemma print_nat_base_head upper base n :
  (2 ≤ base ≤ 16)%Z → (0 < n)%Z →
  ∃ d s, print_nat_base upper base n = digit_char upper d :: s ∧ (0 < d < base)%Z.
Proof.
  intros Hb Hn. unfold print_nat_base.
  destruct (digits_head (S (Z.to_nat (Z.log2 n))) base n) as (d & ds & -> & Hd); [lia | |].
  - split; [done | apply digits_fuel; lia].
  - by eexists _, _.
Qed.

Lemma strto_prefix_digit d s :
  (0 < d < 10)%Z → strto_prefix 0 (digit_char false d :: s) = (10%Z, digit_char false d :: s).
Proof.
  intros. assert (∃ n, 0 < n < 10 ∧ d = Z.of_nat n) as (n & Hn & ->).
  { exists (Z.to_nat d). lia. }
  do 10 (destruct n as [| n]; [first [lia | reflexivity] |]). lia.
Qed.

Lemma strto_sign_digit d s :
  (0 < d < 10)%Z → strto_sign (drop_while isspace (digit_char false d :: s))
                   = (false, digit_char false d :: s).
Proof.
  intros. assert (∃ n, 0 < n < 10 ∧ d = Z.of_nat n) as (n & Hn & ->).
  { exists (Z.to_nat d). lia. }
  do 10 (destruct n as [| n]; [first [lia | reflexivity] |]). lia.
Qed.

Lemma strto_value_print_dec n : strto_value 0 (print_dec n) = n.
Proof.
  unfold print_dec, strto_value.
  destruct (Z.ltb_spec n 0) as [Hn | Hn].
  - rewrite drop_while_head by done. cbn -[print_nat_base].
    destruct (print_nat_base_head false 10 (- n)) as (d & s & Heq & Hd); [lia.. |].
    rewrite Heq, strto_prefix_digit, <- Heq by done.
    pose proof (print_nat_base_value false 10 (- n) []) as Hv.
    rewrite app_nil_r in Hv. rewrite Hv by lia. cbn. lia.
  - destruct (Z.eq_dec n 0) as [-> |]; [reflexivity |].
    destruct (print_nat_base_head false 10 n) as (d & s & Heq & Hd); [lia.. |].
    rewrite Heq, strto_sign_digit, strto_prefix_digit, <- Heq by done.
    pose proof (print_nat_base_value false 10 n []) as Hv.
    rewrite app_nil_r in Hv. rewrite Hv by lia. done.
Qed.

Lemma strtol_print_dec n : (- 2 ^ 63 ≤ n < 2 ^ 63)%Z → strtol (print_dec n) 0 = n.
Proof. intros. unfold strtol. rewrite strto_value_print_dec. lia. Qed.

Lemma print_hex2_spec upper c :
  print_hex2 upper (ord c) = [digit_char upper (ord c / 16); digit_char upper (ord c mod 16)].
Proof. destruct upper; by_bytes c. Qed.

(** No character of a printed number lies outside the alphanumerics and the minus sign. *)
Lemma print_nat_base_chars upper base n :
  (2 ≤ base ≤ 16)%Z → (0 ≤ n)%Z → Forall (λ c, isxdigit c = true) (print_nat_base upper base n).
Proof.
  intros Hb Hn. unfold print_nat_base. apply Forall_fmap.
  eapply Forall_impl; [apply digits_range; lia |]. intros d Hd. cbn in Hd.
  assert (∃ n, n < 16 ∧ d = Z.of_nat n) as (m & Hm & ->).
  { exists (Z.to_nat d). lia. }
  do 16 (destruct m as [| m]; [by destruct upper |]). lia.
Qed.

Lemma print_dec_chars n : Forall (λ c, isxdigit c || bool_decide (c = "-"%char) = true) (print_dec n).
Proof.
  unfold print_dec. destruct (Z.ltb_spec n 0).
  - constructor; [done |].
    eapply Forall_impl; [apply print_nat_base_chars; lia |]. cbn. intros ? ->. done.
  - eapply Forall_impl; [apply print_nat_base_chars; lia |]. cbn. intros ? ->. done.
Qed.

Lemma print_dec_not_nil n : print_dec n ≠ [].
Proof.
  unfold print_dec. destruct (Z.ltb_spec n 0); [done |].
  destruct (Z.eq_dec n 0) as [-> |]; [done |].
  destruct (print_nat_base_head false 10 n) as (d & s & -> & _); [lia.. | done].
Qed.
