(* ===== verification/StrUtils.v ===== *)
(** * [src/src/dcl/strutils.cpp] and [src/include/dcl/strutils.h]: the string functors
    [trim], [compare], [tokenize] and [format], the conversions [to_string] and
    [from_string], and the wide-string functors. *)
From S2P Require Export CxxString.
From Stdlib Require Import Floats.SpecFloat.

(** ** Data and operations *)

(** [trim]'s default argument " \t\r\n". *)
Definition trim_delims : str := [" "%char; chr 9; chr 13; chr 10].
#[global] Arguments trim_delims : simpl never.

Definition trim_with (delims source : str) : str :=
  let result := source in
  let result :=
    match find_last_not_of delims result with
    | Some index => take (S index) result
    | None => result
    end in
  match find_first_not_of delims result with
  | Some index => drop index result
  | None => []
  end.

Definition trim (source : str) : str := trim_with trim_delims source.

(** [char_compare] and [compare] under the classic locale, [compare]'s default. *)
Definition char_compare (x y : ascii) : bool := bool_decide (toupper x = toupper y).

Fixpoint equal_range (eq : ascii → ascii → bool) (x y : str) : bool :=
  match x, y with
  | a :: x', b :: y' => eq a b && equal_range eq x' y'
  | [], _ => true
  | _, [] => false
  end.

Definition compare (x y : str) : bool :=
  if negb (length x =? length y) then false else equal_range char_compare x y.

(** [tokenize::operator()(source, delims)]: the loop from position [old_pos]. *)
Fixpoint tokenize_loop (fuel : nat) (source delims : str) (old_pos : nat) (rslt : list str)
    : option (list str) :=
  match fuel with
  | O => None
  | S fuel' =>
      match find_first_of delims source old_pos with
      | Some pos =>
          tokenize_loop fuel' source delims (pos + 1)
            (rslt ++ [trim (substr old_pos (pos - old_pos) source)])
      | None => Some (rslt ++ [trim (substr old_pos (length source) source)])
      end
  end.

Definition tokenize (source delims : str) : list str :=
  match source with
  | [] => []
  | _ => default [] (tokenize_loop (S (length source)) source delims 0 [])
  end.

(** [tokenize::operator()(source, left, right, greedy, delims)]; [left] and [right] are the
    values the out parameters have on entry. *)
Definition tokenize_pair (source left right : str) (greedy : bool) (delims : str) : str * str :=
  match source with
  | [] => (left, right)
  | _ =>
      if greedy then
        match find_last_of delims source with
        | None => ([], source)
        | Some pos => (substr 0 pos source, substr (pos + 1) (length source - pos - 1) source)
        end
      else
        match find_first_of delims source 0 with
        | None => (source, right)
        | Some pos => (substr 0 pos source, substr (pos + 1) (length source - pos - 1) source)
        end
  end.

(** [to_string<int>] prints into a buffer of 64 characters; [from_string<int>] converts the
    [long] result of [strtol] to [int]. *)
Definition to_string_int (value : Z) : str := take 63 (print_dec value).

Definition from_string_int (value : str) : Z := s32 (strtol (c_str value) 0).

(** [to_string<const char*>] of a pointer that may be null. *)
Definition to_string_chars (value : option str) : str :=
  match value with Some s => c_str s | None => [] end.

(** [to_string<void*>] and [from_string<void*>]; "%p" is glibc's. *)
Definition to_string_ptr (value : Z) : str :=
  take 63 (if (value =? 0)%Z then lit "(nil)" else lit "0x" ++ print_nat_base false 16 value).

Definition from_string_ptr (value : str) : Z := strtoull (c_str value) 0.

(** The generic [from_string] at [size_t]: decimal digits after blanks and a sign, as
    [num_get] reads them; no digit or a value out of range is the conversion exception. *)
Definition from_string_size (value : str) : outcome Z :=
  let '(neg, s) := strto_sign (drop_while isspace value) in
  match s with
  | c :: _ =>
      if isdigit c then
        let v := strtol_digits 10 0 s in
        if (2 ^ 64 <=? v)%Z then Throw (Exn type_conversion_exception [])
        else Ret (if neg then u64 (- v) else v)
      else Throw (Exn type_conversion_exception [])
  | [] => Throw (Exn type_conversion_exception [])
  end.

(** The class [format]: the template and the parameters already printed by [operator%]. *)
Record format := Format { str_ : str; params_ : list str }.

Definition format_make (source : str) : format := Format source [].

Definition format_arg (f : format) (x : str) : format := Format (str_ f) (params_ f ++ [x]).

Definition braces : str := lit "{}".
#[global] Arguments braces : simpl never.

Fixpoint format_loop (fuel : nat) (f : format) (old_pos : nat) (rslt : str) : outcome str :=
  match fuel with
  | O => Undef
  | S fuel' =>
      match find_first_of braces (str_ f) old_pos with
      | Some pos =>
          if bool_decide (str_ f !! pos = Some "{"%char) then
            format_loop fuel' f (pos + 1) (rslt ++ substr old_pos (pos - old_pos) (str_ f))
          else
            p ← vec_at (params_ f) (from_string_int (substr old_pos (pos - old_pos) (str_ f)));
            format_loop fuel' f (pos + 1) (rslt ++ p)
      | None => Ret (rslt ++ substr old_pos (length (str_ f)) (str_ f))
      end
  end.

Definition format_str (f : format) : outcome str := format_loop (S (length (str_ f))) f 0 [].

(** [string2wstring] and [wstring2string]: the locale's [ctype] facets are parameters. *)
Section wide.
Context {wchar : Type} (widen : ascii → wchar) (narrow : wchar → ascii → ascii).

Definition string2wstring (source : str) : list wchar := widen <$> source.

Definition wstring2string (source : list wchar) : str := (λ c, narrow c "?"%char) <$> source.
End wide.

(** ** [trim] *)
Definition blank : ascii → bool := in_set trim_delims.

Lemma take_S_app {A} (s1 : list A) c s2 : take (S (length s1)) (s1 ++ c :: s2) = s1 ++ [c].
Proof.
  induction s1 as [| x s1 IH]; cbn; [done |]. f_equal. exact IH.
Qed.

Lemma find_last_not_of_app delims s1 c s2 :
  in_set delims c = false → Forall (λ x, in_set delims x = true) s2 →
  find_last_not_of delims (s1 ++ c :: s2) = Some (length s1).
Proof.
  intros Hc H. apply find_last_index_app; [by rewrite Hc |].
  eapply Forall_impl; [exact H |]. cbn. by intros x ->.
Qed.

Lemma find_first_not_of_app delims s1 c s2 :
  Forall (λ x, in_set delims x = true) s1 → in_set delims c = false →
  find_first_not_of delims (s1 ++ c :: s2) = Some (length s1).
Proof.
  intros H Hc. apply find_index_app_l; [| by rewrite Hc].
  eapply Forall_impl; [exact H |]. cbn. by intros x ->.
Qed.

(** [trim_with] on a string that splits as delimiters, a core, delimiters. *)
Lemma trim_with_all delims s :
  Forall (λ x, in_set delims x = true) s → trim_with delims s = [].
Proof.
  intros H. unfold trim_with, find_last_not_of, find_first_not_of.
  assert (Forall (λ x, negb (in_set delims x) = false) s) as Hn.
  { eapply Forall_impl; [exact H |]. cbn. by intros x ->. }
  by rewrite (proj2 (find_last_index_None _ _) Hn), (proj2 (find_index_None _ _) Hn).
Qed.

Definition core_of (delims m : str) : Prop :=
  m = [] ∨ (∃ a m', m = a :: m' ∧ in_set delims a = false) ∧
           (∃ m' z, m = m' ++ [z] ∧ in_set delims z = false).

Lemma trim_with_core delims pre m post :
  Forall (λ x, in_set delims x = true) pre → Forall (λ x, in_set delims x = true) post →
  core_of delims m → trim_with delims (pre ++ m ++ post) = m.
Proof.
  intros Hpre Hpost [-> | [(a & m1 & Hm1 & Ha) (m2 & z & Hm2 & Hz)]].
  - apply trim_with_all. by apply Forall_app.
  - unfold trim_with. rewrite Hm2.
    replace (pre ++ (m2 ++ [z]) ++ post) with ((pre ++ m2) ++ z :: post)
      by by rewrite <- !app_assoc.
    rewrite find_last_not_of_app by done. rewrite take_S_app, <- app_assoc, <- Hm2, Hm1.
    rewrite find_first_not_of_app by done. by rewrite drop_app_length.
Qed.

Lemma trim_with_decompose delims s :
  ∃ pre post, s = pre ++ trim_with delims s ++ post ∧
    Forall (λ x, in_set delims x = true) pre ∧ Forall (λ x, in_set delims x = true) post ∧
    core_of delims (trim_with delims s).
Proof.
  assert (∃ pre m post, s = pre ++ m ++ post ∧
    Forall (λ x, in_set delims x = true) pre ∧ Forall (λ x, in_set delims x = true) post ∧
    core_of delims m) as (pre & m & post & -> & Hpre & Hpost & Hm).
  { destruct (drop_while_spec (in_set delims) s) as (pre & Heq & Hpre & [H | (c & s2 & H & Hc)]).
    - exists pre, [], []. rewrite H in Heq. rewrite !app_nil_r in *. repeat split; auto. by left.
    - destruct (find_last_index_split (λ x, negb (in_set delims x)) (c :: s2))
        as [Hall | (s3 & d & s4 & Heq2 & Hd & Hall)].
      + inv Hall. by destruct (in_set delims c).
      + exists pre, (s3 ++ [d]), s4. rewrite Heq, H, Heq2. rewrite <- app_assoc.
        repeat split; auto.
        * eapply Forall_impl; [exact Hall |]. cbn. intros x. by destruct (in_set delims x).
        * right. split; [| exists s3, d; split; [done | by destruct (in_set delims d)]].
          destruct s3 as [| a s3]; cbn in *; injection Heq2 as -> Heq3; eauto. }
  exists pre, post. by rewrite trim_with_core.
Qed.

(** Text with no delimiter in it, and text that starts and ends with no blank. *)
Abbreviation free delims := (Forall (λ c, in_set delims c = false)).

Abbreviation trimmed := (core_of trim_delims).

Lemma trim_blanks pre s post :
  Forall (λ c, blank c = true) pre → Forall (λ c, blank c = true) post → trimmed s →
  trim (pre ++ s ++ post) = s.
Proof. apply trim_with_core. Qed.

Lemma trim_id s : trimmed s → trim s = s.
Proof. intros H. pose proof (trim_blanks [] s []) as Ht. rewrite app_nil_r in Ht. by apply Ht. Qed.

Lemma trim_trimmed s : trimmed (trim s).
Proof. by destruct (trim_with_decompose trim_delims s) as (? & ? & _ & _ & _ & ?). Qed.

(** Trimmed text from its two ends. *)
Lemma trimmed_ends a m z :
  in_set trim_delims a = false → in_set trim_delims z = false → trimmed (a :: m ++ [z]).
Proof. intros Ha Hz. right. split; [by eexists _, _ | by exists (a :: m), z]. Qed.

Lemma trimmed_app_l a pre s :
  in_set trim_delims a = false → trimmed s → s ≠ [] → trimmed (a :: pre ++ s).
Proof.
  intros Ha [-> | [_ (m & z & -> & Hz)]] Hne; [done |]. rewrite app_assoc. by apply trimmed_ends.
Qed.

Lemma trimmed_key_value key v :
  trimmed key → key ≠ [] → trimmed v → trimmed (key ++ lit "=" ++ v).
Proof.
  intros [-> | [(a & m & -> & Ha) _]] Hne Hv; [done |]. cbn.
  destruct v as [| c v]; [by apply trimmed_ends |].
  change ("="%char :: c :: v) with (["="%char] ++ (c :: v)). rewrite app_assoc.
  apply trimmed_app_l; done.
Qed.


Lemma trimmed_no_blank s : Forall (λ c, blank c = false) s → trimmed s.
Proof.
  intros H. destruct s as [| a s]; [by left |]. right. split.
  - inv H. by eexists _, _.
  - destruct (a :: s) as [| z m _] eqn:E using rev_ind; [done |]. exists m, z.
    apply Forall_app in H as [_ H]. by inv H.
Qed.

#[export] Hint Resolve trim_id trim_trimmed : dcl.

(** ** [tokenize] *)
Lemma tokenize_loop_split fuel source delims old_pos rslt :
  old_pos ≤ length source → length source < fuel + old_pos →
  tokenize_loop fuel source delims old_pos rslt
  = Some (rslt ++ (trim <$> split_on (in_set delims) (drop old_pos source))).
Proof.
  revert old_pos rslt. induction fuel as [| fuel IH]; intros old_pos rslt Hle Hf; [lia |].
  cbn [tokenize_loop]. unfold find_first_of.
  pose proof (length_drop source old_pos) as Hlen.
  destruct (find_index_split (in_set delims) (drop old_pos source))
    as [Hnone | (s1 & c & s2 & Heq & Hc & Hall)].
  - rewrite (proj2 (find_index_None _ _) Hnone). cbn.
    unfold substr. rewrite split_on_none, take_ge by (done || lia). done.
  - rewrite Heq, length_app in Hlen. cbn in Hlen. rewrite Heq, find_index_app_l by done. cbn.
    assert (drop (old_pos + length s1 + 1) source = s2) as Hd.
    { rewrite <- Nat.add_assoc, <- drop_drop, Heq.
      rewrite <- drop_drop, drop_app_length. done. }
    rewrite IH by lia. rewrite Hd, split_on_sep by done. cbn.
    rewrite <- app_assoc. cbn. do 3 f_equal. unfold substr. rewrite Heq.
    f_equal. by replace (old_pos + length s1 - old_pos) with (length s1) by lia;
      rewrite take_app_length.
Qed.

Lemma tokenize_split source delims :
  tokenize source delims
  = match source with [] => [] | _ => trim <$> split_on (in_set delims) source end.
Proof.
  unfold tokenize. destruct source as [| c s] eqn:Hs; [done |]. rewrite <- Hs.
  rewrite tokenize_loop_split by lia. done.
Qed.

Lemma trim_free delims s : free delims s → free delims (trim s).
Proof.
  destruct (trim_with_decompose trim_delims s) as (pre & post & Heq & _).
  rewrite Heq at 1. rewrite !Forall_app. tauto.
Qed.

Lemma tokenize_pieces source delims :
  Forall (λ w, free delims w ∧ trimmed w) (tokenize source delims).
Proof.
  rewrite tokenize_split. destruct source as [| c s]; [done |].
  apply Forall_fmap. eapply Forall_impl; [apply split_on_pieces |]. cbn. intros w Hw.
  split; [by apply trim_free | apply trim_trimmed].
Qed.

(** Trimmed pieces joined by a delimiter are cut back into the same pieces. *)
Lemma tokenize_join delims c ws :
  in_set delims c = true → Forall (λ w, free delims w ∧ trimmed w) ws → ws ≠ [] → ws ≠ [[]] →
  tokenize (join [c] ws) delims = ws.
Proof.
  intros Hc Hws Hne Hne'. rewrite tokenize_split.
  rewrite split_on_join; [| done | done | by eapply Forall_impl; [exact Hws | intros w [? _]]].
  assert (trim <$> ws = ws) as Ht.
  { clear Hne Hne'. induction Hws as [| w ws [_ Hw] _ IH]; [done |]. cbn. by rewrite IH, trim_id. }
  destruct (join [c] ws) eqn:E; [| done].
  destruct ws as [| w [| w' ws]]; [done | | by destruct w]. cbn in E. by rewrite E in Hne'.
Qed.

(** The pair tokenizer on text cut at its first delimiter. *)
Lemma tokenize_pair_first delims l d r left right :
  free delims l → in_set delims d = true →
  tokenize_pair (l ++ d :: r) left right false delims = (l, r).
Proof.
  intros Hl Hd. unfold tokenize_pair. destruct (l ++ d :: r) as [| c0 s0] eqn:Hs;
    [by destruct l |]. rewrite <- Hs.
  unfold find_first_of. rewrite drop_0, find_index_app_l by done.
  cbn [fmap option_fmap option_map Nat.add]. unfold substr.
  rewrite drop_0, take_app_length, <- drop_drop, drop_app_length, length_app. cbn [drop length].
  by rewrite drop_0, take_ge by lia.
Qed.

Lemma tokenize_pair_free delims s left right :
  free delims s → s ≠ [] → tokenize_pair s left right false delims = (s, right).
Proof.
  intros Hs Hne. unfold tokenize_pair. destruct s as [| c s'] eqn:Heq; [done |]. rewrite <- Heq in *.
  unfold find_first_of. by rewrite drop_0, (proj2 (find_index_None _ _) Hs).
Qed.

(** ** Case-insensitive comparison *)
Lemma equal_range_spec x y :
  length x = length y → equal_range char_compare x y = true ↔ toupper <$> x = toupper <$> y.
Proof.
  revert y. induction x as [| a x IH]; intros [| b y] Hlen; try done.
  cbn in *. rewrite andb_true_iff, IH by lia. unfold char_compare. rewrite bool_decide_eq_true.
  split; [intros [-> ->] | intros [= -> ->]]; done.
Qed.

Lemma compare_toupper x y : compare x y = true ↔ toupper <$> x = toupper <$> y.
Proof.
  unfold compare. destruct (Nat.eqb_spec (length x) (length y)) as [Hl | Hl]; cbn.
  - by apply equal_range_spec.
  - split; [done |]. intros H. apply (f_equal length) in H. by rewrite !length_fmap in H.
Qed.

(** ** Numbers *)
Lemma digits_length fuel base n : length (digits fuel base n) ≤ fuel.
Proof.
  revert n. induction fuel as [| f IH]; intros n; cbn; [done |].
  destruct (n <? base)%Z; cbn; [lia |]. rewrite length_app. cbn. specialize (IH (n / base)%Z). lia.
Qed.

Lemma print_dec_length n : (- 2 ^ 32 < n < 2 ^ 32)%Z → length (print_dec n) ≤ 33.
Proof.
  intros Hn.
  assert (∀ m, (0 ≤ m < 2 ^ 32)%Z → length (print_nat_base false 10 m) ≤ 32) as H.
  { intros m Hm. unfold print_nat_base. rewrite length_fmap.
    etransitivity; [apply digits_length |].
    destruct (Z.eq_dec m 0) as [-> |]; [cbn; lia |].
    pose proof (Z.log2_lt_pow2 m 32). pose proof (Z.log2_nonneg m). lia. }
  unfold print_dec. destruct (Z.ltb_spec n 0); cbn [length].
  - specialize (H (- n)%Z). lia.
  - specialize (H n). lia.
Qed.

Lemma to_string_int_print n : (INT_MIN ≤ n ≤ INT_MAX)%Z → to_string_int n = print_dec n.
Proof.
  unfold INT_MIN, INT_MAX. intros. unfold to_string_int.
  apply take_ge. pose proof (print_dec_length n). lia.
Qed.

Lemma print_dec_no_nul n : nul ∉ print_dec n.
Proof.
  intros H. pose proof (print_dec_chars n) as Hall. rewrite Forall_forall in Hall.
  by apply Hall in H.
Qed.

Lemma from_string_int_print n : (INT_MIN ≤ n ≤ INT_MAX)%Z → from_string_int (print_dec n) = n.
Proof.
  intros Hn. unfold from_string_int. rewrite c_str_id by apply print_dec_no_nul.
  unfold INT_MIN, INT_MAX in Hn. rewrite strtol_print_dec by lia. by apply s32_small.
Qed.

(** A printed number has no blank and no colon. *)
Lemma print_dec_plain n : free (lit ":") (print_dec n) ∧ trimmed (print_dec n).
Proof.
  assert (∀ c, negb (isxdigit c || bool_decide (c = "-"%char))
    || (negb (in_set (lit ":") c) && negb (blank c)) = true) as Hb.
  { apply all_bytes_forall. vm_compute. reflexivity. }
  assert (Forall (λ c, in_set (lit ":") c = false ∧ blank c = false) (print_dec n)) as Hall.
  { eapply Forall_impl; [apply print_dec_chars |]. cbn. intros c Hc. specialize (Hb c).
    rewrite Hc in Hb. cbn in Hb. by rewrite andb_true_iff, !negb_true_iff in Hb. }
  split; [| apply trimmed_no_blank]; (eapply Forall_impl; [exact Hall |]); by intros c [? ?].
Qed.

Lemma from_string_size_print n :
  (0 ≤ n < 2 ^ 64)%Z → from_string_size (print_dec n) = Ret n.
Proof.
  intros Hn. unfold from_string_size, print_dec. destruct (Z.ltb_spec n 0); [lia |].
  assert (strtol_digits 10 0 (print_nat_base false 10 n) = n) as Hv.
  { pose proof (print_nat_base_value false 10 n []) as Hv. rewrite app_nil_r in Hv.
    by rewrite Hv by lia. }
  destruct (Z.eq_dec n 0) as [-> |]; [reflexivity |].
  destruct (print_nat_base_head false 10 n) as (d & s & Heq & Hd); [lia.. |].
  rewrite Heq in *. rewrite strto_sign_digit by done.
  assert (isdigit (digit_char false d) = true) as ->.
  { assert (∃ k, 0 < k < 10 ∧ d = Z.of_nat k) as (k & Hk & ->) by (exists (Z.to_nat d); lia).
    do 10 (destruct k as [| k]; [first [lia | reflexivity] |]). lia. }
  rewrite Hv. destruct (Z.leb_spec (2 ^ 64) n); [lia | done].
Qed.

(** ** [format] *)

(** One pass over the template, [acc] being the text since the last brace. *)
Fixpoint format_spec (params : list str) (acc s : str) : outcome str :=
  match s with
  | [] => Ret acc
  | c :: s' =>
      if in_set braces c then
        if bool_decide (c = "{"%char) then app acc <$> format_spec params [] s'
        else p ← vec_at params (from_string_int acc); app p <$> format_spec params [] s'
      else format_spec params (acc ++ [c]) s'
  end.

Lemma format_spec_app params acc s1 s2 :
  Forall (λ c, in_set braces c = false) s1 →
  format_spec params acc (s1 ++ s2) = format_spec params (acc ++ s1) s2.
Proof.
  intros H. revert acc. induction H as [| c s1 Hc _ IH]; intros acc; cbn; [by rewrite app_nil_r |].
  rewrite Hc, IH, <- app_assoc. done.
Qed.

Lemma outcome_fmap_app (a b : str) (m : outcome str) : app a <$> (app b <$> m) = app (a ++ b) <$> m.
Proof. destruct m; cbn; [by rewrite <- app_assoc | done | done]. Qed.

Lemma outcome_fmap_bind {A B C} (f : B → C) (m : outcome A) (k : A → outcome B) :
  f <$> (m ≫= k) = m ≫= (λ a, f <$> k a).
Proof. by destruct m. Qed.

Lemma format_loop_spec fuel f old_pos rslt :
  old_pos ≤ length (str_ f) → length (str_ f) < fuel + old_pos →
  format_loop fuel f old_pos rslt
  = app rslt <$> format_spec (params_ f) [] (drop old_pos (str_ f)).
Proof.
  revert old_pos rslt. induction fuel as [| fuel IH]; intros old_pos rslt Hle Hf; [lia |].
  cbn [format_loop]. unfold find_first_of.
  pose proof (length_drop (str_ f) old_pos) as Hlen.
  destruct (find_index_split (in_set braces) (drop old_pos (str_ f)))
    as [Hnone | (s1 & c & s2 & Heq & Hc & Hall)].
  - rewrite (proj2 (find_index_None _ _) Hnone). cbn. unfold substr. rewrite take_ge by lia.
    pose proof (format_spec_app (params_ f) [] (drop old_pos (str_ f)) [] Hnone) as H.
    rewrite app_nil_r in H. by rewrite H.
  - rewrite Heq, length_app in Hlen. cbn in Hlen. rewrite Heq, find_index_app_l by done.
    cbn [fmap option_fmap option_map].
    assert (drop (old_pos + length s1 + 1) (str_ f) = s2) as Hd.
    { rewrite <- Nat.add_assoc, <- drop_drop, Heq.
      rewrite <- drop_drop, drop_app_length. done. }
    assert (str_ f !! (old_pos + length s1) = Some c) as Hat.
    { rewrite <- lookup_drop, Heq. by apply list_lookup_middle. }
    assert (substr old_pos (old_pos + length s1 - old_pos) (str_ f) = s1) as Hsub.
    { unfold substr. rewrite Heq. replace (old_pos + length s1 - old_pos) with (length s1) by lia.
      by rewrite take_app_length. }
    rewrite format_spec_app by done. cbn [app format_spec].
    rewrite Hat, Hsub, Hc.
    destruct (decide (c = "{"%char)) as [-> | Hne].
    + rewrite !bool_decide_true by done. rewrite IH by lia. by rewrite Hd, outcome_fmap_app.
    + rewrite !bool_decide_false by congruence.
      destruct (vec_at _ _) as [p | e |]; cbn [mbind outcome_bind]; [| done | done].
      rewrite IH by lia. by rewrite Hd, outcome_fmap_app.
Qed.

Lemma format_str_spec f : format_str f = format_spec (params_ f) [] (str_ f).
Proof.
  unfold format_str. rewrite format_loop_spec, drop_0 by lia.
  by destruct (format_spec _ _ _).
Qed.

(** Templates as the class documentation describes them: text and "{n}" markers. *)
Inductive piece := Text (s : str) | Marker (n : nat).

Definition print_piece (x : piece) : str :=
  match x with
  | Text s => s
  | Marker n => "{"%char :: print_dec (Z.of_nat n) ++ ["}"%char]
  end.

Definition render_piece (params : list str) (x : piece) : str :=
  match x with Text s => s | Marker n => default [] (params !! n) end.

Definition piece_ok (params : list str) (x : piece) : Prop :=
  match x with
  | Text s => Forall (λ c, in_set braces c = false) s
  | Marker n => n < length params ∧ (Z.of_nat n ≤ INT_MAX)%Z
  end.

Lemma print_dec_no_brace n : Forall (λ c, in_set braces c = false) (print_dec n).
Proof.
  eapply Forall_impl; [apply print_dec_chars |]. cbn. intros c Hc.
  apply in_set_false. intros H.
  change braces with ["{"%char; "}"%char] in H. rewrite !elem_of_cons in H.
  destruct H as [-> | [-> | H]]; [done.. | by apply not_elem_of_nil in H].
Qed.

Lemma format_spec_render params ps acc :
  Forall (piece_ok params) ps →
  format_spec params acc (concat (print_piece <$> ps))
  = Ret (acc ++ concat (render_piece params <$> ps)).
Proof.
  intros H. revert acc. induction H as [| x ps Hx _ IH]; intros acc; cbn; [by rewrite app_nil_r |].
  destruct x as [s | n]; cbn in Hx |- *.
  - rewrite format_spec_app by done. by rewrite IH, <- app_assoc.
  - destruct Hx as [Hn Hmax]. rewrite <- app_assoc.
    rewrite format_spec_app by apply print_dec_no_brace. cbn.
    rewrite from_string_int_print by (unfold INT_MIN, INT_MAX in *; lia).
    destruct (lookup_lt_is_Some_2 params n Hn) as [p Hp].
    rewrite (vec_at_nat _ _ _ Hp), Hp. cbn. by rewrite IH.
Qed.

(** ** Properties *)

(** [trim] removes exactly the delimiters at both ends: the source is the result between
    two runs of delimiters, the result neither starts nor ends with one, and trimming again
    changes nothing. *)
Theorem trim_strips delims s :
  (∃ pre post, s = pre ++ trim_with delims s ++ post ∧
    Forall (λ x, in_set delims x = true) pre ∧ Forall (λ x, in_set delims x = true) post) ∧
  core_of delims (trim_with delims s) ∧
  trim_with delims (trim_with delims s) = trim_with delims s.
Proof.
  destruct (trim_with_decompose delims s) as (pre & post & Heq & Hpre & Hpost & Hcore).
  repeat split; [eauto | done |].
  pose proof (trim_with_core delims [] (trim_with delims s) []) as H.
  rewrite app_nil_r in H. by apply H.
Qed.

(** C36. The tokenizer terminates and is the reference splitter: every source position is
    visited, the tokens are the trimmed pieces between delimiters, one more than there are
    delimiters, and none contains a delimiter. *)
Theorem tokenize_reference source delims :
  (source = [] → tokenize source delims = []) ∧
  (source ≠ [] →
    tokenize_loop (S (length source)) source delims 0 []
      = Some (trim <$> split_on (in_set delims) source) ∧
    tokenize source delims = trim <$> split_on (in_set delims) source ∧
    length (tokenize source delims) = S (length (List.filter (in_set delims) source)) ∧
    Forall (Forall (λ c, in_set delims c = false)) (tokenize source delims)).
Proof.
  split; [by intros -> |]. intros Hne.
  assert (tokenize source delims = trim <$> split_on (in_set delims) source) as Ht.
  { rewrite tokenize_split. by destruct source. }
  rewrite Ht. repeat split.
  - rewrite tokenize_loop_split by lia. by rewrite drop_0.
  - by rewrite length_fmap, split_on_length.
  - rewrite <- Ht. eapply Forall_impl; [apply tokenize_pieces |]. by intros w [? _].
Qed.

Example tokenize_reference_witness :
  [lit "a, b;c"] = [lit "a, b;c"] ∧
  tokenize (lit "a, b;c") (lit ",;") = [lit "a"; lit "b"; lit "c"] ∧
  tokenize_loop 7 (lit "a, b;c") (lit ",;") 0 []
      = Some (trim <$> split_on (in_set (lit ",;")) (lit "a, b;c")).
Proof.
  split; [reflexivity |]. split; [vm_compute; reflexivity |].
  apply (proj2 (tokenize_reference (lit "a, b;c") (lit ",;"))). vm_compute. discriminate.
Defined.

(** The pair tokenizer cuts at the last delimiter when greedy and at the first otherwise,
    dropping just that delimiter; when there is none the whole source goes to [right] (greedy,
    clearing [left]) or to [left] (keeping [right]), and an empty source changes neither. *)
Theorem tokenize_pair_cuts source left right greedy delims :
  let '(l, r) := tokenize_pair source left right greedy delims in
  (source = [] ∧ l = left ∧ r = right) ∨
  (Forall (λ c, in_set delims c = false) source ∧ source ≠ [] ∧
    (l, r) = if greedy then ([], source) else (source, right)) ∨
  (∃ d, in_set delims d = true ∧ source = l ++ d :: r ∧
    Forall (λ c, in_set delims c = false) (if greedy then r else l)).
Proof.
  destruct source as [| c0 s0] eqn:Hs; [by left |]. rewrite <- Hs.
  assert (source ≠ []) as Hne by by rewrite Hs.
  assert (∀ l d r, source = l ++ d :: r →
    substr 0 (length l) source = l ∧
    substr (length l + 1) (length source - length l - 1) source = r) as Hcut.
  { intros l d r Heq. unfold substr. rewrite drop_0. split; [by rewrite Heq, take_app_length |].
    rewrite <- drop_drop, Heq, drop_app_length. cbn [drop].
    rewrite length_app. cbn. apply take_ge. lia. }
  unfold tokenize_pair. rewrite Hs. rewrite <- Hs. destruct greedy.
  - unfold find_last_of.
    destruct (find_last_index_split (in_set delims) source) as [H | (l & d & r & Heq & Hd & H)].
    + rewrite (proj2 (find_last_index_None _ _) H). right. left. done.
    + rewrite Heq, find_last_index_app, <- Heq by done.
      destruct (Hcut l d r Heq) as [-> ->]. right. right. by exists d.
  - unfold find_first_of. rewrite drop_0.
    destruct (find_index_split (in_set delims) source) as [H | (l & d & r & Heq & Hd & H)].
    + rewrite (proj2 (find_index_None _ _) H). right. left. done.
    + rewrite Heq, find_index_app_l, <- Heq by done. cbn [fmap option_fmap option_map Nat.add].
      destruct (Hcut l d r Heq) as [-> ->]. right. right. by exists d.
Qed.

(** [format::str] terminates on every template and replaces every marker "{n}" of a
    well-formed template by the n-th parameter, keeping the text between the markers. *)
Theorem format_renders params ps :
  Forall (piece_ok params) ps →
  format_str (Format (concat (print_piece <$> ps)) params)
  = Ret (concat (render_piece params <$> ps)).
Proof. intros H. rewrite format_str_spec. cbn [str_ params_]. by rewrite format_spec_render. Qed.

Example format_renders_witness :
  Forall (piece_ok [lit "1"; lit "test"])
    [Text (lit "The "); Marker 0; Text (lit "-st "); Marker 1] ∧
  format_str (Format (lit "The {0}-st {1}") [lit "1"; lit "test"]) = Ret (lit "The 1-st test").
Proof.
  assert (Forall (piece_ok [lit "1"; lit "test"])
    [Text (lit "The "); Marker 0; Text (lit "-st "); Marker 1]) as H.
  { repeat constructor; vm_compute; congruence || lia. }
  split; [exact H |]. exact (format_renders _ _ H).
Defined.

(** Every [int] survives [to_string<int>] followed by [from_string<int>], and
    [from_string<int>] always lands in the range of [int]. *)
Theorem int_string_roundtrip n s :
  (INT_MIN ≤ n ≤ INT_MAX)%Z →
  from_string_int (to_string_int n) = n ∧ (INT_MIN ≤ from_string_int s ≤ INT_MAX)%Z.
Proof.
  intros H. split; [| apply s32_range].
  rewrite to_string_int_print by done. by apply from_string_int_print.
Qed.

Example int_string_roundtrip_witness :
  (INT_MIN ≤ -2147483648 ≤ INT_MAX)%Z ∧
  from_string_int (to_string_int (-2147483648)) = (-2147483648)%Z.
Proof.
  assert (INT_MIN ≤ -2147483648 ≤ INT_MAX)%Z as H by (unfold INT_MIN, INT_MAX; lia).
  split; [exact H |]. apply (int_string_roundtrip (-2147483648) [] H).
Defined.
