(* ===== verification/Strtod.v ===== *)
(** * [my_strtod] and the conversions to double of [strutils.cpp].

    A [double] is an IEEE 754 binary64 number, given by the specification of floating-point
    arithmetic in the Standard Library: every operation rounds to the nearest, ties to even. *)
From S2P Require Export StrUtils.
From Stdlib Require Import SpecFloat.

Abbreviation double := spec_float.

Definition of_int (z : Z) : double := binary_normalize 53 1024 z 0 false.

Definition dadd : double → double → double := SFadd 53 1024.

Definition dmul : double → double → double := SFmul 53 1024.

Definition ddiv : double → double → double := SFdiv 53 1024.

Definition HUGE_VAL : double := S754_infinity false.

(** DBL_MIN_EXP and DBL_MAX_EXP are exponents of two. *)
Definition DBL_MIN_EXP : Z := -1021.

Definition DBL_MAX_EXP : Z := 1024.

Definition conversion_error {A} : outcome A := Throw (Exn type_conversion_exception []).

(** ** The parts of the text *)

(** A loop over digits: the number, the count of digits, what follows. *)
Fixpoint digits_loop (number : double) (num_digits : Z) (p : str) : double * Z * str :=
  match p with
  | c :: p' =>
      if isdigit c
      then digits_loop (dadd (dmul number (of_int 10)) (of_int (ord c - 48))) (num_digits + 1) p'
      else (number, num_digits, p)
  | [] => (number, num_digits, [])
  end.

(** The digits of the exponent, an [int] whose overflow is undefined. *)
Fixpoint exponent_loop (n : Z) (p : str) : outcome (Z * str) :=
  match p with
  | c :: p' =>
      if isdigit c
      then let n' := (n * 10 + (ord c - 48))%Z in
           if (n' <=? INT_MAX)%Z then exponent_loop n' p' else Undef
      else Ret (n, p)
  | [] => Ret (n, [])
  end.

Definition decimal_part (number : double) (num_digits : Z) (p : str) : double * Z * Z * str :=
  match p with
  | "."%char :: p' =>
      let '(number', num_digits', p'') := digits_loop number num_digits p' in
      (number', num_digits', num_digits' - num_digits, p'')%Z
  | _ => (number, num_digits, 0%Z, p)
  end.

Definition exponent_part (exponent : Z) (p : str) : outcome (Z * str) :=
  match p with
  | c :: p' =>
      if Ascii.eqb c "e" || Ascii.eqb c "E" then
        let '(negative, p1) := strto_sign p' in
        '(n, p2) ← exponent_loop 0 p1;
        let exponent' := (if negative then exponent - n else exponent + n)%Z in
        if (INT_MIN <=? exponent')%Z && (exponent' <=? INT_MAX)%Z then Ret (exponent', p2) else Undef
      else Ret (exponent, p)
  | [] => Ret (exponent, p)
  end.

(** The loop over the bits of the exponent, from the lowest. *)
Fixpoint scale_bits (down : bool) (n : positive) (number p10 : double) : double :=
  let apply := if down then ddiv number p10 else dmul number p10 in
  match n with
  | xH => apply
  | xO n' => scale_bits down n' number (dmul p10 p10)
  | xI n' => scale_bits down n' apply (dmul p10 p10)
  end.

Definition scale (number : double) (exponent : Z) : double :=
  match exponent with
  | Z0 => number
  | Zpos n => scale_bits false n number (of_int 10)
  | Zneg n => scale_bits true n number (of_int 10)
  end.

(** The end of the function: positive overflow is an error. *)
Definition checked (number : double) (p : str) : outcome (double * str) :=
  if SFeqb number HUGE_VAL then conversion_error else Ret (number, p).

(** ** [my_strtod]: the number and where [*endptr] points *)
Definition my_strtod (s : str) : outcome (double * str) :=
  let '(negative, p) := strto_sign (drop_while isspace (c_str s)) in
  let '(number, num_digits, p) := digits_loop (S754_zero false) 0 p in
  let '(number, num_digits, num_decimals, p) := decimal_part number num_digits p in
  if (INT_MAX <? num_digits)%Z then Undef
  else if (num_digits =? 0)%Z then conversion_error
  else
    let number := if negative then SFopp number else number in
    '(exponent, p) ← exponent_part (- num_decimals) p;
    if (exponent <? DBL_MIN_EXP)%Z || (DBL_MAX_EXP <? exponent)%Z then conversion_error
    else
      checked (scale number exponent) p.

Definition from_string_double (value : str) : outcome double := fst <$> my_strtod value.

(** The conversion of a [double] to [float]. *)
Definition to_float (d : double) : spec_float :=
  match d with
  | S754_finite s m e => binary_normalize 24 128 (cond_Zopp s (Zpos m)) e s
  | _ => d
  end.

Definition from_string_float (value : str) : outcome spec_float :=
  to_float <$> from_string_double value.

(** ** [to_string<double>]

    The generic [to_string] prints to a stream in the classic locale: six significant digits,
    as "%g". *)

(** [10^k <= num / den] *)
Definition reaches (num den k : Z) : bool :=
  if (0 <=? k)%Z then (den * 10 ^ k <=? num)%Z else (den <=? num * 10 ^ (- k))%Z.

(** The largest power of ten up to a number, searched from [k] downwards. *)
Fixpoint decimal_exponent (fuel : nat) (num den k : Z) : Z :=
  match fuel with
  | O => k
  | S f => if reaches num den k then k else decimal_exponent f num den (k - 1)
  end.

(** The quotient to the nearest integer, ties to even. *)
Definition round_div (num den : Z) : Z :=
  let '(q, r) := Z.div_eucl num den in
  match (2 * r ?= den)%Z with
  | Lt => q
  | Gt => q + 1
  | Eq => if Z.even q then q else q + 1
  end%Z.

Definition six_digits (num den k : Z) : Z :=
  if (k <=? 5)%Z then round_div (num * 10 ^ (5 - k)) den else round_div num (den * 10 ^ (k - 5)).

Definition digit_text (l : list Z) : str := digit_char false <$> l.

Definition strip_zeros (s : str) : str := rdrop_while (λ c, Ascii.eqb c "0") s.

Definition fraction (s : str) : str := match strip_zeros s with [] => [] | f => "."%char :: f end.

(** The digits [d] of a number whose first one has the weight [10^k]. *)
Definition print_g (d : str) (k : Z) : str :=
  if (k <? -4)%Z || (6 <=? k)%Z then
    take 1 d ++ fraction (drop 1 d) ++ lit "e" ++ (if (k <? 0)%Z then lit "-" else lit "+")
      ++ (if (Z.abs k <? 10)%Z then lit "0" else []) ++ print_dec (Z.abs k)
  else if (k <? 0)%Z then lit "0" ++ fraction (replicate (Z.to_nat (- k - 1)) "0"%char ++ d)
  else take (Z.to_nat k + 1) d ++ fraction (drop (Z.to_nat k + 1) d).

(** A positive number [num / den] with at most 309 digits before the point. *)
Definition print_ratio (num den : Z) : str :=
  let k := decimal_exponent 640 num den 308 in
  let d := six_digits num den k in
  if (d =? 10 ^ 6)%Z then print_g (digit_text (digits 6 10 (10 ^ 5))) (k + 1)
  else print_g (digit_text (digits 6 10 d)) k.

Definition to_string_double (d : double) : str :=
  match d with
  | S754_zero s => (if s then lit "-" else []) ++ lit "0"
  | S754_infinity s => (if s then lit "-" else []) ++ lit "inf"
  | S754_nan => lit "nan"
  | S754_finite s m e =>
      (if s then lit "-" else [])
        ++ (if (0 <=? e)%Z then print_ratio (Zpos m * 2 ^ e) 1 else print_ratio (Zpos m) (2 ^ (- e)))
  end.

(** ** Lemmas: integers below 2^53 are exact *)
Lemma Zdigits2_log2 m : (0 < m)%Z → Zdigits2 m = (Z.log2 m + 1)%Z.
Proof.
  destruct m as [| p |]; [lia | intros _ | lia]. unfold Zdigits2.
  induction p as [p IH | p IH |]; cbn [digits2_pos]; [| | done];
    rewrite Pos2Z.inj_succ, IH, <- Z.add_1_r; f_equal.
  - change (Zpos p~1) with (2 * Zpos p + 1)%Z. by rewrite Z.log2_succ_double by lia.
  - change (Zpos p~0) with (2 * Zpos p)%Z. by rewrite Z.log2_double by lia.
Qed.

Definition whole (m : Z) : shr_record := Build_shr_record m false false.

Lemma iter_shr m p : iter_pos shr_1 p (whole (m * 2 ^ Zpos p)) = whole m.
Proof.
  assert (∀ m, shr_1 (whole (m * 2)) = whole m) as H1.
  { intros q. rewrite Z.mul_comm. by destruct q. }
  revert m. induction p as [p IH | p IH |]; intros m; cbn [iter_pos].
  - change (Zpos p~1) with (2 * Zpos p + 1)%Z.
    replace (m * 2 ^ (2 * Zpos p + 1))%Z with (m * 2 ^ Zpos p * 2 ^ Zpos p * 2)%Z; [by rewrite H1, !IH |].
    rewrite Z.pow_add_r, <- Z.add_diag, Z.pow_add_r by lia. lia.
  - change (Zpos p~0) with (2 * Zpos p)%Z.
    replace (m * 2 ^ (2 * Zpos p))%Z with (m * 2 ^ Zpos p * 2 ^ Zpos p)%Z; [by rewrite !IH |].
    rewrite <- Z.add_diag, Z.pow_add_r by lia. lia.
  - apply H1.
Qed.

Lemma shr_whole m k e :
  (0 ≤ k)%Z → shr (whole (m * 2 ^ k)) e k = (whole m, (e + k)%Z).
Proof.
  intros Hk. destruct k as [| p |]; [| | lia]; cbn [shr].
  - by rewrite Z.mul_1_r, Z.add_0_r.
  - by rewrite iter_shr.
Qed.

Lemma fexp_normal x : (-1021 ≤ x)%Z → fexp 53 1024 x = (x - 53)%Z.
Proof. intros. unfold fexp, emin. lia. Qed.

(** A 53-bit mantissa with zeroes below it is rounded to itself. *)
Lemma round_whole s m j e :
  (2 ^ 52 ≤ m < 2 ^ 53)%Z → (0 ≤ j)%Z → (-1074 ≤ e + j ≤ 971)%Z →
  binary_round_aux 53 1024 s (m * 2 ^ j) e loc_Exact = S754_finite s (Z.to_pos m) (e + j).
Proof.
  intros Hm Hj He. assert (Z.log2 m = 52)%Z as Hlog by (by apply Z.log2_unique).
  assert (∀ i k, (0 ≤ i)%Z → (-1074 ≤ k + i)%Z →
    shr_fexp 53 1024 (m * 2 ^ i) k loc_Exact = (whole m, (k + i)%Z)) as Hshr.
  { intros i k Hi Hk. unfold shr_fexp.
    assert (0 < m * 2 ^ i)%Z by (apply Z.mul_pos_pos; [lia | by apply Z.pow_pos_nonneg]).
    rewrite Zdigits2_log2, Z.log2_mul_pow2, Hlog, fexp_normal by lia.
    replace (i + 52 + 1 + k - 53 - k)%Z with i by lia. by apply shr_whole. }
  unfold binary_round_aux. rewrite Hshr by lia. cbn [whole shr_m loc_of_shr_record round_nearest_even].
  rewrite <- (Z.mul_1_r m), <- (Z.pow_0_r 2) at 1. rewrite Hshr by lia. cbn [whole shr_m].
  rewrite Z.add_0_r. destruct m as [| p |]; [lia | | lia].
  destruct (Z.leb_spec (e + j) (1024 - 53)); [done | lia].
Qed.

(** The number [m] as a double. *)
Definition canon (m : Z) : double :=
  S754_finite false (Z.to_pos (m * 2 ^ (52 - Z.log2 m))) (Z.log2 m - 52).

Lemma log2_small m : (0 < m < 2 ^ 53)%Z → (0 ≤ Z.log2 m ≤ 52)%Z.
Proof.
  intros Hm. split; [apply Z.log2_nonneg |].
  assert (Z.log2 m < 53)%Z; [apply Z.log2_lt_pow2; lia | lia].
Qed.

Lemma mantissa_range m : (0 < m < 2 ^ 53)%Z → (2 ^ 52 ≤ m * 2 ^ (52 - Z.log2 m) < 2 ^ 53)%Z.
Proof.
  intros Hm. pose proof (log2_small m Hm). pose proof (Z.log2_spec m ltac:(lia)) as [H1 H2].
  rewrite <- Z.add_1_r in H2. set (l := Z.log2 m) in *.
  assert (0 < 2 ^ (52 - l))%Z by (apply Z.pow_pos_nonneg; lia). split.
  - replace 52%Z with (l + (52 - l))%Z at 1 by lia. rewrite Z.pow_add_r by lia. nia.
  - replace 53%Z with (l + 1 + (52 - l))%Z by lia. rewrite Z.pow_add_r by lia. nia.
Qed.

Lemma canon_round s a j e :
  (0 < a < 2 ^ 53)%Z → (0 ≤ j)%Z → (e + j = Z.log2 a - 52)%Z →
  binary_round_aux 53 1024 s (a * 2 ^ (52 - Z.log2 a) * 2 ^ j) e loc_Exact
  = S754_finite s (Z.to_pos (a * 2 ^ (52 - Z.log2 a))) (Z.log2 a - 52).
Proof.
  intros Ha Hj He. pose proof (log2_small a Ha). rewrite round_whole; [by rewrite He | | done | lia].
  by apply mantissa_range.
Qed.
Lemma iter_xO p d : Zpos (Pos.iter xO p d) = (Zpos p * 2 ^ Zpos d)%Z.
Proof.
  induction d as [| d IH] using Pos.peano_ind; [rewrite Z.mul_comm; done |].
  rewrite Pos.iter_succ, Pos2Z.inj_succ, Z.pow_succ_r by lia.
  change (Zpos (Pos.iter xO p d)~0) with (2 * Zpos (Pos.iter xO p d))%Z. rewrite IH. lia.
Qed.

Lemma shl_align_to m e e' :
  (e' ≤ e)%Z → Zpos (fst (shl_align m e e')) = (Zpos m * 2 ^ (e - e'))%Z ∧ snd (shl_align m e e') = e'.
Proof.
  intros He. unfold shl_align. destruct (e' - e)%Z as [| d | d] eqn:E; [| lia |].
  - replace (e - e')%Z with 0%Z by lia. rewrite Z.mul_1_r. split; [done | cbn; lia].
  - cbn [fst snd]. rewrite iter_xO. by replace (e - e')%Z with (Zpos d) by lia.
Qed.

Lemma shl_align_not m e e' : (e ≤ e')%Z → shl_align m e e' = (m, e).
Proof. intros He. unfold shl_align. destruct (e' - e)%Z eqn:E; [done | done | lia]. Qed.

(** An integer with zeroes below the point is rounded to itself. *)
Lemma binary_round_whole s a e M :
  (0 < a < 2 ^ 53)%Z → (e ≤ 0)%Z → (-1021 ≤ e)%Z → Zpos M = (a * 2 ^ (- e))%Z →
  binary_round 53 1024 s M e = S754_finite s (Z.to_pos (a * 2 ^ (52 - Z.log2 a))) (Z.log2 a - 52).
Proof.
  intros Ha He Hmin HM. pose proof (log2_small a Ha) as Hl.
  assert (Zpos (digits2_pos M) + e = Z.log2 a + 1)%Z as Hd.
  { change (Zpos (digits2_pos M)) with (Zdigits2 (Zpos M)).
    rewrite Zdigits2_log2, HM, Z.log2_mul_pow2 by lia. lia. }
  unfold binary_round. rewrite Hd, fexp_normal by lia.
  replace (Z.log2 a + 1 - 53)%Z with (Z.log2 a - 52)%Z by lia.
  destruct (Z.le_gt_cases e (Z.log2 a - 52)) as [Hle | Hgt].
  - rewrite shl_align_not, HM by done.
    replace (a * 2 ^ (- e))%Z with (a * 2 ^ (52 - Z.log2 a) * 2 ^ (Z.log2 a - 52 - e))%Z.
    + apply canon_round; lia.
    + rewrite <- Z.mul_assoc, <- Z.pow_add_r by lia. f_equal. f_equal. lia.
  - destruct (shl_align_to M e (Z.log2 a - 52)) as [Hf Hs]; [lia |].
    destruct (shl_align M e (Z.log2 a - 52)) as [M' e']. cbn in Hf, Hs. subst e'. rewrite Hf, HM.
    rewrite <- Z.mul_assoc, <- Z.pow_add_r by lia.
    replace (- e + (e - (Z.log2 a - 52)))%Z with (52 - Z.log2 a)%Z by lia.
    rewrite <- (Z.mul_1_r (a * _)), <- (Z.pow_0_r 2) at 1. apply canon_round; lia.
Qed.

Lemma of_int_canon m : (0 < m < 2 ^ 53)%Z → of_int m = canon m.
Proof.
  intros Hm. destruct m as [| p |]; [lia | | lia]. unfold of_int, binary_normalize.
  apply binary_round_whole; [done | lia | lia | cbn; lia].
Qed.

Lemma of_int_zero : of_int 0 = S754_zero false.
Proof. reflexivity. Qed.

(** A number with its sign. *)
Definition signed (negative : bool) (d : double) : double := if negative then SFopp d else d.

Lemma dmul_signed s a b :
  (0 ≤ a)%Z → (0 ≤ b)%Z → (a * b < 2 ^ 53)%Z → (a < 2 ^ 53)%Z → (b < 2 ^ 53)%Z →
  dmul (signed s (of_int a)) (of_int b) = signed s (of_int (a * b)).
Proof.
  intros Ha Hb Hab Ha' Hb'. destruct (decide (a = 0%Z)) as [-> | Hna].
  { rewrite of_int_zero. destruct (decide (b = 0%Z)) as [-> | Hnb]; [by destruct s |].
    rewrite of_int_canon by lia. by destruct s. }
  destruct (decide (b = 0%Z)) as [-> | Hnb];
    [rewrite Z.mul_0_r, of_int_zero, of_int_canon by lia; by destruct s |].
  assert (0 < a * b)%Z by nia. rewrite !of_int_canon by lia. unfold canon.
  transitivity (S754_finite s (Z.to_pos (a * b * 2 ^ (52 - Z.log2 (a * b)))) (Z.log2 (a * b) - 52));
    [| by destruct s].
  transitivity (dmul (S754_finite s (Z.to_pos (a * 2 ^ (52 - Z.log2 a))) (Z.log2 a - 52))
    (S754_finite false (Z.to_pos (b * 2 ^ (52 - Z.log2 b))) (Z.log2 b - 52))); [by destruct s |].
  unfold dmul, SFmul. rewrite xorb_false_r.
  pose proof (mantissa_range a ltac:(lia)). pose proof (mantissa_range b ltac:(lia)).
  pose proof (log2_small a ltac:(lia)). pose proof (log2_small b ltac:(lia)).
  pose proof (log2_small (a * b) ltac:(lia)).
  pose proof (Z.log2_mul_below a b ltac:(lia) ltac:(lia)) as Hl.
  rewrite Pos2Z.inj_mul, !Z2Pos.id by lia.
  replace (a * 2 ^ (52 - Z.log2 a) * (b * 2 ^ (52 - Z.log2 b)))%Z
    with (a * b * 2 ^ (52 - Z.log2 (a * b)) * 2 ^ (52 + Z.log2 (a * b) - Z.log2 a - Z.log2 b))%Z.
  - apply canon_round; lia.
  - transitivity (a * b * (2 ^ (52 - Z.log2 a) * 2 ^ (52 - Z.log2 b)))%Z; [| lia].
    rewrite <- Z.mul_assoc, <- !Z.pow_add_r by lia. f_equal. f_equal. lia.
Qed.

Lemma dmul_int a b :
  (0 ≤ a)%Z → (0 ≤ b)%Z → (a * b < 2 ^ 53)%Z → (a < 2 ^ 53)%Z → (b < 2 ^ 53)%Z →
  dmul (of_int a) (of_int b) = of_int (a * b).
Proof. exact (dmul_signed false a b). Qed.

Lemma dadd_int a b :
  (0 ≤ a)%Z → (0 ≤ b)%Z → (a + b < 2 ^ 53)%Z → dadd (of_int a) (of_int b) = of_int (a + b).
Proof.
  intros Ha Hb Hab. destruct (decide (a = 0%Z)) as [-> | Hna].
  { rewrite of_int_zero. destruct (decide (b = 0%Z)) as [-> | Hnb]; [done |]. by rewrite Z.add_0_l, of_int_canon by lia. }
  destruct (decide (b = 0%Z)) as [-> | Hnb]; [by rewrite Z.add_0_r, of_int_zero, of_int_canon by lia |].
  rewrite !of_int_canon by lia. unfold dadd, SFadd, canon. cbn [cond_Zopp].
  pose proof (log2_small a ltac:(lia)). pose proof (log2_small b ltac:(lia)).
  set (ez := Z.min (Z.log2 a - 52) (Z.log2 b - 52)).
  assert (∀ x, (0 < x < 2 ^ 53)%Z → (ez ≤ Z.log2 x - 52)%Z →
    Zpos (fst (shl_align (Z.to_pos (x * 2 ^ (52 - Z.log2 x))) (Z.log2 x - 52) ez)) = x * 2 ^ (- ez))%Z as Hx.
  { intros x Hx Hez. pose proof (mantissa_range x Hx). pose proof (log2_small x Hx).
    destruct (shl_align_to (Z.to_pos (x * 2 ^ (52 - Z.log2 x))) (Z.log2 x - 52) ez Hez) as [-> _].
    rewrite Z2Pos.id by lia. rewrite <- Z.mul_assoc, <- Z.pow_add_r by lia. f_equal. f_equal. lia. }
  fold ez. rewrite !Hx by lia. rewrite <- Z.mul_add_distr_r.
  assert (0 < (a + b) * 2 ^ (- ez))%Z by (apply Z.mul_pos_pos; [lia | apply Z.pow_pos_nonneg; lia]).
  destruct ((a + b) * 2 ^ (- ez))%Z as [| M |] eqn:E; [lia | | lia]. cbn [binary_normalize].
  apply binary_round_whole; lia.
Qed.

(** ** Lemmas: the text of a number *)

(** The value of digits after a value [v]. *)
Definition decimal (v : Z) (ds : str) : Z := foldl (λ v c, v * 10 + (ord c - 48))%Z v ds.

Definition all_digits (ds : str) : Prop := Forall (λ c, isdigit c = true) ds.

Definition not_digit (p : str) : Prop := match p with [] => True | c :: _ => isdigit c = false end.

Lemma digit_range c : isdigit c = true → (0 ≤ ord c - 48 ≤ 9)%Z.
Proof. unfold isdigit, in_range. rewrite andb_true_iff, !Z.leb_le. lia. Qed.

Lemma decimal_app v ds1 ds2 : decimal v (ds1 ++ ds2) = decimal (decimal v ds1) ds2.
Proof. apply foldl_app. Qed.

Lemma decimal_grows v ds : (0 ≤ v)%Z → all_digits ds → (v ≤ decimal v ds)%Z.
Proof.
  intros Hv Hds. revert v Hv. induction Hds as [| c ds Hc _ IH]; intros v Hv; cbn; [done |].
  pose proof (digit_range c Hc). specialize (IH (v * 10 + (ord c - 48))%Z ltac:(lia)).
  unfold decimal in IH. lia.
Qed.

Lemma digits_loop_int v nd ds p :
  (0 ≤ v)%Z → all_digits ds → (decimal v ds < 2 ^ 53)%Z → not_digit p →
  digits_loop (of_int v) nd (ds ++ p)
  = (of_int (decimal v ds), nd + Z.of_nat (length ds), p)%Z.
Proof.
  intros Hv Hds Hlt Hp. revert v nd Hv Hlt. induction Hds as [| c ds Hc Hds IH]; intros v nd Hv Hlt.
  - cbn. rewrite Z.add_0_r. destruct p as [| c p]; [done |]. cbn in Hp |- *. by rewrite Hp.
  - cbn [app digits_loop]. rewrite Hc. pose proof (digit_range c Hc) as Hr.
    change (decimal v (c :: ds)) with (decimal (v * 10 + (ord c - 48)) ds) in *.
    pose proof (decimal_grows (v * 10 + (ord c - 48)) ds ltac:(lia) Hds) as Hg.
    rewrite dmul_int, dadd_int by lia. rewrite IH by lia. cbn [length]. f_equal. f_equal. lia.
Qed.

Lemma exponent_loop_value n ds p :
  (0 ≤ n)%Z → all_digits ds → (decimal n ds ≤ INT_MAX)%Z → not_digit p →
  exponent_loop n (ds ++ p) = Ret (decimal n ds, p).
Proof.
  intros Hn Hds Hlt Hp. revert n Hn Hlt. induction Hds as [| c ds Hc Hds IH]; intros n Hn Hlt.
  - cbn. destruct p as [| c p]; [done |]. cbn in Hp |- *. by rewrite Hp.
  - cbn [app exponent_loop]. rewrite Hc. pose proof (digit_range c Hc) as Hr.
    change (decimal n (c :: ds)) with (decimal (n * 10 + (ord c - 48)) ds) in *.
    pose proof (decimal_grows (n * 10 + (ord c - 48)) ds ltac:(lia) Hds) as Hg.
    destruct (Z.leb_spec (n * 10 + (ord c - 48)) INT_MAX); [| lia]. apply IH; [lia | done].
Qed.

(** A sign, or none. *)
Variant sign := NoSign | Plus | Minus.

Definition sign_text (s : sign) : str :=
  match s with NoSign => [] | Plus => lit "+" | Minus => lit "-" end.

Definition is_minus (s : sign) : bool := match s with Minus => true | _ => false end.

Definition point (fs : str) : str := match fs with [] => [] | _ => "."%char :: fs end.

Definition exponent_text (ex : option (sign * str)) : str :=
  match ex with None => [] | Some (s, es) => lit "e" ++ sign_text s ++ es end.

Definition exponent_of (ex : option (sign * str)) : Z :=
  match ex with
  | None => 0
  | Some (s, es) => if is_minus s then - decimal 0 es else decimal 0 es
  end.

(** What follows a number does not continue it. *)
Definition stops (p : str) : Prop :=
  match p with
  | [] => True
  | c :: _ => isdigit c = false ∧ c ≠ "."%char ∧ c ≠ "e"%char ∧ c ≠ "E"%char ∧ c ≠ "+"%char ∧ c ≠ "-"%char
  end.

Definition not_sign (p : str) : Prop :=
  match p with [] => True | c :: _ => c ≠ "+"%char ∧ c ≠ "-"%char end.

Lemma strto_sign_text s p : not_sign p → strto_sign (sign_text s ++ p) = (is_minus s, p).
Proof.
  intros Hp. destruct s; [| done | done]. cbn [sign_text app is_minus].
  destruct p as [| c p]; [done |]. destruct Hp as [H1 H2].
  destruct c as [[] [] [] [] [] [] [] []]; done.
Qed.

Lemma digits_not_sign ds p : all_digits ds → not_sign p → not_sign (ds ++ p).
Proof.
  intros Hds Hp. destruct Hds as [| c ds Hc _]; [done |]. cbn. split; intros ->; discriminate Hc.
Qed.

Lemma drop_blanks blanks p :
  Forall (λ c, isspace c = true) blanks → (match p with [] => True | c :: _ => isspace c = false end) →
  drop_while isspace (blanks ++ p) = p.
Proof.
  intros Hb Hp. destruct p as [| c p]; [rewrite app_nil_r; by apply drop_while_all | by apply drop_while_stop].
Qed.

Lemma stops_not p : stops p → not_digit p ∧ not_sign p.
Proof. destruct p; cbn; [done |]. tauto. Qed.

Lemma decimal_part_none number nd c p :
  c ≠ "."%char → decimal_part number nd (c :: p) = (number, nd, 0%Z, c :: p).
Proof. destruct c as [[] [] [] [] [] [] [] []]; done. Qed.

Lemma decimal_part_text v nd fs p :
  (0 ≤ v)%Z → all_digits fs → (decimal v fs < 2 ^ 53)%Z → not_digit p → (∀ p', p ≠ "."%char :: p') →
  decimal_part (of_int v) nd (point fs ++ p)
  = (of_int (decimal v fs), nd + Z.of_nat (length fs), Z.of_nat (length fs), p)%Z.
Proof.
  intros Hv Hfs Hlt Hp Hd. destruct fs as [| c fs].
  - cbn [point app length]. rewrite !Z.add_0_r. destruct p as [| c p]; [done |].
    apply decimal_part_none. intros ->. by eapply Hd.
  - cbn [point app]. unfold decimal_part.
    change (c :: fs ++ p) with ((c :: fs) ++ p). rewrite digits_loop_int by done. f_equal. f_equal. lia.
Qed.

Lemma exponent_part_text k ex p :
  match ex with
  | None => True
  | Some (_, es) => all_digits es ∧ (decimal 0 es + k ≤ INT_MAX)%Z
  end → (0 ≤ k ≤ INT_MAX)%Z → stops p →
  exponent_part (- k) (exponent_text ex ++ p) = Ret (exponent_of ex - k, p)%Z.
Proof.
  intros Hex Hk Hp. destruct (stops_not p Hp) as [Hnd Hns]. destruct ex as [[s es] |].
  - destruct Hex as [Hes Hle]. pose proof (decimal_grows 0 es ltac:(lia) Hes) as Hg.
    cbn [exponent_text exponent_of]. rewrite <- !app_assoc. change (lit "e") with ["e"%char].
    cbn [app exponent_part Ascii.eqb Bool.eqb orb].
    rewrite strto_sign_text by by apply digits_not_sign.
    rewrite exponent_loop_value by (done || lia). cbn [mbind outcome_bind].
    replace (if is_minus s then - k - decimal 0 es else - k + decimal 0 es)%Z
      with ((if is_minus s then - decimal 0 es else decimal 0 es) - k)%Z by (destruct (is_minus s); lia).
    unfold INT_MIN, INT_MAX in *.
    destruct (Z.leb_spec (- 2 ^ 31) ((if is_minus s then - decimal 0 es else decimal 0 es) - k)),
      (Z.leb_spec ((if is_minus s then - decimal 0 es else decimal 0 es) - k) (2 ^ 31 - 1)); cbn; try done;
      destruct (is_minus s); lia.
  - cbn [exponent_text exponent_of app]. change (0 - k)%Z with (- k)%Z. unfold exponent_part.
    destruct p as [| c p]; [done |]. destruct Hp as (_ & _ & H1 & H2 & _).
    assert (Ascii.eqb c "e" || Ascii.eqb c "E" = false) as ->; [| done].
    destruct (Ascii.eqb_spec c "e"); [done |]. by destruct (Ascii.eqb_spec c "E").
Qed.
(** The text after the sign starts with a digit or a point, the exponent with neither. *)
Lemma number_head ds fs t :
  all_digits ds → ds ++ fs ≠ [] →
  ∃ c t', ds ++ point fs ++ t = c :: t' ∧ (isdigit c = true ∨ c = "."%char).
Proof.
  intros Hds Hne. destruct Hds as [| c ds Hc _]; [| by eauto]. destruct fs as [| c fs]; [done |].
  cbn. eauto.
Qed.

Lemma head_plain c : isdigit c = true ∨ c = "."%char → isspace c = false ∧ c ≠ "+"%char ∧ c ≠ "-"%char.
Proof.
  intros [Hc | ->]; [| done]. split_and!; [| by intros -> ..].
  unfold isspace, isdigit, in_range in *. rewrite andb_true_iff, !Z.leb_le in Hc.
  destruct (Z.eqb_spec (ord c) 32), (Z.leb_spec 9 (ord c)), (Z.leb_spec (ord c) 13); (done || lia).
Qed.

Lemma exponent_head ex p :
  stops p → not_digit (exponent_text ex ++ p) ∧ ∀ p', exponent_text ex ++ p ≠ "."%char :: p'.
Proof.
  intros Hp. destruct ex as [[s es] |]; [done |]. cbn. destruct p as [| c p]; [done |].
  destruct Hp as (H1 & H2 & _). split; [done |]. by intros p' [= ->].
Qed.

Lemma point_head fs p : not_digit p → not_digit (point fs ++ p).
Proof. by destruct fs. Qed.

Lemma no_nul (f : ascii → bool) l : f nul = false → Forall (λ c, f c = true) l → nul ∉ l.
Proof. intros Hf Hl Hin. rewrite Forall_forall in Hl. specialize (Hl _ Hin). congruence. Qed.

Lemma number_no_nul blanks sg ds fs ex p :
  Forall (λ c, isspace c = true) blanks → all_digits ds → all_digits fs →
  match ex with None => True | Some (_, es) => all_digits es end → nul ∉ p →
  nul ∉ blanks ++ sign_text sg ++ ds ++ point fs ++ exponent_text ex ++ p.
Proof.
  intros Hb%no_nul Hds%no_nul Hfs%no_nul Hex Hp; [| done..].
  assert (∀ s, nul ∉ sign_text s) as Hs.
  { intros s. apply (bool_decide_eq_true_1 (nul ∉ sign_text s)). by destruct s. }
  rewrite !not_elem_of_app. split_and!; try done.
  - destruct fs; [apply not_elem_of_nil |]. cbn [point]. apply not_elem_of_cons. done.
  - destruct ex as [[s es] |]; [| apply not_elem_of_nil]. apply no_nul in Hex; [| done].
    cbn [exponent_text]. rewrite !not_elem_of_app. split_and!; [| apply Hs | done].
    change (lit "e") with ["e"%char]. rewrite not_elem_of_cons. split; [done | apply not_elem_of_nil].
Qed.

(** ** Scaling

    The reference: the powers of ten whose exponents are the powers of two, each the rounded
    square of the one before; and the number times, or for a negative exponent divided by, those
    that make up the exponent, the smaller ones first. *)
Definition power_of_ten (k : nat) : double := Nat.iter k (λ d, dmul d d) (of_int 10).

Definition scaled (number : double) (exponent : Z) : double :=
  foldl (λ d k,
    if Z.testbit (Z.abs exponent) (Z.of_nat k)
    then (if (exponent <? 0)%Z then ddiv else dmul) d (power_of_ten k)
    else d) number (seq 0 11).

(** What [my_strtod] answers for the number and the exponent of a text that [p] follows. *)
Definition number_read (number : double) (exponent : Z) (p : str) : outcome (double * str) :=
  if (exponent <? -1021)%Z || (1024 <? exponent)%Z then conversion_error
  else match scaled number exponent with
       | S754_infinity false => conversion_error
       | d => Ret (d, p)
       end.

Lemma foldl_same {A B} (f g : A → B → A) l a :
  (∀ a b, b ∈ l → f a b = g a b) → foldl f a l = foldl g a l.
Proof.
  revert a. induction l as [| b l IH]; intros a Hfg; [done |]. cbn. rewrite (Hfg a b) by by left.
  apply IH. intros a' b' Hb. apply Hfg. by right.
Qed.

Lemma scale_bits_fold (down : bool) n j m x :
  (Zpos n < 2 ^ Z.of_nat m)%Z →
  scale_bits down n x (power_of_ten j)
  = foldl (λ d k,
      if Z.testbit (Zpos n) (Z.of_nat k - Z.of_nat j)
      then (if down then ddiv else dmul) d (power_of_ten k)
      else d) x (seq j m).
Proof.
  revert j m x. induction n as [n IH | n IH |]; intros j m x Hn;
    (destruct m as [| m]; [change (2 ^ Z.of_nat 0)%Z with 1%Z in Hn; lia |]);
    cbn [scale_bits seq foldl]; rewrite Z.sub_diag.
  - rewrite Nat2Z.inj_succ, Z.pow_succ_r in Hn by lia.
    change (dmul (power_of_ten j) (power_of_ten j)) with (power_of_ten (S j)).
    rewrite (IH (S j) m) by lia. cbn [Z.testbit Pos.testbit].
    replace (if down then ddiv x (power_of_ten j) else dmul x (power_of_ten j))
      with ((if down then ddiv else dmul) x (power_of_ten j)) by (by destruct down).
    apply foldl_same. intros d k Hk%elem_of_seq.
    replace (Z.of_nat k - Z.of_nat j)%Z with (Z.succ (Z.of_nat k - Z.of_nat (S j))) by lia.
    change (Zpos n~1) with (2 * Zpos n + 1)%Z. by rewrite Z.testbit_odd_succ by lia.
  - rewrite Nat2Z.inj_succ, Z.pow_succ_r in Hn by lia.
    change (dmul (power_of_ten j) (power_of_ten j)) with (power_of_ten (S j)).
    rewrite (IH (S j) m) by lia. cbn [Z.testbit Pos.testbit].
    apply foldl_same. intros d k Hk%elem_of_seq.
    replace (Z.of_nat k - Z.of_nat j)%Z with (Z.succ (Z.of_nat k - Z.of_nat (S j))) by lia.
    change (Zpos n~0) with (2 * Zpos n)%Z. by rewrite Z.testbit_even_succ by lia.
  - cbn [Z.testbit Pos.testbit].
    transitivity (foldl (λ (d : double) (_ : nat), d) ((if down then ddiv else dmul) x (power_of_ten j)) (seq (S j) m)).
    + transitivity ((if down then ddiv else dmul) x (power_of_ten j)); [by destruct down |].
      generalize ((if down then ddiv else dmul) x (power_of_ten j)). by induction (seq (S j) m).
    + apply foldl_same. intros d k Hk%elem_of_seq.
      by rewrite (Z.bits_above_log2 1) by (cbn; lia).
Qed.

(** The loop computes the reference. *)
Lemma scale_scaled number exponent :
  (Z.abs exponent < 2 ^ 11)%Z → scale number exponent = scaled number exponent.
Proof.
  intros He. destruct exponent as [| n | n]; [done | |]; cbn [scale]; change (of_int 10) with (power_of_ten 0);
    rewrite (scale_bits_fold _ _ 0 11) by exact He; unfold scaled; cbn [Z.abs Z.ltb Z.compare];
    apply foldl_same; intros d k _; by rewrite Z.sub_0_r.
Qed.

Lemma checked_read number exponent p :
  (-1021 ≤ exponent ≤ 1024)%Z → checked (scale number exponent) p = number_read number exponent p.
Proof.
  intros He. rewrite scale_scaled by lia. unfold number_read.
  destruct (Z.ltb_spec exponent (-1021)), (Z.ltb_spec 1024 exponent); try lia. cbn [orb]. unfold checked.
  by destruct (scaled number exponent) as [[] | [] | | [] m e].
Qed.

Lemma square_int a : (0 ≤ a < 2 ^ 26)%Z → dmul (of_int a) (of_int a) = of_int (a * a).
Proof. intros Ha. apply dmul_int; nia. Qed.

Lemma scaled_power k x :
  (k ∈ [1; 2; 4; 8])%Z → scaled x (- k) = ddiv x (of_int (10 ^ k)).
Proof.
  intros Hk. rewrite !elem_of_cons in Hk.
  destruct Hk as [-> | [-> | [-> | [-> | []%elem_of_nil]]]]; rewrite <- scale_scaled by done;
    cbn [scale scale_bits Z.opp];
    rewrite ?(square_int 10%Z), ?(square_int (10 * 10)%Z), ?(square_int (10 * 10 * (10 * 10))%Z) by lia; done.
Qed.

Lemma scaled_int s v e :
  (0 ≤ v)%Z → (0 ≤ e ≤ 15)%Z → (v * 10 ^ e < 2 ^ 53)%Z →
  scaled (signed s (of_int v)) e = signed s (of_int (v * 10 ^ e)).
Proof.
  intros Hv He Hlt. assert (e ∈ [0; 1; 2; 3; 4; 5; 6; 7; 8; 9; 10; 11; 12; 13; 14; 15])%Z as Hin.
  { rewrite !elem_of_cons. lia. }
  rewrite <- scale_scaled by lia. clear He. rewrite !elem_of_cons in Hin.
  repeat (destruct Hin as [-> | Hin]; [
    cbn [scale scale_bits];
    rewrite ?(square_int 10%Z), ?(square_int (10 * 10)%Z), ?(square_int (10 * 10 * (10 * 10))%Z) by lia;
    repeat rewrite dmul_signed by lia; f_equal; f_equal; lia |]).
  by apply elem_of_nil in Hin.
Qed.

(** An integer is never infinite. *)
Lemma checked_int (s : bool) n p :
  (0 ≤ n < 2 ^ 53)%Z →
  checked (if s then SFopp (of_int n) else of_int n) p = Ret (if s then SFopp (of_int n) else of_int n, p).
Proof.
  intros Hn. destruct (decide (n = 0%Z)) as [-> | Hne]; [by destruct s |].
  rewrite of_int_canon by lia. by destruct s.
Qed.

(** ** Lemmas: printing integers *)
Lemma decimal_exponent_spec num den k fuel k0 :
  reaches num den k = true → (∀ j, k < j ≤ k0 → reaches num den j = false)%Z →
  (k ≤ k0)%Z → (k0 - k < Z.of_nat fuel)%Z → decimal_exponent fuel num den k0 = k.
Proof.
  intros Hk Hno. revert k0 Hno. induction fuel as [| f IH]; intros k0 Hno Hle Hf; [lia |].
  cbn [decimal_exponent]. destruct (decide (k0 = k)) as [-> | Hne]; [by rewrite Hk |].
  rewrite Hno by lia. apply IH; [intros j Hj; apply Hno; lia | lia | lia].
Qed.

Lemma reaches_int n c k :
  (0 < c)%Z → (0 ≤ k)%Z → reaches (n * c) c k = (10 ^ k <=? n)%Z.
Proof.
  intros Hc Hk. unfold reaches. destruct (Z.leb_spec 0 k); [| lia].
  destruct (Z.leb_spec (10 ^ k) n), (Z.leb_spec (c * 10 ^ k) (n * c)); (done || nia).
Qed.

Lemma round_div_exact q d : (0 < d)%Z → round_div (q * d) d = q.
Proof.
  intros Hd. unfold round_div. pose proof (Z_div_mod (q * d) d ltac:(lia)) as H.
  destruct (Z.div_eucl (q * d) d) as [q' r]. destruct H as [H1 H2].
  destruct (Z.div_mod_unique d q' q r 0) as [-> ->]; [left; lia | left; lia | lia |].
  destruct (Z.compare_spec (2 * 0) d); [lia | done | lia].
Qed.

Lemma digits_enough f g n :
  (0 ≤ n < 10 ^ Z.of_nat (S f))%Z → (n < 10 ^ Z.of_nat (S g))%Z →
  digits (S f) 10 n = digits (S g) 10 n.
Proof.
  revert g n. induction f as [| f IH]; intros g n Hf Hg.
  - cbn [digits]. destruct (Z.ltb_spec n 10); [done | change (10 ^ Z.of_nat 1)%Z with 10%Z in Hf; lia].
  - cbn [digits]. destruct (Z.ltb_spec n 10) as [| Hn]; [done |]. f_equal.
    destruct g as [| g]; [change (10 ^ Z.of_nat 1)%Z with 10%Z in Hg; lia |].
    rewrite (Nat2Z.inj_succ (S f)), Z.pow_succ_r in Hf by lia.
    rewrite (Nat2Z.inj_succ (S g)), Z.pow_succ_r in Hg by lia.
    apply IH; div_lia.
Qed.

Lemma digits_zeros f n p :
  (1 ≤ n)%Z → digits (p + S f) 10 (n * 10 ^ Z.of_nat p) = digits (S f) 10 n ++ replicate p 0%Z.
Proof.
  intros Hn. induction p as [| p IH]; [by rewrite app_nil_r, Z.mul_1_r |].
  rewrite Nat2Z.inj_succ, Z.pow_succ_r by lia.
  assert (0 < 10 ^ Z.of_nat p)%Z by (apply Z.pow_pos_nonneg; lia).
  cbn [plus digits]. destruct (Z.ltb_spec (n * (10 * 10 ^ Z.of_nat p)) 10); [nia |].
  replace (n * (10 * 10 ^ Z.of_nat p))%Z with (n * 10 ^ Z.of_nat p * 10)%Z by lia.
  rewrite Z.div_mul, Z.mod_mul, IH, <- app_assoc by lia. f_equal.
  by rewrite <- (replicate_cons_app p).
Qed.

Lemma digits_count k n :
  (10 ^ Z.of_nat k ≤ n < 10 ^ Z.of_nat (S k))%Z → length (digits (S k) 10 n) = S k.
Proof.
  revert n. induction k as [| k IH]; intros n Hn.
  - change (10 ^ Z.of_nat 1)%Z with 10%Z in Hn. cbn [digits]. destruct (Z.ltb_spec n 10); [done | lia].
  - rewrite (Nat2Z.inj_succ (S k)), Nat2Z.inj_succ, !Z.pow_succ_r in Hn by lia.
    assert (0 < 10 ^ Z.of_nat k)%Z by (apply Z.pow_pos_nonneg; lia).
    cbn [digits]. destruct (Z.ltb_spec n 10); [lia |]. rewrite length_app.
    change (length (digits (S k) 10 (n / 10)) + 1 = S (S k)). rewrite IH; [lia |].
    rewrite Nat2Z.inj_succ, Z.pow_succ_r by lia. div_lia.
Qed.

Lemma strip_all_zeros p : fraction (replicate p "0"%char) = [].
Proof.
  unfold fraction, strip_zeros, rdrop_while. rewrite reverse_replicate, drop_while_all; [done |].
  by apply Forall_replicate.
Qed.

Lemma print_ratio_int n c (k : nat) :
  (0 < c)%Z → k ≤ 5 → (10 ^ Z.of_nat k ≤ n < 10 ^ Z.of_nat (S k))%Z → print_ratio (n * c) c = print_dec n.
Proof.
  intros Hc Hk Hn. assert (1 ≤ n)%Z as Hn1 by (assert (0 < 10 ^ Z.of_nat k)%Z by (apply Z.pow_pos_nonneg; lia); lia).
  unfold print_ratio. rewrite (decimal_exponent_spec _ _ (Z.of_nat k)).
  2: { rewrite reaches_int by lia. apply Z.leb_le. lia. }
  2: { intros j Hj. rewrite reaches_int by lia. apply Z.leb_gt.
       assert (10 ^ Z.of_nat (S k) ≤ 10 ^ j)%Z by (apply Z.pow_le_mono_r; lia). lia. }
  2, 3: lia.
  set (p := 5 - k). assert (six_digits (n * c) c (Z.of_nat k) = n * 10 ^ Z.of_nat p)%Z as ->.
  { unfold six_digits. destruct (Z.leb_spec (Z.of_nat k) 5); [| lia].
    replace (5 - Z.of_nat k)%Z with (Z.of_nat p) by lia.
    replace (n * c * 10 ^ Z.of_nat p)%Z with (n * 10 ^ Z.of_nat p * c)%Z by lia. by apply round_div_exact. }
  assert (n * 10 ^ Z.of_nat p < 10 ^ 6)%Z as Hlt.
  { replace 6%Z with (Z.of_nat (S k) + Z.of_nat p)%Z by lia. rewrite Z.pow_add_r by lia.
    assert (0 < 10 ^ Z.of_nat p)%Z by (apply Z.pow_pos_nonneg; lia). nia. }
  destruct (Z.eqb_spec (n * 10 ^ Z.of_nat p) (10 ^ 6)); [lia |].
  replace 6 with (p + S k) by lia. rewrite digits_zeros by done.
  unfold digit_text. rewrite fmap_app, fmap_replicate. change (digit_char false 0) with "0"%char.
  unfold print_g. destruct (Z.ltb_spec (Z.of_nat k) (-4)), (Z.leb_spec 6 (Z.of_nat k)), (Z.ltb_spec (Z.of_nat k) 0); try lia.
  cbn [orb]. rewrite Nat2Z.id.
  rewrite take_app_length', drop_app_length', strip_all_zeros, app_nil_r
    by (rewrite length_fmap, digits_count by done; lia).
  unfold print_dec. destruct (Z.ltb_spec n 0); [lia |]. unfold print_nat_base. f_equal.
  apply digits_enough; [lia |]. rewrite Nat2Z.inj_succ, Z2Nat.id by apply Z.log2_nonneg.
  pose proof (Z.log2_spec n ltac:(lia)) as [_ Hl].
  assert (2 ^ Z.succ (Z.log2 n) ≤ 10 ^ Z.succ (Z.log2 n))%Z
    by (apply Z.pow_le_mono_l; pose proof (Z.log2_nonneg n); lia). lia.
Qed.

Lemma to_string_double_pos n : (0 < n < 10 ^ 6)%Z → to_string_double (of_int n) = print_dec n.
Proof.
  intros Hn. rewrite of_int_canon by lia. unfold canon, to_string_double.
  assert (Z.log2 n < 20)%Z by (apply Z.log2_lt_pow2; lia). pose proof (Z.log2_nonneg n).
  destruct (Z.leb_spec 0 (Z.log2 n - 52)); [lia |]. cbn [app].
  pose proof (mantissa_range n ltac:(lia)). rewrite Z2Pos.id by lia.
  replace (- (Z.log2 n - 52))%Z with (52 - Z.log2 n)%Z by lia.
  assert (∃ k : nat, k ≤ 5 ∧ (10 ^ Z.of_nat k ≤ n < 10 ^ Z.of_nat (S k))%Z) as (k & Hk & Hnk).
  { destruct (Z.lt_ge_cases n 10); [exists 0; lia |]. destruct (Z.lt_ge_cases n 100); [exists 1; lia |].
    destruct (Z.lt_ge_cases n 1000); [exists 2; lia |]. destruct (Z.lt_ge_cases n 10000); [exists 3; lia |].
    destruct (Z.lt_ge_cases n 100000); [exists 4; lia | exists 5; lia]. }
  eapply print_ratio_int; [apply Z.pow_pos_nonneg; lia | done | done].
Qed.

(** [strtod_number] without its last part. *)
Lemma strtod_text blanks sg ds fs ex p :
  Forall (λ c, isspace c = true) blanks → all_digits ds → all_digits fs → ds ++ fs ≠ [] →
  (decimal 0 (ds ++ fs) < 2 ^ 53)%Z → (Z.of_nat (length (ds ++ fs)) ≤ INT_MAX)%Z →
  match ex with
  | None => True
  | Some (_, es) => all_digits es ∧ (decimal 0 es + Z.of_nat (length fs) ≤ INT_MAX)%Z
  end → stops p → nul ∉ p →
  let n := of_int (decimal 0 (ds ++ fs)) in
  let number := signed (is_minus sg) n in
  let exponent := (exponent_of ex - Z.of_nat (length fs))%Z in
  my_strtod (blanks ++ sign_text sg ++ ds ++ point fs ++ exponent_text ex ++ p)
  = number_read number exponent p ∧
  (exponent = 0%Z → number_read number exponent p = Ret (number, p)).
Proof.
  intros Hb Hds Hfs Hne Hlt Hlen Hex Hp Hnul n number exponent. split_and!.
  - rewrite decimal_app in Hlt. pose proof (decimal_grows 0 ds ltac:(lia) Hds) as H0.
    pose proof (decimal_grows (decimal 0 ds) fs H0 Hfs) as H1.
    destruct (exponent_head ex p Hp) as [He1 He2]. rewrite length_app in Hlen.
    destruct (number_head ds fs (exponent_text ex ++ p) Hds Hne) as (c & t & Ht & Hc).
    destruct (head_plain c Hc) as (Hc1 & Hc2).
    unfold my_strtod. rewrite c_str_id by (apply number_no_nul; [done.. | destruct ex as [[? ?] |]; [by destruct Hex | done] | done]).
    rewrite drop_blanks by (done || (destruct sg; [by rewrite Ht | done..])).
    rewrite strto_sign_text by by rewrite Ht.
    rewrite <- of_int_zero, digits_loop_int by first [done | lia | by apply point_head].
    rewrite decimal_part_text by (done || lia). rewrite <- decimal_app. fold n.
    destruct (Z.ltb_spec INT_MAX (0 + Z.of_nat (length ds) + Z.of_nat (length fs))); [lia |].
    destruct (Z.eqb_spec (0 + Z.of_nat (length ds) + Z.of_nat (length fs)) 0) as [E | _].
    { destruct ds, fs; cbn in E; (done || lia). }
    rewrite exponent_part_text by (done || lia). cbn [mbind outcome_bind]. fold exponent.
    unfold number_read, DBL_MIN_EXP, DBL_MAX_EXP.
    destruct ((exponent <? -1021)%Z || (1024 <? exponent)%Z) eqn:He; [done |].
    etransitivity; [apply checked_read; apply orb_false_iff in He; lia |].
    unfold number_read. by rewrite He.
  - intros ->. rewrite <- checked_read by lia. cbn [scale]. apply checked_int. split; [| done].
    apply decimal_grows; [done |]. by apply Forall_app.
Qed.

(** ** Lemmas: digits read back *)
Lemma decimal_digits f n :
  (0 ≤ n < 10 ^ Z.of_nat (S f))%Z →
  decimal 0 (digit_text (digits (S f) 10 n)) = n ∧ all_digits (digit_text (digits (S f) 10 n)).
Proof.
  assert (∀ d, (0 ≤ d < 10)%Z → isdigit (digit_char false d) = true ∧ (ord (digit_char false d) - 48 = d)%Z) as Hd.
  { intros d Hd. unfold digit_char. destruct (Z.ltb_spec d 10); [| lia].
    unfold isdigit, in_range. rewrite ord_chr_small by lia. split; [| lia].
    apply andb_true_iff; rewrite !Z.leb_le; lia. }
  revert n. induction f as [| f IH]; intros n Hn.
  - change (10 ^ Z.of_nat 1)%Z with 10%Z in Hn. cbn [digits]. destruct (Z.ltb_spec n 10); [| lia].
    destruct (Hd n) as [H1 H2]; [lia |]. cbn. rewrite H2. split; [done | by repeat constructor].
  - rewrite Nat2Z.inj_succ, Z.pow_succ_r in Hn by lia. cbn [digits].
    destruct (Z.ltb_spec n 10).
    + destruct (Hd n) as [H1 H2]; [lia |]. cbn. rewrite H2. split; [done | by repeat constructor].
    + destruct (IH (n / 10)%Z) as [Hv Ha]; [div_lia |].
      destruct (Hd (n mod 10)%Z) as [H1 H2]; [div_lia |].
      unfold digit_text in *. rewrite fmap_app, decimal_app.
      split; [| apply Forall_app; split; [exact Ha | by repeat constructor]].
      change (decimal (decimal 0 (digit_char false <$> digits (S f) 10 (n / 10))) [digit_char false (n mod 10)] = n).
      rewrite Hv. cbn. rewrite H2. div_lia.
Qed.

Lemma print_dec_digits n :
  (0 ≤ n)%Z → decimal 0 (print_dec n) = n ∧ all_digits (print_dec n).
Proof.
  intros Hn. unfold print_dec. destruct (Z.ltb_spec n 0); [lia |]. apply decimal_digits.
  split; [done |]. rewrite Nat2Z.inj_succ, Z2Nat.id by apply Z.log2_nonneg.
  pose proof (Z.log2_nonneg n). destruct (decide (n = 0%Z)) as [-> | Hne]; [done |].
  pose proof (Z.log2_spec n ltac:(lia)) as [_ Hl].
  assert (2 ^ Z.succ (Z.log2 n) ≤ 10 ^ Z.succ (Z.log2 n))%Z by (apply Z.pow_le_mono_l; lia). lia.
Qed.

Lemma print_dec_short n : (0 ≤ n < 10 ^ 6)%Z → (Z.of_nat (length (print_dec n)) ≤ INT_MAX)%Z.
Proof.
  intros Hn. pose proof (print_dec_length n). unfold INT_MAX. lia.
Qed.

Lemma of_int_neg n : (0 < n < 2 ^ 53)%Z → of_int (- n) = SFopp (of_int n).
Proof.
  intros Hn. rewrite (of_int_canon n) by lia. destruct n as [| q |]; [lia | | lia].
  change (binary_round 53 1024 true q 0 = SFopp (canon (Zpos q))).
  rewrite (binary_round_whole true (Zpos q)); [done | done | lia | lia | cbn; lia].
Qed.

Lemma double_text z :
  (- 10 ^ 6 < z < 10 ^ 6)%Z →
  to_string_double (of_int z) = print_dec z ∧ from_string_double (print_dec z) = Ret (of_int z).
Proof.
  intros Hz. assert (∀ sg n, (0 ≤ n < 10 ^ 6)%Z →
    from_string_double (sign_text sg ++ print_dec n)
    = Ret (if is_minus sg then SFopp (of_int n) else of_int n)) as Hread.
  { intros sg n Hn. destruct (print_dec_digits n) as [Hv Hd]; [lia |].
    pose proof (strtod_text [] sg (print_dec n) [] None []) as Ht. rewrite !app_nil_r, Hv in Ht.
    destruct Ht as [Ht1 Ht2]; first [done | apply Forall_nil; done | apply print_dec_not_nil | by apply print_dec_short
      | apply not_elem_of_nil | cbn; lia | idtac].
    unfold from_string_double. cbn [app] in Ht1. cbn in Ht1. rewrite Ht1. cbn in Ht2. by rewrite Ht2. }
  destruct (Z.lt_trichotomy z 0) as [Hneg | [-> | Hpos]].
  - replace z with (- (- z))%Z by lia. set (n := (- z)%Z). rewrite of_int_neg by lia.
    assert (print_dec (- n) = lit "-" ++ print_dec n) as ->.
    { unfold print_dec. destruct (Z.ltb_spec (- n) 0), (Z.ltb_spec n 0); try lia. by rewrite Z.opp_involutive. }
    split; [| apply (Hread Minus); lia].
    rewrite <- to_string_double_pos by lia. rewrite of_int_canon by lia. reflexivity.
  - split; [reflexivity | apply (Hread NoSign); lia].
  - split; [by apply to_string_double_pos; lia | apply (Hread NoSign); lia].
Qed.

(** ** Properties *)

(** C24. A text with a number - blanks, a sign, digits, a point and more digits, an exponent - is
    read to its end, whatever follows.  Where its digits make an integer below 2^53, the result is
    that integer with its sign, multiplied by the powers of ten that the bits of a positive
    exponent select, or divided by those of a negative one ([scaled]: the powers are rounded
    squares, and each operation rounds); an exponent outside [-1021, 1024] or a positive infinity
    is the conversion exception.  So a number whose value is an integer below 2^53, with an
    exponent up to 15, is read exactly; and with the exponent -1, -2, -4 or -8 there is one
    division, rounded once to the nearest double.  With other exponents the result need not be
    the nearest double ([strtod_not_nearest]). *)
Theorem strtod_number blanks sg ds fs ex p :
  Forall (λ c, isspace c = true) blanks → all_digits ds → all_digits fs → ds ++ fs ≠ [] →
  (decimal 0 (ds ++ fs) < 2 ^ 53)%Z → (Z.of_nat (length (ds ++ fs)) ≤ INT_MAX)%Z →
  match ex with
  | None => True
  | Some (_, es) => all_digits es ∧ (decimal 0 es + Z.of_nat (length fs) ≤ INT_MAX)%Z
  end → stops p → nul ∉ p →
  let v := decimal 0 (ds ++ fs) in
  let number := signed (is_minus sg) (of_int v) in
  let exponent := (exponent_of ex - Z.of_nat (length fs))%Z in
  my_strtod (blanks ++ sign_text sg ++ ds ++ point fs ++ exponent_text ex ++ p)
  = number_read number exponent p ∧
  ((0 ≤ exponent ≤ 15)%Z → (v * 10 ^ exponent < 2 ^ 53)%Z →
   number_read number exponent p = Ret (signed (is_minus sg) (of_int (v * 10 ^ exponent)), p)) ∧
  ((- exponent ∈ [1; 2; 4; 8])%Z → scaled number exponent = ddiv number (of_int (10 ^ (- exponent)))).
Proof.
  intros Hb Hds Hfs Hne Hlt Hlen Hex Hp Hnul v number exponent.
  assert (0 ≤ v)%Z as Hv by (apply decimal_grows; [done | by apply Forall_app]).
  destruct (strtod_text blanks sg ds fs ex p) as [H1 _]; [done.. |]. split_and!; [done | |].
  - intros He Hlt'. rewrite <- checked_read, scale_scaled by lia. unfold number. rewrite scaled_int by lia.
    apply (checked_int (is_minus sg)). nia.
  - intros Hk. rewrite <- scaled_power by done. by rewrite Z.opp_involutive.
Qed.

(** Integers of up to six digits are printed and read back exactly. *)
Theorem double_text_roundtrip z :
  (- 10 ^ 6 < z < 10 ^ 6)%Z →
  to_string_double (of_int z) = print_dec z ∧ from_string_double (print_dec z) = Ret (of_int z).
Proof. apply double_text. Qed.

(** ** What goes wrong

    The power of ten is built up from rounded squares and divided by digit by digit, so the
    result is not always the nearest double. *)
Example strtod_not_nearest :
  from_string_double (lit "0.007") ≠ Ret (ddiv (of_int 7) (of_int 1000)).
Proof. vm_compute. discriminate. Qed.

(** Zero with a large exponent is zero times infinity. *)
Example strtod_zero_is_nan : from_string_double (lit "0e600") = Ret S754_nan.
Proof. vm_compute. reflexivity. Qed.

(** The overflow test sees one sign only. *)
Example strtod_overflow_signs :
  from_string_double (lit "1e309") = Throw (Exn type_conversion_exception []) ∧
  from_string_double (lit "-1e309") = Ret (S754_infinity true).
Proof. by vm_compute. Qed.

(** An exponent needs no digits. *)
Example strtod_empty_exponent : from_string_double (lit "1e") = Ret (of_int 1).
Proof. vm_compute. reflexivity. Qed.

(** Seven digits do not survive printing. *)
Example to_string_seven_digits : to_string_double (of_int 1234567) = lit "1.23457e+06".
Proof. vm_compute. reflexivity. Qed.

(** ** Witnesses *)
Lemma strtod_number_witness :
  my_strtod (lit " " ++ lit "-" ++ lit "15" ++ point (lit "25") ++ lit "e5" ++ lit " kg")
  = Ret (SFopp (of_int 1525000), lit " kg") ∧
  scaled (SFopp (of_int 1525)) (-2) = ddiv (SFopp (of_int 1525)) (of_int 100).
Proof.
  pose proof (strtod_number (lit " ") Minus (lit "15") (lit "25") (Some (NoSign, lit "5")) (lit " kg")
    ltac:(repeat constructor) ltac:(repeat constructor) ltac:(repeat constructor) ltac:(done)
    ltac:(reflexivity) ltac:(vm_compute; discriminate) ltac:(split; [repeat constructor | vm_compute; discriminate])
    ltac:(repeat split; done) ltac:(apply (bool_decide_unpack _); reflexivity)) as (H1 & H2 & _).
  pose proof (strtod_number [] Minus (lit "15") (lit "25") None []
    ltac:(repeat constructor) ltac:(repeat constructor) ltac:(repeat constructor) ltac:(done)
    ltac:(reflexivity) ltac:(vm_compute; discriminate) I I
    ltac:(apply (bool_decide_unpack _); reflexivity)) as (_ & _ & H3).
  split.
  - etransitivity; [exact H1 |]. apply H2; [split; vm_compute; discriminate | vm_compute; reflexivity].
  - apply H3. apply (bool_decide_unpack _). reflexivity.
Defined.

Lemma double_text_roundtrip_witness :
  to_string_double (of_int (-4800)) = print_dec (-4800) ∧
  from_string_double (print_dec (-4800)) = Ret (of_int (-4800)).
Proof. exact (double_text_roundtrip (-4800) ltac:(lia)). Defined.
