(* ===== verification/Any.v ===== *)
(** * [include/dcl/any.h]: a value of any type.

    An [any] holds a pointer to a heap cell with a value and its type.  The first part has the
    heap, the pointers and the operations as the class has them; the second part says what they
    promise, on values without pointers; [any_implements] relates the two. *)
From S2P Require Export StrUtils.

(** The types a program stores, with [to_string], [from_string], [==] and what a declared but
    uninitialised variable holds. *)
Class AnyTypes := {
  any_type : Type;
  any_type_dec :: EqDecision any_type;
  val : any_type → Type;
  to_string : ∀ t, val t → outcome str;
  from_string : ∀ t, str → outcome (val t);
  val_eqb : ∀ t, val t → val t → bool;
  declared : ∀ t, outcome (val t) }.

Section any.
Context `{AnyTypes}.

(** [any::impl<T>] *)
Record impl := Impl { itype : any_type; ival : val itype }.

(** The heap cells and the [any] objects with their [pimpl]. *)
Record store := Store {
  cells : gmap nat impl;
  objs : gmap nat (option nat);
  fresh_cell : nat }.

(** ** Heap and objects *)
Definition new_impl (v : impl) : stm store nat := λ s,
  (Ret (fresh_cell s), Store (<[fresh_cell s := v]> (cells s)) (objs s) (S (fresh_cell s))).

Definition delete_impl (p : nat) : stm store unit := λ s,
  match cells s !! p with
  | Some _ => (Ret (), Store (delete p (cells s)) (objs s) (fresh_cell s))
  | None => (Undef, s)
  end.

Definition read_impl (p : nat) : stm store impl := λ s,
  match cells s !! p with Some v => (Ret v, s) | None => (Undef, s) end.

Definition get_pimpl (i : nat) : stm store (option nat) := λ s,
  match objs s !! i with Some p => (Ret p, s) | None => (Undef, s) end.

Definition set_pimpl (i : nat) (p : option nat) : stm store unit := λ s,
  (Ret (), Store (cells s) (<[i := p]> (objs s)) (fresh_cell s)).

Definition drop_object (i : nat) : stm store unit := λ s,
  (Ret (), Store (cells s) (delete i (objs s)) (fresh_cell s)).

(** ** The class *)

(** [impl_int::str] and the conversion [impl(const impl_int&)]. *)
Definition impl_str (v : impl) : outcome str := to_string (itype v) (ival v).

Definition impl_convert (t : any_type) (v : impl) : outcome impl :=
  s ← impl_str v; Impl t <$> from_string t s.

Definition impl_clone (p : nat) : stm store nat := v ← read_impl p; new_impl v.

(** [*pimpl == other]: the other value is converted through its text, whatever its type. *)
Definition impl_equal (v w : impl) : outcome bool :=
  s ← impl_str w; val_eqb (itype v) (ival v) <$> from_string (itype v) s.

Definition any_new (i : nat) : stm store unit := set_pimpl i None.

(** Cloning and deleting what a pointer that may be null points to. *)
Definition clone_pimpl (p : option nat) : stm store (option nat) :=
  match p with None => mret None | Some q => Some <$> impl_clone q end.

Definition delete_pimpl (p : option nat) : stm store unit :=
  match p with None => mret () | Some q => delete_impl q end.

Definition any_copy (i j : nat) : stm store unit :=
  p ← get_pimpl j; q ← clone_pimpl p; set_pimpl i q.

Definition any_of (i : nat) (v : impl) : stm store unit :=
  p ← new_impl v; set_pimpl i (Some p).

(** [operator=]: the old value is deleted before the other one is looked at. *)
Definition any_assign (i j : nat) : stm store unit :=
  p ← get_pimpl i; _ ← delete_pimpl p; q ← get_pimpl j; r ← clone_pimpl q; set_pimpl i r.

Definition any_destroy (i : nat) : stm store unit :=
  p ← get_pimpl i; _ ← delete_pimpl p; drop_object i.

Definition any_clear (i : nat) : stm store unit :=
  p ← get_pimpl i; _ ← delete_pimpl p; set_pimpl i None.

Definition any_empty (i : nat) : stm store bool :=
  p ← get_pimpl i; mret (match p with None => true | Some _ => false end).

(** [type()]; [None] is [typeid(void)]. *)
Definition any_type_of (i : nat) : stm store (option any_type) :=
  p ← get_pimpl i;
  match p with None => mret None | Some q => Some ∘ itype <$> read_impl q end.

Definition any_str (i : nat) : stm store str :=
  p ← get_pimpl i;
  match p with None => mret [] | Some q => v ← read_impl q; lift (impl_str v) end.

(** [cast<T>]: a value of another type is replaced by its conversion. *)
Definition cast (t : any_type) (i : nat) : stm store impl :=
  p ← get_pimpl i;
  match p with
  | None => lift (Impl t <$> declared t)
  | Some saved =>
      v ← read_impl saved;
      if decide (itype v = t) then mret v
      else
        w ← lift (impl_convert t v);
        q ← new_impl w; _ ← set_pimpl i (Some q); _ ← delete_impl saved; read_impl q
  end.

Definition any_equal (i j : nat) : stm store bool :=
  p ← get_pimpl i; q ← get_pimpl j;
  match p, q with
  | None, None => mret true
  | Some p, Some q => v ← read_impl p; w ← read_impl q; lift (impl_equal v w)
  | _, _ => mret false
  end.

(** ** Programs on objects *)
Inductive any_op :=
  | New (i : nat) | Copy (i j : nat) | Of (i : nat) (v : impl) | Assign (i j : nat)
  | Destroy (i : nat) | Clear (i : nat) | Empty (i : nat) | TypeOf (i : nat) | Str (i : nat)
  | Cast (t : any_type) (i : nat) | Equal (i j : nat).

Inductive answer :=
  | AVoid | ABool (b : bool) | AType (t : option any_type) | AStr (s : str) | AVal (v : impl).

Definition any_run (op : any_op) : stm store answer :=
  match op with
  | New i => _ ← any_new i; mret AVoid
  | Copy i j => _ ← any_copy i j; mret AVoid
  | Of i v => _ ← any_of i v; mret AVoid
  | Assign i j => _ ← any_assign i j; mret AVoid
  | Destroy i => _ ← any_destroy i; mret AVoid
  | Clear i => _ ← any_clear i; mret AVoid
  | Empty i => ABool <$> any_empty i
  | TypeOf i => AType <$> any_type_of i
  | Str i => AStr <$> any_str i
  | Cast t i => AVal <$> cast t i
  | Equal i j => ABool <$> any_equal i j
  end.

(** ** What is promised: objects hold values *)
Abbreviation values := (gmap nat (option impl)).

Definition spec_get (i : nat) : stm values (option impl) := λ m,
  match m !! i with Some v => (Ret v, m) | None => (Undef, m) end.

Definition spec_set (i : nat) (v : option impl) : stm values unit := λ m, (Ret (), <[i := v]> m).

Definition spec_drop (i : nat) : stm values unit := λ m, (Ret (), delete i m).

Definition spec_cast (t : any_type) (v : option impl) : outcome impl :=
  match v with
  | None => Impl t <$> declared t
  | Some v => if decide (itype v = t) then Ret v else impl_convert t v
  end.

Definition spec_equal (v w : option impl) : outcome bool :=
  match v, w with
  | None, None => Ret true
  | Some v, Some w => impl_equal v w
  | _, _ => Ret false
  end.

Definition any_spec (op : any_op) : stm values answer :=
  match op with
  | New i => _ ← spec_set i None; mret AVoid
  | Copy i j => v ← spec_get j; _ ← spec_set i v; mret AVoid
  | Of i v => _ ← spec_set i (Some v); mret AVoid
  | Assign i j => _ ← spec_get i; v ← spec_get j; _ ← spec_set i v; mret AVoid
  | Destroy i => _ ← spec_get i; _ ← spec_drop i; mret AVoid
  | Clear i => _ ← spec_get i; _ ← spec_set i None; mret AVoid
  | Empty i => v ← spec_get i; mret (ABool (match v with None => true | Some _ => false end))
  | TypeOf i => v ← spec_get i; mret (AType (itype <$> v))
  | Str i => v ← spec_get i; lift (AStr <$> match v with None => Ret [] | Some w => impl_str w end)
  | Cast t i =>
      v ← spec_get i; w ← lift (spec_cast t v);
      _ ← (match v with None => mret () | Some _ => spec_set i (Some w) end); mret (AVal w)
  | Equal i j => v ← spec_get i; w ← spec_get j; lift (ABool <$> spec_equal v w)
  end.

(** New objects have new names, and an object that holds a value is not assigned to itself. *)
Definition allowed (op : any_op) (s : store) : Prop :=
  match op with
  | New i | Of i _ => objs s !! i = None
  | Copy i j => objs s !! i = None
  | Assign i j => i = j → objs s !! i = Some None
  | _ => True
  end.

(** ** The representation *)
Record valid (s : store) : Prop := {
  valid_cell : ∀ i p, objs s !! i = Some (Some p) → is_Some (cells s !! p);
  valid_owner : ∀ p, is_Some (cells s !! p) → ∃ i, objs s !! i = Some (Some p);
  valid_unique : ∀ i j p, objs s !! i = Some (Some p) → objs s !! j = Some (Some p) → i = j;
  valid_fresh : ∀ p, is_Some (cells s !! p) → p < fresh_cell s }.

(** The value of each object. *)
Definition values_of (s : store) : values := (λ p, p ≫= λ q, cells s !! q) <$> objs s.

#[local] Arguments values_of : simpl never.

Lemma values_of_lookup s i p :
  objs s !! i = Some p → values_of s !! i = Some (p ≫= λ q, cells s !! q).
Proof. intros Hi. unfold values_of. by rewrite lookup_fmap, Hi. Qed.

Lemma values_of_none s i : objs s !! i = None → values_of s !! i = None.
Proof. intros Hi. unfold values_of. by rewrite lookup_fmap, Hi. Qed.

(** No object, or one without a value, gets a new cell. *)
Lemma valid_alloc s i v :
  valid s → (∀ p, objs s !! i ≠ Some (Some p)) →
  let s' := Store (<[fresh_cell s := v]> (cells s)) (<[i := Some (fresh_cell s)]> (objs s))
              (S (fresh_cell s)) in
  valid s' ∧ values_of s' = <[i := Some v]> (values_of s).
Proof.
  intros [Hc Ho Hu Hf] Hi s'.
  assert (∀ j p, objs s !! j = Some (Some p) → p ≠ fresh_cell s) as Hne.
  { intros j p Hj ->. specialize (Hf _ (Hc _ _ Hj)). lia. }
  split; [split; subst s'; cbn|].
  - intros j p [[-> [= <-]] | [? Hj]]%lookup_insert_Some; [by rewrite lookup_insert_eq |].
    rewrite lookup_insert_ne by (by apply not_eq_sym, (Hne j)). by eapply Hc.
  - intros p [w [[<- _] | [? Hp]]%lookup_insert_Some];
      [exists i; by rewrite lookup_insert_eq |].
    destruct (Ho p (mk_is_Some _ _ Hp)) as [j Hj]. exists j. rewrite lookup_insert_ne; [done |].
    intros ->. by eapply Hi.
  - intros j k p [[-> [= <-]] | [? Hj]]%lookup_insert_Some
      [[-> Heq] | [? Hk]]%lookup_insert_Some; [done | | | by eapply Hu].
    + by destruct (Hne _ _ Hk).
    + injection Heq as <-. by destruct (Hne _ _ Hj).
  - intros p [w [[<- _] | [? Hp]]%lookup_insert_Some]; [lia |]. specialize (Hf p ltac:(eauto)). lia.
  - apply map_eq. intros j. subst s'. unfold values_of. cbn. rewrite fmap_insert. cbn.
    rewrite lookup_insert_eq. destruct (decide (i = j)) as [-> | Hij];
      [by rewrite !lookup_insert_eq |]. rewrite !lookup_insert_ne by done.
    rewrite !lookup_fmap. destruct (objs s !! j) as [[p |] |] eqn:Hj; [| done..]. cbn.
    by rewrite lookup_insert_ne by (by apply not_eq_sym, (Hne j)).
Qed.

(** An object gives its cell back. *)
Lemma valid_free s i p :
  valid s → objs s !! i = Some (Some p) →
  let s' := Store (delete p (cells s)) (<[i := None]> (objs s)) (fresh_cell s) in
  valid s' ∧ values_of s' = <[i := None]> (values_of s).
Proof.
  intros [Hc Ho Hu Hf] Hi s'. split; [split; subst s'; cbn|].
  - intros j q [[_ [=]] | [? Hj]]%lookup_insert_Some. rewrite lookup_delete_ne; [by eapply Hc |].
    intros ->. by specialize (Hu _ _ _ Hi Hj).
  - intros q [w [? Hq]%lookup_delete_Some]. destruct (Ho q (mk_is_Some _ _ Hq)) as [j Hj]. exists j.
    rewrite lookup_insert_ne; [done |]. intros ->. congruence.
  - intros j k q [[_ [=]] | [? Hj]]%lookup_insert_Some [[_ [=]] | [? Hk]]%lookup_insert_Some.
    by eapply Hu.
  - intros q [w [? Hq]%lookup_delete_Some]. by apply Hf.
  - apply map_eq. intros j. subst s'. unfold values_of. cbn. rewrite fmap_insert. cbn.
    destruct (decide (i = j)) as [-> | Hij]; [by rewrite !lookup_insert_eq |].
    rewrite !lookup_insert_ne by done. rewrite !lookup_fmap.
    destruct (objs s !! j) as [[q |] |] eqn:Hj; [| done..]. cbn. rewrite lookup_delete_ne; [done |].
    intros ->. by specialize (Hu _ _ _ Hi Hj).
Qed.

(** An object without a value is declared, or goes. *)
Lemma valid_null s i :
  valid s → (∀ p, objs s !! i ≠ Some (Some p)) →
  let s' := Store (cells s) (<[i := None]> (objs s)) (fresh_cell s) in
  valid s' ∧ values_of s' = <[i := None]> (values_of s).
Proof.
  intros [Hc Ho Hu Hf] Hi s'. split; [split; subst s'; cbn; [| | | done] |].
  - intros j p [[_ [=]] | [? Hj]]%lookup_insert_Some. by eapply Hc.
  - intros p [j Hj]%Ho. exists j. rewrite lookup_insert_ne; [done |]. intros ->. by eapply Hi.
  - intros j k q [[_ [=]] | [? Hj]]%lookup_insert_Some [[_ [=]] | [? Hk]]%lookup_insert_Some.
    by eapply Hu.
  - unfold values_of. cbn. by rewrite fmap_insert.
Qed.

Lemma valid_gone s i :
  valid s → (∀ p, objs s !! i ≠ Some (Some p)) →
  let s' := Store (cells s) (delete i (objs s)) (fresh_cell s) in
  valid s' ∧ values_of s' = delete i (values_of s).
Proof.
  intros [Hc Ho Hu Hf] Hi s'. split; [split; subst s'; cbn; [| | | done] |].
  - intros j p [? Hj]%lookup_delete_Some. by eapply Hc.
  - intros p [j Hj]%Ho. exists j. rewrite lookup_delete_ne; [done |]. intros ->. by eapply Hi.
  - intros j k q [? Hj]%lookup_delete_Some [? Hk]%lookup_delete_Some. by eapply Hu.
  - unfold values_of. cbn. by rewrite fmap_delete.
Qed.

(** Replacing the value of an object, whatever it had. *)
Definition freed_cells (s : store) (i : nat) : gmap nat impl :=
  match objs s !! i with Some (Some p) => delete p (cells s) | _ => cells s end.

Lemma valid_reset s i (v : option impl) :
  valid s →
  let s' := match v with
            | Some w => Store (<[fresh_cell s := w]> (freed_cells s i))
                          (<[i := Some (fresh_cell s)]> (objs s)) (S (fresh_cell s))
            | None => Store (freed_cells s i) (<[i := None]> (objs s)) (fresh_cell s)
            end in
  valid s' ∧ values_of s' = <[i := v]> (values_of s).
Proof.
  intros Hv. unfold freed_cells.
  assert (∀ s1, valid s1 → values_of s1 = <[i := None]> (values_of s) → objs s1 = <[i := None]> (objs s) →
    fresh_cell s1 = fresh_cell s →
    let s' := match v with
              | Some w => Store (<[fresh_cell s := w]> (cells s1))
                            (<[i := Some (fresh_cell s)]> (objs s)) (S (fresh_cell s))
              | None => Store (cells s1) (<[i := None]> (objs s)) (fresh_cell s)
              end in
    valid s' ∧ values_of s' = <[i := v]> (values_of s)) as Hgen.
  { intros s1 Hv1 Hs1 Ho Hf. destruct v as [w |].
    - destruct (valid_alloc s1 i w Hv1) as [Ha Hb]; [rewrite Ho; by rewrite lookup_insert_eq |].
      rewrite Ho, Hf, insert_insert_eq in Ha, Hb. split; [done |].
      by rewrite Hb, Hs1, insert_insert_eq.
    - destruct s1 as [c o f]. cbn in *. subst o f. done. }
  destruct (objs s !! i) as [[p |] |] eqn:Hi.
  - destruct (valid_free s i p Hv Hi) as [Ha Hb]. by apply (Hgen _ Ha Hb).
  - destruct (valid_null s i Hv) as [Ha Hb]; [by rewrite Hi |]. by apply (Hgen _ Ha Hb).
  - destruct (valid_null s i Hv) as [Ha Hb]; [by rewrite Hi |]. by apply (Hgen _ Ha Hb).
Qed.

(** ** The operations *)

(** [m] on the store does what [f] does on the values: the same answer or exception, and the
    values [f] leaves. *)
Definition leads (o : outcome answer) (s' : store) (r : outcome answer * values) : Prop :=
  ∃ ms, r = (o, ms) ∧ (o ≠ Undef → valid s' ∧ values_of s' = ms).

Definition simulates (s : store) (m : stm store answer) (f : stm values answer) : Prop :=
  let '(o, s') := m s in leads o s' (f (values_of s)).

Lemma leads_same s o : valid s → leads o s (o, values_of s).
Proof. intros Hv. exists (values_of s). done. Qed.

Lemma leads_undef s m : leads Undef s (Undef, m).
Proof. exists m. done. Qed.

(** A new value for an object. *)
Lemma leads_reset s i (v : option impl) s' a :
  valid s →
  s' = match v with
       | Some w => Store (<[fresh_cell s := w]> (freed_cells s i))
                     (<[i := Some (fresh_cell s)]> (objs s)) (S (fresh_cell s))
       | None => Store (freed_cells s i) (<[i := None]> (objs s)) (fresh_cell s)
       end →
  leads (Ret a) s' (Ret a, <[i := v]> (values_of s)).
Proof.
  intros Hv ->. destruct (valid_reset s i v Hv) as [Ha Hb]. exists (<[i := v]> (values_of s)). done.
Qed.

Lemma leads_drop s i a s1 :
  valid s → objs s !! i ≠ None →
  s1 = Store (freed_cells s i) (delete i (objs s)) (fresh_cell s) →
  leads (Ret a) s1 (Ret a, delete i (values_of s)).
Proof.
  intros Hv Hi ->. destruct (valid_reset s i None Hv) as [Ha Hb].
  destruct (valid_gone _ i Ha) as [Hc Hd]; [cbn; by rewrite lookup_insert_eq |].
  cbn in Hc, Hd. rewrite delete_insert_eq in Hc, Hd. rewrite Hb, delete_insert_eq in Hd. by eexists.
Qed.

(** Freeing the cell of an object leaves that of another one. *)
Lemma other_cell s i j p q w :
  valid s → objs s !! i = Some (Some p) → objs s !! j = Some (Some q) →
  (i = j → Some (Some p) = Some None) → cells s !! q = Some w → delete p (cells s) !! q = Some w.
Proof.
  intros Hv Hp Hq Hij Hw. rewrite lookup_delete_ne; [done |]. intros ->.
  by specialize (Hij (valid_unique _ Hv _ _ _ Hp Hq)).
Qed.

(** What an object points to, and the value it has then. *)
Ltac look i :=
  let E := fresh "E" in
  match goal with Hv : valid ?s |- _ =>
    destruct (objs s !! i) as [[?p |] |] eqn:E;
    [ let w := fresh "w" in let Hw := fresh "Hw" in let Hm := fresh "Hm" in
      destruct (valid_cell _ Hv _ _ E) as [w Hw];
      pose proof (values_of_lookup _ _ _ E) as Hm; cbn in Hm; rewrite Hw in Hm
    | let Hm := fresh "Hm" in pose proof (values_of_lookup _ _ _ E) as Hm; cbn in Hm
    | let Hm := fresh "Hm" in pose proof (values_of_none _ _ E) as Hm ]
  end.

(** Both sides evaluated on the known lookups. *)
Ltac known := repeat match goal with H : ?m !! _ = _ |- context [?m !! _] => rewrite H; cbn [cells objs fresh_cell] end.

Ltac any_eval :=
  unfold simulates; cbn [any_run any_spec];
  unfold any_new, any_copy, any_of, any_assign, any_destroy, any_clear, any_empty, any_type_of,
    any_str, cast, any_equal, clone_pimpl, delete_pimpl, impl_clone, new_impl, delete_impl,
    read_impl, get_pimpl, set_pimpl, drop_object, spec_get, spec_set, spec_drop;
  unfold mbind, stm_bind, mret, stm_ret, lift, fmap, stm_fmap, fmap, outcome_fmap; cbn; known.

Lemma any_simulates op s : valid s → allowed op s → simulates s (any_run op) (any_spec op).
Proof.
  intros Hv Ha. destruct op as [i | i j | i v | i j | i | i | i | i | i | t i | i j]; cbn [allowed] in Ha.
  - any_eval. eapply leads_reset; [done |]. cbn. unfold freed_cells. by rewrite Ha.
  - look j; any_eval; try apply leads_undef; (eapply leads_reset; [done |]);
      cbn; unfold freed_cells; by rewrite Ha.
  - any_eval. eapply leads_reset; [done |]. cbn. unfold freed_cells. by rewrite Ha.
  - look i; look j; try (pose proof (other_cell _ _ _ _ _ _ Hv E E0 Ha Hw0)); any_eval;
      try apply leads_undef; (eapply leads_reset; [done |]); cbn; unfold freed_cells; by rewrite E.
  - look i; any_eval; try apply leads_undef; (eapply leads_drop; [done | by rewrite E |]);
      unfold freed_cells; by rewrite E.
  - look i; any_eval; try apply leads_undef; (eapply leads_reset; [done |]);
      cbn; unfold freed_cells; by rewrite E.
  - look i; any_eval; by apply leads_same.
  - look i; any_eval; by apply leads_same.
  - look i; any_eval; by apply leads_same.
  - look i; any_eval; unfold spec_cast, fmap, outcome_fmap;
      [| destruct (declared t); by apply leads_same | by apply leads_same].
    destruct (decide (itype w = t)) as [<- | Ht]; cbn.
    + rewrite insert_id by done. by apply leads_same.
    + destruct (impl_convert t w) as [v | e |]; cbn; [| by apply leads_same..].
      assert (p ≠ fresh_cell s) as Hp.
      { intros ->. specialize (valid_fresh _ Hv _ (mk_is_Some _ _ Hw)). lia. }
      any_eval. rewrite lookup_insert_ne, Hw by done. cbn.
      rewrite lookup_delete_ne, lookup_insert_eq by done. eapply leads_reset; [done |].
      cbn. unfold freed_cells. by rewrite E, delete_insert_ne.
  - look i; look j; any_eval; by apply leads_same.
Qed.

(** A program: its answers and exceptions, up to the first undefined behaviour. *)
Fixpoint trace {X} (run : any_op → stm X answer) (ops : list any_op) (x : X)
    : list (outcome answer) * X :=
  match ops with
  | [] => ([], x)
  | op :: ops' =>
      match run op x with
      | (Undef, x') => ([Undef], x')
      | (o, x') => let '(l, x1) := trace run ops' x' in (o :: l, x1)
      end
  end.

Fixpoint allowed_all (ops : list any_op) (s : store) : Prop :=
  match ops with
  | [] => True
  | op :: ops' => allowed op s ∧ allowed_all ops' (any_run op s).2
  end.

Lemma trace_simulates ops s :
  valid s → allowed_all ops s →
  let '(l, s') := trace any_run ops s in
  ∃ ms, trace any_spec ops (values_of s) = (l, ms) ∧ (Undef ∉ l → valid s' ∧ values_of s' = ms).
Proof.
  revert s. induction ops as [| op ops IH]; intros s Hv Ha; cbn; [by eexists |].
  destruct Ha as [Ha Has]. pose proof (any_simulates op s Hv Ha) as Hs. unfold simulates, leads in Hs.
  destruct (any_run op s) as [o s1]. destruct Hs as (m1 & Hm & Hvm). rewrite Hm.
  destruct o as [a | e |]; [| | exists m1; split; [done |]; set_solver].
  all: destruct Hvm as [Hv1 <-]; [done |]; specialize (IH s1 Hv1 Has).
  all: destruct (trace any_run ops s1) as [l s2]; destruct IH as (m2 & -> & Hm2); exists m2.
  all: (split; [done |]); intros Hu; apply Hm2; set_solver.
Qed.

(** What is not allowed: an object that holds a value and is assigned to itself is read after its
    value was freed. *)
Lemma self_assignment i s v :
  values_of s !! i = Some (Some v) → (any_run (Assign i i) s).1 = Undef.
Proof.
  unfold values_of. rewrite lookup_fmap. destruct (objs s !! i) as [[p |] |] eqn:Ei; cbn; [| done..].
  intros [= Ep]. unfold any_run, any_assign, get_pimpl, mbind, stm_bind. rewrite Ei. cbn.
  unfold delete_impl. rewrite Ep. cbn. rewrite Ei.
  assert (∀ o f, impl_clone p (Store (delete p (cells s)) o f) = (Undef, Store (delete p (cells s)) o f)) as Hc.
  { intros o f. unfold impl_clone, mbind, stm_bind, read_impl. cbn. by rewrite lookup_delete_eq. }
  unfold clone_pimpl, fmap, stm_fmap. by rewrite Hc.
Qed.

Definition no_objects : store := Store ∅ ∅ 0.

Lemma no_objects_valid : valid no_objects.
Proof. split; cbn; intros *; try by intros ?%lookup_empty_Some. all: by intros [? ?%lookup_empty_Some]. Qed.
End any.
Arguments store {_}.
Arguments no_objects {_}.

(** ** The types strutils.h converts without a stream *)
Inductive kind := KInt | KStr | KPtr.

#[global] Instance kind_eq_dec : EqDecision kind.
Proof. solve_decision. Defined.

Definition kind_val (k : kind) : Type := match k with KStr => str | _ => Z end.

#[global] Instance std_types : AnyTypes := {|
  any_type := kind;
  val := kind_val;
  to_string k := match k return kind_val k → outcome str with
                 | KInt => λ n, Ret (to_string_int n)
                 | KStr => Ret
                 | KPtr => λ p, Ret (to_string_ptr p)
                 end;
  from_string k := match k return str → outcome (kind_val k) with
                   | KInt => λ s, Ret (from_string_int s)
                   | KStr => Ret
                   | KPtr => λ s, Ret (from_string_ptr s)
                   end;
  val_eqb k := match k return kind_val k → kind_val k → bool with
               | KStr => str_eqb
               | _ => Z.eqb
               end;
  declared k := match k return outcome (kind_val k) with KStr => Ret [] | _ => Undef end |}.

Definition an_int (n : Z) : impl := @Impl std_types KInt n.

Definition a_text (s : str) : impl := @Impl std_types KStr s.

(** The value of an object after a cast, by the promise. *)
Lemma cast_spec s i v t w :
  valid s → values_of s !! i = Some (Some v) → spec_cast t (Some v) = Ret w →
  let '(o, s') := cast t i s in o = Ret w ∧ valid s' ∧ values_of s' = <[i := Some w]> (values_of s).
Proof.
  intros Hv Hi Hw. pose proof (any_simulates (Cast t i) s Hv I) as Hs.
  unfold simulates, leads in Hs. cbn [any_run any_spec] in Hs.
  unfold fmap, stm_fmap in Hs. destruct (cast t i s) as [o s'].
  destruct Hs as (m & Hm & Hvm).
  unfold spec_get, spec_set, mbind, stm_bind, mret, stm_ret, lift in Hm. rewrite Hi, Hw in Hm.
  injection Hm as Ho <-. destruct o as [x | e |]; try discriminate Ho. injection Ho as ->.
  by destruct Hvm.
Qed.

(** ** Properties *)

(** C18. Objects of class [any] are values: whatever a program does with them - declarations,
    copies, assignments, casts, comparisons, destruction, and conversions that throw -, but for
    assigning an object that holds a value to itself, it gets the answers it would get if each
    object held its value itself, and the values at the end are the same.  Every cell on the heap
    belongs to one object: nothing is freed twice, used after it was freed or leaked.  The
    excepted assignment reads a value that it has just freed. *)
Theorem any_values `{AnyTypes} ops :
  allowed_all ops no_objects →
  let '(l, s) := trace any_run ops no_objects in
  let '(l', m) := trace any_spec ops ∅ in
  l = l' ∧
  ((Undef ∉ l) → m = values_of s ∧
     (∀ p, is_Some (cells s !! p) → ∃ i, ∀ j, objs s !! j = Some (Some p) ↔ j = i) ∧
     ∀ i v, m !! i = Some (Some v) → (any_run (Assign i i) s).1 = Undef).
Proof.
  intros Ha. pose proof (trace_simulates ops no_objects no_objects_valid Ha) as Ht.
  destruct (trace any_run ops no_objects) as [l s]. destruct Ht as (m & Hm & Hv).
  change (values_of no_objects) with (∅ : gmap nat (option impl)) in Hm. rewrite Hm. split; [done |].
  intros Hu. destruct (Hv Hu) as [Hs <-]. split; [done |]. split; [| intros i v; by apply self_assignment]. intros p Hp.
  destruct (valid_owner _ Hs p Hp) as [i Hi]. exists i. intros j. split; [| by intros ->].
  intros Hj. by eapply (valid_unique _ Hs).
Qed.

(** Casting a number to a text and back gives the number, in place, and touches no other
    object; casting changes the type the object holds. *)
Theorem any_cast_text s i n :
  valid s → values_of s !! i = Some (Some (an_int n)) → (INT_MIN ≤ n ≤ INT_MAX)%Z →
  let '(o, s1) := cast (H := std_types) KStr i s in
  o = Ret (a_text (print_dec n)) ∧ values_of s1 = <[i := Some (a_text (print_dec n))]> (values_of s) ∧
  let '(o', s2) := cast (H := std_types) KInt i s1 in
  o' = Ret (an_int n) ∧ values_of s2 = values_of s ∧ valid s2.
Proof.
  intros Hv Hi Hn. assert (spec_cast (H := std_types) KStr (Some (an_int n)) = Ret (a_text (print_dec n))) as H1.
  { cbn. by rewrite to_string_int_print. }
  pose proof (cast_spec s i (an_int n) KStr _ Hv Hi H1) as Hc.
  destruct (cast (H := std_types) KStr i s) as [o s1]. destruct Hc as (-> & Hv1 & Hm1). split_and!; [done.. |].
  assert (spec_cast (H := std_types) KInt (Some (a_text (print_dec n))) = Ret (an_int n)) as H2.
  { cbn. by rewrite from_string_int_print. }
  pose proof (cast_spec s1 i (a_text (print_dec n)) KInt (an_int n) Hv1 ltac:(rewrite Hm1; apply lookup_insert_eq) H2) as Hc.
  destruct (cast (H := std_types) KInt i s1) as [o' s2]. destruct Hc as (-> & Hv2 & Hm2). split_and!; [done | | done].
  rewrite Hm2, Hm1, insert_insert_eq. by apply insert_id.
Qed.

(** Two values of different types are compared as values of the left one: the comparison is
    not symmetric. *)
Lemma any_equal_left n t :
  impl_equal (an_int n) (a_text t) = Ret (n =? from_string_int t)%Z ∧
  impl_equal (a_text t) (an_int n) = Ret (str_eqb t (to_string_int n)).
Proof. done. Qed.

Example any_equal_asymmetric :
  impl_equal (an_int 1) (a_text (lit "01")) = Ret true ∧
  impl_equal (a_text (lit "01")) (an_int 1) = Ret false.
Proof. split; reflexivity. Qed.

(** An object assigned to itself loses its value before it is copied. *)
Example any_self_assign :
  fst (trace (any_run (H := std_types)) [Of 0 (an_int 1); Assign 0 0] no_objects) = [Ret AVoid; Undef].
Proof. reflexivity. Qed.

(** ** Witnesses *)
Definition any_sample : list any_op :=
  [New 0; Of 1 (an_int 7); Copy 2 1; Cast KStr 2; Assign 0 2; Equal 0 1; Clear 1; Str 0; Destroy 2].

Lemma any_values_witness :
  allowed_all any_sample no_objects ∧
  let '(l, s) := trace (any_run (H := std_types)) any_sample no_objects in
  let '(l', m) := trace any_spec any_sample ∅ in l = l'.
Proof.
  assert (allowed_all any_sample no_objects) as Ha by (vm_compute; repeat split; congruence).
  split; [exact Ha |]. pose proof (any_values any_sample Ha) as Hp.
  destruct (trace any_run any_sample no_objects) as [l s], (trace any_spec any_sample ∅) as [l' m].
  exact (proj1 Hp).
Defined.

Definition one_number : store := snd (any_run (Of 0 (an_int 42)) no_objects).

Lemma any_cast_text_witness :
  fst (cast (H := std_types) KStr 0 one_number) = Ret (a_text (lit "42")).
Proof.
  destruct (any_simulates (Of 0 (an_int 42)) no_objects no_objects_valid eq_refl) as (m & _ & Hv).
  destruct (Hv ltac:(done)) as [Hv' _]. clear Hv. change (valid one_number) in Hv'.
  pose proof (any_cast_text one_number 0 42 Hv' eq_refl ltac:(unfold INT_MIN, INT_MAX; lia)) as Hp.
  destruct (cast (H := std_types) KStr 0 one_number) as [o s1]. exact (proj1 Hp).
Defined.
