(* ===== verification/Socket.v ===== *)
(** * [src/src/dcl/socket.cpp] and [src/include/dcl/socket.h]: sockets.

    The system calls are the class [SocketOs] over a state of the system; [SocketLaws] states
    which descriptors are open.  Each member function is an operation on that state; what a
    program does with socket objects - copies and assignments pass the descriptor on, even from
    a constant source - is the relation [sock_step]. *)
From S2P Require Export StrUtils Steps.

(** The values of [socket::error]. *)
Definition data_not_ready : Z := -1.

Definition io_error : Z := -2.

Definition EAGAIN : Z := 11.

Definition O_NONBLOCK : Z := 2048.

Definition HOST_NOT_FOUND : Z := 1.

Definition NO_DATA : Z := 4.

Class SocketOs := {
  os : Type;
  (** the kind of the socket: its domain, type and protocol *)
  sys_socket : Z * Z * Z → os → Z * os;
  (** the descriptor, the address and the port as 32 and 16 bits *)
  sys_connect : Z → Z → Z → os → Z * os;
  sys_bind : Z → Z → Z → os → Z * os;
  sys_listen : Z → Z → os → Z * os;
  (** the new descriptor, the peer's address and port *)
  sys_accept : Z → os → Z * Z * Z * os;
  (** the answer, the bytes stored and errno *)
  sys_recv : Z → Z → os → Z * str * Z * os;
  sys_send : Z → str → os → Z * Z * os;
  sys_shutdown : Z → os → os;
  sys_close : Z → os → os;
  fcntl_getfl : Z → os → Z * os;
  fcntl_setfl : Z → Z → os → Z * os;
  setsockopt_reuseaddr : Z → os → Z * os;
  inet_pton : str → option Z;
  inet_ntoa : Z → str;
  (** h_errno, or the addresses of the host, printed *)
  gethostbyname : str → Z + list str }.

Definition socket_throw {A} (msg : string) : outcome A := Throw (Exn socket_exception (lit msg)).

Record socket := Socket {
  socket_fd : Z;
  _address : str;
  _port : Z }.

(** [socket::socket()]; the base constructor leaves the address empty. *)
Definition socket_new : socket := Socket (-1) [] 0.

(** The copy constructor and the assignment of another object: the copy and the source. *)
Definition socket_copy (src : socket) : socket * socket :=
  (Socket (socket_fd src) (_address src) (_port src), Socket (-1) (_address src) (_port src)).

(** [s = s]: the descriptor is overwritten last. *)
Definition socket_assign_self (s : socket) : socket := Socket (-1) (_address s) (_port s).

Record socket_address := SocketAddress {
  addrs : list str;
  port : Z;
  host : str }.

Section operations.
Context `{SocketOs}.

(** [socket_address::parse] on a new object. *)
Definition parse (addr : str) : outcome socket_address :=
  let a := tokenize addr (lit ":") in
  host ← vec_at a 0;
  l ← (if bool_decide (host = []) || bool_decide (host = lit "*") then Ret []
       else match gethostbyname host with
            | inr l => Ret l
            | inl e =>
                (if (e =? HOST_NOT_FOUND)%Z
                 then format_str (format_arg (format_make (lit "host '{0}' is not found")) host)
                 else if (e =? NO_DATA)%Z
                 then format_str (format_arg (format_make (lit "can't access host '{0}'")) host)
                 else format_str (format_arg (format_make (lit "can't resolve host '{0}'")) host))
                ≫= λ msg, Throw (Exn socket_exception msg)
            end);
  p ← vec_at a 1;
  mret (SocketAddress l (match p with [] => 0 | _ => from_string_int p end) host).

(** [socket_address(address, port)]: the list of addresses stays empty. *)
Definition socket_address_make (address : str) (p : Z) : socket_address :=
  SocketAddress [] p address.

(** [htons] of an [int]: the port that is asked for. *)
Definition htons (p : Z) : Z := p mod 2 ^ 16.

Definition set_blocked (state : bool) (fd : Z) : stm os unit := λ s,
  let '(opts, s1) := fcntl_getfl fd s in
  if (opts <? 0)%Z then (socket_throw "can't get socket blocking state", s1)
  else
    let opts' := if state then Z.land opts O_NONBLOCK else Z.lor opts O_NONBLOCK in
    let '(r, s2) := fcntl_setfl fd opts' s1 in
    (if (r <? 0)%Z then socket_throw "can't change socket blocking state" else Ret (), s2).

(** [~socket]; an exception leaves the descriptor open. *)
Definition socket_destroy (k : socket) : stm os unit := λ s,
  if (0 <=? socket_fd k)%Z then
    match set_blocked true (socket_fd k) s with
    | (Ret _, s') => (Ret (), sys_close (socket_fd k) s')
    | (o, s') => (o, s')
    end
  else (Ret (), s).

(** [connect]: its answer, and the object afterwards in any case. *)
Definition connect (address : str) (p : Z) (k : socket) (s : os) : outcome bool * socket * os :=
  match inet_pton address with
  | None => (socket_throw "can't assign an address to a socket", k, s)
  | Some a =>
      let '(r, s') := sys_connect (socket_fd k) a (htons p) s in
      if (r <? 0)%Z then (Ret false, Socket (-1) (_address k) (_port k), s')
      else (Ret true, Socket (socket_fd k) address p, s')
  end.

Definition bind (a : socket_address) (k : socket) (s : os) : outcome unit * socket * os :=
  match (match addrs a with [] => Some 0%Z | a0 :: _ => inet_pton a0 end) with
  | None => (socket_throw "can't assign an address to a socket", k, s)
  | Some ip =>
      let k1 := Socket (socket_fd k) (match addrs a with [] => [] | a0 :: _ => a0 end) (port a) in
      let '(r, s1) := setsockopt_reuseaddr (socket_fd k) s in
      if (r <? 0)%Z then (socket_throw "can't setup socket options", k1, s1)
      else match set_blocked false (socket_fd k) s1 with
           | (Ret _, s2) =>
               let '(r, s3) := sys_bind (socket_fd k) ip (htons (port a)) s2 in
               if (r <? 0)%Z
               then (socket_throw "can't bind to the address or port",
                     Socket (-1) (_address k1) (_port k1), s3)
               else (Ret (), k1, s3)
           | (o, s2) => (o, k1, s2)
           end
  end.

Definition listen (k : socket) : stm os unit := λ s,
  let '(r, s') := sys_listen (socket_fd k) (-1) s in
  (if (r <? 0)%Z then socket_throw "can't listen socket" else Ret (), s').

(** [accept]; when the new socket can not be made non-blocking it is destroyed again. *)
Definition accept (k : socket) : stm os socket := λ s,
  let '(fd, a, p, s1) := sys_accept (socket_fd k) s in
  if (fd <? 0)%Z then (socket_throw "can't accept incoming connection", s1)
  else
    let rslt := Socket fd (inet_ntoa a) p in
    match set_blocked false fd s1 with
    | (Ret _, s2) => (Ret rslt, s2)
    | (Throw e, s2) =>
        match socket_destroy rslt s2 with
        | (Ret _, s3) => (Throw e, s3)
        | (_, s3) => (Undef, s3)
        end
    | (Undef, s2) => (Undef, s2)
    end.

Definition read (bytes_to_read : Z) (k : socket) (s : os) : Z * str * os :=
  let '(nread, buffer, errno, s') := sys_recv (socket_fd k) bytes_to_read s in
  (if (nread <? 0)%Z then if (errno =? EAGAIN)%Z then data_not_ready else io_error else nread,
   buffer, s').

Definition write (buffer : str) (k : socket) (s : os) : Z * os :=
  let '(nwritten, errno, s') := sys_send (socket_fd k) buffer s in
  (if (nwritten <? 0)%Z then if (errno =? EAGAIN)%Z then data_not_ready else io_error
   else nwritten, s').

Definition shutdown (k : socket) (s : os) : os := sys_shutdown (socket_fd k) s.

(** [tcp_socket()], [udp_socket()] and [unix_socket()]: the domain, type and protocol. *)
Definition tcp_kind : Z * Z * Z := (2, 1, 6)%Z.

Definition udp_kind : Z * Z * Z := (2, 2, 17)%Z.

Definition unix_kind : Z * Z * Z := (1, 1, 0)%Z.

Definition open_socket (kind : Z * Z * Z) : stm os socket := λ s,
  let '(fd, s') := sys_socket kind s in
  (if (fd <? 0)%Z then socket_throw "can't create socket" else Ret (Socket fd [] 0), s').
End operations.

(** ** What the system promises of descriptors *)
Class SocketLaws `{SocketOs} := {
  opened : os → gset Z;
  (** the flags of a descriptor *)
  status : os → Z → Z;
  opened_nonneg : ∀ fd s, fd ∈ opened s → (0 ≤ fd)%Z;
  socket_law : ∀ k s, let '(fd, s') := sys_socket k s in
    (fd < 0 ∧ opened s' = opened s)%Z ∨ (0 ≤ fd ∧ (fd ∉ opened s) ∧ opened s' = {[ fd ]} ∪ opened s)%Z;
  accept_law : ∀ l s, let '(fd, a, p, s') := sys_accept l s in
    (fd < 0 ∧ opened s' = opened s)%Z ∨ (0 ≤ fd ∧ (fd ∉ opened s) ∧ opened s' = {[ fd ]} ∪ opened s)%Z;
  close_law : ∀ fd s, opened (sys_close fd s) = opened s ∖ {[ fd ]};
  connect_law : ∀ fd a p s, opened (sys_connect fd a p s).2 = opened s;
  bind_law : ∀ fd a p s, opened (sys_bind fd a p s).2 = opened s;
  listen_law : ∀ fd n s, opened (sys_listen fd n s).2 = opened s;
  recv_law : ∀ fd n s, opened (sys_recv fd n s).2 = opened s;
  send_law : ∀ fd b s, opened (sys_send fd b s).2 = opened s;
  send_bound : ∀ fd b s, ((sys_send fd b s).1.1 ≤ Z.of_nat (length b))%Z;
  shutdown_law : ∀ fd s, opened (sys_shutdown fd s) = opened s;
  setsockopt_law : ∀ fd s, opened (setsockopt_reuseaddr fd s).2 = opened s;
  getfl_law : ∀ fd s, let '(r, s') := fcntl_getfl fd s in
    opened s' = opened s ∧ status s' = status s ∧ (0 ≤ r → r = status s fd)%Z;
  setfl_law : ∀ fd v s, let '(r, s') := fcntl_setfl fd v s in
    opened s' = opened s ∧ (0 ≤ r → status s' fd = v)%Z }.

(** ** Programs with sockets *)
Inductive sock_op :=
  | OpNew | OpOpen | OpCopy | OpAssign | OpDestroy | OpConnect | OpBind | OpListen | OpAccept
  | OpRead | OpWrite | OpShutdown.

Section programs.
Context `{SocketOs}.

Record world := World {
  sys : os;
  objs : gmap nat socket }.

(** One operation on the objects of a program, those of one address space. *)
Inductive sock_step (w : world) : sock_op → world → Prop :=
  | sock_new i : objs w !! i = None → sock_step w OpNew (World (sys w) (<[i := socket_new]> (objs w)))
  | sock_open i kind k s :
      objs w !! i = None → open_socket kind (sys w) = (Ret k, s) →
      sock_step w OpOpen (World s (<[i := k]> (objs w)))
  | sock_open_fails kind e s :
      open_socket kind (sys w) = (Throw e, s) → sock_step w OpOpen (World s (objs w))
  | sock_copy i j k :
      objs w !! i = Some k → objs w !! j = None →
      sock_step w OpCopy
        (World (sys w) (<[j := (socket_copy k).1]> (<[i := (socket_copy k).2]> (objs w))))
  | sock_assign i j k :
      objs w !! i = Some k → is_Some (objs w !! j) → i ≠ j →
      sock_step w OpAssign
        (World (sys w) (<[j := (socket_copy k).1]> (<[i := (socket_copy k).2]> (objs w))))
  | sock_assign_self i k :
      objs w !! i = Some k →
      sock_step w OpAssign (World (sys w) (<[i := socket_assign_self k]> (objs w)))
  (* an exception of the destructor ends the program *)
  | sock_destroy i k s :
      objs w !! i = Some k → socket_destroy k (sys w) = (Ret (), s) →
      sock_step w OpDestroy (World s (delete i (objs w)))
  | sock_connect i k a p o k' s :
      objs w !! i = Some k → connect a p k (sys w) = (o, k', s) →
      sock_step w OpConnect (World s (<[i := k']> (objs w)))
  | sock_bind i k a o k' s :
      objs w !! i = Some k → bind a k (sys w) = (o, k', s) →
      sock_step w OpBind (World s (<[i := k']> (objs w)))
  | sock_listen i k o s :
      objs w !! i = Some k → listen k (sys w) = (o, s) → sock_step w OpListen (World s (objs w))
  | sock_accept i j k k' s :
      objs w !! i = Some k → objs w !! j = None → accept k (sys w) = (Ret k', s) →
      sock_step w OpAccept (World s (<[j := k']> (objs w)))
  | sock_accept_throws i k e s :
      objs w !! i = Some k → accept k (sys w) = (Throw e, s) →
      sock_step w OpAccept (World s (objs w))
  | sock_read i k n r b s :
      objs w !! i = Some k → read n k (sys w) = (r, b, s) → sock_step w OpRead (World s (objs w))
  | sock_write i k b r s :
      objs w !! i = Some k → write b k (sys w) = (r, s) → sock_step w OpWrite (World s (objs w))
  | sock_shutdown i k :
      objs w !! i = Some k → sock_step w OpShutdown (World (shutdown k (sys w)) (objs w)).
End programs.

(** ** Lemmas: which descriptors are open *)
Section laws.
Context `{SocketLaws}.

Lemma set_blocked_opened b fd s o s' : set_blocked b fd s = (o, s') → opened s' = opened s ∧ o ≠ Undef.
Proof.
  unfold set_blocked. intros E. pose proof (getfl_law fd s) as Hg.
  destruct (fcntl_getfl fd s) as [opts s1]. destruct Hg as (Hg & _ & _).
  destruct (opts <? 0)%Z; [by simplify_eq |].
  pose proof (setfl_law fd (if b then Z.land opts O_NONBLOCK else Z.lor opts O_NONBLOCK) s1) as Hs.
  destruct (fcntl_setfl _ _ s1) as [r s2]. destruct Hs as [Hs _]. injection E as <- <-.
  split; [congruence |]. by destruct (r <? 0)%Z.
Qed.

Lemma socket_destroy_opened k s s' :
  socket_destroy k s = (Ret (), s') →
  opened s' = if (0 <=? socket_fd k)%Z then opened s ∖ {[ socket_fd k ]} else opened s.
Proof.
  unfold socket_destroy. destruct (0 <=? socket_fd k)%Z; [| by intros [= <-]].
  destruct (set_blocked true (socket_fd k) s) as [[[] | |] s1] eqn:E; intros [= <-].
  rewrite close_law. by destruct (set_blocked_opened _ _ _ _ _ E) as [-> _].
Qed.

Lemma connect_opened a p k s o k' s' :
  connect a p k s = (o, k', s') →
  opened s' = opened s ∧ (socket_fd k' = socket_fd k ∨ socket_fd k' = -1)%Z.
Proof.
  unfold connect. destruct (inet_pton a) as [ip |]; [| intros [= <- <- <-]; auto].
  pose proof (connect_law (socket_fd k) ip (htons p) s) as Hl.
  destruct (sys_connect _ _ _ s) as [r s1]. cbn in Hl.
  destruct (r <? 0)%Z; intros [= <- <- <-]; auto.
Qed.

Lemma bind_opened a k s o k' s' :
  bind a k s = (o, k', s') →
  opened s' = opened s ∧ (socket_fd k' = socket_fd k ∨ socket_fd k' = -1)%Z.
Proof.
  unfold bind. destruct (match addrs a with [] => _ | _ => _ end) as [ip |]; [| intros [= <- <- <-]; auto].
  pose proof (setsockopt_law (socket_fd k) s) as Hl.
  destruct (setsockopt_reuseaddr _ s) as [r s1]. cbn in Hl.
  destruct (r <? 0)%Z; [intros [= <- <- <-]; auto |].
  destruct (set_blocked false (socket_fd k) s1) as [ob s2] eqn:E.
  destruct (set_blocked_opened _ _ _ _ _ E) as [Eo _].
  destruct ob; [| intros [= <- <- <-]; split; [congruence | auto]..].
  pose proof (bind_law (socket_fd k) ip (htons (port a)) s2) as Hb.
  destruct (sys_bind _ _ _ s2) as [r' s3]. cbn in Hb.
  destruct (r' <? 0)%Z; intros [= <- <- <-]; split; (congruence || auto).
Qed.

Lemma open_socket_opened kind s o s' :
  open_socket kind s = (o, s') →
  match o with
  | Ret k => (0 ≤ socket_fd k ∧ (socket_fd k ∉ opened s) ∧ opened s' = {[ socket_fd k ]} ∪ opened s)%Z
  | _ => opened s' = opened s
  end.
Proof.
  unfold open_socket. pose proof (socket_law kind s) as Hl. destruct (sys_socket kind s) as [fd s1].
  intros [= <- <-]. destruct (Z.ltb_spec fd 0); destruct Hl as [[? ?] | (? & ? & ?)]; (done || lia).
Qed.

Lemma accept_opened k s o s' :
  accept k s = (o, s') →
  match o with
  | Ret k' => (0 ≤ socket_fd k' ∧ (socket_fd k' ∉ opened s) ∧ opened s' = {[ socket_fd k' ]} ∪ opened s)%Z
  | Throw _ => opened s' = opened s
  | Undef => True
  end.
Proof.
  unfold accept. pose proof (accept_law (socket_fd k) s) as Hl.
  destruct (sys_accept (socket_fd k) s) as [[[fd a] p] s1].
  destruct (Z.ltb_spec fd 0); [intros [= <- <-]; by destruct Hl as [[? ?] | (? & ? & ?)]; [| lia] |].
  destruct Hl as [[? ?] | (Hfd & Hnew & Ho)]; [lia |].
  destruct (set_blocked false fd s1) as [ob s2] eqn:E.
  destruct (set_blocked_opened _ _ _ _ _ E) as [Eo _].
  destruct ob as [u | e |]; [intros [= <- <-]; cbn; by rewrite Eo | | by intros [= <- <-]].
  destruct (socket_destroy (Socket fd (inet_ntoa a) p) s2) as [[[] | |] s3] eqn:Ed; intros [= <- <-];
    [| done..].
  rewrite (socket_destroy_opened _ _ _ Ed). cbn. destruct (Z.leb_spec 0 fd); [| lia].
  rewrite Eo, Ho. set_solver.
Qed.

(** ** Ownership of descriptors *)

(** Every descriptor an object has is open, and no two objects have the same. *)
Definition fds_ok (w : world) : Prop :=
  ∀ i k, objs w !! i = Some k → (0 ≤ socket_fd k)%Z →
    socket_fd k ∈ opened (sys w) ∧
    ∀ j k', objs w !! j = Some k' → socket_fd k' = socket_fd k → j = i.

(** An open descriptor that no object has. *)
Definition orphan (w : world) (fd : Z) : Prop :=
  fd ∈ opened (sys w) ∧ ∀ i k, objs w !! i = Some k → socket_fd k ≠ fd.

Lemma fds_ok_insert w s i k :
  fds_ok w → opened (sys w) ⊆ opened s →
  ((0 ≤ socket_fd k)%Z → socket_fd k ∈ opened s ∧
    ∀ j k', j ≠ i → objs w !! j = Some k' → socket_fd k' ≠ socket_fd k) →
  fds_ok (World s (<[i := k]> (objs w))).
Proof.
  intros Hw Ho Hk j k' Hj Hfd. cbn [sys objs] in *.
  apply lookup_insert_Some in Hj as [[-> ->] | [Hne Hj]].
  - destruct (Hk Hfd) as [Hin Hu]. split; [done |]. intros j' k'' Hj' E.
    apply lookup_insert_Some in Hj' as [[-> _] | [Hne Hj']]; [done |].
    by destruct (Hu j' k'' ltac:(done) Hj').
  - destruct (Hw j k' Hj Hfd) as [Hin Hu]. split; [set_solver |]. intros j' k'' Hj' E.
    apply lookup_insert_Some in Hj' as [[-> ->] | [Hne' Hj']]; [| by eapply Hu].
    destruct (Hk ltac:(lia)) as [_ Hk']. by destruct (Hk' j k' ltac:(done) Hj).
Qed.

(** An object keeps its descriptor or loses it. *)
Lemma fds_ok_update w s i k k' :
  fds_ok w → opened s = opened (sys w) → objs w !! i = Some k →
  (socket_fd k' = socket_fd k ∨ socket_fd k' = -1)%Z → fds_ok (World s (<[i := k']> (objs w))).
Proof.
  intros Hw Ho Hi Hk. apply fds_ok_insert; [done | set_solver |]. intros Hfd.
  destruct Hk as [E | E]; [| lia]. rewrite E in *. destruct (Hw i k Hi Hfd) as [Hin Hu].
  split; [set_solver |]. intros j k'' Hne Hj Ej. by apply Hne, (Hu j k'').
Qed.

Lemma fds_ok_same w s : fds_ok w → opened s = opened (sys w) → fds_ok (World s (objs w)).
Proof. unfold fds_ok. cbn. by intros Hw ->. Qed.

(** A descriptor the system has just opened. *)
Lemma fds_ok_fresh w s i k :
  fds_ok w → (0 ≤ socket_fd k)%Z → socket_fd k ∉ opened (sys w) →
  opened s = {[ socket_fd k ]} ∪ opened (sys w) → fds_ok (World s (<[i := k]> (objs w))).
Proof.
  intros Hw Hk Hnew Ho. apply fds_ok_insert; [done | set_solver |]. intros _. split; [set_solver |].
  intros j k' _ Hj E. apply Hnew. rewrite <- E. apply (Hw j k' Hj). lia.
Qed.

(** [j] takes the descriptor of [i]. *)
Lemma fds_ok_transfer w i j k :
  fds_ok w → objs w !! i = Some k → i ≠ j →
  fds_ok (World (sys w) (<[j := (socket_copy k).1]> (<[i := (socket_copy k).2]> (objs w)))).
Proof.
  intros Hw Hi Hne.
  pose proof (fds_ok_insert (World (sys w) (<[i := (socket_copy k).2]> (objs w))) (sys w) j
    (socket_copy k).1) as Hins. cbn [sys objs] in Hins. apply Hins.
  - eapply fds_ok_update; [done.. | by right].
  - done.
  - cbn. intros Hfd. destruct (Hw i k Hi Hfd) as [Hin Hu]. split; [done |].
    intros j' k' Hne' Hj' E. apply lookup_insert_Some in Hj' as [[-> <-] | [Hne'' Hj']]; [cbn in E; lia |].
    by apply Hne'', eq_sym, (Hu j' k').
Qed.

Lemma fds_ok_step w op w' : sock_step w op w' → fds_ok w → fds_ok w'.
Proof.
  intros Hs Hw. destruct Hs as [i Hi | i kind k s Hi E | kind e s E | i j k Hi Hj | i j k Hi Hj Hne
    | i k Hi | i k s Hi E | i k a p o k' s Hi E | i k a o k' s Hi E | i k o s Hi E | i j k k' s Hi Hj E
    | i k e s Hi E | i k n r b s Hi E | i k b r s Hi E | i k Hi].
  - apply fds_ok_insert; [done | set_solver | cbn; lia].
  - apply open_socket_opened in E as (? & ? & ?). by apply fds_ok_fresh.
  - apply open_socket_opened in E. by apply fds_ok_same.
  - apply fds_ok_transfer; [done.. |]. intros ->. congruence.
  - by apply fds_ok_transfer.
  - eapply fds_ok_update; [done.. | by right].
  - apply socket_destroy_opened in E. intros j k' Hj Hfd. cbn [sys objs] in *.
    apply lookup_delete_Some in Hj as [Hne Hj]. destruct (Hw j k' Hj Hfd) as [Hin Hu]. split.
    + rewrite E. destruct (Z.leb_spec 0 (socket_fd k)); [| done].
      apply elem_of_difference. split; [done |]. intros Eq%elem_of_singleton.
      by apply Hne, (Hu i k).
    + intros j' k'' Hj' Ef. apply lookup_delete_Some in Hj' as [_ Hj']. by eapply Hu.
  - apply connect_opened in E as [? ?]. by eapply fds_ok_update.
  - apply bind_opened in E as [? ?]. by eapply fds_ok_update.
  - apply fds_ok_same; [done |]. unfold listen in E.
    pose proof (listen_law (socket_fd k) (-1) (sys w)) as Hl.
    destruct (sys_listen _ _ _) as [r s']. by injection E as _ <-.
  - apply accept_opened in E as (? & ? & ?). by apply fds_ok_fresh.
  - apply accept_opened in E. by apply fds_ok_same.
  - apply fds_ok_same; [done |]. unfold read in E. pose proof (recv_law (socket_fd k) n (sys w)) as Hl.
    destruct (sys_recv _ _ _) as [[[? ?] ?] s']. by injection E as _ _ <-.
  - apply fds_ok_same; [done |]. unfold write in E. pose proof (send_law (socket_fd k) b (sys w)) as Hl.
    destruct (sys_send _ _ _) as [[? ?] s']. by injection E as _ <-.
  - apply fds_ok_same; [done |]. apply shutdown_law.
Qed.
End laws.

(** ** Lemmas: lost descriptors *)
Section orphans.
Context `{SocketLaws}.

Lemma orphan_same w s fd :
  opened s = opened (sys w) → orphan (World s (objs w)) fd → orphan w fd.
Proof. unfold orphan. cbn. by intros ->. Qed.

(** An object that keeps its descriptor or loses it. *)
Lemma orphan_update w s i k k' fd :
  opened s = opened (sys w) → objs w !! i = Some k →
  (socket_fd k' = socket_fd k ∨ socket_fd k' = -1)%Z →
  orphan (World s (<[i := k']> (objs w))) fd →
  orphan w fd ∨ socket_fd k = fd ∧ socket_fd k' ≠ fd.
Proof.
  intros Ho Hi Hk [Hin Hno]. cbn [sys objs] in *. rewrite Ho in Hin.
  destruct (decide (socket_fd k = fd)) as [E | Hne].
  - right. split; [done |]. by apply (Hno i), lookup_insert_eq.
  - left. split; [done |]. intros j kj Hj. destruct (decide (j = i)) as [-> |]; [congruence |].
    apply (Hno j). by rewrite lookup_insert_ne.
Qed.

Lemma orphan_fresh w s i k fd :
  objs w !! i = None → opened s = {[ socket_fd k ]} ∪ opened (sys w) →
  orphan (World s (<[i := k]> (objs w))) fd → orphan w fd.
Proof.
  intros Hi Ho [Hin Hno]. cbn [sys objs] in *. rewrite Ho in Hin.
  assert (socket_fd k ≠ fd) by apply (Hno i), lookup_insert_eq.
  split; [set_solver |]. intros j kj Hj. apply (Hno j).
  rewrite lookup_insert_ne; [done | congruence].
Qed.

Lemma orphan_transfer w i j k fd :
  objs w !! i = Some k → i ≠ j →
  orphan (World (sys w) (<[j := (socket_copy k).1]> (<[i := (socket_copy k).2]> (objs w)))) fd →
  orphan w fd ∨ ∃ k', objs w !! j = Some k' ∧ socket_fd k' = fd.
Proof.
  intros Hi Hne [Hin Hno]. cbn [sys objs] in *.
  assert (socket_fd k ≠ fd) as Hk by (apply (Hno j (socket_copy k).1), lookup_insert_eq).
  destruct (objs w !! j) as [k' |] eqn:Ej; [destruct (decide (socket_fd k' = fd)); [right; eauto |] |];
    left; (split; [done |]); intros l kl Hl;
    (destruct (decide (l = i)) as [-> |]; [congruence |]);
    (destruct (decide (l = j)) as [-> |]; [congruence |]);
    apply (Hno l); by rewrite !lookup_insert_ne.
Qed.
End orphans.

(** ** Properties *)

(** C8. Descriptors have one owner: whatever a program does with sockets - copies, assignments,
    self-assignment and failing calls included - each descriptor an object has is open, and no
    two objects have the same; so none is used after it was closed or closed twice. *)
Theorem socket_descriptors_owned `{SocketLaws} w w' :
  fds_ok w → rtc (λ w w', ∃ op, sock_step w op w') w w' → fds_ok w'.
Proof.
  intros Hw Hr. eapply preserved_rtc; [| exact Hr | exact Hw].
  intros w1 w2 [op Hs]. by eapply fds_ok_step.
Qed.

(** A descriptor gets lost - open, with no object to close it - only in three operations,
    where an object had it before: an assignment over an open socket or to itself, and a
    connect or bind that the system refuses. *)
Theorem socket_leaks `{SocketLaws} w op w' fd :
  sock_step w op w' → orphan w' fd →
  orphan w fd ∨
  (op = OpAssign ∨ op = OpConnect ∨ op = OpBind) ∧
    ∃ i k, objs w !! i = Some k ∧ socket_fd k = fd.
Proof.
  intros Hs Hf. destruct Hs as [i Hi | i kind k s Hi E | kind e s E | i j k Hi Hj | i j k Hi [kj Hj] Hne
    | i k Hi | i k s Hi E | i k a p o k' s Hi E | i k a o k' s Hi E | i k o s Hi E | i j k k' s Hi Hj E
    | i k e s Hi E | i k n r b s Hi E | i k b r s Hi E | i k Hi].
  - left. destruct Hf as [Hin Hno]. split; [done |]. intros j kj Hj. apply (Hno j).
    cbn. rewrite lookup_insert_ne; [done | congruence].
  - left. apply open_socket_opened in E as (_ & _ & Ho). by eapply orphan_fresh.
  - left. apply open_socket_opened in E. by eapply orphan_same.
  - left. destruct (orphan_transfer w i j k fd Hi) as [? | (k' & Hk' & _)];
      [intros ->; congruence | done | done | congruence].
  - destruct (orphan_transfer w i j k fd Hi Hne Hf) as [? | (k' & Hk' & ?)]; [by left | right].
    split; [by left | by exists j, k'].
  - destruct (orphan_update w (sys w) i k (socket_assign_self k) fd) as [? | [? _]];
      [done.. | by right | done | by left | right; split; [by left | by exists i, k]].
  - left. apply socket_destroy_opened in E. destruct Hf as [Hin Hno]. cbn [sys objs] in *.
    rewrite E in Hin. destruct (Z.leb_spec 0 (socket_fd k)) as [Hk | Hk].
    + apply elem_of_difference in Hin as [Hin Hne]. split; [done |]. intros j kj Hj.
      destruct (decide (j = i)) as [-> |]; [simplify_eq; set_solver |].
      apply (Hno j). by rewrite lookup_delete_ne.
    + pose proof (opened_nonneg _ _ Hin). split; [done |]. intros j kj Hj.
      destruct (decide (j = i)) as [-> |]; [simplify_eq; lia |].
      apply (Hno j). by rewrite lookup_delete_ne.
  - apply connect_opened in E as [Ho Hk].
    destruct (orphan_update w s i k k' fd Ho Hi Hk Hf) as [? | [? _]]; [by left | right].
    split; [tauto | by exists i, k].
  - apply bind_opened in E as [Ho Hk].
    destruct (orphan_update w s i k k' fd Ho Hi Hk Hf) as [? | [? _]]; [by left | right].
    split; [tauto | by exists i, k].
  - left. eapply (orphan_same w s); [| done]. unfold listen in E.
    pose proof (listen_law (socket_fd k) (-1) (sys w)) as Hl.
    destruct (sys_listen _ _ _) as [r s']. by injection E as _ <-.
  - left. apply accept_opened in E as (_ & _ & Ho). by eapply orphan_fresh.
  - left. apply accept_opened in E. by eapply orphan_same.
  - left. eapply (orphan_same w s); [| done]. unfold read in E.
    pose proof (recv_law (socket_fd k) n (sys w)) as Hl.
    destruct (sys_recv _ _ _) as [[[? ?] ?] s']. by injection E as _ _ <-.
  - left. eapply (orphan_same w s); [| done]. unfold write in E.
    pose proof (send_law (socket_fd k) b (sys w)) as Hl.
    destruct (sys_send _ _ _) as [[? ?] s']. by injection E as _ <-.
  - left. eapply (orphan_same w); [| done]. apply shutdown_law.
Qed.

(** [set_blocked] never makes a socket blocking: asked for a non-blocking socket it sets
    the flag and keeps the others; asked for a blocking one it clears every other flag and
    keeps this one as it is. *)
Theorem set_blocked_never_blocks `{SocketLaws} state fd s s' :
  set_blocked state fd s = (Ret (), s') →
  status s' fd = (if state then Z.land (status s fd) O_NONBLOCK else Z.lor (status s fd) O_NONBLOCK) ∧
  Z.testbit (status s' fd) 11 = (negb state || Z.testbit (status s fd) 11).
Proof.
  unfold set_blocked. intros E. pose proof (getfl_law fd s) as Hg.
  destruct (fcntl_getfl fd s) as [opts s1]. destruct Hg as (_ & _ & Hv).
  destruct (Z.ltb_spec opts 0); [done |]. rewrite (Hv ltac:(done)) in E.
  set (v := if state then _ else _) in E.
  pose proof (setfl_law fd v s1) as Hs. destruct (fcntl_setfl fd v s1) as [r s2].
  destruct Hs as [_ Hs]. destruct (Z.ltb_spec r 0); [done |]. injection E as <-.
  rewrite (Hs ltac:(done)). split; [done |]. subst v. destruct state; cbn [negb orb].
  - rewrite Z.land_spec. apply andb_true_r.
  - rewrite Z.lor_spec. apply orb_true_r.
Qed.

(** An address is its host, a colon and its port: the host and the port come back, and the
    addresses are those of the host, none for an empty host or a star.  The system is asked for
    the lower 16 bits of the port; and a text without a colon reads past the vector, or throws
    before for a host that is not found. *)
Theorem socket_address_parse `{SocketOs} h (p : Z) l :
  free (lit ":") h → trimmed h → (INT_MIN ≤ p ≤ INT_MAX)%Z →
  (if bool_decide (h = []) || bool_decide (h = lit "*") then l = [] else gethostbyname h = inr l) →
  parse (h ++ lit ":" ++ to_string_int p) = Ret (SocketAddress l p h) ∧
  htons p = (p mod 2 ^ 16)%Z ∧ parse h = Undef.
Proof.
  intros Hf Ht Hp Hl. rewrite to_string_int_print by done. destruct (print_dec_plain p) as [Hpf Hpt].
  assert (tokenize (h ++ lit ":" ++ print_dec p) (lit ":") = [h; print_dec p]) as Etok.
  { apply (tokenize_join (lit ":") ":"%char [h; print_dec p]); [done | | done..].
    by rewrite !Forall_cons. }
  assert (∀ q, vec_at [h; q] 0 = Ret h ∧ vec_at [h; q] 1 = Ret q ∧ vec_at [h] 0 = Ret h) as Hv by done.
  split_and!; [| done |]; unfold parse.
  - rewrite Etok. destruct (Hv (print_dec p)) as (E0 & E1 & _). rewrite E0. cbn [mbind outcome_bind].
    destruct (bool_decide (h = []) || bool_decide (h = lit "*")); [subst l | rewrite Hl];
      cbn [mbind outcome_bind]; rewrite E1; cbn [mbind outcome_bind mret outcome_ret];
      (destruct (print_dec p) as [| c q] eqn:Eq; [by apply print_dec_not_nil in Eq |]);
      by rewrite <- Eq, from_string_int_print.
  - destruct h as [| c h']; [done |]. set (h := c :: h') in *.
    assert (tokenize h (lit ":") = [h]) as ->.
    { apply (tokenize_join (lit ":") ":"%char [h]); [done | by rewrite Forall_cons | done..]. }
    destruct (Hv []) as (_ & _ & E0). rewrite E0. cbn [mbind outcome_bind].
    by destruct (bool_decide (h = []) || bool_decide (h = lit "*")); [| rewrite Hl].
Qed.

(** ** Witnesses: a system that numbers its descriptors from 3 on and refuses port 0 *)
Record table := Table { fds : list Z; flags_of : gmap Z Z }.

Definition next_fd (s : table) : Z := (1 + foldr Z.max 2 (fds s))%Z.

Definition table_open (s : table) : Z * table :=
  (next_fd s, Table (next_fd s :: fds s) (flags_of s)).

Definition table_fds (s : table) : gset Z := list_to_set (filter (λ fd, 0 ≤ fd)%Z (fds s)).

#[global] Instance table_os : SocketOs := {|
  os := table;
  sys_socket _ := table_open;
  sys_connect _ _ p s := ((if (p =? 0)%Z then -1 else 0)%Z, s);
  sys_bind _ _ p s := ((if (p =? 0)%Z then -1 else 0)%Z, s);
  sys_listen _ _ s := (0%Z, s);
  sys_accept _ s := let '(fd, s') := table_open s in (fd, 0%Z, 0%Z, s');
  sys_recv _ _ s := (0%Z, [], 0%Z, s);
  sys_send _ b s := (Z.of_nat (length b), 0%Z, s);
  sys_shutdown _ s := s;
  sys_close fd s := Table (filter (λ d, d ≠ fd) (fds s)) (flags_of s);
  fcntl_getfl fd s := (default 0%Z (flags_of s !! fd), s);
  fcntl_setfl fd v s := (0%Z, Table (fds s) (<[fd := v]> (flags_of s)));
  setsockopt_reuseaddr _ s := (0%Z, s);
  inet_pton _ := Some 1%Z;
  inet_ntoa _ := lit "1.2.3.4";
  gethostbyname h := inr [h] |}.

Lemma next_fd_fresh s : next_fd s ∉ table_fds s.
Proof.
  unfold table_fds, next_fd. rewrite elem_of_list_to_set, list_elem_of_filter. intros [_ H].
  assert (∀ l x, x ∈ l → x ≤ foldr Z.max 2 l)%Z as Hm; [| specialize (Hm _ _ H); lia].
  intros l x Hx. induction Hx as [x l | x y l _ IH]; cbn; lia.
Qed.

Lemma table_open_fds s :
  (0 ≤ next_fd s ∧ (next_fd s ∉ table_fds s) ∧ table_fds (table_open s).2 = {[ next_fd s ]} ∪ table_fds s)%Z.
Proof.
  assert (0 ≤ next_fd s)%Z as Hn.
  { unfold next_fd. assert (∀ l, 2 ≤ foldr Z.max 2 l)%Z as Hm; [| specialize (Hm (fds s)); lia].
    induction l; cbn; lia. }
  split_and!; [done | apply next_fd_fresh |]. unfold table_fds, table_open. cbn [fds snd].
  by rewrite filter_cons, decide_True.
Qed.

#[global] Instance table_laws : SocketLaws (H := table_os).
Proof.
  refine (@Build_SocketLaws table_os table_fds (λ s fd, default 0%Z (flags_of s !! fd))
    _ _ _ _ _ _ _ _ _ _ _ _ _ _); try done.
  - intros fd s. cbn. unfold table_fds. rewrite elem_of_list_to_set, list_elem_of_filter. tauto.
  - intros k s. right. apply table_open_fds.
  - intros l s. right. apply table_open_fds.
  - intros fd s. cbn. unfold table_fds. apply set_eq. intros x. cbn [fds].
    rewrite elem_of_difference, !elem_of_list_to_set, !list_elem_of_filter, elem_of_singleton. tauto.
  - intros fd v s. cbn. split; [done |]. intros _. by rewrite lookup_insert_eq.
Defined.

(** A socket is opened and copied; then it is connected to port 0. *)
Definition no_sockets : world := @World table_os (Table [] ∅) ∅.

Definition one_socket : world := @World table_os (Table [3%Z] ∅) {[ 0 := Socket 3 [] 0 ]}.

Definition copied : world :=
  @World table_os (Table [3%Z] ∅) (<[1 := Socket 3 [] 0]> (<[0 := Socket (-1) [] 0]> {[ 0 := Socket 3 [] 0 ]})).

Lemma open_one : sock_step no_sockets OpOpen one_socket.
Proof. exact (sock_open no_sockets 0 tcp_kind (Socket 3 [] 0) (Table [3%Z] ∅) eq_refl eq_refl). Qed.

Lemma socket_descriptors_owned_witness : fds_ok no_sockets ∧ fds_ok copied.
Proof.
  assert (fds_ok no_sockets) as H0 by (intros i k Hi; cbn in Hi; discriminate Hi).
  split; [exact H0 |]. apply (socket_descriptors_owned no_sockets copied H0).
  eapply rtc_l; [exists OpOpen; exact open_one |]. apply rtc_once. exists OpCopy.
  exact (sock_copy one_socket 0 1 (Socket 3 [] 0) eq_refl eq_refl).
Defined.

Lemma socket_leaks_witness :
  orphan (@World table_os (Table [3%Z] ∅) (<[0 := Socket (-1) [] 0]> (objs one_socket))) 3 ∧
  ∃ i k, objs one_socket !! i = Some k ∧ socket_fd k = 3%Z.
Proof.
  set (w' := @World table_os (Table [3%Z] ∅) (<[0 := Socket (-1) [] 0]> (objs one_socket))).
  assert (orphan w' 3) as Ho.
  { split; [set_solver |]. intros i k Hi E. cbn in Hi.
    apply lookup_insert_Some in Hi as [[_ <-] | [Hne Hi]]; [discriminate E |].
    by apply lookup_singleton_Some in Hi as [? _]. }
  split; [exact Ho |].
  destruct (socket_leaks one_socket OpConnect w' 3
    (sock_connect one_socket 0 (Socket 3 [] 0) (lit "h") 0 (Ret false) (Socket (-1) [] 0) (Table [3%Z] ∅)
      eq_refl eq_refl) Ho) as [[_ Hno] | [_ H]]; [| exact H].
  destruct (Hno 0 (Socket 3 [] 0) eq_refl). reflexivity.
Defined.

(** Asked for a blocking socket, the flag stays. *)
Lemma set_blocked_never_blocks_witness :
  Z.testbit (status (Table [3%Z] {[ 3%Z := 2048%Z ]} : os) 3) 11 = true ∧
  Z.testbit (status (set_blocked true 3 (Table [3%Z] {[ 3%Z := 2048%Z ]} : os)).2 3) 11 = true.
Proof.
  split; [reflexivity |].
  exact (proj2 (set_blocked_never_blocks true 3 (Table [3%Z] {[ 3%Z := 2048%Z ]} : os) _ eq_refl)).
Defined.

Lemma socket_address_parse_witness :
  parse (H := table_os) (lit "example.org" ++ lit ":" ++ to_string_int 65616)
    = Ret (SocketAddress [lit "example.org"] 65616 (lit "example.org")) ∧
  htons 65616 = 80%Z.
Proof.
  destruct (socket_address_parse (H := table_os) (lit "example.org") 65616 [lit "example.org"])
    as (H1 & H2 & _).
  - repeat constructor.
  - apply trimmed_no_blank. repeat constructor.
  - unfold INT_MIN, INT_MAX. lia.
  - reflexivity.
  - split; [exact H1 |]. exact H2.
Defined.
