(* ===== verification/TlsSocket.v ===== *)
(** * [ssl_socket.cpp] and [gnutls_socket.cpp]: sockets with TLS by GnuTLS.

    The library is the class [Gnutls]: what a call answers depends on the calls before it, so
    the state of the library is the list of the calls made, the latest last.  A handle (session,
    credentials, priorities, Diffie-Hellman parameters) is named by the position of the call
    that created it.  The answers the code does not look at are not modelled: creating a handle
    is taken to succeed. *)
From S2P Require Export Socket Steps.

Inductive tls_call :=
  | DhInit | DhGenerate (dh : nat) | DhDeinit (dh : nat)
  | PriorityInit | PriorityDeinit (pr : nat)
  | SessionInit | PrioritySet (s pr : nat) | CertRequest (s : nat) | CompatMode (s : nat)
  | Transport (s : nat) (fd : Z) | SessionDeinit (s : nat)
  | CredAllocate | CredFree (c : nat) | TrustFile (c : nat) (f : str) | CrlFile (c : nat) (f : str)
  | KeyFile (c : nat) (cert key : str) | CredSet (s c : nat) | CredDh (c dh : nat)
  | Handshake (s : nat) | RecordRecv (s : nat) (n : Z) | RecordSend (s : nat) (b : str)
  | Bye (s : nat).

Abbreviation calls := (list tls_call).

Class Gnutls := {
  (** the code and the bytes the last call answers *)
  reply : calls → Z * str;
  gnutls_error_is_fatal : Z → bool;
  GNUTLS_E_AGAIN : Z;
  GNUTLS_E_INTERRUPTED : Z }.

(** ** [ssl_socket_impl] *)
Record ssl_socket_impl := SslImpl {
  base : socket;
  need_handshake : bool;
  x509_cred : option nat;
  session : nat;
  priority_cache : nat;
  dh_params : nat }.

(** The constructor on a socket whose descriptor it takes. *)
Definition impl_new (src : socket) (h : calls) : ssl_socket_impl * socket * calls :=
  let '(b, src') := socket_copy src in
  let dh := length h in
  let h1 := h ++ [DhInit; DhGenerate dh] in
  let pr := length h1 in
  let h2 := h1 ++ [PriorityInit] in
  let s := length h2 in
  (SslImpl b true None s pr dh, src',
   h2 ++ [SessionInit; PrioritySet s pr; CertRequest s; CompatMode s]
      ++ (if (0 <=? socket_fd b)%Z then [Transport s (socket_fd b)] else [])).

Definition cred_free (k : ssl_socket_impl) : calls :=
  match x509_cred k with Some c => [CredFree c] | None => [] end.

(** The destructor, before that of the base. *)
Definition impl_release (k : ssl_socket_impl) (h : calls) : calls :=
  h ++ cred_free k
    ++ [SessionDeinit (session k); PriorityDeinit (priority_cache k); DhDeinit (dh_params k)].

Definition unless_empty (f : str) (c : tls_call) : calls := match f with [] => [] | _ => [c] end.

Definition load_certificates (ca cert key crl : str) (k : ssl_socket_impl) (h : calls)
    : ssl_socket_impl * calls :=
  let h1 := h ++ cred_free k in
  let c := length h1 in
  (SslImpl (base k) (need_handshake k) (Some c) (session k) (priority_cache k) (dh_params k),
   h1 ++ [CredAllocate] ++ unless_empty ca (TrustFile c ca) ++ unless_empty crl (CrlFile c crl)
      ++ (match cert with [] => [] | _ => unless_empty key (KeyFile c cert key) end)
      ++ [CredSet (session k) c; CredDh c (dh_params k)]).

Section impl.
Context `{Gnutls}.

(** The first lines of [read] and [write]: nothing when there is no need, or the answer of the
    handshake when it fails. *)
Definition handshake (k : ssl_socket_impl) (h : calls) : option Z * ssl_socket_impl * calls :=
  if need_handshake k then
    let h' := h ++ [Handshake (session k)] in
    let ret := fst (reply h') in
    if (ret <? 0)%Z
    then (Some (if gnutls_error_is_fatal ret then io_error else data_not_ready), k, h')
    else (None, SslImpl (base k) false (x509_cred k) (session k) (priority_cache k) (dh_params k), h')
  else (None, k, h).

Definition record_result (nsize : Z) : Z :=
  if (nsize =? GNUTLS_E_AGAIN)%Z || (nsize =? GNUTLS_E_INTERRUPTED)%Z then data_not_ready
  else if (0 <=? nsize)%Z then nsize
  else io_error.

Definition tls_read (bytes_to_read : Z) (k : ssl_socket_impl) (h : calls)
    : Z * str * ssl_socket_impl * calls :=
  match handshake k h with
  | (Some r, k', h') => (r, [], k', h')
  | (None, k', h') =>
      let h'' := h' ++ [RecordRecv (session k') bytes_to_read] in
      let '(nsize, buffer) := reply h'' in (record_result nsize, buffer, k', h'')
  end.

Definition tls_write (buffer : str) (k : ssl_socket_impl) (h : calls)
    : Z * ssl_socket_impl * calls :=
  match handshake k h with
  | (Some r, k', h') => (r, k', h')
  | (None, k', h') =>
      let h'' := h' ++ [RecordSend (session k') buffer] in
      (record_result (fst (reply h'')), k', h'')
  end.

Definition tls_shutdown (k : ssl_socket_impl) (h : calls) : calls := h ++ [Bye (session k)].
End impl.

(** ** [ssl_socket]: an own base, which is left without the descriptor, and the implementation

    The implementations are on the heap: [pimpl] is the address of one. *)
Record ssl_socket := SslSocket {
  outer : socket;
  pimpl : nat }.

Record tls_world `{SocketOs} := TlsWorld {
  net : os;
  calls_made : calls;
  ssl_objs : gmap nat ssl_socket;
  impls : gmap nat ssl_socket_impl;
  next_impl : nat }.
Arguments TlsWorld {_} net calls_made ssl_objs impls next_impl.

Inductive tls_op :=
  | TConstruct (i : nat) (src : socket)
  | TCopy (i j : nat)
  | TAssign (i j : nat)
  | TLoad (i : nat) (ca cert key crl : str)
  | TRead (i : nat) (n : Z)
  | TWrite (i : nat) (b : str)
  | TShutdown (i : nat)
  | TDestroy (i : nat).

Section world.
Context `{SocketOs, Gnutls}.

(** [pimpl->...] of an object: undefined when the implementation was deleted. *)
Definition at_impl (i : nat) (f : ssl_socket_impl → calls → ssl_socket_impl * calls) (w : tls_world)
    : option tls_world :=
  k ← ssl_objs w !! i; p ← impls w !! pimpl k;
  let '(p', h) := f p (calls_made w) in
  Some (TlsWorld (net w) h (ssl_objs w) (<[pimpl k := p']> (impls w)) (next_impl w)).

(** [delete pimpl]; an exception of the base's destructor ends the program. *)
Definition delete_impl (a : nat) (w : tls_world) : option tls_world :=
  p ← impls w !! a;
  match socket_destroy (base p) (net w) with
  | (Ret _, s) =>
      Some (TlsWorld s (impl_release p (calls_made w)) (ssl_objs w) (delete a (impls w)) (next_impl w))
  | _ => None
  end.

(** [new ssl_socket_impl]. *)
Definition new_impl (p : ssl_socket_impl) (w : tls_world) : nat * tls_world :=
  (next_impl w, TlsWorld (net w) (calls_made w) (ssl_objs w) (<[next_impl w := p]> (impls w)) (S (next_impl w))).

Definition set_object (i : nat) (k : ssl_socket) (w : tls_world) : tls_world :=
  TlsWorld (net w) (calls_made w) (<[i := k]> (ssl_objs w)) (impls w) (next_impl w).

Definition with_base (b : socket) (p : ssl_socket_impl) : ssl_socket_impl :=
  SslImpl b (need_handshake p) (x509_cred p) (session p) (priority_cache p) (dh_params p).

(** The operations, which end normally but for undefined behaviour.  The copy constructor of
    [ssl_socket] is the implicit one: it copies the address of the implementation; and so is the
    implementation's, which [operator=] uses: it copies the handles. *)
Definition tls_run (op : tls_op) (w : tls_world) : option tls_world :=
  match op with
  | TConstruct i src =>
      let '(o, _) := socket_copy src in
      let '(p, o', h) := impl_new o (calls_made w) in
      let '(a, w1) := new_impl p w in
      Some (set_object i (SslSocket o' a) (TlsWorld (net w1) h (ssl_objs w1) (impls w1) (next_impl w1)))
  | TCopy i j =>
      src ← ssl_objs w !! j;
      let '(o, o') := socket_copy (outer src) in
      Some (set_object i (SslSocket o (pimpl src)) (set_object j (SslSocket o' (pimpl src)) w))
  | TAssign i j =>
      k ← ssl_objs w !! i;
      w1 ← delete_impl (pimpl k) w;
      src ← ssl_objs w1 !! j; p ← impls w1 !! pimpl src;
      let '(b, b') := socket_copy (base p) in
      let w2 := TlsWorld (net w1) (calls_made w1) (ssl_objs w1)
                  (<[pimpl src := with_base b' p]> (impls w1)) (next_impl w1) in
      let '(a, w3) := new_impl (with_base b p) w2 in
      Some (set_object i (SslSocket (outer k) a) w3)
  | TLoad i ca cert key crl => at_impl i (load_certificates ca cert key crl) w
  | TRead i n => at_impl i (λ p h, let '(_, _, p', h') := tls_read n p h in (p', h')) w
  | TWrite i b => at_impl i (λ p h, let '(_, p', h') := tls_write b p h in (p', h')) w
  | TShutdown i => at_impl i (λ p h, (p, tls_shutdown p h)) w
  | TDestroy i =>
      k ← ssl_objs w !! i;
      w1 ← delete_impl (pimpl k) w;
      match socket_destroy (outer k) (net w1) with
      | (Ret _, s) => Some (TlsWorld s (calls_made w1) (delete i (ssl_objs w1)) (impls w1) (next_impl w1))
      | _ => None
      end
  end.

(** A step of a program: new objects have new names. *)
Definition tls_step (op : tls_op) (w w' : tls_world) : Prop :=
  tls_run op w = Some w' ∧
  match op with TConstruct i _ | TCopy i _ => ssl_objs w !! i = None | _ => True end.

Inductive tls_program : list tls_op → tls_world → tls_world → Prop :=
  | tls_program_nil w : tls_program [] w w
  | tls_program_cons op ops w w1 w2 :
      tls_step op w w1 → tls_program ops w1 w2 → tls_program (op :: ops) w w2.

(** The operations that make a second owner of a session. *)
Definition copies (op : tls_op) : bool := match op with TCopy _ _ | TAssign _ _ => true | _ => false end.

(** The implementation of each object. *)
Definition objects (w : tls_world) : gmap nat ssl_socket_impl := omap (λ k, impls w !! pimpl k) (ssl_objs w).
End world.

(** ** The use of handles *)
Definition uses (c : tls_call) : list nat :=
  match c with
  | DhInit | PriorityInit | SessionInit | CredAllocate => []
  | DhGenerate x | DhDeinit x | PriorityDeinit x | CertRequest x | CompatMode x | Transport x _
  | SessionDeinit x | CredFree x | TrustFile x _ | CrlFile x _ | KeyFile x _ _
  | Handshake x | RecordRecv x _ | RecordSend x _ | Bye x => [x]
  | PrioritySet x y | CredSet x y | CredDh x y => [x; y]
  end.

Definition creates (c : tls_call) : bool :=
  match c with DhInit | PriorityInit | SessionInit | CredAllocate => true | _ => false end.

Definition releases (c : tls_call) : gset nat :=
  match c with
  | DhDeinit x | PriorityDeinit x | SessionDeinit x | CredFree x => {[ x ]}
  | _ => ∅
  end.

(** The handles in existence after a list of calls, from position [n] and the handles [l] on;
    nothing if a call uses a handle that does not exist. *)
Fixpoint replay (n : nat) (l : gset nat) (h : calls) : option (gset nat) :=
  match h with
  | [] => Some l
  | c :: h' =>
      if decide (Forall (λ x, x ∈ l) (uses c))
      then replay (S n) ((if creates c then {[ n ]} ∪ l else l) ∖ releases c) h'
      else None
  end.

Definition handles (k : ssl_socket_impl) : gset nat :=
  {[ session k; priority_cache k; dh_params k ]} ∪ (from_option singleton ∅ (x509_cred k)).

(** ** Lemmas: replaying the calls *)
Lemma replay_app n l h1 h2 :
  replay n l (h1 ++ h2) = l' ← replay n l h1; replay (n + length h1) l' h2.
Proof.
  revert n l. induction h1 as [| c h1 IH]; intros n l; cbn; [by rewrite Nat.add_0_r |].
  case_decide; [| done]. rewrite IH. by rewrite Nat.add_succ_r.
Qed.

Lemma replay_cons n (l : gset nat) c h :
  Forall (λ x, x ∈ l) (uses c) →
  replay n l (c :: h) = replay (S n) ((if creates c then {[ n ]} ∪ l else l) ∖ releases c) h.
Proof. intros Hu. cbn. by rewrite decide_True. Qed.

(** Calls that only use handles in existence. *)
Definition plain (l : gset nat) (c : tls_call) : Prop :=
  Forall (λ x, x ∈ l) (uses c) ∧ creates c = false ∧ releases c = ∅.

Lemma replay_plain n l h : Forall (plain l) h → replay n l h = Some l.
Proof.
  revert n. induction h as [| c h IH]; intros n Hh; [done |].
  apply Forall_cons in Hh as [(Hu & Hc & Hr) Hh].
  rewrite replay_cons, Hc, Hr, difference_empty_L by done. by apply IH.
Qed.

Definition handle_list (k : ssl_socket_impl) : list nat :=
  [session k; priority_cache k; dh_params k] ++ option_list (x509_cred k).

Lemma handles_list k x : x ∈ handles k ↔ x ∈ handle_list k.
Proof.
  unfold handles, handle_list. destruct (x509_cred k); cbn [from_option option_list];
    rewrite ?elem_of_union, ?list_elem_of_In, !elem_of_singleton; cbn; set_solver.
Qed.

(** What the calls [h' - h] do to the handles of an object: those of [k] become those of [k'],
    the others stay. *)
Definition exchanges (k : option ssl_socket_impl) (h : calls) (k' : option ssl_socket_impl)
    (h' : calls) : Prop :=
  ∃ ev, h' = h ++ ev ∧
  ∀ l, (∀ x, x ∈ l → x < length h) →
    from_option handles ∅ k ⊆ l → NoDup (from_option handle_list [] k) →
    replay (length h) l ev = Some ((l ∖ from_option handles ∅ k) ∪ from_option handles ∅ k') ∧
    NoDup (from_option handle_list [] k') ∧
    (∀ x, x ∈ from_option handles ∅ k' → x ∈ l → x ∈ from_option handles ∅ k) ∧
    (∀ x, x ∈ from_option handles ∅ k' → x < length h').

Lemma exchanges_plain k k' h ev :
  handle_list k' = handle_list k → Forall (plain (handles k)) ev →
  exchanges (Some k) h (Some k') (h ++ ev).
Proof.
  intros Hk Hev. exists ev. split; [done |]. intros l Hl Hs Hn. cbn [from_option] in *.
  assert (handles k' = handles k) as Hh by (apply set_eq; intros x; by rewrite !handles_list, Hk).
  rewrite Hk, Hh. split_and!; [| done | done | intros x Hx; specialize (Hl x (Hs x Hx)); rewrite length_app; lia].
  rewrite (replay_plain _ l); [by rewrite difference_union_L, (comm_L (∪)), subseteq_union_1_L |].
  eapply Forall_impl; [exact Hev |]. intros c (Hu & Hc). split; [| done].
  eapply Forall_impl; [exact Hu |]. intros x Hx. by apply Hs.
Qed.

(** One call after the other; the sets involved decide which handles exist. *)
Ltac mem :=
  first [ assumption
        | apply elem_of_singleton; reflexivity
        | apply elem_of_difference; split; [mem | apply not_elem_of_singleton; congruence]
        | apply elem_of_union_l; mem
        | apply elem_of_union_r; mem ].

Ltac in_set :=
  unfold plain; cbn [uses creates releases];
  repeat first [apply Forall_nil_2 | apply Forall_cons_2 | split; [| split; reflexivity]];
  cbn [uses creates releases];
  repeat first [apply Forall_nil_2 | apply Forall_cons_2]; mem.

Ltac replaying :=
  cbn [app];
  repeat (rewrite replay_cons by in_set; cbn [creates releases];
          rewrite ?difference_empty_L).

Lemma impl_new_exchanges src h :
  let '(k, _, h') := impl_new src h in exchanges None h (Some k) h'.
Proof.
  unfold impl_new. cbn [socket_copy]. eexists. split; [by rewrite <- !app_assoc |].
  intros l Hl _ _. rewrite !length_app. cbn [length from_option].
  replace (length h + (2 + 1)) with (S (S (S (length h)))) by lia.
  replace (length h + 2 + 1) with (S (S (S (length h)))) by lia.
  replace (length h + 2) with (S (S (length h))) by lia. set (n := length h) in *.
  assert ((n ∉ l) ∧ (S (S n) ∉ l) ∧ (S (S (S n)) ∉ l)) as (H1 & H2 & H3)
    by (split_and!; intros Hx%Hl; lia).
  split_and!.
  - replaying. rewrite replay_plain by (destruct (0 <=? _)%Z; in_set).
    f_equal. unfold handles. cbn. set_solver.
  - unfold handle_list. cbn. repeat (apply NoDup_cons_2; [set_unfold; lia |]). apply NoDup_nil_2.
  - intros x Hx Hxl. exfalso. unfold handles in Hx. cbn in Hx. set_solver.
  - intros x Hx. unfold handles in Hx. cbn in Hx.
    rewrite ?elem_of_union, ?elem_of_singleton in Hx. rewrite ?length_app; cbn. set_unfold. lia.
Qed.

(** The handles of an object exist and are different. *)
Lemma handles_facts k (l : gset nat) :
  handles k ⊆ l → NoDup (handle_list k) →
  (session k ∈ l ∧ priority_cache k ∈ l ∧ dh_params k ∈ l) ∧
  (session k ≠ priority_cache k ∧ session k ≠ dh_params k ∧ priority_cache k ≠ dh_params k) ∧
  ∀ c, x509_cred k = Some c → c ∈ l ∧ c ≠ session k ∧ c ≠ priority_cache k ∧ c ≠ dh_params k.
Proof.
  intros Hs Hn. assert (∀ x, x ∈ handle_list k → x ∈ l) as Hin by (intros x Hx; by apply Hs, handles_list).
  clear Hs. unfold handle_list in Hin, Hn.
  destruct (x509_cred k) as [c0 |]; cbn in Hin, Hn; rewrite !NoDup_cons in Hn.
  - destruct Hn as (N1 & N2 & N3 & _). clear -Hin N1 N2 N3.
    split_and!; try (apply Hin; by repeat constructor); try set_solver.
  - destruct Hn as (N1 & N2 & _). clear -Hin N1 N2.
    split_and!; try (apply Hin; by repeat constructor); [set_solver.. | done].
Qed.

Lemma impl_release_exchanges k h : exchanges (Some k) h None (impl_release k h).
Proof.
  eexists. split; [done |]. intros l Hl Hs Hn. cbn [from_option] in *.
  destruct (handles_facts k l Hs Hn) as ((? & ? & ?) & (? & ? & ?) & Hc).
  split_and!; [| constructor | set_solver | set_solver]. unfold cred_free, handles.
  destruct (x509_cred k) as [c |]; [destruct (Hc c eq_refl) as (? & ? & ? & ?) |];
    replaying; cbn; f_equal; set_solver.
Qed.

Lemma load_certificates_exchanges ca cert key crl k h :
  let '(k', h') := load_certificates ca cert key crl k h in exchanges (Some k) h (Some k') h'.
Proof.
  unfold load_certificates. eexists. split; [by rewrite <- app_assoc |].
  intros l Hl Hs Hn. cbn [from_option] in *.
  destruct (handles_facts k l Hs Hn) as ((? & ? & ?) & (? & ? & ?) & Hc).
  rewrite length_app. set (c := length h + length (cred_free k)).
  assert (∀ x, x ∈ l → x ≠ c) as Hne by (intros x Hx ->; specialize (Hl _ Hx); lia).
  assert (replay (length h) l (cred_free k) = Some (l ∖ from_option singleton ∅ (x509_cred k))) as Hf.
  { unfold cred_free. destruct (x509_cred k) as [c' |]; cbn [from_option]; [| by rewrite difference_empty_L].
    destruct (Hc c' eq_refl) as (? & ? & ? & ?). by replaying. }
  set (l1 := l ∖ from_option singleton ∅ (x509_cred k)) in *.
  assert (session k ∈ l1 ∧ priority_cache k ∈ l1 ∧ dh_params k ∈ l1) as (K1 & K2 & K3).
  { subst l1. destruct (x509_cred k) as [c' |]; [| cbn; rewrite difference_empty_L; done].
    destruct (Hc c' eq_refl) as (? & ? & ? & ?). cbn. set_solver. }
  rewrite replay_app, Hf. cbn [mbind option_bind app]. fold c.
  replaying. rewrite replay_plain.
  2: { unfold unless_empty. rewrite !Forall_app.
       split_and!; [destruct ca | destruct crl | destruct cert, key |]; in_set. }
  unfold handles, handle_list. cbn [session priority_cache dh_params x509_cred from_option option_list].
  split_and!.
  - f_equal. subst l1. clear Hf Hl Hs Hn Hne. apply set_eq. intros x.
    rewrite ?elem_of_union, ?elem_of_difference, ?elem_of_union, ?elem_of_singleton.
    destruct (x509_cred k) as [c' |]; cbn; rewrite ?elem_of_singleton, ?elem_of_empty.
    + destruct (Hc c' eq_refl) as (? & ?%not_eq_sym & ?%not_eq_sym & ?%not_eq_sym).
      destruct (decide (x = session k)) as [-> |]; [tauto |].
      destruct (decide (x = priority_cache k)) as [-> |]; [tauto |].
      destruct (decide (x = dh_params k)) as [-> |]; tauto.
    + destruct (decide (x = session k)) as [-> |]; [tauto |].
      destruct (decide (x = priority_cache k)) as [-> |]; [tauto |].
      destruct (decide (x = dh_params k)) as [-> |]; tauto.
  - pose proof (Hne _ H). pose proof (Hne _ H0). pose proof (Hne _ H1). clear -H2 H3 H4 H5 H6 H7.
    repeat (apply NoDup_cons_2; [set_solver |]). apply NoDup_nil_2.
  - intros x. rewrite !elem_of_union, !elem_of_singleton. intros Hx Hxl. specialize (Hne x Hxl). tauto.
  - intros x. rewrite !elem_of_union, !elem_of_singleton. rewrite !length_app. cbn [length].
    intros [[[-> | ->] | ->] | ->]; [pose proof (Hl _ H) | pose proof (Hl _ H0) | pose proof (Hl _ H1) |]; lia.
Qed.

Lemma plain_session k c :
  uses c = [session k] → creates c = false → releases c = ∅ → plain (handles k) c.
Proof.
  intros Hu Hc Hr. split; [| done]. rewrite Hu. apply Forall_cons_2; [| done]. unfold handles. set_solver.
Qed.

(** What [read] and [write] call on the library. *)
Lemma handshake_calls `{Gnutls} k h :
  let '(_, k', h') := handshake k h in
  handle_list k' = handle_list k ∧
  h' = h ++ (if need_handshake k then [Handshake (session k)] else []).
Proof.
  unfold handshake. destruct (need_handshake k); [destruct (_ <? 0)%Z |]; by rewrite ?app_nil_r.
Qed.

Lemma tls_io_exchanges `{Gnutls} k h c :
  uses c = [session k] → creates c = false → releases c = ∅ →
  let '(o, k', h') := handshake k h in
  exchanges (Some k) h (Some k') (match o with Some _ => h' | None => h' ++ [c] end).
Proof.
  intros Hu Hc Hr. pose proof (handshake_calls k h) as Hs.
  destruct (handshake k h) as [[o k'] h']. destruct Hs as [Hk ->].
  assert (Forall (plain (handles k)) (if need_handshake k then [Handshake (session k)] else [])) as Hp
    by (destruct (need_handshake k); [by apply Forall_singleton, plain_session | done]).
  destruct o; rewrite <- ?app_assoc; (apply exchanges_plain; [done |]); [done |].
  apply Forall_app. split; [done |]. by apply Forall_singleton, plain_session.
Qed.

Lemma tls_shutdown_exchanges k h : exchanges (Some k) h (Some k) (tls_shutdown k h).
Proof. apply exchanges_plain; [done |]. by apply Forall_singleton, plain_session. Qed.

(** ** The objects of a program *)

(** The handles in existence are those of the objects, each of one of them. *)
Record tls_owned (h : calls) (objs : gmap nat ssl_socket_impl) (l : gset nat) : Prop := {
  to_replay : replay 0 ∅ h = Some l;
  to_objects : ∀ i k, objs !! i = Some k → handles k ⊆ l ∧ NoDup (handle_list k);
  to_owner : ∀ x, x ∈ l → ∃ i k, objs !! i = Some k ∧ x ∈ handles k;
  to_unique : ∀ i j k k' x, objs !! i = Some k → objs !! j = Some k' →
    x ∈ handles k → x ∈ handles k' → i = j;
  to_bound : ∀ x, x ∈ l → x < length h }.

Lemma tls_owned_exchange h objs l i p h' objs' :
  tls_owned h objs l → exchanges (objs !! i) h p h' →
  objs' !! i = p → (∀ j, j ≠ i → objs' !! j = objs !! j) →
  ∃ l', tls_owned h' objs' l'.
Proof.
  intros [Hr Ho Hw Hu Hb] (ev & -> & Hex) Hp Hj. set (old := objs !! i) in *.
  assert (from_option handles ∅ old ⊆ l ∧ NoDup (from_option handle_list [] old)) as [Hs Hn].
  { subst old. destruct (objs !! i) as [k |] eqn:E; cbn; [by apply (Ho i) | split; [set_solver | constructor]]. }
  destruct (Hex l Hb Hs Hn) as (Hre & Hn' & Hin & Hlt). clear Hex.
  set (N := from_option handles ∅ p) in *. set (O := from_option handles ∅ old) in *.
  assert (∀ j k, j ≠ i → objs !! j = Some k → ∀ x, x ∈ handles k → x ∉ O) as Hdis.
  { intros j k Hji Hk x Hx HxO. subst O old. destruct (objs !! i) as [k0 |] eqn:E; cbn in HxO; [| set_solver].
    apply Hji. by eapply Hu. }
  exists (l ∖ O ∪ N). split.
  - rewrite replay_app, Hr. exact Hre.
  - intros j k Hk. destruct (decide (j = i)) as [-> | Hji].
    + subst N. rewrite Hk in Hp. subst p. cbn. split; [set_solver | done].
    + rewrite Hj in Hk by done. destruct (Ho j k Hk) as [Hkl Hkn]. split; [| done].
      intros x Hx. apply elem_of_union_l, elem_of_difference. split; [by apply Hkl | by eapply Hdis].
  - intros x [[Hx HxO]%elem_of_difference | Hx]%elem_of_union.
    + destruct (Hw x Hx) as (j & k & Hk & Hxk). exists j, k. rewrite Hj; [done |]. intros ->.
      apply HxO. subst O old. by rewrite Hk.
    + subst N. destruct p as [p' |]; cbn in Hx; [| set_solver]. by exists i, p'.
  - intros j1 j2 k1 k2 x H1 H2 Hx1 Hx2.
    assert (∀ j k, j ≠ i → objs' !! j = Some k → x ∈ handles k → x ∈ N → False) as Hno.
    { intros j k Hji Hk Hx HxN. rewrite Hj in Hk by done. eapply (Hdis j k); [done.. |].
      apply Hin; [done |]. by apply (Ho j k Hk). }
    assert (∀ j k, objs' !! j = Some k → j = i → x ∈ handles k → x ∈ N) as Hi.
    { intros j k Hk -> Hx. subst N. rewrite Hk in Hp. by subst p. }
    destruct (decide (j1 = i)) as [E1 | E1], (decide (j2 = i)) as [E2 | E2]; [congruence | | |].
    + exfalso. eapply (Hno j2); eauto.
    + exfalso. eapply (Hno j1); eauto.
    + rewrite Hj in H1, H2 by done. by eapply Hu.
  - intros x [[Hx _]%elem_of_difference | Hx]%elem_of_union; [| by apply Hlt].
    rewrite length_app. specialize (Hb x Hx). lia.
Qed.

(** What an operation that copies nothing does to the implementation of an object. *)
Section effects.
Context `{SocketOs, Gnutls}.

Inductive effect (h : calls) : option ssl_socket_impl → option ssl_socket_impl → calls → Prop :=
  | effect_new src k b h' : impl_new src h = (k, b, h') → effect h None (Some k) h'
  | effect_load ca cert key crl k k' h' :
      load_certificates ca cert key crl k h = (k', h') → effect h (Some k) (Some k') h'
  | effect_read n k r b k' h' : tls_read n k h = (r, b, k', h') → effect h (Some k) (Some k') h'
  | effect_write b k r k' h' : tls_write b k h = (r, k', h') → effect h (Some k) (Some k') h'
  | effect_shutdown k : effect h (Some k) (Some k) (tls_shutdown k h)
  | effect_release k : effect h (Some k) None (impl_release k h).

(** The implementations are there, and no two objects share one. *)
Record linked (w : tls_world) : Prop := {
  linked_there : ∀ i k, ssl_objs w !! i = Some k → is_Some (impls w !! pimpl k);
  linked_once : ∀ i j k k', ssl_objs w !! i = Some k → ssl_objs w !! j = Some k' → pimpl k = pimpl k' → i = j;
  linked_fresh : ∀ a, is_Some (impls w !! a) → a < next_impl w }.

Lemma objects_lookup w i k : ssl_objs w !! i = Some k → objects w !! i = impls w !! pimpl k.
Proof. intros Hk. unfold objects. by rewrite lookup_omap, Hk. Qed.

(** The effect of an operation on object [i]. *)
Definition steps (w w' : tls_world) : Prop :=
  linked w' ∧ ∃ i, effect (calls_made w) (objects w !! i) (objects w' !! i) (calls_made w') ∧
    ∀ j, j ≠ i → objects w' !! j = objects w !! j.

Lemma at_impl_steps i f w w' :
  linked w → (∀ p p' h', f p (calls_made w) = (p', h') → effect (calls_made w) (Some p) (Some p') h') →
  at_impl i f w = Some w' → steps w w'.
Proof.
  intros [Ht Ho Hf] Hfe. unfold at_impl. destruct (ssl_objs w !! i) as [k |] eqn:Hk; [| done]. cbn.
  destruct (impls w !! pimpl k) as [p |] eqn:Hp; [| done]. cbn. destruct (f p (calls_made w)) as [p' h] eqn:E.
  intros [= <-]. split.
  - split; cbn; [| done |].
    + intros j k' Hj. destruct (decide (pimpl k = pimpl k')) as [<- | Hne];
        [rewrite lookup_insert_eq; by eexists | rewrite lookup_insert_ne by done; by eapply Ht].
    + intros a [x [[<- _] | [_ Ha]]%lookup_insert_Some]; apply Hf; by eexists.
  - exists i. rewrite (objects_lookup w i k Hk), Hp. split.
    + unfold objects. rewrite lookup_omap. cbn. rewrite Hk. cbn. rewrite lookup_insert_eq. by apply Hfe.
    + intros j Hji. unfold objects. rewrite !lookup_omap. cbn. destruct (ssl_objs w !! j) as [k' |] eqn:Hj; [| done].
      cbn. rewrite lookup_insert_ne; [done |]. intros Hpk. apply Hji. symmetry. by eapply Ho.
Qed.

Lemma construct_steps i src w w' :
  linked w → tls_step (TConstruct i src) w w' → steps w w'.
Proof.
  intros [Ht Ho Hf] [Hr Hnew]. cbn [tls_run] in Hr. destruct (socket_copy src) as [o src'].
  destruct (impl_new o (calls_made w)) as [[p o'] h] eqn:E. injection Hr as <-.
  assert (∀ j k, ssl_objs w !! j = Some k → pimpl k ≠ next_impl w) as Hne.
  { intros j k Hj Hp. pose proof (Hf _ (Ht _ _ Hj)). lia. }
  split.
  - split; cbn.
    + intros j k [[<- <-] | [_ Hj]]%lookup_insert_Some; cbn; [rewrite lookup_insert_eq; by eexists |].
      rewrite lookup_insert_ne by (apply not_eq_sym; by eapply Hne). by eapply Ht.
    + intros j1 j2 k1 k2 [[<- <-] | [_ Hj1]]%lookup_insert_Some [[<- <-] | [_ Hj2]]%lookup_insert_Some Hp;
        cbn in Hp; [done | by destruct (Hne _ _ Hj2) | by destruct (Hne _ _ Hj1) | by eapply Ho].
    + intros a [x [[<- _] | [_ Ha]]%lookup_insert_Some]; [lia |]. apply Nat.lt_lt_succ_r, Hf. by eexists.
  - exists i. unfold objects. rewrite !lookup_omap. cbn. rewrite Hnew, lookup_insert_eq. cbn. rewrite lookup_insert_eq.
    split; [by eapply effect_new |]. intros j Hji. rewrite !lookup_omap, lookup_insert_ne by done.
    destruct (ssl_objs w !! j) as [k |] eqn:Hj; [| done]. cbn. rewrite lookup_insert_ne; [done |].
    apply not_eq_sym. by eapply Hne.
Qed.

Lemma destroy_steps i w w' : linked w → tls_run (TDestroy i) w = Some w' → steps w w'.
Proof.
  intros [Ht Ho Hf]. cbn. destruct (ssl_objs w !! i) as [k |] eqn:Hk; [| done]. cbn. unfold delete_impl.
  destruct (impls w !! pimpl k) as [p |] eqn:Hp; [| done]. cbn.
  destruct (socket_destroy (base p) (net w)) as [[[] | e |] s1]; [| done..]. cbn.
  destruct (socket_destroy (outer k) s1) as [[[] | e |] s2]; [| done..]. intros [= <-].
  assert (∀ j k', j ≠ i → ssl_objs w !! j = Some k' → pimpl k ≠ pimpl k') as Hne.
  { intros j k' Hji Hj Hpk. apply Hji. symmetry. by eapply Ho. }
  split.
  - split; cbn.
    + intros j k' [Hij Hj]%lookup_delete_Some. rewrite lookup_delete_ne by (by eapply Hne). by eapply Ht.
    + intros j1 j2 k1 k2 [_ H1]%lookup_delete_Some [_ H2]%lookup_delete_Some. by eapply Ho.
    + intros a [x [_ Ha]%lookup_delete_Some]. apply Hf. by eexists.
  - exists i. rewrite (objects_lookup w i k Hk), Hp. unfold objects. rewrite lookup_omap. cbn.
    rewrite lookup_delete_eq. split; [constructor |]. intros j Hji. rewrite !lookup_omap, lookup_delete_ne by done.
    destruct (ssl_objs w !! j) as [k' |] eqn:Hj; [| done]. cbn. rewrite lookup_delete_ne; [done |]. by eapply Hne.
Qed.

(** Every operation but the copies is of this kind. *)
Lemma tls_step_steps op w w' : linked w → copies op = false → tls_step op w w' → steps w w'.
Proof.
  intros Hl Hc Hs. destruct op as [i src | i j | i j | i ca cert key crl | i n | i b | i | i]; try done;
    [by eapply construct_steps | destruct Hs as [Hs _]; cbn [tls_run] in Hs..].
  - eapply at_impl_steps; [done | | exact Hs]. intros p p' h' E. by eapply effect_load.
  - eapply at_impl_steps; [done | | exact Hs]. intros p p' h'. cbv beta.
    destruct (tls_read n p (calls_made w)) as [[[r b] p1] h1] eqn:E. intros [= <- <-]. by eapply effect_read.
  - eapply at_impl_steps; [done | | exact Hs]. intros p p' h'. cbv beta.
    destruct (tls_write b p (calls_made w)) as [[r p1] h1] eqn:E. intros [= <- <-]. by eapply effect_write.
  - eapply at_impl_steps; [done | | exact Hs]. intros p p' h' [= <- <-]. constructor.
  - by eapply destroy_steps.
Qed.

(** The handles of the object are exchanged. *)
Lemma effect_exchanges h p p' h' : effect h p p' h' → exchanges p h p' h'.
Proof.
  intros He. destruct He as [src k b h' E | ca cert key crl k k' h' E | n k r b k' h' E | b k r k' h' E | k | k].
  - pose proof (impl_new_exchanges src h) as Hx. by rewrite E in Hx.
  - pose proof (load_certificates_exchanges ca cert key crl k h) as Hx. by rewrite E in Hx.
  - pose proof (tls_io_exchanges k h (RecordRecv (session k) n) eq_refl eq_refl eq_refl) as Hx.
    pose proof (handshake_calls k h) as Hc. unfold tls_read in E.
    destruct (handshake k h) as [[[r' |] k1] h1]; [by simplify_eq |].
    assert (session k1 = session k) as Es by (destruct Hc as [[=] _]; congruence).
    rewrite Es in E. destruct (reply _). by simplify_eq.
  - pose proof (tls_io_exchanges k h (RecordSend (session k) b) eq_refl eq_refl eq_refl) as Hx.
    pose proof (handshake_calls k h) as Hc. unfold tls_write in E.
    destruct (handshake k h) as [[[r' |] k1] h1]; [by simplify_eq |].
    assert (session k1 = session k) as Es by (destruct Hc as [[=] _]; congruence).
    rewrite Es in E. by simplify_eq.
  - apply tls_shutdown_exchanges.
  - apply impl_release_exchanges.
Qed.
End effects.

(** ** The order of the calls *)
Section order.
Context `{Gnutls}.

(** The handshake of the session [s] has succeeded. *)
Definition shaken (h : calls) (s : nat) : Prop :=
  ∃ p q, h = p ++ Handshake s :: q ∧ (0 ≤ fst (reply (p ++ [Handshake s])))%Z.

(** Records are exchanged after the handshake, which is not repeated. *)
Definition in_order (h : calls) : Prop :=
  ∀ p c q, h = p ++ c :: q →
    match c with
    | RecordRecv s _ | RecordSend s _ => shaken p s
    | Handshake s => ¬ shaken p s
    | _ => True
    end.

Lemma shaken_app h1 h2 s : shaken h1 s → shaken (h1 ++ h2) s.
Proof. intros (p & q & -> & Hr). exists p, (q ++ h2). by rewrite <- app_assoc. Qed.

Lemma app_snoc_inv (h p q : calls) c d :
  h ++ [c] = p ++ d :: q → (p = h ∧ d = c ∧ q = []) ∨ ∃ q', h = p ++ d :: q' ∧ q = q' ++ [c].
Proof.
  intros Hh. destruct q as [| x q _] using rev_ind.
  - apply app_inj_tail in Hh as [-> ->]. auto.
  - right. exists q. rewrite app_comm_cons, app_assoc in Hh. by apply app_inj_tail in Hh as [-> ->].
Qed.

Lemma shaken_snoc h c s :
  shaken (h ++ [c]) s ↔ shaken h s ∨ c = Handshake s ∧ (0 ≤ fst (reply (h ++ [c])))%Z.
Proof.
  split.
  - intros (p & q & Hh & Hr). destruct (app_snoc_inv _ _ _ _ _ Hh) as [(-> & <- & ->) | (q' & -> & ->)];
      [by right | left; by exists p, q'].
  - intros [Hs | [-> Hr]]; [by apply shaken_app |]. by exists h, [].
Qed.

Lemma in_order_snoc h c :
  in_order (h ++ [c]) ↔ in_order h ∧
    match c with
    | RecordRecv s _ | RecordSend s _ => shaken h s
    | Handshake s => ¬ shaken h s
    | _ => True
    end.
Proof.
  split.
  - intros Ho. split; [| by apply (Ho h c [])]. intros p d q ->. apply (Ho p d (q ++ [c])).
    by rewrite <- app_assoc.
  - intros [Ho Hc] p d q Hh. destruct (app_snoc_inv _ _ _ _ _ Hh) as [(-> & -> & ->) | (q' & Hq & ->)];
      [done |]. by apply (Ho p d q').
Qed.

(** Calls that are neither. *)
Definition silent (c : tls_call) : bool :=
  match c with Handshake _ | RecordRecv _ _ | RecordSend _ _ => false | _ => true end.

Lemma silent_calls h ev :
  Forall (λ c, silent c = true) ev →
  (in_order h → in_order (h ++ ev)) ∧ ∀ s, shaken (h ++ ev) s ↔ shaken h s.
Proof.
  induction ev as [| c ev IH] using rev_ind; intros Hev; [by rewrite app_nil_r |].
  apply Forall_app in Hev as [Hev Hc]. rewrite Forall_singleton in Hc. destruct (IH Hev) as [Ho Hs].
  rewrite app_assoc. split.
  - intros Hh. apply in_order_snoc. split; [by apply Ho |]. by destruct c.
  - intros s. rewrite shaken_snoc, Hs. split; [intros [? | [-> _]]; done | by left].
Qed.

(** An object knows whether its session's handshake was made. *)
Definition knows (h : calls) (k : ssl_socket_impl) : Prop :=
  need_handshake k = false ↔ shaken h (session k).

Lemma handshake_order k h :
  in_order h → knows h k →
  let '(o, k', h') := handshake k h in
  in_order h' ∧ knows h' k' ∧ (o = None → shaken h' (session k')) ∧
  ∀ s, s ≠ session k → shaken h' s ↔ shaken h s.
Proof.
  intros Ho Hk. unfold handshake, knows in *. destruct (need_handshake k) eqn:E.
  - assert (¬ shaken h (session k)) as Hn by (rewrite <- Hk; done).
    assert (∀ s, s ≠ session k → shaken (h ++ [Handshake (session k)]) s ↔ shaken h s) as Hother.
    { intros s Hs. rewrite shaken_snoc. split; [| by left]. intros [? | [[=] _]]; congruence. }
    destruct (Z.ltb_spec (fst (reply (h ++ [Handshake (session k)]))) 0); split_and!; try done; cbn;
      try (by apply in_order_snoc).
    + rewrite E, shaken_snoc. split; [done |]. intros [? | [_ ?]]; [done | lia].
    + rewrite shaken_snoc. split; [| done]. by right.
    + intros _. rewrite shaken_snoc. by right.
  - assert (shaken h (session k)) as Hn by (by apply Hk). by split_and!.
Qed.

Lemma knows_other h h' k :
  knows h k → (∀ s, s = session k → shaken h' s ↔ shaken h s) → knows h' k.
Proof. intros Hk Hs. unfold knows. by rewrite (Hs _ eq_refl). Qed.

(** Reading and writing keep the order. *)
Lemma tls_io_order k h c :
  in_order h → knows h k →
  (∃ n, c = RecordRecv (session k) n) ∨ (∃ b, c = RecordSend (session k) b) →
  let '(o, k', h') := handshake k h in
  let h'' := match o with Some _ => h' | None => h' ++ [c] end in
  in_order h'' ∧ knows h'' k' ∧ ∀ s, s ≠ session k → shaken h'' s ↔ shaken h s.
Proof.
  intros Ho Hk Hc. pose proof (handshake_order k h Ho Hk) as Hh. pose proof (handshake_calls k h) as Hcs.
  destruct (handshake k h) as [[o k'] h']. destruct Hh as (Ho' & Hk' & Hs & Hother).
  destruct Hcs as [Hcs _]. destruct o; [done |]. specialize (Hs eq_refl).
  assert (session k' = session k) as E by (injection Hcs; congruence).
  assert (∀ s, shaken (h' ++ [c]) s ↔ shaken h' s) as Hsh.
  { intros s. rewrite shaken_snoc. split; [| by left].
    intros [? | [-> _]]; [done |]. by destruct Hc as [[? [=]] | [? [=]]]. }
  split_and!.
  - apply in_order_snoc. split; [done |]. rewrite E in Hs.
    by destruct Hc as [[? ->] | [? ->]].
  - eapply knows_other; [done |]. intros s _. apply Hsh.
  - intros s Hne. rewrite Hsh. by apply Hother.
Qed.
End order.

(** What holds of a program that copies no object, at all times. *)
Section reachable.
Context `{SocketOs, Gnutls}.

Record tls_ok (w : tls_world) : Prop := {
  tls_linked : linked w;
  tls_handles : ∃ l, tls_owned (calls_made w) (objects w) l;
  tls_order : in_order (calls_made w);
  tls_knows : ∀ i k, objects w !! i = Some k → knows (calls_made w) k }.

(** Sessions of different objects are different, and a new one was not used before. *)
Lemma replay_uses n l h l' c x :
  replay n l h = Some l' → c ∈ h → x ∈ uses c → (∀ y, y ∈ l → y < n) → x < n + length h.
Proof.
  revert n l. induction h as [| d h IH]; intros n l Hr Hc Hx Hl; [by apply not_elem_of_nil in Hc |].
  cbn in Hr. case_decide as Hu; [| done].
  apply elem_of_cons in Hc as [-> | Hc].
  - rewrite Forall_forall in Hu. specialize (Hl x (Hu x Hx)). cbn. lia.
  - specialize (IH _ _ Hr Hc Hx). cbn. rewrite Nat.add_succ_r. apply IH.
    intros y [Hy _]%elem_of_difference. destruct (creates d).
    + apply elem_of_union in Hy as [->%elem_of_singleton | Hy]; [lia |]. specialize (Hl _ Hy). lia.
    + specialize (Hl _ Hy). lia.
Qed.

Lemma shaken_bound h objs l s : tls_owned h objs l → shaken h s → s < length h.
Proof.
  intros Ho (p & q & -> & _). pose proof (to_replay _ _ _ Ho) as Hr.
  pose proof (replay_uses 0 ∅ _ l (Handshake s) s Hr) as Hb. cbn [plus] in Hb. apply Hb; [| | set_solver].
  - apply elem_of_app. right. by left.
  - by left.
Qed.

Lemma session_unique h objs l i j k k' :
  tls_owned h objs l → objs !! i = Some k → objs !! j = Some k' →
  session k = session k' → i = j.
Proof.
  intros Ho Hk Hk' Hs. eapply (to_unique _ _ _ Ho i j k k' (session k)); [done.. | |];
    unfold handles; [| rewrite Hs]; set_solver.
Qed.

Definition silently (h h' : calls) : Prop := ∃ ev, h' = h ++ ev ∧ Forall (λ c, silent c = true) ev.

Lemma impl_new_silent src h :
  let '(k, _, h') := impl_new src h in
  silently h h' ∧ need_handshake k = true ∧ length h ≤ session k.
Proof.
  unfold impl_new. cbn [socket_copy]. split_and!; [| done |].
  - eexists. split; [by rewrite <- !app_assoc |]. cbn [app].
    repeat (apply Forall_cons_2; [done |]). destruct (0 <=? _)%Z; by repeat constructor.
  - cbn [session]. rewrite !length_app. lia.
Qed.

Lemma cred_free_silent k : Forall (λ c, silent c = true) (cred_free k).
Proof. unfold cred_free. destruct (x509_cred k); by repeat constructor. Qed.

Lemma load_certificates_silent ca cert key crl k h :
  let '(k', h') := load_certificates ca cert key crl k h in
  silently h h' ∧ need_handshake k' = need_handshake k ∧ session k' = session k.
Proof.
  unfold load_certificates. split_and!; [| done..]. eexists. split; [by rewrite <- app_assoc |].
  unfold unless_empty. rewrite !Forall_app. split; [apply cred_free_silent |].
  split_and!; [| destruct ca | destruct crl | destruct cert, key |]; by repeat constructor.
Qed.

Lemma impl_release_silent k h : silently h (impl_release k h).
Proof.
  eexists. split; [done |]. rewrite Forall_app. split; [apply cred_free_silent | by repeat constructor].
Qed.

(** The order after silent calls, with object [i] replaced, removed or new. *)
Lemma order_silent w h' i (objs' : gmap nat ssl_socket_impl) :
  tls_ok w → silently (calls_made w) h' →
  (∀ j, j ≠ i → objs' !! j = objects w !! j) →
  (∀ k', objs' !! i = Some k' →
    (∃ k, objects w !! i = Some k ∧ need_handshake k' = need_handshake k ∧ session k' = session k) ∨
    need_handshake k' = true ∧ length (calls_made w) ≤ session k') →
  in_order h' ∧ ∀ j k, objs' !! j = Some k → knows h' k.
Proof.
  intros [_ (l & Hl) Ho Hk] (ev & -> & Hev) Hj Hi. destruct (silent_calls (calls_made w) ev Hev) as [Hio Hs].
  split; [by apply Hio |]. intros j k Hjk. unfold knows. rewrite Hs.
  destruct (decide (j = i)) as [-> | Hji]; [| rewrite Hj in Hjk by done; by apply (Hk j)].
  destruct (Hi k Hjk) as [(k0 & Hk0 & -> & ->) | [-> Hb]]; [by apply (Hk i) |].
  split; [done |]. intros Hsh. pose proof (shaken_bound _ _ _ _ Hl Hsh). lia.
Qed.

Lemma order_io w i k h' k' (objs' : gmap nat ssl_socket_impl) :
  tls_ok w → objects w !! i = Some k → objs' !! i = Some k' → (∀ j, j ≠ i → objs' !! j = objects w !! j) →
  in_order h' ∧ knows h' k' ∧ (∀ s, s ≠ session k → shaken h' s ↔ shaken (calls_made w) s) →
  in_order h' ∧ ∀ j k1, objs' !! j = Some k1 → knows h' k1.
Proof.
  intros [_ (l & Hl) Ho Hk] Hi Hi' Hj (Ho' & Hk' & Hs). split; [done |].
  intros j k1 Hj1. destruct (decide (j = i)) as [-> | Hji]; [congruence |]. rewrite Hj in Hj1 by done.
  eapply knows_other; [by apply (Hk j) |]. intros s ->. apply Hs. intros E.
  apply Hji. by eapply session_unique.
Qed.

Lemma effect_order w p p' h' i (objs' : gmap nat ssl_socket_impl) :
  tls_ok w → effect (calls_made w) p p' h' → objects w !! i = p → objs' !! i = p' →
  (∀ j, j ≠ i → objs' !! j = objects w !! j) →
  in_order h' ∧ ∀ j k, objs' !! j = Some k → knows h' k.
Proof.
  intros Hw He Hi Hi' Hj.
  destruct He as [src k b h' E | ca cert key crl k k' h' E | n k r b k' h' E | b k r k' h' E | k | k].
  - pose proof (impl_new_silent src (calls_made w)) as Hx. rewrite E in Hx. destruct Hx as (Hx & Hn & Hs).
    apply (order_silent w h' i); [done.. |]. rewrite Hi'. intros k' [= <-]. by right.
  - pose proof (load_certificates_silent ca cert key crl k (calls_made w)) as Hx. rewrite E in Hx.
    destruct Hx as (Hx & Hn & Hs). apply (order_silent w h' i); [done.. |].
    rewrite Hi'. intros k1 [= <-]. left. by exists k.
  - pose proof (tls_io_order k (calls_made w) (RecordRecv (session k) n) (tls_order _ Hw)
      (tls_knows _ Hw _ _ Hi) ltac:(eauto)) as Hx.
    pose proof (handshake_calls k (calls_made w)) as Hc. unfold tls_read in E.
    destruct (handshake k (calls_made w)) as [[[r' |] k1] h1]; [simplify_eq; by eapply order_io |].
    assert (session k1 = session k) as Es by (destruct Hc as [[=] _]; congruence).
    rewrite Es in E. destruct (reply _). simplify_eq. by eapply order_io.
  - pose proof (tls_io_order k (calls_made w) (RecordSend (session k) b) (tls_order _ Hw)
      (tls_knows _ Hw _ _ Hi) ltac:(eauto)) as Hx.
    pose proof (handshake_calls k (calls_made w)) as Hc. unfold tls_write in E.
    destruct (handshake k (calls_made w)) as [[[r' |] k1] h1]; [simplify_eq; by eapply order_io |].
    assert (session k1 = session k) as Es by (destruct Hc as [[=] _]; congruence).
    rewrite Es in E. simplify_eq. by eapply order_io.
  - apply (order_silent w _ i); [done | | done |].
    + exists [Bye (session k)]. split; [done |]. by repeat constructor.
    + rewrite Hi'. intros k1 [= <-]. left. by exists k.
  - apply (order_silent w _ i); [done | apply impl_release_silent | done |]. by rewrite Hi'.
Qed.

Lemma tls_ok_step op w w' : copies op = false → tls_step op w w' → tls_ok w → tls_ok w'.
Proof.
  intros Hc Hst Hw. destruct (tls_step_steps op w w' (tls_linked _ Hw) Hc Hst) as (Hl & i & He & Hj).
  destruct (effect_order w _ _ _ i (objects w') Hw He eq_refl eq_refl Hj) as [Ho Hk].
  split; [done | | done | done]. destruct (tls_handles _ Hw) as [l Hown].
  eapply (tls_owned_exchange _ _ _ i); [exact Hown | by apply effect_exchanges | done | done].
Qed.

Definition tls_new (s : os) : tls_world := TlsWorld s [] ∅ ∅ 0.

Lemma tls_new_ok s : tls_ok (tls_new s).
Proof.
  assert (objects (tls_new s) = ∅) as Ho by done.
  split; rewrite ?Ho.
  - split; cbn; intros *; rewrite ?lookup_empty; [done | done | intros [? [=]]].
  - exists ∅. split; try done; set_solver.
  - intros p c q Hh; by destruct p.
  - done.
Qed.

Lemma tls_program_ok ops w w' :
  tls_program ops w w' → Forall (λ op, copies op = false) ops → tls_ok w → tls_ok w'.
Proof.
  intros Hp. induction Hp as [w | op ops w w1 w2 Hs _ IH]; intros Hc Hw; [done |].
  apply Forall_cons in Hc as [Hc Hcs]. apply IH; [done |]. by eapply tls_ok_step.
Qed.
End reachable.

(** ** Properties *)

(** C25. In a program that neither copies nor assigns an [ssl_socket], every call on GnuTLS uses
    handles that exist, each handle is released once, and those in existence are exactly those of
    the objects, each of one object; when no object is left, no handle is.  Assigning one
    [ssl_socket] to another copies the handles, which are then released twice
    ([tls_assign_releases_twice]); copying one shares them, and the second destructor is
    undefined ([tls_copy_undefined]). *)
Theorem tls_handles_owned `{SocketOs, Gnutls} s ops w :
  tls_program ops (tls_new s) w → Forall (λ op, copies op = false) ops →
  ∃ l, replay 0 ∅ (calls_made w) = Some l ∧
    (∀ x, x ∈ l ↔ ∃ i k, objects w !! i = Some k ∧ x ∈ handles k) ∧
    (∀ i j k k' x, objects w !! i = Some k → objects w !! j = Some k' →
       x ∈ handles k → x ∈ handles k' → i = j) ∧
    (ssl_objs w = ∅ → l = ∅).
Proof.
  intros Hp Hc. pose proof (tls_program_ok _ _ _ Hp Hc (tls_new_ok s)) as Hw.
  destruct (tls_handles _ Hw) as [l Hl]. exists l. split_and!.
  - apply Hl.
  - intros x. split; [apply Hl |]. intros (i & k & Hk & Hx). by apply (to_objects _ _ _ Hl i k Hk).
  - apply Hl.
  - intros He. apply elem_of_equiv_empty_L. intros x (i & k & Hk & _)%(to_owner _ _ _ Hl).
    unfold objects in Hk. by rewrite He in Hk.
Qed.

(** C20. In a program that neither copies nor assigns an [ssl_socket], no byte goes through a
    session before its handshake has succeeded, and a handshake that succeeded is not repeated,
    however reads, writes, certificate loads and shutdowns of any number of sockets interleave.
    An assigned socket, whose session is the other's, repeats it: [tls_assign_shakes_twice]. *)
Theorem tls_handshake_first `{SocketOs, Gnutls} s ops w before c after :
  tls_program ops (tls_new s) w → Forall (λ op, copies op = false) ops →
  calls_made w = before ++ c :: after →
  match c with
  | RecordRecv x _ | RecordSend x _ => shaken before x
  | Handshake x => ¬ shaken before x
  | _ => True
  end.
Proof.
  intros Hp Hc Hcs. by apply (tls_order _ (tls_program_ok _ _ _ Hp Hc (tls_new_ok s)) _ _ after).
Qed.

(** The base of an [ssl_socket], on which [connect], [bind] and [listen] work, has no
    descriptor: the implementation took it. *)
Lemma ssl_socket_without_descriptor `{SocketOs, Gnutls} i src w w' k :
  tls_run (TConstruct i src) w = Some w' → ssl_objs w' !! i = Some k →
  socket_fd (outer k) = (-1)%Z ∧ base <$> objects w' !! i = Some (Socket (socket_fd src) (_address src) (_port src)).
Proof.
  cbn. intros [= <-]. unfold objects. rewrite lookup_omap. cbn. rewrite lookup_insert_eq. intros [= <-]. cbn.
  by rewrite lookup_insert_eq.
Qed.

(** ** Witnesses: a peer that completes the handshake at the second call *)
#[global] Instance slow_peer : Gnutls := {|
  reply h := match last h with
             | Some (Handshake _) =>
                 ((if (1 <? length (filter (λ c, silent c = false) h))%nat then 0 else -28)%Z, [])
             | Some (RecordRecv _ _) => (2%Z, lit "hi")
             | Some (RecordSend _ b) => (Z.of_nat (length b), [])
             | _ => (0%Z, [])
             end;
  gnutls_error_is_fatal z := negb (z =? -28)%Z;
  GNUTLS_E_AGAIN := -28;
  GNUTLS_E_INTERRUPTED := -52 |}.

(** The state after the operations, from no object on descriptors 3 and 4. *)
Definition tls_start : tls_world (H := table_os) := tls_new (H := table_os) (Table [3; 4]%Z ∅).

Definition tls_after (ops : list tls_op) : option (tls_world (H := table_os)) :=
  foldl (λ w op, w ≫= tls_run op) (Some tls_start) ops.

Definition tls_session : list tls_op :=
  [TConstruct 0 (Socket 3 [] 0); TLoad 0 [] (lit "c") (lit "k") []; TRead 0 10; TRead 0 10;
   TWrite 0 (lit "ok")].

Definition after_session : tls_world (H := table_os) := default tls_start (tls_after tls_session).

Lemma tls_session_runs : tls_program (H := table_os) tls_session tls_start after_session.
Proof.
  unfold after_session, tls_after, tls_session.
  repeat (eapply tls_program_cons; [split; [vm_compute; reflexivity | done] |]). apply tls_program_nil.
Qed.

Lemma tls_session_copies_nothing : Forall (λ op, copies op = false) tls_session.
Proof. by repeat constructor. Qed.

Example tls_session_calls :
  drop 12 (calls_made after_session)
  = [Handshake 3; Handshake 3; RecordRecv 3 10; RecordSend 3 (lit "ok")].
Proof. vm_compute. reflexivity. Qed.

Lemma tls_handles_owned_witness :
  ∃ l, replay 0 ∅ (calls_made after_session) = Some l ∧ (ssl_objs after_session = ∅ → l = ∅).
Proof.
  destruct (tls_handles_owned _ tls_session after_session tls_session_runs tls_session_copies_nothing)
    as (l & Hl & _ & _ & He).
  exists l. split; [exact Hl | exact He].
Defined.

Lemma tls_handshake_first_witness :
  shaken (take 14 (calls_made after_session)) 3.
Proof.
  exact (tls_handshake_first (Table [3; 4]%Z ∅) tls_session after_session (take 14 (calls_made after_session))
    (RecordRecv 3 10) [RecordSend 3 (lit "ok")] tls_session_runs tls_session_copies_nothing eq_refl).
Defined.

(** After an assignment both objects release the same handles. *)
Example tls_assign_releases_twice :
  (replay 0 ∅ ∘ calls_made) <$>
    tls_after [TConstruct 0 (Socket 3 [] 0); TConstruct 1 (Socket 4 [] 0); TAssign 0 1; TDestroy 0;
               TDestroy 1] = Some None.
Proof. vm_compute. reflexivity. Qed.

(** Both have a session whose handshake is to be made, and make it. *)
Example tls_assign_shakes_twice :
  (List.filter (λ c, match c with Handshake _ => true | _ => false end) ∘ calls_made) <$>
    tls_after [TConstruct 0 (Socket 3 [] 0); TConstruct 1 (Socket 4 [] 0); TRead 0 1; TAssign 0 1; TRead 0 1;
               TRead 1 1]
  = Some [Handshake 3; Handshake 11; Handshake 11].
Proof. vm_compute. reflexivity. Qed.

(** A copy has the implementation of the object it is made from. *)
Example tls_copy_undefined :
  tls_after [TConstruct 0 (Socket 3 [] 0); TCopy 1 0; TDestroy 1; TDestroy 0] = None.
Proof. vm_compute. reflexivity. Qed.
