(* ===== verification/OpenSslSocket.v ===== *)
(** * [src/src/dcl/openssl_socket.cpp]: sockets with TLS by OpenSSL.

    The library is the class [Openssl]: what a call answers depends on the calls before it; a
    context and a connection are named by the position of the call that created them. *)
From S2P Require Export Socket.

Inductive ossl_call :=
  | CtxNew | SslNew (ctx : nat) | SetAutoRetry (ssl : nat) | SetAcceptState (ssl : nat)
  | SetFd (ssl : nat) (fd : Z) | SslFree (ssl : nat) | CtxFree (ctx : nat)
  | LoadVerifyLocations (ctx : nat) (file : str) | UseCertificateFile (ssl : nat) (file : str)
  | UsePrivateKeyFile (ssl : nat) (file : str) | CheckPrivateKey (ssl : nat)
  | SslRead (ssl : nat) (n : Z) | SslWrite (ssl : nat) (b : str) | SslShutdown (ssl : nat).

Abbreviation ossl_calls := (list ossl_call).

Class Openssl := {
  (** the integer and the bytes the last call answers; 0 for a creation that failed *)
  ossl_reply : ossl_calls → Z * str;
  SSL_get_error : ossl_calls → Z → Z;
  SSL_ERROR_WANT_READ : Z;
  SSL_ERROR_WANT_WRITE : Z }.

(** What the library documents of [SSL_CTX_load_verify_locations]: 1 for success. *)
Class OpensslLaws `{Openssl} (valid_ca : str → Prop) : Prop := {
  load_verify_law : ∀ h ctx f,
    fst (ossl_reply (h ++ [LoadVerifyLocations ctx f])) = 1%Z ↔ valid_ca f }.

Record ossl_socket_impl := OsslImpl { ossl_base : socket; ctx : nat; ssl : nat }.

Section openssl.
Context `{Openssl}.

Definition answers (c : ossl_call) (h : ossl_calls) : Z * ossl_calls :=
  (fst (ossl_reply (h ++ [c])), h ++ [c]).

Definition invalid_context {A} : outcome A := socket_throw "can't initialize SSL context".

(** The constructor: the object or the exception, the socket it was given, which has lost its
    descriptor either way, and the base, whose destructor runs when the constructor throws. *)
Definition ossl_impl_new (src : socket) (h : ossl_calls)
    : outcome ossl_socket_impl * socket * socket * ossl_calls :=
  let '(b, src') := socket_copy src in
  let '(r, h1) := answers CtxNew h in
  if (r =? 0)%Z then (invalid_context, b, src', h1)
  else
    let c := length h in
    let '(r, h2) := answers (SslNew c) h1 in
    if (r =? 0)%Z then (invalid_context, b, src', h2)
    else
      let s := length h1 in
      (Ret (OsslImpl b c s), b, src',
       h2 ++ [SetAutoRetry s; SetAcceptState s; SetFd s (socket_fd b)]).

(** The destructor, before that of the base. *)
Definition ossl_impl_release (k : ossl_socket_impl) (h : ossl_calls) : ossl_calls :=
  h ++ [SslFree (ssl k); CtxFree (ctx k)].

(** The step of [load_certificates] for a file that has to be there. *)
Definition needs_file (f : str) (c : ossl_call) (msg : string) (h : ossl_calls) : outcome unit * ossl_calls :=
  match f with
  | [] => (socket_throw msg, h)
  | _ => let '(r, h') := answers c h in (if (r <=? 0)%Z then socket_throw msg else Ret (), h')
  end.

Definition load_ca (ca : str) (k : ossl_socket_impl) : stm ossl_calls unit := λ h,
  match ca with
  | [] => (Ret (), h)
  | _ =>
      let '(r, h') := answers (LoadVerifyLocations (ctx k) (c_str ca)) h in
      (if negb (r =? 0)%Z then socket_throw "invalid CA certificate" else Ret (), h')
  end.

Definition check_key (k : ossl_socket_impl) : stm ossl_calls unit := λ h,
  let '(r, h') := answers (CheckPrivateKey (ssl k)) h in
  (if (r =? 0)%Z then socket_throw "private key is invalid" else Ret (), h').

(** [load_certificates]; the list of revoked certificates is not used. *)
Definition ossl_load_certificates (ca cert key crl : str) (k : ossl_socket_impl) : stm ossl_calls unit :=
  _ ← load_ca ca k;
  _ ← needs_file cert (UseCertificateFile (ssl k) (c_str cert)) "can't load certificate file";
  _ ← needs_file key (UsePrivateKeyFile (ssl k) (c_str key)) "can't load private key file";
  check_key k.

(** The last lines of [read] and [write]. *)
Definition ossl_result (want nsize : Z) (h : ossl_calls) : Z :=
  if (nsize <? 0)%Z && (SSL_get_error h nsize =? want)%Z then data_not_ready
  else if (0 <=? nsize)%Z then nsize
  else io_error.

Definition ossl_read (bytes_to_read : Z) (k : ossl_socket_impl) (h : ossl_calls) : Z * str * ossl_calls :=
  let h' := h ++ [SslRead (ssl k) bytes_to_read] in
  let '(nsize, buffer) := ossl_reply h' in
  (ossl_result SSL_ERROR_WANT_READ nsize h', buffer, h').

Definition ossl_write (buffer : str) (k : ossl_socket_impl) (h : ossl_calls) : Z * ossl_calls :=
  let '(nsize, h') := answers (SslWrite (ssl k) buffer) h in
  (ossl_result SSL_ERROR_WANT_WRITE nsize h', h').

Definition ossl_shutdown (k : ossl_socket_impl) (h : ossl_calls) : ossl_calls := h ++ [SslShutdown (ssl k)].

(** ** Lemmas *)

(** Contexts and connections that were created and not released. *)
Fixpoint ossl_live (pre post : ossl_calls) : list nat :=
  match post with
  | [] => []
  | c :: post' =>
      let n := length pre in
      let later := ossl_live (pre ++ [c]) post' in
      let released := λ n, existsb (λ c, match c with SslFree m | CtxFree m => m =? n | _ => false end) post' in
      match c with
      | CtxNew | SslNew _ =>
          if (fst (ossl_reply (pre ++ [c])) =? 0)%Z || released n then later else n :: later
      | _ => later
      end
  end.

(** A connection that was made and destroyed leaves nothing; one that could not be made leaves
    its context. *)
Lemma ossl_impl_balance src :
  match ossl_impl_new src [] with
  | (Ret k, b, src', h) =>
      ossl_base k = b ∧ ossl_live [] (ossl_impl_release k h) = [] ∧ socket_fd b = socket_fd src ∧
      socket_fd src' = (-1)%Z
  | (Throw _, b, src', h) =>
      ossl_live [] h = (if (fst (ossl_reply [CtxNew]) =? 0)%Z then [] else [0]) ∧
      socket_fd b = socket_fd src
  | _ => False
  end.
Proof.
  unfold ossl_impl_new, answers. cbn. destruct (fst (ossl_reply [CtxNew]) =? 0)%Z eqn:E1.
  - cbn. by rewrite E1.
  - destruct (fst (ossl_reply [CtxNew; SslNew 0]) =? 0)%Z eqn:E2; cbn; rewrite E1, E2; done.
Qed.

(** A file that has to be there: what succeeding means. *)
Lemma needs_file_ret f c msg h h' :
  needs_file f c msg h = (Ret (), h') ↔
  f ≠ [] ∧ (0 < fst (ossl_reply (h ++ [c])))%Z ∧ h' = h ++ [c].
Proof.
  unfold needs_file, answers. destruct f as [| a f]; [split; [done | by intros []] |].
  destruct (Z.leb_spec (fst (ossl_reply (h ++ [c]))) 0); split; try done.
  - intros (_ & ? & _). lia.
  - by intros [= <-].
  - by intros (_ & _ & ->).
Qed.

Lemma load_ca_ret ca k h h' :
  load_ca ca k h = (Ret (), h') ↔
  (ca = [] ∧ h' = h) ∨
  (ca ≠ [] ∧ fst (ossl_reply (h ++ [LoadVerifyLocations (ctx k) (c_str ca)])) = 0%Z ∧
   h' = h ++ [LoadVerifyLocations (ctx k) (c_str ca)]).
Proof.
  unfold load_ca, answers. destruct ca as [| a ca]; [naive_solver |].
  destruct (Z.eqb_spec (fst (ossl_reply (h ++ [LoadVerifyLocations (ctx k) (c_str (a :: ca))]))) 0) as [E | E];
    cbn; split; naive_solver.
Qed.
End openssl.

(** ** Properties *)

(** C26. Certificates are accepted only with a certificate file and a key file that the library
    could load, in that order, and that go together; and, since the answer of the library is
    read the wrong way round, never together with a CA file that is valid. *)
Theorem openssl_certificates `{OpensslLaws valid_ca} ca cert key crl k h h' :
  ossl_load_certificates ca cert key crl k h = (Ret (), h') →
  cert ≠ [] ∧ key ≠ [] ∧
  (ca = [] ∨ ¬ valid_ca (c_str ca)) ∧
  ∃ h1, h1 = (match ca with [] => h | _ => h ++ [LoadVerifyLocations (ctx k) (c_str ca)] end) ∧
    let h2 := h1 ++ [UseCertificateFile (ssl k) (c_str cert)] in
    let h3 := h2 ++ [UsePrivateKeyFile (ssl k) (c_str key)] in
    h' = h3 ++ [CheckPrivateKey (ssl k)] ∧
    (0 < fst (ossl_reply h2))%Z ∧ (0 < fst (ossl_reply h3))%Z ∧ fst (ossl_reply h') ≠ 0%Z.
Proof.
  unfold ossl_load_certificates, mbind, stm_bind. intros Hl.
  destruct (load_ca ca k h) as [[[] | |] h1] eqn:E1; try done.
  destruct (needs_file cert _ _ h1) as [[[] | |] h2] eqn:E2; try done.
  destruct (needs_file key _ _ h2) as [[[] | |] h3] eqn:E3; try done.
  apply needs_file_ret in E2 as (Hc & Hc1 & ->). apply needs_file_ret in E3 as (Hk & Hk1 & ->).
  split; [done |]. split; [done |]. apply load_ca_ret in E1.
  assert (ca = [] ∨ ¬ valid_ca (c_str ca)) as Hca.
  { destruct E1 as [[-> _] | (_ & Hr & _)]; [by left | right]. rewrite <- (load_verify_law h (ctx k)). lia. }
  split; [done |]. exists h1. split; [destruct E1 as [[-> ->] | (Hne & _ & ->)]; [done | by destruct ca] |].
  unfold check_key, answers in Hl.
  destruct (Z.eqb_spec (fst (ossl_reply ((((h1 ++ [UseCertificateFile (ssl k) (c_str cert)]) ++
    [UsePrivateKeyFile (ssl k) (c_str key)]) ++ [CheckPrivateKey (ssl k)])))) 0); [done |].
  injection Hl as <-. done.
Qed.

(** ** Witness: a library that accepts every file but the CA file "bad" *)
#[local] Instance easy_openssl : Openssl := {|
  ossl_reply h := match last h with
                  | Some (LoadVerifyLocations _ f) => ((if str_eqb f (lit "bad") then 0 else 1)%Z, [])
                  | _ => (1%Z, [])
                  end;
  SSL_get_error _ _ := 0%Z;
  SSL_ERROR_WANT_READ := 2;
  SSL_ERROR_WANT_WRITE := 3 |}.

Lemma easy_openssl_laws : OpensslLaws (λ f, str_eqb f (lit "bad") = false).
Proof. split. intros h c f. cbn. rewrite last_snoc. by destruct (str_eqb f (lit "bad")). Qed.

Lemma openssl_certificates_witness :
  ∃ h', ossl_load_certificates (lit "bad") (lit "c") (lit "k") [] (OsslImpl (Socket 3 [] 0) 0 1) [] = (Ret (), h') ∧
    str_eqb (lit "bad") (lit "bad") ≠ false.
Proof.
  eexists. split; [vm_compute; reflexivity |].
  destruct (openssl_certificates (H := easy_openssl) (H0 := easy_openssl_laws) (lit "bad") (lit "c") (lit "k") []
    (OsslImpl (Socket 3 [] 0) 0 1) [] _ ltac:(vm_compute; reflexivity)) as (_ & _ & [Hca | Hca] & _);
    [discriminate | exact Hca].
Defined.

(** A valid CA file is refused. *)
Example openssl_valid_ca_refused :
  fst (ossl_load_certificates (lit "good") (lit "c") (lit "k") [] (OsslImpl (Socket 3 [] 0) 0 1) [])
  = socket_throw "invalid CA certificate".
Proof. vm_compute. reflexivity. Qed.
