(* ===== verification/StdMap.v ===== *)
(** * [std::map]: an association list sorted by a strict weak order on the keys.

    The class [KeyOrder] is what a comparator promises to the container; the map theorems
    are proved against it, and each comparator of the sources is an instance.  Two keys
    neither of which is less than the other are the same key: [operator[]] then keeps the
    key already stored and replaces the value. *)
From S2P Require Export CxxString.
From Stdlib Require Export Sorting.Sorted.

Class KeyOrder {K : Type} (less : K → K → bool) : Prop := {
  less_irrefl : ∀ k, less k k = false;
  less_trans : ∀ a b c, less a b = true → less b c = true → less a c = true;
  less_cotrans : ∀ a b c, less a b = false → less b c = false → less a c = false }.

Section map_operations.
Context {K V : Type} (less : K → K → bool).
Implicit Types (m : list (K * V)) (k : K) (v : V).

Definition key_equiv (a b : K) : bool := negb (less a b) && negb (less b a).

Fixpoint map_find k m : option V :=
  match m with
  | [] => None
  | (k', v) :: m' =>
      if less k' k then map_find k m' else if less k k' then None else Some v
  end.

(** [m[k] = v] *)
Fixpoint map_set k v m : list (K * V) :=
  match m with
  | [] => [(k, v)]
  | (k', v') :: m' =>
      if less k' k then (k', v') :: map_set k v m'
      else if less k k' then (k, v) :: m else (k', v) :: m'
  end.

(** [m.erase(k)] *)
Fixpoint map_erase k m : list (K * V) :=
  match m with
  | [] => []
  | (k', v') :: m' =>
      if less k' k then (k', v') :: map_erase k m' else if less k k' then m else m'
  end.

Definition map_sorted m : Prop := StronglySorted (λ a b, less a.1 b.1 = true) m.
End map_operations.

Section map_laws.
Context {K V : Type} (less : K → K → bool) `{!KeyOrder less}.
Implicit Types (m : list (K * V)) (k : K) (v : V).

Lemma less_asym a b : less a b = true → less b a = false.
Proof.
  intros H. destruct (less b a) eqn:Hb; [| done].
  pose proof (less_trans _ _ _ H Hb). by rewrite less_irrefl in *.
Qed.

Lemma less_le_trans a b c : less a b = true → less c b = false → less a c = true.
Proof.
  intros H Hc. destruct (less a c) eqn:Ha; [done |].
  by rewrite (less_cotrans _ _ _ Ha Hc) in H.
Qed.

Lemma le_less_trans a b c : less b a = false → less b c = true → less a c = true.
Proof.
  intros H Hc. destruct (less a c) eqn:Ha; [done |].
  by rewrite (less_cotrans _ _ _ H Ha) in Hc.
Qed.

Lemma key_equiv_spec a b : key_equiv less a b = true ↔ less a b = false ∧ less b a = false.
Proof. unfold key_equiv. destruct (less a b), (less b a); naive_solver. Qed.

Lemma key_equiv_refl a : key_equiv less a a = true.
Proof. apply key_equiv_spec. by rewrite less_irrefl. Qed.

Lemma key_equiv_less_l a b c : key_equiv less a b = true → less a c = less b c.
Proof.
  intros [H1 H2]%key_equiv_spec. destruct (less a c) eqn:Ha, (less b c) eqn:Hb; try done.
  - by rewrite (less_cotrans _ _ _ H1 Hb) in Ha.
  - by rewrite (less_cotrans _ _ _ H2 Ha) in Hb.
Qed.

Lemma key_equiv_less_r a b c : key_equiv less a b = true → less c a = less c b.
Proof.
  intros [H1 H2]%key_equiv_spec. destruct (less c a) eqn:Ha, (less c b) eqn:Hb; try done.
  - by rewrite (less_cotrans _ _ _ Hb H2) in Ha.
  - by rewrite (less_cotrans _ _ _ Ha H1) in Hb.
Qed.

Lemma map_find_equiv a b m : key_equiv less a b = true → map_find less a m = map_find less b m.
Proof.
  intros H. induction m as [| [k v] m IH]; cbn; [done |].
  by rewrite (key_equiv_less_l _ _ k H), (key_equiv_less_r _ _ k H), IH.
Qed.

Lemma map_find_set_same k k' v m :
  key_equiv less k k' = true → map_find less k' (map_set less k v m) = Some v.
Proof.
  intros H. rewrite <- (map_find_equiv _ _ _ H).
  induction m as [| [k1 v1] m IH]; cbn; [by rewrite less_irrefl |].
  destruct (less k1 k) eqn:H1; cbn; [by rewrite H1 |].
  destruct (less k k1) eqn:H2; cbn; [by rewrite less_irrefl | by rewrite H1, H2].
Qed.

Lemma map_find_set_other k k' v m :
  key_equiv less k k' = false → map_find less k' (map_set less k v m) = map_find less k' m.
Proof.
  intros H. assert (less k k' = true ∨ less k' k = true) as Hne.
  { unfold key_equiv in H. destruct (less k k'), (less k' k); naive_solver. }
  induction m as [| [k1 v1] m IH]; cbn.
  - destruct Hne as [-> | Hk]; [done |]. by rewrite (less_asym _ _ Hk), Hk.
  - destruct (less k1 k) eqn:H1; cbn; [by rewrite IH |].
    destruct (less k k1) eqn:H2; cbn.
    + destruct Hne as [-> | Hk]; [done |]. rewrite (less_asym _ _ Hk), Hk.
      pose proof (less_trans _ _ _ Hk H2) as H3. by rewrite (less_asym _ _ H3), H3.
    + destruct Hne as [Hk | Hk].
      * by rewrite (le_less_trans _ _ _ H2 Hk).
      * rewrite (less_le_trans _ _ _ Hk H1).
        by rewrite (less_asym _ _ (less_le_trans _ _ _ Hk H1)).
Qed.

Lemma map_set_Forall (P : K * V → Prop) k v m :
  (∀ k', key_equiv less k k' = true → P (k', v)) → Forall P m → Forall P (map_set less k v m).
Proof.
  intros Hk H. induction H as [| [k1 v1] m H1 Hm IH]; cbn.
  - repeat constructor. apply Hk, key_equiv_refl.
  - destruct (less k1 k) eqn:E1; [by constructor |].
    destruct (less k k1) eqn:E2.
    + repeat constructor; auto. apply Hk, key_equiv_refl.
    + constructor; [| done]. apply Hk, key_equiv_spec. done.
Qed.

Lemma map_set_sorted k v m : map_sorted less m → map_sorted less (map_set less k v m).
Proof.
  intros H. induction H as [| [k1 v1] m Hs IH Hm]; cbn; [by repeat constructor |].
  destruct (less k1 k) eqn:E1.
  - constructor; [done |]. apply map_set_Forall; [| done]. cbn. intros k' Hk'.
    by rewrite <- (key_equiv_less_r _ _ k1 Hk').
  - destruct (less k k1) eqn:E2.
    + constructor; [by constructor |]. constructor; [done |].
      eapply Forall_impl; [exact Hm |]. cbn. intros [k2 v2]. by apply less_trans.
    + by constructor.
Qed.

Lemma map_find_below k m :
  Forall (λ e, less k e.1 = true) m → map_find less k m = None.
Proof.
  destruct m as [| [k1 v1] m]; [done |]. intros H. inv H. cbn in *.
  by rewrite (less_asym k k1), H2.
Qed.

Lemma map_find_erase_same k k' m :
  map_sorted less m → key_equiv less k k' = true →
  map_find less k' (map_erase less k m) = None.
Proof.
  intros Hs H. rewrite <- (map_find_equiv _ _ _ H). clear k' H.
  induction Hs as [| [k1 v1] m Hs IH Hm]; cbn; [done |].
  destruct (less k1 k) eqn:E1; cbn; [by rewrite E1 |].
  destruct (less k k1) eqn:E2; cbn; [by rewrite E1, E2 |].
  apply map_find_below. eapply Forall_impl; [exact Hm |]. cbn. intros [k2 v2] H2.
  by eapply le_less_trans.
Qed.

Lemma map_find_erase_other k k' m :
  map_sorted less m → key_equiv less k k' = false →
  map_find less k' (map_erase less k m) = map_find less k' m.
Proof.
  intros Hs H. induction Hs as [| [k1 v1] m Hs IH Hm]; cbn; [done |].
  destruct (less k1 k) eqn:E1; cbn; [by rewrite IH |].
  destruct (less k k1) eqn:E2; cbn; [done |].
  assert (key_equiv less k k1 = true) as Hk1 by by apply key_equiv_spec.
  unfold key_equiv in H.
  rewrite (key_equiv_less_l _ _ k' Hk1), (key_equiv_less_r _ _ k' Hk1) in H.
  destruct (less k1 k') eqn:E3, (less k' k1) eqn:E4; try done.
  apply map_find_below. eapply Forall_impl; [exact Hm |]. cbn. intros [k2 v2] H2.
  by eapply less_trans.
Qed.

Lemma map_erase_Forall (P : K * V → Prop) k m : Forall P m → Forall P (map_erase less k m).
Proof.
  induction 1 as [| [k1 v1] m H1 Hm IH]; cbn; [constructor |].
  repeat case_match; [by constructor | by constructor | done].
Qed.

Lemma map_erase_sorted k m : map_sorted less m → map_sorted less (map_erase less k m).
Proof.
  intros H. induction H as [| [k1 v1] m Hs IH Hm]; cbn; [constructor |].
  destruct (less k1 k); [| destruct (less k k1); [by constructor | done]].
  constructor; [done |]. by apply map_erase_Forall.
Qed.

(** A sorted map is determined by its elements found by key. *)
Lemma map_find_elem k v m :
  map_sorted less m → (k, v) ∈ m → map_find less k m = Some v.
Proof.
  intros H. induction H as [| [k1 v1] m Hs IH Hm]; [by intros ?%not_elem_of_nil |].
  intros [[= -> ->] | Hin]%elem_of_cons; cbn; [by rewrite less_irrefl |].
  eapply Forall_forall in Hm as Hlt; [| exact Hin]. cbn in Hlt. by rewrite Hlt, IH.
Qed.

Lemma map_find_Some_elem k v m :
  map_find less k m = Some v → ∃ k', key_equiv less k k' = true ∧ (k', v) ∈ m.
Proof.
  induction m as [| [k1 v1] m IH]; cbn; [done |].
  destruct (less k1 k) eqn:E1.
  - intros (k' & Hk & Hin)%IH. exists k'. split; [done | by right].
  - destruct (less k k1) eqn:E2; [done |]. intros [= ->]. exists k1.
    split; [by apply key_equiv_spec | by left].
Qed.

(** Inserting the entries of a sorted map one by one, in order, rebuilds it. *)
Lemma map_set_last k v m :
  Forall (λ e, less e.1 k = true) m → map_set less k v m = m ++ [(k, v)].
Proof. induction 1 as [| [k1 v1] m H1 _ IH]; cbn in *; [done |]. by rewrite H1, IH. Qed.

Lemma map_set_rebuild m acc :
  map_sorted less (acc ++ m) → foldl (λ a e, map_set less e.1 e.2 a) acc m = acc ++ m.
Proof.
  revert acc. induction m as [| [k v] m IH]; intros acc H; cbn; [by rewrite app_nil_r |].
  rewrite map_set_last.
  - rewrite IH by by rewrite <- app_assoc. by rewrite <- app_assoc.
  - clear IH. induction acc as [| e acc IHa]; [constructor |]. cbn in H. inv H.
    constructor; [| by apply IHa].
    rewrite Forall_app, Forall_cons in *. by destruct H3 as (_ & ? & _).
Qed.
End map_laws.

(** ** The comparators of the sources *)

(** [std::lexicographical_compare]. *)
Fixpoint lex_less {A} (lt : A → A → bool) (x y : list A) : bool :=
  match x, y with
  | _, [] => false
  | [], _ :: _ => true
  | a :: x', b :: y' => if lt a b then true else if lt b a then false else lex_less lt x' y'
  end.

Definition less_on {A B} (f : A → B) (lt : B → B → bool) (a b : A) : bool := lt (f a) (f b).

(** [std::less<std::string>]: [char_traits<char>] compares bytes as [unsigned char]. *)
Definition str_less : str → str → bool := lex_less (less_on ord Z.ltb).

#[global] Instance Z_ltb_order : KeyOrder Z.ltb.
Proof.
  split; intros *; rewrite ?Z.ltb_ge, ?Z.ltb_lt; lia.
Qed.

#[global] Instance less_on_order {A B} (f : A → B) lt : KeyOrder lt → KeyOrder (less_on f lt).
Proof.
  intros H. unfold less_on.
  split; intros *; [apply less_irrefl | apply less_trans | apply less_cotrans].
Qed.

#[global] Instance lex_less_order {A} (lt : A → A → bool) : KeyOrder lt → KeyOrder (lex_less lt).
Proof.
  intros H. split.
  - intros k. induction k as [| a k IH]; cbn; [done |]. by rewrite less_irrefl.
  - induction a as [| a x IH]; intros [| b y] [| c z]; cbn; try done.
    destruct (lt a b) eqn:E1.
    + intros _. destruct (lt b c) eqn:E2.
      * by rewrite (less_trans _ _ _ E1 E2).
      * destruct (lt c b) eqn:E3; [done |]. by rewrite (less_le_trans _ _ _ _ E1 E3).
    + destruct (lt b a) eqn:E2; [done |]. intros Hx.
      assert (key_equiv lt a b = true) as Hab by (apply key_equiv_spec; done).
      rewrite (key_equiv_less_l _ _ _ c Hab), (key_equiv_less_r _ _ _ c Hab).
      repeat case_match; try done. by apply IH.
  - induction a as [| a x IH]; intros [| b y] [| c z]; cbn; try done.
    destruct (lt a b) eqn:E1; [done |]. destruct (lt b a) eqn:E2.
    + intros _. destruct (lt b c) eqn:E3; [done |]. intros _.
      destruct (lt c b) eqn:E4.
      * pose proof (less_trans _ _ _ E4 E2) as E5. by rewrite (less_asym _ _ _ E5), E5.
      * assert (key_equiv lt c b = true) as Hcb by (apply key_equiv_spec; done).
        rewrite (key_equiv_less_l _ _ _ a Hcb), (key_equiv_less_r _ _ _ a Hcb).
        by rewrite E1, E2.
    + intros Hx. assert (key_equiv lt a b = true) as Hab by (apply key_equiv_spec; done).
      rewrite (key_equiv_less_l _ _ _ c Hab), (key_equiv_less_r _ _ _ c Hab).
      repeat case_match; try done. by apply IH.
Qed.

#[global] Instance str_less_order : KeyOrder str_less.
Proof. apply _. Qed.

(** Equivalence under a lexicographic order is equivalence position by position. *)
Lemma lex_equiv_cons {A} (lt : A → A → bool) a x b y :
  key_equiv (lex_less lt) (a :: x) (b :: y)
  = key_equiv lt a b && key_equiv (lex_less lt) x y.
Proof.
  unfold key_equiv. cbn. destruct (lt a b), (lt b a); cbn; try done; by rewrite andb_false_r.
Qed.

Lemma less_on_equiv {A} (f : A → Z) a b : key_equiv (less_on f Z.ltb) a b = true ↔ f a = f b.
Proof.
  rewrite key_equiv_spec by apply _. unfold less_on. rewrite !Z.ltb_ge. lia.
Qed.

Lemma lex_equiv_map {A} (f : A → Z) x y :
  key_equiv (lex_less (less_on f Z.ltb)) x y = true ↔ f <$> x = f <$> y.
Proof.
  revert y. induction x as [| a x IH]; intros [| b y]; try done.
  rewrite lex_equiv_cons, andb_true_iff, less_on_equiv, IH. cbn.
  split; [intros [-> ->] | intros [= -> ->]]; done.
Qed.

Lemma str_less_equiv x y : key_equiv str_less x y = true ↔ x = y.
Proof.
  unfold str_less. rewrite lex_equiv_map. split; [| by intros ->].
  apply (inj (fmap ord)).
Qed.
