(* ===== verification/Streams.v ===== *)
(** * [std::stringstream] and the unformatted input and output functions the sources call.

    A stream is its buffer, its get and put positions and its three state bits.  The
    functions follow the C++11 library: every input function first builds a sentry, which
    sets [failbit] when the stream is not good; [seekg] clears [eofbit] before that;
    [tellg] answers -1 on a failed stream. *)
From S2P Require Export CxxString.

Record stream := Stream {
  sbuf : str;
  gpos : nat;
  ppos : nat;
  eofbit : bool;
  failbit : bool;
  badbit : bool }.

Definition good (s : stream) : bool := negb (eofbit s || failbit s || badbit s).

Definition fail (s : stream) : bool := failbit s || badbit s.

Definition of_string (b : str) : stream := Stream b 0 (length b) false false false.

Definition set_fail (s : stream) : stream := Stream (sbuf s) (gpos s) (ppos s) (eofbit s) true (badbit s).

Definition set_eof (s : stream) : stream := Stream (sbuf s) (gpos s) (ppos s) true (failbit s) (badbit s).

Definition set_bad (s : stream) : stream := Stream (sbuf s) (gpos s) (ppos s) (eofbit s) (failbit s) true.

(** [clear()] *)
Definition clear_state (s : stream) : stream := Stream (sbuf s) (gpos s) (ppos s) false false false.

Definition set_gpos (n : nat) (s : stream) : stream :=
  Stream (sbuf s) n (ppos s) (eofbit s) (failbit s) (badbit s).

(** The bytes not read yet. *)
Definition rest (s : stream) : str := drop (gpos s) (sbuf s).

(** [in.get(c)]: [c] keeps its value when nothing is extracted. *)
Definition get_char (c : ascii) (s : stream) : ascii * stream :=
  if good s then
    match rest s with
    | d :: _ => (d, set_gpos (S (gpos s)) s)
    | [] => (c, set_fail (set_eof s))
    end
  else (c, set_fail s).

(** [in.read(buf, n)]: the bytes stored, whose number is [gcount()]. *)
Definition read (n : nat) (s : stream) : str * stream :=
  if good s then
    let got := take n (rest s) in
    let s1 := set_gpos (gpos s + length got) s in
    (got, if length got <? n then set_fail (set_eof s1) else s1)
  else ([], set_fail s).

Definition newline : ascii := chr 10.

(** [getline(in, buf)] *)
Definition getline (s : stream) : str * stream :=
  if good s then
    match find_char newline (rest s) with
    | Some i => (take i (rest s), set_gpos (gpos s + i + 1) s)
    | None =>
        let s1 := set_eof (set_gpos (length (sbuf s)) s) in
        (rest s, match rest s with [] => set_fail s1 | _ => s1 end)
    end
  else ([], set_fail s).

(** [in >> word]: white space is skipped and the bytes up to the next are extracted. *)
Fixpoint take_until (p : ascii → bool) (s : str) : str :=
  match s with
  | [] => []
  | c :: s' => if p c then [] else c :: take_until p s'
  end.

Definition read_word (s : stream) : str * stream :=
  if good s then
    let r := drop_while isspace (rest s) in
    let w := take_until isspace r in
    let n := length (sbuf s) - length r + length w in
    let s1 := set_gpos n s in
    let s2 := if length w =? length r then set_eof s1 else s1 in
    (w, match w with [] => set_fail s2 | _ => s2 end)
  else ([], set_fail s).

(** [in.tellg()]: [None] is [pos_type(-1)]. *)
Definition tellg (s : stream) : option nat * stream :=
  let s1 := if good s then s else set_fail s in
  (if fail s1 then None else Some (gpos s), s1).

Definition clear_eof (s : stream) : stream :=
  Stream (sbuf s) (gpos s) (ppos s) false (failbit s) (badbit s).

(** [in.seekg(pos)] for a position [tellg] returned. *)
Definition seekg (pos : option nat) (s : stream) : stream :=
  let s1 := clear_eof s in
  if fail s1 then set_fail s1
  else match pos with Some n => set_gpos n s1 | None => set_fail s1 end.

(** [in.seekg(0, ios::end)] *)
Definition seekg_end (s : stream) : stream :=
  let s1 := clear_eof s in
  if fail s1 then set_fail s1 else set_gpos (length (sbuf s)) s1.

(** [out.tellp()] *)
Definition tellp (s : stream) : option nat := if fail s then None else Some (ppos s).

(** [out.write(data, n)] and [out << data]: nothing is written on a stream that is not good. *)
Definition write (data : str) (s : stream) : stream :=
  if good s then
    Stream (take (ppos s) (sbuf s) ++ data ++ drop (ppos s + length data) (sbuf s))
      (gpos s) (ppos s + length data) (eofbit s) (failbit s) (badbit s)
  else set_fail s.

(** [buf.str(string())]: the buffer is replaced, the state bits are kept. *)
Definition set_str (b : str) (s : stream) : stream :=
  Stream b 0 0 (eofbit s) (failbit s) (badbit s).

(** ** Lemmas *)
Lemma good_spec s : good s = true ↔ eofbit s = false ∧ failbit s = false ∧ badbit s = false.
Proof. unfold good. destruct (eofbit s), (failbit s), (badbit s); naive_solver. Qed.

Lemma good_eofbit s : good s = true → eofbit s = false.
Proof. by intros (? & ? & ?)%good_spec. Qed.

Lemma good_set_gpos n s : good (set_gpos n s) = good s.
Proof. done. Qed.

Lemma rest_cons s c r : rest s = c :: r → rest (set_gpos (S (gpos s)) s) = r.
Proof.
  unfold rest. cbn. intros H. replace (S (gpos s)) with (gpos s + 1) by lia.
  by rewrite <- drop_drop, H.
Qed.

Lemma rest_advance s n : rest (set_gpos (gpos s + n) s) = drop n (rest s).
Proof. unfold rest. cbn. by rewrite drop_drop. Qed.

Lemma get_char_cons c d r s :
  good s = true → rest s = d :: r → get_char c s = (d, set_gpos (S (gpos s)) s).
Proof. unfold get_char. by intros -> ->. Qed.

Lemma get_char_nil c s :
  good s = true → rest s = [] → get_char c s = (c, set_fail (set_eof s)).
Proof. unfold get_char. by intros -> ->. Qed.

Lemma rest_of_string b : rest (of_string b) = b.
Proof. done. Qed.

#[export] Hint Rewrite good_set_gpos @rest_advance : dcl.
#[export] Hint Resolve good_eofbit : dcl.

(** ** Positions and lines *)
(** ** Lemmas: streams *)
Lemma tellg_good s : good s = true → tellg s = (Some (gpos s), s).
Proof.
  intros Hg. unfold tellg, fail. rewrite Hg. apply good_spec in Hg as (_ & -> & ->). done.
Qed.

Lemma tellg_bad s : good s = false → tellg s = (None, set_fail s).
Proof. intros Hg. unfold tellg. by rewrite Hg. Qed.

Lemma getline_found s l r :
  good s = true → rest s = l ++ newline :: r → newline ∉ l →
  getline s = (l, set_gpos (gpos s + length l + 1) s) ∧
  rest (set_gpos (gpos s + length l + 1) s) = r.
Proof.
  intros Hg Hr Hl. unfold getline. rewrite Hg, Hr. unfold find_char.
  rewrite find_index_app_l; [| | by apply bool_decide_eq_true].
  - rewrite take_app_length. split; [done |].
    unfold rest. cbn [sbuf gpos set_gpos]. rewrite <- Nat.add_assoc, <- drop_drop.
    change (drop (gpos s) (sbuf s)) with (rest s).
    by rewrite Hr, <- drop_drop, drop_app_length.
  - apply Forall_forall. intros c Hc. apply bool_decide_eq_false. by intros <-.
Qed.

Lemma getline_missing s :
  good s = true → newline ∉ rest s → eofbit (getline s).2 = true ∧ (getline s).1 = rest s.
Proof.
  intros Hg Hr. unfold getline. rewrite Hg. unfold find_char.
  rewrite (proj2 (find_index_None _ _)).
  - cbn. by destruct (rest s).
  - apply Forall_forall. intros c Hc. apply bool_decide_eq_false. by intros <-.
Qed.

(** Text is one line and the rest, or has no line end. *)
Lemma line_cases (s : str) : (∃ l r, s = l ++ newline :: r ∧ (newline ∉ l)) ∨ newline ∉ s.
Proof.
  destruct (find_index_split (λ d, bool_decide (newline = d)) s) as [H | (l & c & r & -> & Hc & H)].
  - right. rewrite Forall_forall in H. intros Hin. apply H in Hin. by rewrite bool_decide_true in Hin.
  - left. apply bool_decide_eq_true in Hc as <-. exists l, r. split; [done |].
    rewrite Forall_forall in H. intros Hin. apply H in Hin. by rewrite bool_decide_true in Hin.
Qed.

Lemma getline_bad s : good s = false → getline s = ([], set_fail s).
Proof. intros Hg. unfold getline. by rewrite Hg. Qed.

Lemma good_set_fail s : good (set_fail s) = false.
Proof. unfold good. cbn. by rewrite orb_true_r. Qed.

Lemma rest_at_end s : rest (set_gpos (length (sbuf s)) s) = [].
Proof. unfold rest. cbn. by rewrite drop_all. Qed.

(** [while (getline(in, line))]: the lines read until the stream fails. *)
Fixpoint read_lines (fuel : nat) (s : stream) : option (list str) :=
  match fuel with
  | O => None
  | S f =>
      let '(l, s1) := getline s in
      if fail s1 then Some [] else cons l <$> read_lines f s1
  end.

(** The lines of a text: a last line needs no line feed, unless it is empty. *)
Definition text_lines (s : str) : list str :=
  let ls := split_on (λ c, bool_decide (newline = c)) s in
  match last ls with Some [] => removelast ls | _ => ls end.

Lemma newline_free s : newline ∉ s → Forall (λ c, bool_decide (newline = c) = false) s.
Proof.
  intros H. apply Forall_forall. intros c Hc. apply bool_decide_eq_false. by intros <-.
Qed.

Lemma text_lines_cons l r : newline ∉ l → text_lines (l ++ newline :: r) = l :: text_lines r.
Proof.
  intros Hl. unfold text_lines. rewrite split_on_sep by (by apply newline_free || done).
  pose proof (split_on_not_nil (λ c, bool_decide (newline = c)) r) as Hne.
  destruct (split_on _ r) as [| w ws]; [done |]. cbn [last removelast]. by repeat case_match.
Qed.

Lemma text_lines_last l : newline ∉ l → text_lines l = match l with [] => [] | _ => [l] end.
Proof.
  intros Hl. unfold text_lines. rewrite split_on_none by by apply newline_free. by destruct l.
Qed.

(** The text of a list of lines. *)
Definition unlines (ls : list str) : str := concat ((λ l, l ++ [newline]) <$> ls).

Lemma text_lines_unlines ls : Forall (λ l, newline ∉ l) ls → text_lines (unlines ls) = ls.
Proof.
  intros H. induction H as [| l ls Hl _ IH]; [done |].
  unfold unlines. cbn [fmap list_fmap concat]. rewrite <- app_assoc. cbn [app].
  rewrite text_lines_cons by done. f_equal. exact IH.
Qed.

Lemma read_lines_text fuel s :
  good s = true → length (rest s) + 2 ≤ fuel → read_lines fuel s = Some (text_lines (rest s)).
Proof.
  revert s. induction fuel as [| fuel IH]; intros s Hg Hf; [lia |]. cbn [read_lines].
  destruct (line_cases (rest s)) as [(l & r & Hr & Hl) | Hl].
  - destruct (getline_found s l r Hg Hr Hl) as [-> Hr2].
    assert (fail (set_gpos (gpos s + length l + 1) s) = false) as ->.
    { apply good_spec in Hg as (_ & Hf' & Hb). unfold fail. cbn. by rewrite Hf', Hb. }
    rewrite IH; [| done |].
    + by rewrite Hr2, Hr, text_lines_cons.
    + rewrite Hr2. rewrite Hr, length_app in Hf. cbn in Hf. lia.
  - rewrite text_lines_last by done. unfold getline. rewrite Hg. unfold find_char.
    rewrite (proj2 (find_index_None _ _)) by by apply newline_free.
    apply good_spec in Hg as (He & Hf' & Hb). destruct (rest s) as [| c l] eqn:Er; [done |].
    unfold fail at 1. cbn [set_eof set_gpos failbit badbit]. rewrite Hf', Hb. cbn [orb].
    destruct fuel as [| fuel]; [cbn in Hf; lia |]. cbn [read_lines]. by rewrite getline_bad.
Qed.

(** ** Appending *)
Definition at_end (s : stream) : Prop := good s = true ∧ ppos s = length (sbuf s).

Definition append (data : str) (s : stream) : stream :=
  Stream (sbuf s ++ data) (gpos s) (ppos s + length data) (eofbit s) (failbit s) (badbit s).

Lemma write_at_end data s : at_end s → write data s = append data s.
Proof.
  intros [Hg Hp]. unfold write, append. rewrite Hg, Hp.
  by rewrite firstn_all, drop_ge, app_nil_r by lia.
Qed.

Lemma append_at_end data s : at_end s → at_end (append data s).
Proof. intros [Hg Hp]. split; [exact Hg |]. cbn. rewrite length_app. lia. Qed.

Lemma append_append a b s : append b (append a s) = append (a ++ b) s.
Proof. unfold append. cbn. by rewrite <- app_assoc, length_app, Nat.add_assoc. Qed.

Lemma append_nil s : append [] s = s.
Proof. destruct s. unfold append. cbn. by rewrite app_nil_r, Nat.add_0_r. Qed.

Lemma write_keeps_at_end data s : at_end s → at_end (write data s).
Proof. intros H. rewrite write_at_end by done. by apply append_at_end. Qed.

#[export] Hint Resolve append_at_end write_keeps_at_end : dcl.

(** Replay a sequence of writes at the end of a stream as one [append]. *)
Ltac append_simpl :=
  repeat first [ rewrite write_at_end by eauto 6 with dcl | rewrite append_append ].
