(* ===== verification/Base64.v ===== *)
(** * [src/src/dcl/codec_base64.cpp]: the Base64 encoder and decoder over streams. *)
From S2P Require Export Streams.

(** ** Tables and blocks *)
Definition cb64 : str :=
  lit "ABCDEFGHIJKLMNOPQRSTUVWXYZabcdefghijklmnopqrstuvwxyz0123456789+/".

Definition cd64 : str :=
  lit "|$$$}rstuvwxyz{$$$$$$$>?@ABCDEFGHIJKLMNOPQRSTUVW$$$$$$XYZ[\]^_`abcdefghijklmnopq".

Definition table_at (t : str) (i : Z) : ascii := nth (Z.to_nat i) t nul.

(** [encodeblock(in, out, len)] *)
Definition encodeblock (i0 i1 i2 : Z) (len : nat) : str :=
  [ table_at cb64 (Z.shiftr i0 2);
    table_at cb64 (Z.lor (Z.shiftl (Z.land i0 3) 4) (Z.shiftr (Z.land i1 240) 4));
    (if 1 <? len
     then table_at cb64 (Z.lor (Z.shiftl (Z.land i1 15) 2) (Z.shiftr (Z.land i2 192) 6))
     else "="%char);
    (if 2 <? len then table_at cb64 (Z.land i2 63) else "="%char) ].

(** [decodeblock(in, out)] *)
Definition decodeblock (i0 i1 i2 i3 : Z) : str :=
  [ chr (u8 (Z.lor (Z.shiftl i0 2) (Z.shiftr i1 4)));
    chr (u8 (Z.lor (Z.shiftl i1 4) (Z.shiftr i2 2)));
    chr (u8 (Z.lor (Z.land (Z.shiftl i2 6) 192) i3)) ].

(** ** The encoder *)

(** [for (i = 0; i < 3; i++)]: [prev] is what [_in[i..]] holds from the round before. *)
Fixpoint fill_group (prev : str) (s : stream) : str * nat * stream :=
  match prev with
  | [] => ([], 0, s)
  | p :: prev' =>
      let '(c, s1) := get_char p s in
      let '(b, one) := if eofbit s1 then (nul, 0) else (c, 1) in
      let '(bs, len, s2) := fill_group prev' s1 in
      (b :: bs, one + len, s2)
  end.

Definition encode_group (g : str) (len : nat) : str :=
  match g with
  | [a; b; c] => encodeblock (ord a) (ord b) (ord c) len
  | _ => []
  end.

(** [codec_base64::encode]: [None] when the loop has not ended within the fuel. *)
Fixpoint encode_loop (fuel : nat) (g : str) (s : stream) (out : str) : option str :=
  match fuel with
  | O => None
  | S fuel' =>
      if eofbit s then Some out
      else
        let '(g', len, s') := fill_group g s in
        encode_loop fuel' g' s' (if len =? 0 then out else out ++ encode_group g' len)
  end.

(** ** The decoder *)

(** One step of the translation: 0 for a byte outside the alphabet, the value plus one of a
    Base64 digit otherwise; [v] is a signed [char]. *)
Definition decode_sym (c : ascii) : Z :=
  let v := schar c in
  let v := if (v <? 43)%Z || (122 <? v)%Z then 0%Z else ord (table_at cd64 (v - 43)) in
  if (v =? 0)%Z then 0%Z else if (v =? 36)%Z then 0%Z else (v - 61)%Z.

(** [while (!in.eof() && v == 0)] *)
Fixpoint next_sym (fuel : nat) (s : stream) : option (Z * stream) :=
  match fuel with
  | O => None
  | S fuel' =>
      let '(c, s1) := get_char nul s in
      let v := decode_sym c in
      if negb (eofbit s1) && (v =? 0)%Z then next_sym fuel' s1 else Some (v, s1)
  end.

(** [for (len = 0, i = 0; i < 4 && !in.eof(); i++)] *)
Fixpoint fill_quad (fuel : nat) (prev : list Z) (s : stream) : option (list Z * nat * stream) :=
  match prev with
  | [] => Some ([], 0, s)
  | p :: prev' =>
      if eofbit s then Some (prev, 0, s)
      else
        '(v, s1) ← next_sym fuel s;
        let '(b, one) :=
          if eofbit s1 then (0%Z, 0) else ((if (v =? 0)%Z then p else v - 1)%Z, 1) in
        '(bs, len, s2) ← fill_quad fuel prev' s1;
        Some (b :: bs, one + len, s2)
  end.

Definition decode_quad (q : list Z) : str :=
  match q with
  | [a; b; c; d] => decodeblock a b c d
  | _ => []
  end.

(** [codec_base64::decode] *)
Fixpoint decode_loop (fuel : nat) (q : list Z) (s : stream) (out : str) : option str :=
  match fuel with
  | O => None
  | S fuel' =>
      if eofbit s then Some out
      else
        '(q', len, s') ← fill_quad (S (S (length (sbuf s)))) q s;
        decode_loop fuel' q' s' (if 0 <? len then out ++ take (len - 1) (decode_quad q') else out)
  end.

(** ** Reference functions on byte sequences *)
Fixpoint b64_encode (bs : str) : str :=
  match bs with
  | a :: b :: c :: bs' => encodeblock (ord a) (ord b) (ord c) 3 ++ b64_encode bs'
  | [a; b] => encodeblock (ord a) (ord b) 0 2
  | [a] => encodeblock (ord a) 0 0 1
  | [] => []
  end.

Fixpoint b64_decode (xs : list Z) : str :=
  match xs with
  | a :: b :: c :: d :: xs' => decodeblock a b c d ++ b64_decode xs'
  | [a; b; c] => take 2 (decodeblock a b c 0)
  | [a; b] => take 1 (decodeblock a b 0 0)
  | _ => []
  end.

(** The digits a text holds: every other byte is skipped. *)
Definition b64_digits (text : str) : list Z :=
  omap (λ c, if (decode_sym c =? 0)%Z then None else Some (decode_sym c - 1)%Z) text.

(** ** The encoder is the reference *)
Lemma get_char_eof c s : eofbit s = true → get_char c s = (c, set_fail s).
Proof. intros H. unfold get_char, good. by rewrite H. Qed.

Lemma fill_group_eof prev s :
  eofbit s = true → ∃ s', fill_group prev s = (replicate (length prev) nul, 0, s') ∧ eofbit s' = true.
Proof.
  revert s. induction prev as [| p prev IH]; intros s H; cbn; [by eexists |].
  rewrite get_char_eof by done. cbn. rewrite H.
  destruct (IH (set_fail s)) as (s' & -> & Hs'); [done |]. by eexists.
Qed.

(** A round reads as many bytes as there are, up to the size of the block, and pads. *)
Lemma fill_group_good prev s :
  good s = true →
  let got := take (length prev) (rest s) in
  ∃ s', fill_group prev s
        = (got ++ replicate (length prev - length got) nul, length got, s') ∧
    (if length got <? length prev then eofbit s' = true
     else good s' = true ∧ rest s' = drop (length prev) (rest s)).
Proof.
  revert s. induction prev as [| p prev IH]; intros s Hg; cbn [length take].
  - exists s. by rewrite drop_0.
  - cbn [fill_group]. destruct (rest s) as [| d r] eqn:Hr.
    + rewrite get_char_nil by done. cbn.
      destruct (fill_group_eof prev (set_fail (set_eof s))) as (s' & -> & Hs'); [done |].
      by eexists.
    + rewrite (get_char_cons _ d r) by done.
      set (s1 := set_gpos (S (gpos s)) s).
      assert (good s1 = true) as Hg1 by done.
      rewrite (good_eofbit s1) by done.
      destruct (IH s1 Hg1) as (s' & Heq & Hs').
      assert (rest s1 = r) as Hr1 by by apply (rest_cons s d). rewrite Hr1 in Heq, Hs'.
      rewrite Heq. exists s'. cbn. split; [done |]. exact Hs'.
Qed.

Lemma encode_loop_reference fuel g s out :
  length g = 3 → good s = true → length (rest s) < 3 * fuel - 3 →
  encode_loop fuel g s out = Some (out ++ b64_encode (rest s)).
Proof.
  revert g s out. induction fuel as [| fuel IH]; intros g s out Hl Hg Hf; [lia |].
  cbn [encode_loop]. rewrite (good_eofbit s) by done.
  destruct (fill_group_good g s Hg) as (s' & -> & Hs'). rewrite Hl in *.
  destruct (rest s) as [| a [| b [| c r]]] eqn:Hr; cbn in Hs' |- *.
  1-3: destruct fuel as [| fuel]; [cbn in Hf; lia |]; cbn; rewrite Hs';
       rewrite ?app_nil_r; done.
  destruct Hs' as [Hg' Hr'].
  rewrite IH by (done || rewrite Hr', drop_0; cbn in Hf; lia).
  rewrite Hr', drop_0, <- app_assoc. done.
Qed.

(** ** The decoder is the reference *)
Lemma decode_sym_nul : decode_sym nul = 0%Z.
Proof. done. Qed.

Lemma next_sym_good fuel s :
  good s = true → length (rest s) < fuel →
  match b64_digits (rest s) with
  | [] => ∃ s', next_sym fuel s = Some (0%Z, s') ∧ eofbit s' = true
  | x :: xs => ∃ s', next_sym fuel s = Some ((x + 1)%Z, s') ∧ (x + 1 ≠ 0)%Z ∧ good s' = true ∧
                     b64_digits (rest s') = xs ∧ sbuf s' = sbuf s
  end.
Proof.
  revert s. induction fuel as [| fuel IH]; intros s Hg Hf; [lia |].
  cbn [next_sym]. destruct (rest s) as [| c r] eqn:Hr; cbn [b64_digits omap list_omap].
  - rewrite get_char_nil by done. rewrite decode_sym_nul. cbn. by eexists.
  - rewrite (get_char_cons _ c r) by done.
    set (s1 := set_gpos (S (gpos s)) s).
    assert (good s1 = true) as Hg1 by done.
    assert (rest s1 = r) as Hr1 by by apply (rest_cons s c).
    rewrite (good_eofbit s1) by done. cbn.
    destruct (Z.eqb_spec (decode_sym c) 0) as [He | Hne].
    + specialize (IH s1 Hg1). rewrite Hr1 in IH. cbn in Hf. exact (IH ltac:(lia)).
    + exists s1. rewrite Z.sub_add. unfold b64_digits. rewrite Hr1. done.
Qed.

Lemma fill_quad_good fuel prev s :
  good s = true → length (sbuf s) < fuel →
  let ds := b64_digits (rest s) in
  let got := take (length prev) ds in
  ∃ bs s', fill_quad fuel prev s = Some (bs, length got, s') ∧
    (if length got <? length prev
     then eofbit s' = true ∧ bs = got ++ 0%Z :: drop (S (length got)) prev
     else bs = got ∧ good s' = true ∧ b64_digits (rest s') = drop (length prev) ds ∧
          sbuf s' = sbuf s).
Proof.
  revert s. induction prev as [| p prev IH]; intros s Hg Hf; cbn [length take].
  - exists [], s. by rewrite drop_0.
  - cbn [fill_quad]. rewrite (good_eofbit s) by done.
    pose proof (next_sym_good fuel s Hg) as Hn. unfold rest at 1 in Hn.
    rewrite length_drop in Hn. specialize (Hn ltac:(lia)).
    destruct (b64_digits (rest s)) as [| x xs] eqn:Hd.
    + destruct Hn as (s' & -> & He). cbn. rewrite He.
      destruct prev as [| p' prev]; cbn; [by eexists _, _ |].
      rewrite He. cbn. by eexists _, _.
    + destruct Hn as (s' & -> & Hx & Hg' & Hd' & Hb). cbn -[Z.add Z.sub Nat.ltb].
      rewrite (good_eofbit s') by done. rewrite (proj2 (Z.eqb_neq _ _) Hx), Z.add_simpl_r.
      destruct (IH s' Hg') as (bs & s2 & -> & H2); [by rewrite Hb |]. rewrite Hd' in *.
      exists (x :: bs), s2. cbn -[Nat.ltb]. split; [done |]. rewrite Hb in H2.
      change (S (length (take (length prev) xs)) <? S (length prev))
        with (length (take (length prev) xs) <? length prev).
      destruct (length (take (length prev) xs) <? length prev).
      { destruct H2 as [H2 ->]. by split. }
      by destruct H2 as (-> & ? & ? & ?).
Qed.

Lemma decode_loop_reference fuel q s out :
  length q = 4 → good s = true → length (b64_digits (rest s)) < 4 * fuel - 4 →
  decode_loop fuel q s out = Some (out ++ b64_decode (b64_digits (rest s))).
Proof.
  revert q s out. induction fuel as [| fuel IH]; intros q s out Hl Hg Hf; [lia |].
  cbn [decode_loop]. rewrite (good_eofbit s) by done.
  destruct (fill_quad_good (S (S (length (sbuf s)))) q s Hg) as (bs & s' & -> & Hs'); [lia |].
  rewrite Hl in *. destruct q as [| p0 [| p1 [| p2 [| p3 [| ]]]]]; try done. cbn [mbind option_bind].
  destruct (b64_digits (rest s)) as [| a [| b [| c [| d r]]]]; cbn in Hs' |- *.
  1-4: destruct Hs' as [He ->]; destruct fuel as [| fuel]; [cbn in Hf; lia |]; cbn; rewrite He;
       rewrite ?app_nil_r; done.
  destruct Hs' as (-> & Hg' & Hr' & Hb).
  rewrite take_0. rewrite drop_0 in Hr'. rewrite IH; [| done | done |].
  - rewrite Hr'. cbn. by rewrite <- app_assoc.
  - rewrite Hr'. cbn in Hf. lia.
Qed.

(** ** Round trip *)
Lemma table_digit i : (0 ≤ i < 64)%Z → (decode_sym (table_at cb64 i) - 1 = i ∧
  decode_sym (table_at cb64 i) ≠ 0)%Z.
Proof.
  intros. assert (∃ n, n < 64 ∧ i = Z.of_nat n) as (n & Hn & ->).
  { exists (Z.to_nat i). lia. }
  do 64 (destruct n as [| n]; [by vm_compute |]). lia.
Qed.

Lemma b64_digits_table i r :
  (0 ≤ i < 64)%Z → b64_digits (table_at cb64 i :: r) = i :: b64_digits r.
Proof.
  intros Hi. destruct (table_digit i Hi) as [H1 H2]. unfold b64_digits. cbn [omap list_omap].
  by rewrite (proj2 (Z.eqb_neq _ _) H2), H1.
Qed.

Lemma b64_digits_pad r : b64_digits ("="%char :: r) = b64_digits r.
Proof. done. Qed.

(** The four digits of a block, and the bytes they give back, as arithmetic. *)
Lemma digit0_eq a : Z.shiftr a 2 = (a / 4)%Z.
Proof. by rewrite Z.shiftr_div_pow2. Qed.

Lemma digit1_eq a b :
  (0 ≤ b < 256)%Z →
  Z.lor (Z.shiftl (Z.land a 3) 4) (Z.shiftr (Z.land b 240) 4) = ((a mod 4) * 16 + b / 16)%Z.
Proof.
  intros. assert (Z.shiftr (Z.land b 240) 4 = b / 16)%Z as ->.
  { rewrite Z.shiftr_land. change (Z.shiftr 240 4) with (2 ^ 4 - 1)%Z.
    rewrite land_mask, Z.shiftr_div_pow2 by lia. apply Z.mod_small. div_lia. }
  change 3%Z with (2 ^ 2 - 1)%Z. rewrite land_mask by lia. apply lor_shiftl_add; div_lia.
Qed.

Lemma digit2_eq b c :
  (0 ≤ c < 256)%Z →
  Z.lor (Z.shiftl (Z.land b 15) 2) (Z.shiftr (Z.land c 192) 6) = ((b mod 16) * 4 + c / 64)%Z.
Proof.
  intros. assert (Z.shiftr (Z.land c 192) 6 = c / 64)%Z as ->.
  { rewrite Z.shiftr_land. change (Z.shiftr 192 6) with (2 ^ 2 - 1)%Z.
    rewrite land_mask, Z.shiftr_div_pow2 by lia. apply Z.mod_small. div_lia. }
  change 15%Z with (2 ^ 4 - 1)%Z. rewrite land_mask by lia. apply lor_shiftl_add; div_lia.
Qed.

Lemma digit3_eq c : Z.land c 63 = (c mod 64)%Z.
Proof. change 63%Z with (2 ^ 6 - 1)%Z. by rewrite land_mask. Qed.

Lemma decodeblock_eq w x y z :
  (0 ≤ w < 64)%Z → (0 ≤ x < 64)%Z → (0 ≤ y < 64)%Z → (0 ≤ z < 64)%Z →
  decodeblock w x y z
  = [chr (w * 4 + x / 16); chr ((x mod 16) * 16 + y / 4); chr ((y mod 4) * 64 + z)].
Proof.
  intros Hw Hx Hy Hz. unfold decodeblock.
  rewrite !Z.shiftr_div_pow2 by lia.
  rewrite (lor_shiftl_add w), (lor_shiftl_add x) by div_lia.
  assert (Z.lor (Z.land (Z.shiftl y 6) 192) z = (y mod 4) * 64 + z)%Z as ->.
  { assert (Z.land (Z.shiftl y 6) 192 = Z.shiftl (y mod 4) 6) as ->.
    { change 192%Z with (Z.shiftl 3 6). rewrite <- Z.shiftl_land.
      change 3%Z with (2 ^ 2 - 1)%Z. by rewrite land_mask. }
    apply lor_shiftl_add; lia. }
  unfold u8. change (2 ^ 2)%Z with 4%Z. change (2 ^ 4)%Z with 16%Z. change (2 ^ 8)%Z with 256%Z.
  f_equal; [| f_equal; [| f_equal]]; apply (inj ord); rewrite !ord_chr, Z.mod_mod; div_lia.
Qed.

Lemma b64_decode_encode bs : b64_decode (b64_digits (b64_encode bs)) = bs.
Proof.
  assert (∀ n bs, length bs < n → b64_decode (b64_digits (b64_encode bs)) = bs) as H;
    [| by apply (H (S (length bs))); lia].
  clear bs. intros n. induction n as [| n IH]; intros bs Hl; [lia |].
  destruct bs as [| a [| b [| c bs]]]; [done | ..];
    pose proof (ord_range a); try pose proof (ord_range b); try pose proof (ord_range c).
  - unfold b64_encode, encodeblock. cbn [Nat.ltb Nat.leb].
    rewrite digit0_eq, digit1_eq by lia.
    rewrite !b64_digits_table by div_lia. rewrite !b64_digits_pad. cbn [b64_decode b64_digits omap list_omap].
    rewrite decodeblock_eq by div_lia. cbn [take]. f_equal. apply (inj ord). rewrite ord_chr. div_lia.
  - unfold b64_encode, encodeblock. cbn [Nat.ltb Nat.leb].
    rewrite digit0_eq, digit1_eq, digit2_eq by lia.
    rewrite !b64_digits_table by div_lia. rewrite !b64_digits_pad. cbn [b64_decode b64_digits omap list_omap].
    rewrite decodeblock_eq by div_lia. cbn [take].
    f_equal; [| f_equal]; apply (inj ord); rewrite ord_chr; div_lia.
  - cbn [b64_encode]. unfold encodeblock. cbn [Nat.ltb Nat.leb app].
    rewrite digit0_eq, digit1_eq, digit2_eq, digit3_eq by lia.
    rewrite !b64_digits_table by div_lia. cbn [b64_decode].
    rewrite IH by (cbn in Hl; lia).
    rewrite decodeblock_eq by div_lia. cbn [app].
    f_equal; [| f_equal; [| f_equal]]; apply (inj ord); rewrite ord_chr; div_lia.
Qed.

(** ** Properties *)
Lemma b64_digits_length text : length (b64_digits text) ≤ length text.
Proof.
  unfold b64_digits. induction text as [| c text IH]; cbn; [done |].
  case_match; cbn; lia.
Qed.

(** C12. Encoding any bytes and decoding the result gives the bytes back, whatever the
    uninitialised block arrays hold, and both loops end within a number of rounds linear in
    the size of their input. *)
Theorem base64_roundtrip bs g0 g1 g2 q0 q1 q2 q3 :
  ∃ text,
    encode_loop (length bs + 2) [g0; g1; g2] (of_string bs) [] = Some text ∧
    decode_loop (length text + 2) [q0; q1; q2; q3] (of_string text) [] = Some bs.
Proof.
  exists (b64_encode bs). split.
  - by rewrite encode_loop_reference by (done || rewrite rest_of_string; lia).
  - rewrite decode_loop_reference; [| done | done |].
    + rewrite rest_of_string. cbn [app]. by rewrite b64_decode_encode.
    + rewrite rest_of_string. pose proof (b64_digits_length (b64_encode bs)). lia.
Qed.

(** The decoder's result depends only on the Base64 digits of its input: it ends on every
    text, and line breaks, padding and any other byte outside the alphabet are skipped
    wherever they stand. *)
Theorem base64_decode_skips text text' q0 q1 q2 q3 :
  decode_loop (length text + 2) [q0; q1; q2; q3] (of_string text) []
    = Some (b64_decode (b64_digits text)) ∧
  (b64_digits text = b64_digits text' →
   decode_loop (length text + 2) [q0; q1; q2; q3] (of_string text) []
   = decode_loop (length text' + 2) [q0; q1; q2; q3] (of_string text') []).
Proof.
  assert (∀ t, decode_loop (length t + 2) [q0; q1; q2; q3] (of_string t) []
               = Some (b64_decode (b64_digits t))) as H.
  { intros t. rewrite decode_loop_reference; [by rewrite rest_of_string | done | done |].
    rewrite rest_of_string. pose proof (b64_digits_length t). lia. }
  split; [apply H |]. intros Heq. by rewrite !H, Heq.
Qed.

Example base64_decode_skips_witness :
  b64_digits (lit "VGVzdA==") = b64_digits (lit "VG Vz:dA") ∧
  decode_loop 10 [0; 0; 0; 0]%Z (of_string (lit "VGVzdA==")) []
  = decode_loop 10 [0; 0; 0; 0]%Z (of_string (lit "VG Vz:dA")) [].
Proof.
  split; [vm_compute; reflexivity |].
  apply (proj2 (base64_decode_skips (lit "VGVzdA==") (lit "VG Vz:dA") 0 0 0 0)).
  vm_compute. reflexivity.
Defined.

Lemma fill_group_failed prev s :
  eofbit s = false → failbit s = true →
  ∃ g len s', fill_group prev s = (g, len, s') ∧ eofbit s' = false ∧ failbit s' = true.
Proof.
  revert s. induction prev as [| p prev IH]; intros s He Hf; cbn [fill_group];
    [by eexists _, _, _ |].
  assert (get_char p s = (p, set_fail s)) as ->.
  { unfold get_char, good. by rewrite He, Hf. }
  cbn. rewrite He. destruct (IH (set_fail s)) as (g & len & s' & -> & ? & ?); [done.. |].
  by eexists _, _, _.
Qed.

(** The encoder tests the end of its input only: on a stream that failed without
    reaching its end (a file that could not be opened, say) its loop never ends. *)
Theorem base64_encode_failed_stream fuel g s out :
  eofbit s = false → failbit s = true → encode_loop fuel g s out = None.
Proof.
  revert g s out. induction fuel as [| fuel IH]; intros g s out He Hf; cbn [encode_loop]; [done |].
  rewrite He. destruct (fill_group_failed g s He Hf) as (g' & len & s' & -> & He' & Hf').
  by apply IH.
Qed.

Example base64_encode_failed_stream_witness :
  eofbit (set_fail (of_string [])) = false ∧
  encode_loop 1000 [nul; nul; nul] (set_fail (of_string [])) [] = None.
Proof.
  split; [reflexivity |].
  exact (base64_encode_failed_stream 1000 [nul; nul; nul] (set_fail (of_string [])) []
    eq_refl eq_refl).
Defined.
