(* ===== verification/Md5.v ===== *)
(** * [src/src/dcl/encoder_md5.cpp]: the MD5 encoder, and RFC 1321 as its reference.

    Bytes are [ascii], words are integers below 2^32.  [int] and [unsigned] have 32 bits and
    memory is little-endian; on such a machine, unless it is an i386, [byteReverse] is compiled
    in and rewrites the buffer it is given.  The reference is the text of the RFC: padding,
    blocks of sixteen words, four rounds given by index and shift formulas. *)
From S2P Require Export Streams.

(** ** Words in memory *)
Definition byte_at (b : list ascii) (i : nat) : Z := match b !! i with Some c => ord c | None => 0 end.

(** Read and write a [uint32_t] through a byte pointer. *)
Definition load_word (b : list ascii) (i : nat) : Z :=
  byte_at b i + byte_at b (i + 1) * 2 ^ 8 + byte_at b (i + 2) * 2 ^ 16 + byte_at b (i + 3) * 2 ^ 24.

Definition word_bytes (t : Z) : list ascii :=
  [chr t; chr (t / 2 ^ 8); chr (t / 2 ^ 16); chr (t / 2 ^ 24)].

(** [memcpy(dst + off, src, n)] *)
Definition store_bytes (off : nat) (src dst : list ascii) : list ascii :=
  take off dst ++ src ++ drop (off + length src) dst.

Definition byteReverse_word (b : list ascii) (i : nat) : Z :=
  Z.lor (u32 (Z.shiftl (Z.lor (Z.shiftl (byte_at b (i + 3)) 8) (byte_at b (i + 2))) 16))
        (Z.lor (Z.shiftl (byte_at b (i + 1)) 8) (byte_at b i)).

(** [longs] rounds of the do-while loop, from byte [i] on. *)
Fixpoint byteReverse (b : list ascii) (i longs : nat) : list ascii :=
  match longs with
  | O => b
  | S n => byteReverse (store_bytes i (word_bytes (byteReverse_word b i)) b) (i + 4) n
  end.

(** ** The compression function *)
Inductive round_fn := F1 | F2 | F3 | F4.

Definition apply_fn (f : round_fn) (x y z : Z) : Z :=
  match f with
  | F1 => Z.lxor z (Z.land x (Z.lxor y z))
  | F2 => Z.lxor y (Z.land z (Z.lxor x y))
  | F3 => Z.lxor (Z.lxor x y) z
  | F4 => Z.lxor y (Z.lor x (u32 (Z.lnot z)))
  end.

Abbreviation md5_regs := (Z * Z * Z * Z)%type.

(** [MD5STEP(f, w, x, y, z, data, s)], followed by the renaming of the registers the next line
    of the source makes: (a,b,c,d), (d,a,b,c), (c,d,a,b), (b,c,d,a). *)
Definition md5_step (f : Z → Z → Z → Z) (data s : Z) (r : md5_regs) : md5_regs :=
  let '(w, x, y, z) := r in
  let w1 := u32 (w + u32 (f x y z + data)) in
  let w2 := u32 (Z.lor (u32 (Z.shiftl w1 s)) (Z.shiftr w1 (32 - s))) in
  (z, u32 (w2 + x), x, y).

(** The lines of [MD5Transform]: function, word, constant and shift. *)
Definition md5_lines : list (round_fn * nat * Z * Z) :=
  [ (F1, 0, 0xd76aa478%Z, 7%Z); (F1, 1, 0xe8c7b756%Z, 12%Z);
    (F1, 2, 0x242070db%Z, 17%Z); (F1, 3, 0xc1bdceee%Z, 22%Z);
    (F1, 4, 0xf57c0faf%Z, 7%Z); (F1, 5, 0x4787c62a%Z, 12%Z);
    (F1, 6, 0xa8304613%Z, 17%Z); (F1, 7, 0xfd469501%Z, 22%Z);
    (F1, 8, 0x698098d8%Z, 7%Z); (F1, 9, 0x8b44f7af%Z, 12%Z);
    (F1, 10, 0xffff5bb1%Z, 17%Z); (F1, 11, 0x895cd7be%Z, 22%Z);
    (F1, 12, 0x6b901122%Z, 7%Z); (F1, 13, 0xfd987193%Z, 12%Z);
    (F1, 14, 0xa679438e%Z, 17%Z); (F1, 15, 0x49b40821%Z, 22%Z);
    (F2, 1, 0xf61e2562%Z, 5%Z); (F2, 6, 0xc040b340%Z, 9%Z);
    (F2, 11, 0x265e5a51%Z, 14%Z); (F2, 0, 0xe9b6c7aa%Z, 20%Z);
    (F2, 5, 0xd62f105d%Z, 5%Z); (F2, 10, 0x02441453%Z, 9%Z);
    (F2, 15, 0xd8a1e681%Z, 14%Z); (F2, 4, 0xe7d3fbc8%Z, 20%Z);
    (F2, 9, 0x21e1cde6%Z, 5%Z); (F2, 14, 0xc33707d6%Z, 9%Z);
    (F2, 3, 0xf4d50d87%Z, 14%Z); (F2, 8, 0x455a14ed%Z, 20%Z);
    (F2, 13, 0xa9e3e905%Z, 5%Z); (F2, 2, 0xfcefa3f8%Z, 9%Z);
    (F2, 7, 0x676f02d9%Z, 14%Z); (F2, 12, 0x8d2a4c8a%Z, 20%Z);
    (F3, 5, 0xfffa3942%Z, 4%Z); (F3, 8, 0x8771f681%Z, 11%Z);
    (F3, 11, 0x6d9d6122%Z, 16%Z); (F3, 14, 0xfde5380c%Z, 23%Z);
    (F3, 1, 0xa4beea44%Z, 4%Z); (F3, 4, 0x4bdecfa9%Z, 11%Z);
    (F3, 7, 0xf6bb4b60%Z, 16%Z); (F3, 10, 0xbebfbc70%Z, 23%Z);
    (F3, 13, 0x289b7ec6%Z, 4%Z); (F3, 0, 0xeaa127fa%Z, 11%Z);
    (F3, 3, 0xd4ef3085%Z, 16%Z); (F3, 6, 0x04881d05%Z, 23%Z);
    (F3, 9, 0xd9d4d039%Z, 4%Z); (F3, 12, 0xe6db99e5%Z, 11%Z);
    (F3, 15, 0x1fa27cf8%Z, 16%Z); (F3, 2, 0xc4ac5665%Z, 23%Z);
    (F4, 0, 0xf4292244%Z, 6%Z); (F4, 7, 0x432aff97%Z, 10%Z);
    (F4, 14, 0xab9423a7%Z, 15%Z); (F4, 5, 0xfc93a039%Z, 21%Z);
    (F4, 12, 0x655b59c3%Z, 6%Z); (F4, 3, 0x8f0ccc92%Z, 10%Z);
    (F4, 10, 0xffeff47d%Z, 15%Z); (F4, 1, 0x85845dd1%Z, 21%Z);
    (F4, 8, 0x6fa87e4f%Z, 6%Z); (F4, 15, 0xfe2ce6e0%Z, 10%Z);
    (F4, 6, 0xa3014314%Z, 15%Z); (F4, 13, 0x4e0811a1%Z, 21%Z);
    (F4, 4, 0xf7537e82%Z, 6%Z); (F4, 11, 0xbd3af235%Z, 10%Z);
    (F4, 2, 0x2ad7d2bb%Z, 15%Z); (F4, 9, 0xeb86d391%Z, 21%Z) ].

Definition MD5Transform (buf : md5_regs) (b : list ascii) : md5_regs :=
  let '(a0, b0, c0, d0) := buf in
  let '(a, b', c, d) :=
    foldl (λ r l, let '(f, k, t, s) := l in md5_step (apply_fn f) (u32 (load_word b (4 * k) + t)) s r)
      buf md5_lines in
  (u32 (a0 + a), u32 (b0 + b'), u32 (c0 + c), u32 (d0 + d)).

(** ** Contexts *)
Record MD5Context := Context5 {
  buf : md5_regs;
  bits0 : Z;
  bits1 : Z;
  inb : list ascii }.

(** [MD5Init]: the 64 bytes of [in] keep what the memory held. *)
Definition MD5Init (junk : list ascii) : MD5Context :=
  Context5 (0x67452301, 0xefcdab89, 0x98badcfe, 0x10325476)%Z 0 0 junk.

Definition transform_in (ctx : MD5Context) (b : list ascii) : MD5Context :=
  let b' := byteReverse b 0 16 in Context5 (MD5Transform (buf ctx) b') (bits0 ctx) (bits1 ctx) b'.

(** "Process data in 64-byte chunks", and the bytes that remain. *)
Fixpoint update_blocks (fuel : nat) (ctx : MD5Context) (data : list ascii) : option MD5Context :=
  match fuel with
  | O => None
  | S f =>
      if 64 <=? length data
      then update_blocks f (transform_in ctx (store_bytes 0 (take 64 data) (inb ctx))) (drop 64 data)
      else Some (Context5 (buf ctx) (bits0 ctx) (bits1 ctx) (store_bytes 0 data (inb ctx)))
  end.

Definition MD5Update (ctx : MD5Context) (data : list ascii) : option MD5Context :=
  let len := Z.of_nat (length data) in
  let t0 := bits0 ctx in
  let b0 := u32 (t0 + u32 (Z.shiftl len 3)) in
  let b1 := if (b0 <? t0)%Z then u32 (bits1 ctx + 1) else bits1 ctx in
  let b1' := u32 (b1 + Z.shiftr len 29) in
  let t := Z.to_nat (Z.land (Z.shiftr t0 3) 0x3f) in
  let ctx1 := Context5 (buf ctx) b0 b1' (inb ctx) in
  match t with
  | O => update_blocks (S (length data)) ctx1 data
  | _ =>
      if length data <? 64 - t then Some (Context5 (buf ctx) b0 b1' (store_bytes t data (inb ctx)))
      else
        let ctx2 := transform_in ctx1 (store_bytes t (take (64 - t) data) (inb ctx)) in
        update_blocks (S (length data)) ctx2 (drop (64 - t) data)
  end.

(** [memset(p, 0, n)] *)
Definition zeros (n : nat) : list ascii := replicate n nul.

Definition regs_bytes (r : md5_regs) : list ascii :=
  let '(a, b, c, d) := r in word_bytes a ++ word_bytes b ++ word_bytes c ++ word_bytes d.

(** [MD5Final]: the digest. *)
Definition MD5Final (ctx : MD5Context) : list ascii :=
  let count := Z.to_nat (Z.land (Z.shiftr (bits0 ctx) 3) 0x3f) in
  let in1 := store_bytes count [chr 0x80] (inb ctx) in
  let count' := 64 - 1 - count in
  let ctx1 :=
    if count' <? 8 then
      let c := transform_in ctx (store_bytes (count + 1) (zeros count') in1) in
      Context5 (buf c) (bits0 c) (bits1 c) (store_bytes 0 (zeros 56) (inb c))
    else Context5 (buf ctx) (bits0 ctx) (bits1 ctx) (store_bytes (count + 1) (zeros (count' - 8)) in1) in
  let in2 := byteReverse (inb ctx1) 0 14 in
  let in3 := store_bytes 60 (word_bytes (bits1 ctx1)) (store_bytes 56 (word_bytes (bits0 ctx1)) in2) in
  byteReverse (regs_bytes (MD5Transform (buf ctx1) in3)) 0 4.

(** [encoder_md5::encode]: the reading loop, then the digest in hexadecimal. *)
Fixpoint md5_loop (fuel : nat) (i : stream) (ctx : MD5Context) : option (stream * MD5Context) :=
  match fuel with
  | O => None
  | S f =>
      if eofbit i then Some (i, ctx)
      else
        let '(data, i1) := read 4096 i in
        match MD5Update ctx data with
        | Some ctx' => md5_loop f i1 ctx'
        | None => None
        end
  end.

Definition md5_hex (signature : list ascii) : str := concat ((λ c, print_hex2 false (ord c)) <$> signature).

Definition md5_encode (fuel : nat) (junk : list ascii) (i o : stream) : option (stream * stream) :=
  match md5_loop fuel i (MD5Init junk) with
  | Some (i1, ctx) => Some (i1, write (md5_hex (MD5Final ctx)) o)
  | None => None
  end.

(** ** RFC 1321 *)
Definition rfc_fn (round : nat) (x y z : Z) : Z :=
  match round with
  | 0 => Z.lor (Z.land x y) (Z.land (Z.lnot x) z)
  | 1 => Z.lor (Z.land x z) (Z.land y (Z.lnot z))
  | 2 => Z.lxor x (Z.lxor y z)
  | _ => Z.lxor y (Z.lor x (u32 (Z.lnot z)))
  end.

Definition rfc_index (i : nat) : nat :=
  match i / 16 with
  | 0 => i mod 16
  | 1 => (5 * i + 1) mod 16
  | 2 => (3 * i + 5) mod 16
  | _ => (7 * i) mod 16
  end.

Definition rfc_shifts : list (list Z) :=
  [[7; 12; 17; 22]; [5; 9; 14; 20]; [4; 11; 16; 23]; [6; 10; 15; 21]]%Z.

Definition rfc_shift (i : nat) : Z := nth (i mod 4) (nth (i / 16) rfc_shifts []) 0%Z.

(** The integer parts of 2^32 times |sin(i + 1)|. *)
Definition rfc_sines : list Z :=
  [ 0xd76aa478; 0xe8c7b756; 0x242070db; 0xc1bdceee; 0xf57c0faf; 0x4787c62a; 0xa8304613; 0xfd469501;
    0x698098d8; 0x8b44f7af; 0xffff5bb1; 0x895cd7be; 0x6b901122; 0xfd987193; 0xa679438e; 0x49b40821;
    0xf61e2562; 0xc040b340; 0x265e5a51; 0xe9b6c7aa; 0xd62f105d; 0x02441453; 0xd8a1e681; 0xe7d3fbc8;
    0x21e1cde6; 0xc33707d6; 0xf4d50d87; 0x455a14ed; 0xa9e3e905; 0xfcefa3f8; 0x676f02d9; 0x8d2a4c8a;
    0xfffa3942; 0x8771f681; 0x6d9d6122; 0xfde5380c; 0xa4beea44; 0x4bdecfa9; 0xf6bb4b60; 0xbebfbc70;
    0x289b7ec6; 0xeaa127fa; 0xd4ef3085; 0x04881d05; 0xd9d4d039; 0xe6db99e5; 0x1fa27cf8; 0xc4ac5665;
    0xf4292244; 0x432aff97; 0xab9423a7; 0xfc93a039; 0x655b59c3; 0x8f0ccc92; 0xffeff47d; 0x85845dd1;
    0x6fa87e4f; 0xfe2ce6e0; 0xa3014314; 0x4e0811a1; 0xf7537e82; 0xbd3af235; 0x2ad7d2bb; 0xeb86d391 ]%Z.

Definition rfc_transform (h : md5_regs) (block : list ascii) : md5_regs :=
  let '(a0, b0, c0, d0) := h in
  let '(a, b, c, d) :=
    foldl (λ r i, md5_step (rfc_fn (i / 16))
                    (u32 (load_word block (4 * rfc_index i) + nth i rfc_sines 0%Z)) (rfc_shift i) r)
      h (seq 0 64) in
  (u32 (a0 + a), u32 (b0 + b), u32 (c0 + c), u32 (d0 + d)).

Fixpoint rfc_blocks (n : nat) (h : md5_regs) (s : list ascii) : md5_regs :=
  match n with
  | O => h
  | S n' => rfc_blocks n' (rfc_transform h (take 64 s)) (drop 64 s)
  end.

(** A bit 1, zeros up to 448 modulo 512 bits, and the length in bits modulo 2^64. *)
Definition rfc_pad (s : list ascii) : list ascii :=
  let n := (8 * Z.of_nat (length s))%Z in
  s ++ [chr 0x80] ++ zeros ((64 - (length s + 9) mod 64) mod 64)
    ++ word_bytes (n mod 2 ^ 32) ++ word_bytes ((n / 2 ^ 32) mod 2 ^ 32).

Definition md5_rfc (s : list ascii) : list ascii :=
  let p := rfc_pad s in
  regs_bytes (rfc_blocks (length p / 64) (0x67452301, 0xefcdab89, 0x98badcfe, 0x10325476)%Z p).

(** Test vectors of the RFC. *)
Example md5_rfc_empty : md5_hex (md5_rfc []) = lit "d41d8cd98f00b204e9800998ecf8427e".
Proof. vm_compute. reflexivity. Qed.

Example md5_rfc_abc : md5_hex (md5_rfc (lit "abc")) = lit "900150983cd24fb0d6963f7d28e17f72".
Proof. vm_compute. reflexivity. Qed.

Example md5_encode_abc :
  (λ r, sbuf r.2) <$> md5_encode 3 (zeros 64) (of_string (lit "abc")) (of_string [])
  = Some (lit "900150983cd24fb0d6963f7d28e17f72").
Proof. vm_compute. reflexivity. Qed.

(** ** Lemmas: memory *)
Lemma byte_at_app l c r i : i = length l → byte_at (l ++ c :: r) i = ord c.
Proof. intros ->. unfold byte_at. by rewrite list_lookup_middle. Qed.

Lemma chr_small_mod z c : (z mod 256 = ord c)%Z → chr z = c.
Proof.
  intros H. rewrite <- (chr_ord c), <- H. unfold chr. by rewrite Z.mod_mod.
Qed.

Lemma store_bytes_here l src mid r :
  length src = length mid → store_bytes (length l) src (l ++ mid ++ r) = l ++ src ++ r.
Proof.
  intros H. unfold store_bytes. rewrite take_app_length, <- drop_drop, drop_app_length, H.
  by rewrite drop_app_length.
Qed.

Lemma byteReverse_word_at l c0 c1 c2 c3 r :
  word_bytes (byteReverse_word (l ++ c0 :: c1 :: c2 :: c3 :: r) (length l)) = [c0; c1; c2; c3].
Proof.
  unfold byteReverse_word.
  assert (∀ k l' c r', l ++ c0 :: c1 :: c2 :: c3 :: r = l' ++ c :: r' → length l' = length l + k →
    byte_at (l ++ c0 :: c1 :: c2 :: c3 :: r) (length l + k) = ord c) as Hat.
  { intros k l' c r' -> Hl. by apply byte_at_app. }
  assert (byte_at (l ++ c0 :: c1 :: c2 :: c3 :: r) (length l) = ord c0) as -> by by apply byte_at_app.
  rewrite (Hat 1 (l ++ [c0]) c1 (c2 :: c3 :: r)), (Hat 2 (l ++ [c0; c1]) c2 (c3 :: r)),
    (Hat 3 (l ++ [c0; c1; c2]) c3 r) by (rewrite ?length_app, <- ?app_assoc; done).
  pose proof (ord_range c0). pose proof (ord_range c1).
  pose proof (ord_range c2). pose proof (ord_range c3).
  rewrite (lor_shiftl_add (ord c3)), (lor_shiftl_add (ord c1)) by lia.
  rewrite Z.shiftl_mul_pow2, u32_small by lia.
  rewrite <- Z.shiftl_mul_pow2, lor_shiftl_add by lia. unfold word_bytes.
  rewrite (chr_small_mod _ c0), (chr_small_mod _ c1), (chr_small_mod _ c2), (chr_small_mod _ c3);
    [done | div_lia..].
Qed.

(** On little-endian memory [byteReverse] changes nothing. *)
Lemma byteReverse_id b i longs : i + 4 * longs ≤ length b → byteReverse b i longs = b.
Proof.
  revert i. induction longs as [| n IH]; intros i Hl; cbn [byteReverse]; [done |].
  assert (∃ l c0 c1 c2 c3 r, b = l ++ c0 :: c1 :: c2 :: c3 :: r ∧ i = length l)
    as (l & c0 & c1 & c2 & c3 & r & Hb & Hi).
  { exists (take i b). pose proof (length_drop b i) as Hd. pose proof (take_drop i b) as Htd.
    destruct (drop i b) as [| c0 [| c1 [| c2 [| c3 r]]]]; cbn in Hd; try lia.
    exists c0, c1, c2, c3, r. split; [done |]. rewrite length_take. lia. }
  subst i. rewrite Hb at 1 2. rewrite byteReverse_word_at.
  change (l ++ c0 :: c1 :: c2 :: c3 :: r) with (l ++ [c0; c1; c2; c3] ++ r).
  rewrite store_bytes_here by done. change (l ++ [c0; c1; c2; c3] ++ r) with (l ++ c0 :: c1 :: c2 :: c3 :: r).
  rewrite <- Hb. apply IH. lia.
Qed.

(** ** Lemmas: the compression function *)
Definition fn_of_round (r : nat) : round_fn := match r with 0 => F1 | 1 => F2 | 2 => F3 | _ => F4 end.

Lemma apply_fn_rfc r x y z : apply_fn (fn_of_round r) x y z = rfc_fn r x y z.
Proof.
  destruct r as [| [| [| r]]]; cbn [fn_of_round apply_fn rfc_fn].
  - apply Z.bits_inj'. intros n Hn.
    rewrite Z.lxor_spec, Z.land_spec, Z.lxor_spec, Z.lor_spec, !Z.land_spec, Z.lnot_spec by done.
    by destruct (Z.testbit x n), (Z.testbit y n), (Z.testbit z n).
  - apply Z.bits_inj'. intros n Hn.
    rewrite Z.lxor_spec, Z.land_spec, Z.lxor_spec, Z.lor_spec, !Z.land_spec, Z.lnot_spec by done.
    by destruct (Z.testbit x n), (Z.testbit y n), (Z.testbit z n).
  - apply Z.lxor_assoc.
  - done.
Qed.

Lemma md5_lines_rfc :
  md5_lines = (λ i, (fn_of_round (i / 16), rfc_index i, nth i rfc_sines 0%Z, rfc_shift i)) <$> seq 0 64.
Proof. vm_compute. reflexivity. Qed.

Lemma transform_rfc h b : MD5Transform h b = rfc_transform h b.
Proof.
  unfold MD5Transform, rfc_transform. destruct h as [[[a0 b0] c0] d0].
  rewrite md5_lines_rfc, foldl_fmap.
  set (f := λ r i, _). set (g := λ r i, md5_step (rfc_fn _) _ _ _).
  assert (∀ r i, f r i = g r i) as Hfg.
  { intros [[[w x] y] z] i. subst f g. cbn beta iota. unfold md5_step. by rewrite apply_fn_rfc. }
  assert (∀ l r, foldl f r l = foldl g r l) as ->; [| done].
  intros l. induction l as [| i l IH]; intros r; cbn [foldl]; [done |]. by rewrite Hfg, IH.
Qed.

Lemma rfc_blocks_app n1 n2 h s1 s2 :
  length s1 = 64 * n1 → rfc_blocks (n1 + n2) h (s1 ++ s2) = rfc_blocks n2 (rfc_blocks n1 h s1) s2.
Proof.
  revert h s1. induction n1 as [| n IH]; intros h s1 Hl; cbn [Nat.add rfc_blocks].
  - destruct s1; [done | cbn in Hl; lia].
  - rewrite take_app_le, drop_app_le by lia. apply IH. rewrite length_drop. lia.
Qed.

Lemma rfc_blocks_one h s : length s = 64 → rfc_blocks 1 h s = rfc_transform h s.
Proof. intros Hl. cbn [rfc_blocks]. by rewrite take_ge by lia. Qed.

(** ** Lemmas: absorbing bytes *)
Definition rfc_init : md5_regs := (0x67452301, 0xefcdab89, 0x98badcfe, 0x10325476)%Z.

(** The context has taken in [s]: whole blocks [f] are in the registers, the rest [t] is at
    the start of the buffer, and the two counters hold the length in bits. *)
Record absorbed (ctx : MD5Context) (s f t : list ascii) (k : nat) : Prop := {
  abs_split : s = f ++ t ∧ length f = 64 * k ∧ length t < 64;
  abs_buf : buf ctx = rfc_blocks k rfc_init f;
  abs_bits : bits0 ctx = ((8 * Z.of_nat (length s)) mod 2 ^ 32)%Z ∧
             bits1 ctx = ((8 * Z.of_nat (length s) / 2 ^ 32) mod 2 ^ 32)%Z;
  abs_in : length (inb ctx) = 64 ∧ ∃ r, inb ctx = t ++ r }.

Lemma store_prefix src b :
  length src ≤ length b → store_bytes 0 src b = src ++ drop (length src) b.
Proof. done. Qed.

Lemma store_after t src r :
  length src ≤ length r → store_bytes (length t) src (t ++ r) = t ++ src ++ drop (length src) r.
Proof.
  intros Hl. unfold store_bytes. by rewrite take_app_length, <- drop_drop, drop_app_length.
Qed.

Lemma transform_in_block ctx b :
  length b = 64 → transform_in ctx b = Context5 (rfc_transform (buf ctx) b) (bits0 ctx) (bits1 ctx) b.
Proof.
  intros Hl. unfold transform_in. rewrite byteReverse_id by lia. by rewrite transform_rfc.
Qed.

Lemma update_blocks_spec fuel ctx data :
  length data < fuel → length (inb ctx) = 64 →
  ∃ f t k r, data = f ++ t ∧ length f = 64 * k ∧ length t < 64 ∧ length (t ++ r) = 64 ∧
    update_blocks fuel ctx data
    = Some (Context5 (rfc_blocks k (buf ctx) f) (bits0 ctx) (bits1 ctx) (t ++ r)).
Proof.
  revert ctx data. induction fuel as [| fuel IH]; intros ctx data Hf Hin; [lia |].
  cbn [update_blocks]. destruct (Nat.leb_spec 64 (length data)) as [Hl | Hl].
  - assert (length (take 64 data) = 64) as Ht by (rewrite length_take; lia).
    assert (store_bytes 0 (take 64 data) (inb ctx) = take 64 data) as ->.
    { rewrite store_prefix by lia. rewrite drop_ge by lia. apply app_nil_r. }
    rewrite transform_in_block by done.
    destruct (IH (Context5 (rfc_transform (buf ctx) (take 64 data)) (bits0 ctx) (bits1 ctx)
      (take 64 data)) (drop 64 data)) as (f & t & k & r & Heq & Hlf & Hlt & Hlr & ->);
      [rewrite length_drop; lia | done |].
    exists (take 64 data ++ f), t, (1 + k), r. repeat split; [| | done | done |].
    + by rewrite <- app_assoc, <- Heq, take_drop.
    + rewrite length_app. lia.
    + cbn [buf bits0 bits1]. rewrite rfc_blocks_app by done. by rewrite rfc_blocks_one.
  - exists [], data, 0, (drop (length data) (inb ctx)).
    rewrite store_prefix by lia. rewrite length_app, length_drop. repeat split; try lia.
Qed.

Lemma counter_add n m :
  (0 ≤ n)%Z → (0 ≤ m)%Z → 
  let t0 := ((8 * n) mod 2 ^ 32)%Z in let b0 := u32 (t0 + u32 (Z.shiftl m 3)) in
  let b1 := ((8 * n / 2 ^ 32) mod 2 ^ 32)%Z in
  b0 = ((8 * (n + m)) mod 2 ^ 32)%Z ∧
  u32 ((if (b0 <? t0)%Z then u32 (b1 + 1) else b1) + Z.shiftr m 29)
    = ((8 * (n + m) / 2 ^ 32) mod 2 ^ 32)%Z.
Proof.
  intros Hn Hm t0 b0 b1. subst t0 b0 b1. unfold u32.
  rewrite Z.shiftl_mul_pow2, Z.shiftr_div_pow2 by lia.
  change (2 ^ 3)%Z with 8%Z. change (2 ^ 29)%Z with 536870912%Z. change (2 ^ 32)%Z with 4294967296%Z.
  split; [div_lia |].
  assert (8 * (n + m) / 4294967296
    = 8 * n / 4294967296 + m / 536870912
      + (if ((8 * n) mod 4294967296 + (m * 8) mod 4294967296) mod 4294967296
             <? (8 * n) mod 4294967296 then 1 else 0))%Z as ->.
  { destruct (Z.ltb_spec (((8 * n) mod 4294967296 + (m * 8) mod 4294967296) mod 4294967296)
      ((8 * n) mod 4294967296)); div_lia. }
  destruct (_ <? _)%Z; div_lia.
Qed.

Lemma tail_length n t k :
  n = 64 * k + t → t < 64 →
  Z.to_nat (Z.land (Z.shiftr ((8 * Z.of_nat n) mod 2 ^ 32) 3) 0x3f) = t.
Proof.
  intros -> Ht. change 0x3f%Z with (2 ^ 6 - 1)%Z.
  rewrite land_mask, Z.shiftr_div_pow2 by lia.
  change (2 ^ 3)%Z with 8%Z. change (2 ^ 6)%Z with 64%Z. change (2 ^ 32)%Z with 4294967296%Z.
  div_lia.
Qed.

Lemma update_absorbs ctx s f t k data :
  absorbed ctx s f t k →
  ∃ ctx' f' t' k', MD5Update ctx data = Some ctx' ∧ absorbed ctx' (s ++ data) f' t' k'.
Proof.
  intros [(Hs & Hf & Ht) Hbuf [Hb0 Hb1] (Hin & r & Hr)]. unfold MD5Update.
  pose proof (counter_add (Z.of_nat (length s)) (Z.of_nat (length data))) as Hc. cbv zeta in Hc.
  rewrite <- Hb0, <- Hb1, <- Nat2Z.inj_add, <- length_app in Hc.
  destruct Hc as [Hc0 Hc1]; [lia.. |]. rewrite Hc1, Hc0. cbv zeta. clear Hc1 Hc0.
  rewrite Hb0. rewrite (tail_length _ (length t) k); [| by rewrite Hs, length_app; lia | done].
  set (B0 := ((8 * Z.of_nat (length (s ++ data))) mod 2 ^ 32)%Z).
  set (B1 := ((8 * Z.of_nat (length (s ++ data)) / 2 ^ 32) mod 2 ^ 32)%Z).
  assert (length r = 64 - length t) as Hlr by (rewrite Hr, length_app in Hin; lia).
  destruct (length t) as [| n] eqn:Et.
  - destruct (update_blocks_spec (S (length data)) (Context5 (buf ctx) B0 B1 (inb ctx)) data)
      as (f2 & t2 & k2 & r2 & Hd & Hf2 & Ht2 & Hr2 & ->); [lia | done |].
    eexists _, (f ++ f2), t2, (k + k2). split; [done |]. destruct t; [| done].
    rewrite app_nil_r in Hs. subst s. split; cbn [buf bits0 bits1 inb].
    + rewrite Hd, <- app_assoc, length_app. repeat split; lia.
    + by rewrite rfc_blocks_app, Hbuf.
    + done.
    + split; [done | by eexists].
  - rewrite <- Et in *. clear n Et. destruct (Nat.ltb_spec (length data) (64 - length t)) as [Hl | Hl].
    + rewrite Hr, store_after by lia. eexists _, f, (t ++ data), k. split; [done |].
      split; cbn [buf bits0 bits1 inb].
      * rewrite Hs, <- app_assoc, length_app. repeat split; lia.
      * done.
      * done.
      * rewrite !length_app, length_drop. split; [lia |]. eexists. by rewrite <- app_assoc.
    + assert (length (take (64 - length t) data) = 64 - length t) as Htk by (rewrite length_take; lia).
      rewrite Hr, store_after by lia. rewrite Htk, drop_ge, app_nil_r by lia.
      rewrite transform_in_block by (rewrite length_app; lia). cbn [buf bits0 bits1].
      destruct (update_blocks_spec (S (length data))
        (Context5 (rfc_transform (buf ctx) (t ++ take (64 - length t) data)) B0 B1
          (t ++ take (64 - length t) data)) (drop (64 - length t) data))
        as (f2 & t2 & k2 & r2 & Hd & Hf2 & Ht2 & Hr2 & ->);
        [rewrite length_drop; lia | cbn; rewrite length_app; lia |].
      eexists _, (f ++ (t ++ take (64 - length t) data) ++ f2), t2, (k + (1 + k2)). split; [done |].
      split; cbn [buf bits0 bits1 inb].
      * split; [| rewrite !length_app; lia].
        rewrite Hs. rewrite <- (take_drop (64 - length t) data) at 1. rewrite Hd.
        by rewrite <- !app_assoc.
      * rewrite rfc_blocks_app by done. rewrite rfc_blocks_app by (rewrite length_app; lia).
        rewrite rfc_blocks_one by (rewrite length_app; lia). by rewrite Hbuf.
      * done.
      * split; [done | by eexists].
Qed.

Lemma length_word_bytes z : length (word_bytes z) = 4.
Proof. done. Qed.

Lemma length_regs_bytes h : length (regs_bytes h) = 16.
Proof. by destruct h as [[[a b] c] d]. Qed.

Lemma length_zeros n : length (zeros n) = n.
Proof. apply length_replicate. Qed.

(** The last blocks, as bytes: one when the tail leaves room for the length, two otherwise. *)
Lemma rfc_pad_blocks s f t k :
  s = f ++ t → length f = 64 * k → length t < 64 →
  let lens := word_bytes ((8 * Z.of_nat (length s)) mod 2 ^ 32)
              ++ word_bytes ((8 * Z.of_nat (length s) / 2 ^ 32) mod 2 ^ 32) in
  rfc_pad s =
    f ++ (if 64 - 1 - length t <? 8
          then (t ++ [chr 0x80] ++ zeros (63 - length t)) ++ zeros 56 ++ lens
          else t ++ [chr 0x80] ++ zeros (55 - length t) ++ lens).
Proof.
  intros Hs Hf Ht lens. unfold rfc_pad. fold lens.
  assert (length s = 64 * k + length t) as Hl by (by rewrite Hs, length_app, Hf).
  assert ((length s + 9) mod 64 = (length t + 9) mod 64) as Hmod.
  { rewrite Hl. replace (64 * k + length t + 9) with (length t + 9 + k * 64) by lia.
    apply Nat.Div0.mod_add. }
  rewrite Hmod, Hs. destruct (Nat.ltb_spec (64 - 1 - length t) 8) as [H8 | H8].
  - assert ((64 - (length t + 9) mod 64) mod 64 = (63 - length t) + 56) as ->.
    { replace (length t + 9) with (length t - 55 + 1 * 64) by lia.
      rewrite Nat.Div0.mod_add, (Nat.mod_small (length t - 55)), Nat.mod_small by lia. lia. }
    unfold zeros. rewrite replicate_add. by rewrite <- !app_assoc.
  - assert ((64 - (length t + 9) mod 64) mod 64 = 55 - length t) as ->.
    { destruct (Nat.eq_dec (length t) 55) as [-> |]; [done |].
      rewrite (Nat.mod_small (length t + 9)), Nat.mod_small by lia. lia. }
    by rewrite <- !app_assoc.
Qed.

Lemma final_absorbed ctx s f t k : absorbed ctx s f t k → MD5Final ctx = md5_rfc s.
Proof.
  intros [(Hs & Hf & Ht) Hbuf [Hb0 Hb1] (Hin & r & Hr)].
  set (b0 := ((8 * Z.of_nat (length s)) mod 2 ^ 32)%Z) in *.
  set (b1 := ((8 * Z.of_nat (length s) / 2 ^ 32) mod 2 ^ 32)%Z) in *.
  assert (length r = 64 - length t) as Hlr by (rewrite Hr, length_app in Hin; lia).
  assert (∀ h blk, byteReverse (regs_bytes (MD5Transform h blk)) 0 4 = regs_bytes (rfc_transform h blk)) as Hout.
  { intros h blk. rewrite byteReverse_id by (rewrite length_regs_bytes; lia). by rewrite transform_rfc. }
  assert (Z.to_nat (Z.land (Z.shiftr (bits0 ctx) 3) 0x3f) = length t) as Hcount.
  { rewrite Hb0. apply (tail_length _ _ k); [rewrite Hs, length_app; lia | done]. }
  unfold MD5Final. rewrite Hout. cbv zeta. rewrite !Hcount.
  unfold md5_rfc. rewrite (rfc_pad_blocks s f t k) by done. fold b0 b1.
  assert (store_bytes (length t) [chr 128] (inb ctx) = (t ++ [chr 128]) ++ drop 1 r) as Hst.
  { rewrite Hr, store_after by (cbn; lia). by rewrite <- app_assoc. }
  assert (∀ n, n ≤ 63 - length t →
    store_bytes (length t + 1) (zeros n) ((t ++ [chr 128]) ++ drop 1 r)
    = (t ++ [chr 128]) ++ zeros n ++ drop n (drop 1 r)) as Hz.
  { intros n Hn. replace (length t + 1) with (length (t ++ [chr 128])) by (rewrite length_app; done).
    rewrite store_after by (rewrite length_zeros, length_drop; lia). by rewrite length_zeros. }
  assert (∀ p (q : list ascii), length p = 56 → length q = 8 →
    store_bytes 60 (word_bytes b1) (store_bytes 56 (word_bytes b0) (p ++ q))
    = p ++ word_bytes b0 ++ word_bytes b1) as Hlens.
  { intros p q Hp Hq.
    assert (store_bytes 56 (word_bytes b0) (p ++ q) = (p ++ word_bytes b0) ++ drop 4 q) as ->.
    { rewrite <- Hp, store_after by (rewrite length_word_bytes; lia). by rewrite <- app_assoc. }
    assert (length (p ++ word_bytes b0) = 60) as Hp2 by (rewrite length_app, Hp; done).
    rewrite <- Hp2, store_after by (rewrite length_drop, length_word_bytes; lia).
    rewrite drop_drop, drop_ge by (cbn; lia). by rewrite app_nil_r, <- app_assoc. }
  rewrite Hst. destruct (Nat.ltb_spec (64 - 1 - length t) 8) as [H8 | H8].
  - rewrite Hz by lia. replace (64 - 1 - length t) with (63 - length t) by lia.
    rewrite (drop_ge (drop 1 r)), app_nil_r by (rewrite length_drop; lia).
    rewrite transform_in_block by (rewrite !length_app, length_zeros; cbn; lia).
    cbn [buf bits0 bits1 inb]. rewrite byteReverse_id.
    2: { rewrite store_prefix, length_app, length_drop, length_zeros, !length_app, length_zeros;
         [cbn; lia | rewrite length_zeros, !length_app, length_zeros; cbn; lia]. }
    rewrite store_prefix by (rewrite length_zeros, !length_app, length_zeros; cbn; lia).
    rewrite length_zeros, Hb0, Hb1, Hlens.
    2: { apply length_zeros. }
    2: { rewrite length_drop, !length_app, length_zeros. cbn. lia. }
    set (blk1 := (t ++ [chr 128]) ++ zeros (63 - length t)).
    set (blk2 := zeros 56 ++ word_bytes b0 ++ word_bytes b1).
    assert (length blk1 = 64) as Hl1 by (subst blk1; rewrite !length_app, length_zeros; cbn; lia).
    assert (length blk2 = 64) as Hl2 by (subst blk2; rewrite !length_app, length_zeros; done).
    replace (t ++ [chr 128] ++ zeros (63 - length t)) with blk1 by (subst blk1; by rewrite <- app_assoc).
    assert (length (f ++ blk1 ++ blk2) / 64 = k + (1 + 1)) as ->.
    { rewrite !length_app, Hf, Hl1, Hl2. symmetry. apply Nat.div_unique with 0; lia. }
    rewrite (rfc_blocks_app k), (rfc_blocks_app 1) by (done || lia).
    rewrite !rfc_blocks_one by done. by rewrite Hbuf.
  - rewrite Hz by lia. replace (64 - 1 - length t - 8) with (55 - length t) by lia.
    cbn [buf bits0 bits1 inb].
    assert (length ((t ++ [chr 128]) ++ zeros (55 - length t)) = 56) as Hp
      by (rewrite !length_app, length_zeros; cbn; lia).
    assert (length (drop (55 - length t) (drop 1 r)) = 8) as Hq by (rewrite !length_drop; lia).
    rewrite byteReverse_id by (rewrite app_assoc, length_app, Hp, Hq; lia).
    rewrite app_assoc, Hb0, Hb1, Hlens by done.
    set (blk := ((t ++ [chr 128]) ++ zeros (55 - length t)) ++ word_bytes b0 ++ word_bytes b1).
    assert (length blk = 64) as Hl1 by (subst blk; rewrite length_app, Hp; done).
    replace (t ++ [chr 128] ++ zeros (55 - length t) ++ word_bytes b0 ++ word_bytes b1) with blk
      by (subst blk; by rewrite <- !app_assoc).
    assert (length (f ++ blk) / 64 = k + 1) as ->.
    { rewrite length_app, Hf, Hl1. symmetry. apply Nat.div_unique with 0; lia. }
    rewrite rfc_blocks_app by done. by rewrite rfc_blocks_one, Hbuf.
Qed.

Lemma md5_loop_spec fuel i ctx f t k :
  good i = true → gpos i ≤ length (sbuf i) → absorbed ctx (take (gpos i) (sbuf i)) f t k →
  length (rest i) + 2 ≤ fuel →
  ∃ i' ctx' f' t' k', md5_loop fuel i ctx = Some (i', ctx') ∧ absorbed ctx' (sbuf i) f' t' k'.
Proof.
  revert i ctx f t k. induction fuel as [| fuel IH]; intros i ctx f t k Hg Hle Habs Hfuel; [lia |].
  cbn [md5_loop]. rewrite (good_eofbit i Hg). unfold read. rewrite Hg.
  assert (length (rest i) = length (sbuf i) - gpos i) as Hlr by apply length_drop.
  destruct (update_absorbs ctx _ _ _ _ (take 4096 (rest i)) Habs) as (ctx' & f' & t' & k' & -> & Habs').
  rewrite length_take. destruct (Nat.ltb_spec (4096 `min` length (rest i)) 4096) as [Hs | Hs].
  - destruct fuel as [| fuel']; [lia |]. cbn [md5_loop set_fail set_eof set_gpos eofbit].
    eexists _, ctx', f', t', k'. split; [done |].
    rewrite (take_ge (rest i)) in Habs' by lia. unfold rest in Habs'. by rewrite take_drop in Habs'.
  - assert (4096 ≤ length (rest i)) as Hge by lia.
    replace (4096 `min` length (rest i)) with 4096 by lia.
    apply (IH (set_gpos (gpos i + 4096) i) _ f' t' k'); [done | cbn; lia | | rewrite rest_advance, length_drop; lia].
    cbn [gpos set_gpos sbuf]. unfold rest in Habs'.
    assert (take (gpos i + 4096) (sbuf i) = take (gpos i) (sbuf i) ++ take 4096 (drop (gpos i) (sbuf i))) as ->;
      [| done].
    rewrite take_take_drop. done.
Qed.

Lemma init_absorbed junk : length junk = 64 → absorbed (MD5Init junk) [] [] [] 0.
Proof.
  intros Hj. split; cbn; [repeat split; lia | done | done |]. split; [done | by exists junk].
Qed.

(** ** Properties *)

(** C13. Encoding a stream terminates and writes the hexadecimal RFC 1321 digest of all its
    bytes, whatever the 4096-byte pieces it is read in and the memory the context starts
    with. *)
Theorem md5_encode_rfc s fuel junk o :
  length junk = 64 → length s + 2 ≤ fuel → at_end o →
  ∃ i', md5_encode fuel junk (of_string s) o = Some (i', append (md5_hex (md5_rfc s)) o).
Proof.
  intros Hj Hf Ho. unfold md5_encode.
  destruct (md5_loop_spec fuel (of_string s) (MD5Init junk) [] [] 0)
    as (i' & ctx' & f & t & k & -> & Habs); [done | cbn; lia | by apply init_absorbed | done |].
  exists i'. rewrite (final_absorbed _ _ _ _ _ Habs). cbn [sbuf of_string].
  by rewrite write_at_end.
Qed.

Example md5_encode_rfc_witness :
  length (zeros 64) = 64 ∧
  ∃ i', md5_encode 5 (zeros 64) (of_string (lit "abc")) (of_string [])
    = Some (i', append (lit "900150983cd24fb0d6963f7d28e17f72") (of_string [])).
Proof.
  split; [reflexivity |].
  destruct (md5_encode_rfc (lit "abc") 5 (zeros 64) (of_string [])) as [i' H].
  - reflexivity.
  - vm_compute. lia.
  - split; reflexivity.
  - exists i'. rewrite H. vm_compute. reflexivity.
Defined.

(** The optimised compression function is the one of RFC 1321: the 64 unrolled lines,
    with the rewritten F and G and the constants of the source, compute the four rounds given
    by the RFC's formulas for functions, indices, shifts and sine constants. *)
Theorem md5_transform_rfc h b :
  MD5Transform h b = rfc_transform h b ∧ length md5_lines = 64 ∧
  ∀ longs, 4 * longs ≤ length b → byteReverse b 0 longs = b.
Proof.
  split; [apply transform_rfc |]. split; [done |]. intros longs Hl. by apply byteReverse_id.
Qed.

Example md5_transform_rfc_witness : 4 * 16 ≤ length (zeros 64) ∧ byteReverse (zeros 64) 0 16 = zeros 64.
Proof.
  assert (4 * 16 ≤ length (zeros 64)) as H by (vm_compute; lia).
  split; [exact H |]. exact (proj2 (proj2 (md5_transform_rfc rfc_init (zeros 64))) 16 H).
Defined.
