(* ===== verification/Uuid.v ===== *)
(** * [src/src/dcl/uuid.cpp]: 16-byte identifiers, their text form and their order. *)
From S2P Require Export StdMap Streams.

(** ** Data and operations *)
Definition uuid_size : nat := 16.

(** The array [_data]: [uuid_size] bytes. *)
Abbreviation uuid := (list ascii).

Definition uuid_wf (u : uuid) : Prop := length u = uuid_size.

Definition uuid_clear : uuid := replicate uuid_size nul.

Definition uuid_empty (u : uuid) : bool := forallb (λ b, (ord b =? 0)%Z) u.

Definition uuid_eq (u v : uuid) : bool := bool_decide (u = v).

(** [operator<]: [std::lexicographical_compare] on [unsigned char]; the others derive. *)
Definition uuid_lt (u v : uuid) : bool := lex_less (less_on ord Z.ltb) u v.

Definition uuid_gt (u v : uuid) : bool := uuid_lt v u.

Definition uuid_le (u v : uuid) : bool := negb (uuid_lt v u).

Definition uuid_ge (u v : uuid) : bool := negb (uuid_lt u v).

Definition uuid_ne (u v : uuid) : bool := negb (uuid_eq u v).

(** [assign]: the loop over [value], with the digits collected so far and the next index. *)
Fixpoint assign_loop (value buf : str) (j : nat) (data : uuid) : outcome uuid :=
  match value with
  | [] =>
      match buf with
      | [] => Ret data
      | _ => vec_store data j (chr (strtol (c_str buf) 16))
      end
  | c :: value' =>
      if isxdigit c then
        let buf := buf ++ [c] in
        if length buf =? 2 then
          data ← vec_store data j (chr (strtol (c_str buf) 16));
          if S j =? uuid_size then Ret data else assign_loop value' [] (S j) data
        else assign_loop value' buf j data
      else assign_loop value' buf j data
  end.

Definition uuid_assign (value : str) : outcome uuid := assign_loop value [] 0 uuid_clear.

(** [uuid] from a C string: a null pointer gives the empty value. *)
Definition uuid_of_cstr (value : option str) : outcome uuid :=
  match value with Some v => uuid_assign (c_str v) | None => Ret uuid_clear end.

Definition dash_after (i : nat) : bool := (i =? 3) || (i =? 5) || (i =? 7) || (i =? 9).

Fixpoint str_from (i : nat) (u : uuid) : str :=
  match u with
  | [] => []
  | b :: u' => print_hex2 false (ord b) ++ (if dash_after i then ["-"%char] else []) ++ str_from (S i) u'
  end.

Definition uuid_str (u : uuid) : str := str_from 0 u.

(** The test of an identifier, which is false for the empty one. *)
Definition uuid_bool (u : uuid) : bool := negb (uuid_empty u).

(** The operators on streams: a word is read, the text is written. *)
Definition uuid_read (s : stream) : outcome uuid * stream :=
  let '(w, s1) := read_word s in (uuid_assign w, s1).

Definition uuid_write (u : uuid) (out : stream) : stream := write (uuid_str u) out.

(** [generate]: the low four bytes of the current time (a little-endian host), then the
    results of [rand()] modulo 0xFF. *)
Definition uuid_generate (t : Z) (rand : nat → Z) : uuid :=
  ((λ i, chr (Z.shiftr t (8 * Z.of_nat i))) <$> seq 0 4)
  ++ ((λ i, chr (rand i mod 255)) <$> seq 4 12).

(** ** Text form: the reference *)
Fixpoint hex_bytes (ds : list Z) : uuid :=
  match ds with
  | a :: b :: ds' => chr (a * 16 + b) :: hex_bytes ds'
  | [a] => [chr a]
  | [] => []
  end.

Definition hex_digits (value : str) : list Z := omap (λ c, if isxdigit c then digit_val c else None) value.

Definition hex_value (c : ascii) : Z := default 0%Z (digit_val c).

(** [strtol(s, NULL, 16)] on one or two hexadecimal digits. *)
Lemma strtol_hex1 a :
  isxdigit a = true → strtol (c_str [a]) 16 = hex_value a ∧ digit_val a = Some (hex_value a).
Proof. by_bytes a. Qed.

Lemma hex_byte_table :
  forallb (λ a, forallb (λ b, negb (isxdigit a && isxdigit b)
    || (strtol (c_str [a; b]) 16 =? hex_value a * 16 + hex_value b)%Z) all_bytes) all_bytes = true.
Proof. vm_compute. reflexivity. Qed.

Lemma strtol_hex2 a b :
  isxdigit a = true → isxdigit b = true →
  strtol (c_str [a; b]) 16 = (hex_value a * 16 + hex_value b)%Z.
Proof.
  intros Ha Hb. pose proof (all_bytes_forall _ hex_byte_table a) as H. cbv beta in H.
  pose proof (all_bytes_forall _ H b) as H2. cbv beta in H2. rewrite Ha, Hb in H2.
  by apply Z.eqb_eq.
Qed.

Lemma assign_loop_reference value :
  (∀ done_ k, length done_ + k = uuid_size → 0 < k →
     assign_loop value [] (length done_) (done_ ++ replicate k nul)
     = Ret (done_ ++ take k (hex_bytes (hex_digits value) ++ replicate k nul))) ∧
  (∀ done_ k a, length done_ + k = uuid_size → 0 < k → isxdigit a = true →
     assign_loop value [a] (length done_) (done_ ++ replicate k nul)
     = Ret (done_ ++ take k (hex_bytes (hex_value a :: hex_digits value) ++ replicate k nul))).
Proof.
  induction value as [| c value [IH0 IH1]]; split.
  - intros d k Hk Hp. cbn. by rewrite take_ge by by rewrite length_replicate.
  - intros d k a Hk Hp Ha. destruct k as [| k]; [lia |]. cbn [assign_loop replicate hex_digits omap list_omap hex_bytes].
    rewrite vec_store_middle, (proj1 (strtol_hex1 a Ha)). cbn [app take].
    change (nul :: replicate k nul) with (replicate (S k) nul).
    rewrite take_replicate. by replace (k `min` S k) with k by lia.
  - intros d k Hk Hp. cbn [assign_loop]. unfold hex_digits. cbn [omap list_omap].
    destruct (isxdigit c) eqn:Hc; [| by apply IH0].
    cbn [app length Nat.eqb]. rewrite (proj2 (strtol_hex1 c Hc)). by apply IH1.
  - intros d k a Hk Hp Ha. cbn [assign_loop]. unfold hex_digits. cbn [omap list_omap].
    destruct (isxdigit c) eqn:Hc; [| by apply IH1].
    cbn [app length]. rewrite Nat.eqb_refl, (proj2 (strtol_hex1 c Hc)), strtol_hex2 by done.
    destruct k as [| k]; [lia |]. cbn [replicate]. rewrite vec_store_middle.
    cbn [mbind outcome_bind hex_bytes app take].
    destruct (Nat.eqb_spec (S (length d)) uuid_size) as [Hs | Hs].
    + assert (k = 0) as -> by (unfold uuid_size in *; lia). done.
    + specialize (IH0 (d ++ [chr (hex_value a * 16 + hex_value c)]) k).
      rewrite length_app in IH0. cbn [length] in IH0. rewrite Nat.add_1_r in IH0.
      rewrite <- !app_assoc in IH0. cbn [app] in IH0. rewrite IH0 by lia.
      do 3 f_equal. rewrite replicate_cons_app, app_assoc.
      symmetry. apply take_app_le. rewrite length_app, length_replicate. lia.
Qed.

Lemma uuid_assign_reference value :
  uuid_assign value = Ret (take uuid_size (hex_bytes (hex_digits value) ++ uuid_clear)).
Proof. apply (proj1 (assign_loop_reference value) [] uuid_size); [done | unfold uuid_size; lia]. Qed.

Lemma hex_digits_app a b : hex_digits (a ++ b) = hex_digits a ++ hex_digits b.
Proof. apply omap_app. Qed.

Lemma hex_digits_byte b : hex_digits (print_hex2 false (ord b)) = [ord b / 16; ord b mod 16]%Z.
Proof. by_bytes b. Qed.

Lemma hex_bytes_str i u : hex_bytes (hex_digits (str_from i u)) = u.
Proof.
  revert i. induction u as [| b u IH]; intros i; [done |].
  cbn [str_from]. rewrite !hex_digits_app, hex_digits_byte.
  assert (hex_digits (if dash_after i then ["-"%char] else []) = []) as -> by by destruct (dash_after i).
  cbn [app hex_bytes]. rewrite IH. f_equal.
  apply (inj ord). rewrite ord_chr. pose proof (ord_range b). div_lia.
Qed.

(** ** Properties *)

(** Printing an identifier and reading the text gives the identifier back. *)
Theorem uuid_text_roundtrip u : uuid_wf u → uuid_assign (uuid_str u) = Ret u.
Proof.
  intros H. rewrite uuid_assign_reference. unfold uuid_str. rewrite hex_bytes_str, <- H.
  by rewrite take_app_length.
Qed.

Lemma str_from_no_space i u : Forall (λ c, isspace c = false) (str_from i u).
Proof.
  revert i. induction u as [| b u IH]; intros i; cbn [str_from]; [constructor |].
  rewrite !Forall_app. split; [| split; [| apply IH]].
  - assert (forallb (λ c, negb (isspace c)) (print_hex2 false (ord b)) = true) as Hb by by_bytes b.
    apply Forall_forall. intros c Hc. rewrite forallb_forall in Hb.
    specialize (Hb c). rewrite <- list_elem_of_In in Hb. by destruct (isspace c); [specialize (Hb Hc) |].
  - destruct (dash_after i); by repeat constructor.
Qed.

Lemma take_until_app (p : ascii → bool) s r :
  Forall (λ x, p x = false) s → (r = [] ∨ ∃ c r', r = c :: r' ∧ p c = true) → take_until p (s ++ r) = s.
Proof.
  intros Hs Hr. induction Hs as [| x s Hx _ IH]; cbn; [| by rewrite Hx, IH].
  destruct Hr as [-> | (c & r' & -> & Hc)]; [done |]. cbn. by rewrite Hc.
Qed.

(** An identifier written to a stream is read back, whatever blanks follow it. *)
Lemma uuid_stream_roundtrip u r :
  uuid_wf u → (r = [] ∨ ∃ c r', r = c :: r' ∧ isspace c = true) →
  fst (uuid_read (of_string (uuid_str u ++ r))) = Ret u.
Proof.
  intros Hu Hr. pose proof (uuid_text_roundtrip u Hu) as Ht. unfold uuid_read, read_word.
  change (good (of_string (uuid_str u ++ r))) with true. cbv iota zeta. rewrite rest_of_string.
  pose proof (str_from_no_space 0 u) as Hn. fold (uuid_str u) in Hn.
  destruct (uuid_str u) as [| c s] eqn:E.
  - destruct u as [| b u]; [done |]. exfalso. unfold uuid_str in E. cbn [str_from] in E.
    apply app_eq_nil in E as [E _]. clear - E. revert E. by_bytes b.
  - cbn [app]. rewrite drop_while_head by by inv Hn. change (c :: s ++ r) with ((c :: s) ++ r).
    by rewrite take_until_app.
Qed.

Definition sample_uuid : uuid := chr <$> [248; 29; 79; 174; 125; 236; 17; 208; 167; 101; 0; 160; 201; 30; 107; 246]%Z.

Example uuid_text_roundtrip_witness :
  uuid_str sample_uuid = lit "f81d4fae-7dec-11d0-a765-00a0c91e6bf6" ∧
  uuid_assign (uuid_str sample_uuid) = Ret sample_uuid.
Proof.
  split; [vm_compute; reflexivity |]. apply (uuid_text_roundtrip sample_uuid). reflexivity.
Defined.

(** Assignment never stores outside the array: on every text it returns 16 bytes, the
    pairs of hexadecimal digits of the text in order (any other character is skipped, digits
    beyond the 32nd are ignored, a last odd digit is a byte of its own), then zeros. *)
Theorem uuid_assign_total value :
  ∃ u, uuid_assign value = Ret u ∧ uuid_wf u ∧
       u = take uuid_size (hex_bytes (hex_digits value) ++ uuid_clear).
Proof.
  eexists. split; [apply uuid_assign_reference |]. split; [| done].
  unfold uuid_wf. rewrite length_take, length_app. unfold uuid_clear.
  rewrite length_replicate. lia.
Qed.

(** The comparison operators define one strict total order on identifiers: [operator<]
    is irreflexive and transitive, exactly one of [<], [==] and [>] holds, and the other
    four operators agree with it. *)
Theorem uuid_order_total u v w :
  uuid_lt u u = false ∧
  (uuid_lt u v = true → uuid_lt v w = true → uuid_lt u w = true) ∧
  (uuid_eq u v = true ↔ uuid_lt u v = false ∧ uuid_lt v u = false) ∧
  (uuid_lt u v = true → uuid_gt u v = false) ∧
  uuid_le u v = (uuid_lt u v || uuid_eq u v) ∧
  uuid_ge u v = uuid_le v u ∧ uuid_ne u v = (uuid_lt u v || uuid_gt u v).
Proof.
  assert (uuid_eq u v = key_equiv uuid_lt u v) as He.
  { apply eq_true_iff_eq. unfold uuid_eq. rewrite bool_decide_eq_true.
    symmetry. apply (str_less_equiv u v). }
  pose proof (less_irrefl (less := str_less) u) as H1.
  pose proof (less_trans (less := str_less) u v w) as H2.
  pose proof (less_asym str_less u v) as H3.
  unfold uuid_ge, uuid_le, uuid_ne, uuid_gt. rewrite He. unfold key_equiv.
  change (uuid_lt u u) with (str_less u u). change (uuid_lt u v) with (str_less u v) in *.
  change (uuid_lt v u) with (str_less v u) in *. change (uuid_lt v w) with (str_less v w).
  change (uuid_lt u w) with (str_less u w).
  destruct (str_less u v) eqn:E1, (str_less v u) eqn:E2; cbn in *; repeat split; auto;
    try (by intros [? ?]); try (by specialize (H3 eq_refl)).
Qed.

Example uuid_order_total_witness :
  uuid_lt uuid_clear sample_uuid = true ∧ uuid_gt uuid_clear sample_uuid = false.
Proof.
  split; [vm_compute; reflexivity |].
  apply (proj1 (proj2 (proj2 (proj2 (uuid_order_total uuid_clear sample_uuid uuid_clear))))).
  vm_compute. reflexivity.
Defined.

(** A generated identifier has 16 bytes, the first four being the time stamp, low byte
    first, and no byte filled from [rand() % 0xFF] ever has the value 0xFF. *)
Theorem uuid_generate_bytes t rand :
  uuid_wf (uuid_generate t rand) ∧
  (∀ i, i < 4 → ord <$> uuid_generate t rand !! i = Some ((t / 2 ^ (8 * Z.of_nat i)) mod 256)%Z) ∧
  (∀ i b, 4 ≤ i → uuid_generate t rand !! i = Some b → ord b = (rand i mod 255)%Z ∧ (ord b < 255)%Z).
Proof.
  unfold uuid_generate. split; [done |]. split.
  - intros i Hi. rewrite lookup_app_l by done. rewrite list_lookup_fmap, lookup_seq_lt by done.
    cbn [fmap option_fmap option_map Nat.add]. by rewrite ord_chr, Z.shiftr_div_pow2 by lia.
  - intros i b Hi. rewrite lookup_app_r by done. rewrite list_lookup_fmap.
    cbn [length fmap list_fmap seq]. intros (j & Hj & ->)%fmap_Some.
    change [4;5;6;7;8;9;10;11;12;13;14;15] with (seq 4 12) in Hj.
    apply lookup_seq in Hj as [-> Hj]. replace (4 + (i - 4)) with i by lia.
    pose proof (Z.mod_pos_bound (rand i) 255 eq_refl). rewrite ord_chr_small by lia. lia.
Qed.

Example uuid_generate_bytes_witness :
  (4 ≤ 4) ∧ (ord (chr 0) < 255)%Z ∧ uuid_generate 1 (λ _, 255%Z) !! 4 = Some (chr 0).
Proof.
  split; [lia |]. split; [| vm_compute; reflexivity].
  apply (proj2 (proj2 (uuid_generate_bytes 1 (λ _, 255%Z))) 4); [lia | vm_compute; reflexivity].
Defined.
