(* ===== verification/DateTime.v ===== *)
(** * [src/src/dcl/datetime.cpp] and [src/include/dcl/datetime.h]: date and time values.

    A [datetime] is a [time_t].  The C time functions it calls are the class [TimeLib]; what
    the setters rely on, that [mktime] and [localtime] are inverse on normalised dates, is
    the class [TimeLaws]. *)
From S2P Require Export StrUtils.

Record tm := Tm {
  tm_sec : Z;
  tm_min : Z;
  tm_hour : Z;
  tm_mday : Z;
  tm_mon : Z;
  tm_year : Z;
  tm_rest : Z * Z * Z }.

(** [tm_rest] holds the derived fields [tm_wday], [tm_yday] and [tm_isdst]. *)
Class TimeLib := {
  strptime : str → str → tm → tm;
  mktime : tm → Z;
  localtime : Z → tm;
  gmtime : Z → tm;
  strftime : str → tm → str }.

(** A date whose year, month, day and time of day are what [localtime] answers for some
    instant. *)
Definition same_date (a b : tm) : Prop :=
  tm_sec a = tm_sec b ∧ tm_min a = tm_min b ∧ tm_hour a = tm_hour b ∧
  tm_mday a = tm_mday b ∧ tm_mon a = tm_mon b ∧ tm_year a = tm_year b.

Class TimeLaws `{TimeLib} (valid : tm → Prop) : Prop := {
  localtime_valid : ∀ t, valid (localtime t);
  localtime_mktime : ∀ m, valid m → same_date (localtime (mktime m)) m;
  mktime_localtime : ∀ t m, same_date m (localtime t) → mktime m = t }.

Abbreviation datetime := Z.

(** ** Operations *)
Section operations.
Context `{TimeLib}.

Definition default_datetime_format : str := lit "%a, %d %b %Y %H:%M:%S %Z".

(** [datetime(src, fmt)]: the [tm] is not initialised before [strptime] fills it. *)
Definition datetime_parse (junk : tm) (src fmt : str) : datetime :=
  mktime (strptime (c_str src) (c_str fmt) junk).

Definition datetime_zero : datetime := 0%Z.

Definition dt_eq (a b : datetime) : bool := (a =? b)%Z.

Definition dt_lt (a b : datetime) : bool := (a <? b)%Z.

Definition dt_gt (a b : datetime) : bool := dt_lt b a.

Definition dt_le (a b : datetime) : bool := negb (dt_lt b a).

Definition dt_ge (a b : datetime) : bool := negb (dt_lt a b).

Definition dt_ne (a b : datetime) : bool := negb (dt_eq a b).

Definition dt_empty (a : datetime) : bool := (a =? 0)%Z.

(** The test of a moment, which is false for the empty one. *)
Definition dt_bool (a : datetime) : bool := negb (dt_empty a).

(** [operator-]: [difftime] converted to [int], which is undefined out of range. *)
Definition dt_minus (a b : datetime) : outcome Z :=
  if (INT_MIN <=? a - b)%Z && (a - b <=? INT_MAX)%Z then Ret (a - b)%Z else Undef.

Definition dt_year (t : datetime) : Z := tm_year (localtime t) + 1900.

Definition dt_set_year (val : Z) (t : datetime) : datetime :=
  let m := localtime t in
  mktime (Tm (tm_sec m) (tm_min m) (tm_hour m) (tm_mday m) (tm_mon m) (val - 1900) (tm_rest m)).

Definition dt_month (t : datetime) : Z := tm_mon (localtime t) + 1.

Definition dt_set_month (val : Z) (t : datetime) : datetime :=
  let m := localtime t in
  mktime (Tm (tm_sec m) (tm_min m) (tm_hour m) (tm_mday m) (val - 1) (tm_year m) (tm_rest m)).

Definition dt_day (t : datetime) : Z := tm_mday (localtime t).

Definition dt_set_day (val : Z) (t : datetime) : datetime :=
  let m := localtime t in
  mktime (Tm (tm_sec m) (tm_min m) (tm_hour m) val (tm_mon m) (tm_year m) (tm_rest m)).

Definition dt_hour (t : datetime) : Z := tm_hour (localtime t).

Definition dt_set_hour (val : Z) (t : datetime) : datetime :=
  let m := localtime t in
  mktime (Tm (tm_sec m) (tm_min m) val (tm_mday m) (tm_mon m) (tm_year m) (tm_rest m)).

Definition dt_minute (t : datetime) : Z := tm_min (localtime t).

Definition dt_set_minute (val : Z) (t : datetime) : datetime :=
  let m := localtime t in
  mktime (Tm (tm_sec m) val (tm_hour m) (tm_mday m) (tm_mon m) (tm_year m) (tm_rest m)).

Definition dt_second (t : datetime) : Z := tm_sec (localtime t).

Definition dt_set_second (val : Z) (t : datetime) : datetime :=
  let m := localtime t in
  mktime (Tm val (tm_min m) (tm_hour m) (tm_mday m) (tm_mon m) (tm_year m) (tm_rest m)).

Definition dt_clear : datetime := 0%Z.

(** [now]: what [time] answers. *)
Definition dt_now (clock : Z) : datetime := clock.

(** [strftime] into a buffer of 128 characters, terminator included: when the text does not
    fit the contents of the (uninitialised) buffer are unspecified. *)
Definition strftime_buffer (fmt : str) (m : tm) : outcome str :=
  let text := strftime fmt m in if length text <? 128 then Ret text else Undef.

Definition dt_str (format : str) (t : datetime) : outcome str :=
  strftime_buffer (c_str format) (localtime t).

Definition dt_as_gmt (t : datetime) : outcome str :=
  strftime_buffer (lit "%a, %d %b %Y %H:%M:%S GMT") (gmtime t).
End operations.

(** ** Properties *)

(** A field setter against its getter and the other fields, for any field [get]/[put]. *)
Lemma set_field_law `{TimeLib} (valid : tm → Prop) `{!TimeLaws valid} (f : tm → Z) (m : tm) :
  valid m → (∀ a b, same_date a b → f a = f b) → f (localtime (mktime m)) = f m.
Proof. intros Hm Hf. by apply Hf, localtime_mktime. Qed.

(** Each setter changes its own field and no other when the changed date is a valid one,
    and setting a field to the value it has gives the same instant back. *)
Theorem datetime_setters `{TimeLib} (valid : tm → Prop) `{!TimeLaws valid} t v :
  let m := localtime t in
  (valid (Tm (tm_sec m) (tm_min m) (tm_hour m) (tm_mday m) (tm_mon m) (v - 1900) (tm_rest m)) →
     dt_year (dt_set_year v t) = v ∧ dt_month (dt_set_year v t) = dt_month t ∧
     dt_day (dt_set_year v t) = dt_day t ∧ dt_hour (dt_set_year v t) = dt_hour t ∧
     dt_minute (dt_set_year v t) = dt_minute t ∧ dt_second (dt_set_year v t) = dt_second t) ∧
  (valid (Tm (tm_sec m) (tm_min m) (tm_hour m) (tm_mday m) (v - 1) (tm_year m) (tm_rest m)) →
     dt_month (dt_set_month v t) = v ∧ dt_year (dt_set_month v t) = dt_year t ∧
     dt_day (dt_set_month v t) = dt_day t) ∧
  (valid (Tm (tm_sec m) (tm_min m) (tm_hour m) v (tm_mon m) (tm_year m) (tm_rest m)) →
     dt_day (dt_set_day v t) = v ∧ dt_month (dt_set_day v t) = dt_month t) ∧
  (valid (Tm (tm_sec m) (tm_min m) v (tm_mday m) (tm_mon m) (tm_year m) (tm_rest m)) →
     dt_hour (dt_set_hour v t) = v ∧ dt_day (dt_set_hour v t) = dt_day t) ∧
  (valid (Tm (tm_sec m) v (tm_hour m) (tm_mday m) (tm_mon m) (tm_year m) (tm_rest m)) →
     dt_minute (dt_set_minute v t) = v ∧ dt_hour (dt_set_minute v t) = dt_hour t) ∧
  (valid (Tm v (tm_min m) (tm_hour m) (tm_mday m) (tm_mon m) (tm_year m) (tm_rest m)) →
     dt_second (dt_set_second v t) = v ∧ dt_minute (dt_set_second v t) = dt_minute t) ∧
  dt_set_year (dt_year t) t = t ∧ dt_set_month (dt_month t) t = t ∧ dt_set_day (dt_day t) t = t.
Proof.
  intros m. unfold dt_year, dt_month, dt_day, dt_hour, dt_minute, dt_second.
  repeat match goal with |- _ ∧ _ => split end;
    try (intros Hv; destruct (localtime_mktime _ Hv) as (? & ? & ? & ? & ? & ?); cbn in *;
         unfold dt_set_year, dt_set_month, dt_set_day, dt_set_hour, dt_set_minute,
           dt_set_second; subst m; repeat split; lia).
  all: apply mktime_localtime; subst m; unfold same_date; cbn; lia.
Qed.

(** A calendar of twelve 31-day months in UTC, enough to show the laws can hold. *)
Definition flat_tm (t : Z) : tm :=
  (let mi := t / 60 in let h := mi / 60 in let d := h / 24 in let mo := d / 31 in
   Tm (t mod 60) (mi mod 60) (h mod 24) (d mod 31 + 1) (mo mod 12) (mo / 12) (0, 0, 0))%Z.

Definition flat_calendar : TimeLib := {|
  strptime := λ _ _ m, m;
  mktime := λ m, ((((tm_year m * 12 + tm_mon m) * 31 + (tm_mday m - 1)) * 24 + tm_hour m) * 60
                   + tm_min m) * 60 + tm_sec m;
  localtime := flat_tm;
  gmtime := flat_tm;
  strftime := λ f _, f |}%Z.

Definition flat_valid (m : tm) : Prop :=
  (0 ≤ tm_sec m < 60 ∧ 0 ≤ tm_min m < 60 ∧ 0 ≤ tm_hour m < 24 ∧ 1 ≤ tm_mday m ≤ 31 ∧
   0 ≤ tm_mon m < 12)%Z.

Lemma div_mod_digit a b s : (0 ≤ s < b)%Z → ((a * b + s) / b = a ∧ (a * b + s) mod b = s)%Z.
Proof.
  intros. rewrite Z.div_add_l, Z.div_small by lia. split; [lia |].
  rewrite Z.add_comm, Z.mod_add by lia. by apply Z.mod_small.
Qed.

Lemma flat_calendar_laws : @TimeLaws flat_calendar flat_valid.
Proof.
  split; cbn [localtime mktime flat_calendar].
  - intros t. unfold flat_valid, flat_tm. cbn [tm_sec tm_min tm_hour tm_mday tm_mon].
    pose proof (Z.mod_pos_bound t 60). pose proof (Z.mod_pos_bound (t / 60) 60).
    pose proof (Z.mod_pos_bound (t / 60 / 60) 24).
    pose proof (Z.mod_pos_bound (t / 60 / 60 / 24) 31).
    pose proof (Z.mod_pos_bound (t / 60 / 60 / 24 / 31) 12). lia.
  - intros [s mi h d mo y r]. unfold flat_valid, same_date, flat_tm.
    cbn [tm_sec tm_min tm_hour tm_mday tm_mon tm_year].
    intros (Hs & Hmi & Hh & Hd & Hmo).
    repeat match goal with
    | |- context [((?a * ?b + ?c) / ?b)%Z] =>
        destruct (div_mod_digit a b c) as [-> ->]; [lia |]
    end.
    lia.
  - intros t [s mi h d mo y r]. unfold same_date, flat_tm.
    cbn [tm_sec tm_min tm_hour tm_mday tm_mon tm_year].
    intros (-> & -> & -> & -> & -> & ->).
    pose proof (Z.div_mod t 60). pose proof (Z.div_mod (t / 60) 60).
    pose proof (Z.div_mod (t / 60 / 60) 24).
    pose proof (Z.div_mod (t / 60 / 60 / 24) 31).
    pose proof (Z.div_mod (t / 60 / 60 / 24 / 31) 12). lia.
Qed.

Example datetime_setters_witness :
  (TimeLaws (H := flat_calendar) flat_valid) ∧
  (let _ := flat_calendar in
   dt_year (dt_set_year 2015 86399) = 2015 ∧ dt_second (dt_set_year 2015 86399) = 59)%Z.
Proof.
  pose proof flat_calendar_laws as HL. split; [exact HL |].
  destruct (@datetime_setters flat_calendar flat_valid HL 86399 2015) as [Hy _].
  cbv zeta in Hy. destruct Hy as (H1 & _ & _ & _ & _ & H2).
  - vm_compute. repeat split; discriminate.
  - split; [exact H1 | exact H2].
Defined.
