(* ===== verification/I18n.v ===== *)
(** * [src/src/dcl/i18n.cpp], and [as_gmt] of [datetime.cpp]: message catalogues and locales.

    [gettext]'s functions are the class [Gettext]: the directory of a catalogue is what
    [bindtextdomain] stored last.  Locale objects are numbers; a thread has a current one, and
    using it after it was freed is [Undef]. *)
From S2P Require Export DateTime.

Class Gettext := {
  (** the translation in the catalogue of this name found in this directory *)
  lookup_message : str → option str → str → str;
  locale_dir : str }.

(** The directories bound to catalogues, and whether [setlocale] was called. *)
Record catalogues := Catalogues { bound_dir : list (str * str); locale_set : bool }.

Section gettext.
Context `{Gettext}.

Definition bindtextdomain (catalog dir : str) (c : catalogues) : catalogues :=
  Catalogues ((catalog, dir) :: bound_dir c) true.

Definition register_catalog (catalog : str) : catalogues → catalogues :=
  bindtextdomain (c_str catalog) (c_str locale_dir).

Definition register_catalog_at (catalog path : str) : catalogues → catalogues :=
  bindtextdomain (c_str catalog) (c_str path).

Definition find_dir (catalog : str) (c : catalogues) : option str :=
  snd <$> List.find (λ e, str_eqb e.1 catalog) (bound_dir c).

Definition translate (catalog s : str) (c : catalogues) : str :=
  c_str (lookup_message (c_str catalog) (find_dir (c_str catalog) c) (c_str s)).

(** A catalogue is looked for where it was registered last, and other catalogues are not
    affected. *)
Lemma translate_registered catalog path other s c :
  translate catalog s (register_catalog_at catalog path c)
  = c_str (lookup_message (c_str catalog) (Some (c_str path)) (c_str s)) ∧
  (c_str other ≠ c_str catalog →
   translate other s (register_catalog_at catalog path c) = translate other s c).
Proof.
  unfold translate, register_catalog_at, bindtextdomain, find_dir. cbn. split.
  - unfold str_eqb. by rewrite bool_decide_true by done.
  - intros Hne. unfold str_eqb at 1. by rewrite bool_decide_false by done.
Qed.
End gettext.

(** ** Locales of a thread *)
Record locales := Locales { current : nat; freed_locales : list nat; made : nat }.

(** The process starts in the global locale, number 0, which is never freed. *)
Definition locales_new : locales := Locales 0 [] 1.

Definition newlocale (s : locales) : nat * locales :=
  (made s, Locales (current s) (freed_locales s) (S (made s))).

Definition uselocale (l : nat) (s : locales) : nat * locales :=
  (current s, Locales l (freed_locales s) (made s)).

Definition freelocale (l : nat) (s : locales) : locales :=
  Locales (current s) (l :: freed_locales s) (made s).

(** Anything that depends on the locale. *)
Definition using_locale {A} (a : A) (s : locales) : outcome A :=
  if decide (current s ∈ freed_locales s) then Undef else Ret a.

(** [i18n::locale(name)] and [i18n::locale(loc)]: the locale that was in use. *)
Definition locale_named (s : locales) : nat * locales :=
  let '(loc, s1) := newlocale s in
  let '(old_loc, s2) := uselocale loc s1 in
  (old_loc, freelocale loc s2).

Definition locale_given (loc : nat) (s : locales) : nat * locales :=
  let '(old_loc, s1) := uselocale loc s in (old_loc, freelocale loc s1).

(** The locales around the [strftime] of [datetime::as_gmt]. *)
Definition as_gmt_locales `{TimeLib} (t : Z) (s : locales) : outcome str * locales :=
  let '(loc, s1) := newlocale s in
  let '(old_loc, s2) := uselocale loc s1 in
  let s3 := freelocale loc s2 in
  let r := text ← using_locale () s3; dt_as_gmt t in
  (r, snd (uselocale old_loc s3)).

Lemma locale_named_dangles s : using_locale () (snd (locale_named s)) = Undef.
Proof. unfold using_locale. cbn. by rewrite decide_True by by left. Qed.

(** The locale in use is freed before the date is printed, and the earlier one comes back. *)
Lemma as_gmt_uses_freed `{TimeLib} t s :
  fst (as_gmt_locales t s) = Undef ∧ current (snd (as_gmt_locales t s)) = current s.
Proof.
  unfold as_gmt_locales, using_locale. cbn. split; [| done]. by rewrite decide_True by by left.
Qed.
