(* ===== verification/HttpHeader.v ===== *)
(** * [src/src/dcl/http_header.cpp] and [src/include/dcl/http_header.h]: HTTP messages.

    The status and method tables, cookies, the case-insensitive header map, the content
    buffer and the request and response records with the operators that print them.

    [add_content] stores one byte past the end of the content vector; the model carries on,
    as the program does when the byte is unused, and counts the stores in [overrun].
    The memory the constructors leave uninitialised is an argument ([uninit]). *)
From S2P Require Export StrUtils StdMap Streams DateTime.

Definition CRLF : str := [chr 13; chr 10].

(** ** [http_error] *)
Module http_error.
Inductive http_error : Set :=
  | error_continue
  | switching_protocols
  | ok
  | created
  | accepted
  | non_authoritative_information
  | no_content
  | reset_content
  | partial_content
  | multiple_choices
  | moved_permanently
  | found
  | see_other
  | not_modified
  | use_proxy
  | temporary_redirect
  | bad_request
  | unauthorized
  | payment_required
  | forbidden
  | not_found
  | method_not_allowed
  | not_acceptable
  | proxy_authentication_required
  | request_timeout
  | conflict
  | gone
  | length_required
  | precondition_failed
  | request_entity_too_large
  | request_uri_too_long
  | unsupported_media_type
  | requested_range_not_satisfiable
  | expectation_failed
  | internal_server_error
  | not_implemented
  | bad_gateway
  | service_unavailable
  | gateway_timeout
  | http_version_not_supported.

(** The value of each enumerator. *)
Definition error_code (e : http_error) : Z :=
  match e with
  | error_continue => 100
  | switching_protocols => 101
  | ok => 200
  | created => 201
  | accepted => 202
  | non_authoritative_information => 203
  | no_content => 204
  | reset_content => 205
  | partial_content => 206
  | multiple_choices => 300
  | moved_permanently => 301
  | found => 302
  | see_other => 303
  | not_modified => 304
  | use_proxy => 305
  | temporary_redirect => 307
  | bad_request => 400
  | unauthorized => 401
  | payment_required => 402
  | forbidden => 403
  | not_found => 404
  | method_not_allowed => 405
  | not_acceptable => 406
  | proxy_authentication_required => 407
  | request_timeout => 408
  | conflict => 409
  | gone => 410
  | length_required => 411
  | precondition_failed => 412
  | request_entity_too_large => 413
  | request_uri_too_long => 414
  | unsupported_media_type => 415
  | requested_range_not_satisfiable => 416
  | expectation_failed => 417
  | internal_server_error => 500
  | not_implemented => 501
  | bad_gateway => 502
  | service_unavailable => 503
  | gateway_timeout => 504
  | http_version_not_supported => 505
  end%Z.

Definition status_table : list (http_error * str) :=
  [ (error_continue, lit "Continue");
    (switching_protocols, lit "Switching Protocols");
    (ok, lit "OK");
    (created, lit "Created");
    (accepted, lit "Accepted");
    (non_authoritative_information, lit "Non Authoritative Information");
    (no_content, lit "No Content");
    (reset_content, lit "Reset Content");
    (partial_content, lit "Partial Content");
    (multiple_choices, lit "Multiple Choices");
    (moved_permanently, lit "Moved Permanently");
    (found, lit "Found");
    (see_other, lit "See Other");
    (not_modified, lit "Not Modified");
    (use_proxy, lit "Use Proxy");
    (temporary_redirect, lit "Temporary Redirect");
    (bad_request, lit "Bad Request");
    (unauthorized, lit "Unauthorized");
    (payment_required, lit "Payment Required");
    (forbidden, lit "Forbidden");
    (not_found, lit "Not Found");
    (method_not_allowed, lit "Method Not Allowed");
    (not_acceptable, lit "Not Acceptable");
    (proxy_authentication_required, lit "Proxy Authentication Required");
    (request_timeout, lit "Request Timeout");
    (conflict, lit "Conflict");
    (gone, lit "Gone");
    (length_required, lit "Length Required");
    (precondition_failed, lit "Precondition Failed");
    (request_entity_too_large, lit "Request Entity Too Large");
    (request_uri_too_long, lit "Request-URI Too Long");
    (unsupported_media_type, lit "Unsupported Media Type");
    (requested_range_not_satisfiable, lit "Requested Range Not Satisfiable");
    (expectation_failed, lit "Expectation Failed");
    (internal_server_error, lit "Internal Server Error");
    (not_implemented, lit "Not Implemented");
    (bad_gateway, lit "Bad Gateway");
    (service_unavailable, lit "Service Unavailable");
    (gateway_timeout, lit "Gateway Timeout");
    (http_version_not_supported, lit "HTTP Version Not Supported") ].

(** [convert]: [_map[value]] of a code that is not in the table is a null pointer. *)
Definition convert_error (e : http_error) : outcome str :=
  match List.find (λ x, Z.eqb (error_code x.1) (error_code e)) status_table with
  | Some x => Ret x.2
  | None => Undef
  end.
End http_error.

(** ** [http_method] *)
Module http_method.
Inductive http_method : Set :=
  | get
  | put
  | post
  | del
  | connect
  | options
  | trace
  | patch
  | propfind
  | proppatch
  | mkcol
  | copy
  | move
  | lock
  | unlock
  | version_control
  | checkout
  | uncheckout
  | checkin
  | update
  | label
  | report
  | mkworkspace
  | mkactivity
  | baseline_control
  | merge
  | unknown
  | head.

Definition method_code (m : http_method) : Z :=
  match m with
  | get => 0
  | put => 1
  | post => 2
  | del => 3
  | connect => 4
  | options => 5
  | trace => 6
  | patch => 7
  | propfind => 8
  | proppatch => 9
  | mkcol => 10
  | copy => 11
  | move => 12
  | lock => 13
  | unlock => 14
  | version_control => 15
  | checkout => 16
  | uncheckout => 17
  | checkin => 18
  | update => 19
  | label => 20
  | report => 21
  | mkworkspace => 22
  | mkactivity => 23
  | baseline_control => 24
  | merge => 25
  | unknown => 26
  | head => 27
  end%Z.

Definition method_names : list (str * http_method) :=
  [ (lit "GET", get);
    (lit "PUT", put);
    (lit "POST", post);
    (lit "DELETE", del);
    (lit "CONNECT", connect);
    (lit "OPTIONS", options);
    (lit "TRACE", trace);
    (lit "PATCH", patch);
    (lit "PROPFIND", propfind);
    (lit "PROPPATCH", proppatch);
    (lit "MKCOL", mkcol);
    (lit "COPY", copy);
    (lit "MOVE", move);
    (lit "LOCK", lock);
    (lit "UNLOCK", unlock);
    (lit "VERSION_CONTROL", version_control);
    (lit "CHECKOUT", checkout);
    (lit "UNCHECKOUT", uncheckout);
    (lit "CHECKIN", checkin);
    (lit "UPDATE", update);
    (lit "LABEL", label);
    (lit "REPORT", report);
    (lit "MKWORKSPACE", mkworkspace);
    (lit "MKACTIVITY", mkactivity);
    (lit "BASELINE_CONTROL", baseline_control);
    (lit "MERGE", merge);
    (lit "HEAD", head) ].

Definition names_of_methods : list (http_method * str) :=
  [ (get, lit "GET");
    (put, lit "PUT");
    (post, lit "POST");
    (del, lit "DELETE");
    (connect, lit "CONNECT");
    (options, lit "OPTIONS");
    (trace, lit "TRACE");
    (patch, lit "PATCH");
    (propfind, lit "PROPFIND");
    (proppatch, lit "PROPPATCH");
    (mkcol, lit "MKCOL");
    (copy, lit "COPY");
    (move, lit "MOVE");
    (lock, lit "LOCK");
    (unlock, lit "UNLOCK");
    (version_control, lit "VERSION_CONTROL");
    (checkout, lit "CHECKOUT");
    (uncheckout, lit "UNCHECKOUT");
    (checkin, lit "CHECKIN");
    (update, lit "UPDATE");
    (label, lit "LABEL");
    (report, lit "REPORT");
    (mkworkspace, lit "MKWORKSPACE");
    (mkactivity, lit "MKACTIVITY");
    (baseline_control, lit "BASELINE_CONTROL");
    (merge, lit "MERGE");
    (head, lit "HEAD") ].

Definition convert_string (s : str) : http_method :=
  match List.find (λ x, str_eqb x.1 s) method_names with
  | Some x => x.2
  | None => unknown
  end.

Definition convert_method (m : http_method) : outcome str :=
  match m with
  | unknown => Ret []
  | _ => match List.find (λ x, Z.eqb (method_code x.1) (method_code m)) names_of_methods with
         | Some x => Ret x.2
         | None => Undef
         end
  end.
End http_method.

(** ** Cookies *)
Record http_cookie := HttpCookie {
  secure : bool;
  http_only : bool;
  partitioned : bool;
  cookie_name : str;
  cookie_value : str;
  domain : str;
  expires : datetime;
  path : str;
  same_site : str }.

(** What a [http_cookie] constructor leaves to the memory it runs in: [partitioned] and the
    [tm] of each "expires" field. *)
Record uninit := Uninit { u_partitioned : bool; u_tm : nat → tm }.

(** [http_cookie()] and [http_cookie(name, value)]. *)
Definition http_cookie_make (u : uninit) (name value : str) : http_cookie :=
  HttpCookie false false (u_partitioned u) name value [] datetime_zero [] [].

Definition http_cookie_new (u : uninit) : http_cookie := http_cookie_make u [] [].

Section cookie_operations.
Context `{TimeLib}.

(** One round of the parser's loop, on the pair [p], [v] of a field. *)
Definition cookie_field (junk : tm) (c : http_cookie) (p v : str) : http_cookie :=
  let '(HttpCookie sec ho part n w d e pa ss) := c in
  if str_eqb p (lit "expires") then
    HttpCookie sec ho part n w d (datetime_parse junk v default_datetime_format) pa ss
  else if str_eqb p (lit "domain") then HttpCookie sec ho part n w v e pa ss
  else if str_eqb p (lit "path") then HttpCookie sec ho part n w d e v ss
  else if str_eqb p (lit "samesite") then HttpCookie sec ho part n w d e pa v
  else if str_eqb p (lit "secure") then HttpCookie true ho part n w d e pa ss
  else if str_eqb p (lit "HttpOnly") then HttpCookie sec true part n w d e pa ss
  else HttpCookie sec ho part p v d e pa ss.

Fixpoint cookie_fields (u : uninit) (i : nat) (c : http_cookie) (fields : list str) : http_cookie :=
  match fields with
  | [] => c
  | f :: fs =>
      let '(p, v) := tokenize_pair f [] [] false (lit "=") in
      cookie_fields u (S i) (cookie_field (u_tm u i) c (trim p) (trim v)) fs
  end.

(** [http_cookie(cookie)] *)
Definition http_cookie_parse (u : uninit) (cookie : str) : http_cookie :=
  cookie_fields u 0 (http_cookie_new u) (tokenize cookie (lit ";")).

(** [http_cookie::str] *)
Definition opt_attr (key v : str) : str := match v with [] => [] | _ => key ++ v end.

Definition http_cookie_str (c : http_cookie) : outcome str :=
  match cookie_name c with
  | [] => Ret []
  | n =>
      e ← (if dt_empty (expires c) then Ret []
           else app (lit "; expires=") <$> dt_as_gmt (expires c));
      Ret (n ++ lit "=" ++ cookie_value c ++ e
           ++ opt_attr (lit "; domain=") (domain c)
           ++ opt_attr (lit "; path=") (path c)
           ++ opt_attr (lit "; SameSite=") (same_site c)
           ++ (if secure c then lit "; secure" else [])
           ++ (if http_only c then lit "; HttpOnly" else [])
           ++ (if partitioned c then lit "; Partitioned" else []))
  end.
End cookie_operations.

(** ** Headers *)

(** [nocase_compare] and [ci_less]. *)
Definition nocase_compare : ascii → ascii → bool := less_on (λ c, ord (tolower c)) Z.ltb.

Definition ci_less : str → str → bool := lex_less nocase_compare.

Abbreviation http_headers := (list (str * str)).

Record http_header := HttpHeader {
  headers : http_headers;
  cookies : list http_cookie;
  content : list ascii;
  http_version : str;
  overrun : nat }.

Definition http_header_new : http_header := HttpHeader [] [] [] (lit "1.1") 0.

Definition with_headers (hs : http_headers) (h : http_header) : http_header :=
  HttpHeader hs (cookies h) (content h) (http_version h) (overrun h).

Definition with_cookies (cs : list http_cookie) (h : http_header) : http_header :=
  HttpHeader (headers h) cs (content h) (http_version h) (overrun h).

Definition with_content (c : list ascii) (n : nat) (h : http_header) : http_header :=
  HttpHeader (headers h) (cookies h) c (http_version h) n.

Definition set_http_version (value : str) (h : http_header) : http_header :=
  HttpHeader (headers h) (cookies h) (content h) value (overrun h).

(** [headers[key] = value] *)
Definition put_header (key value : str) (h : http_header) : http_header :=
  with_headers (map_set ci_less key value (headers h)) h.

Definition get_header (key : str) (h : http_header) : str :=
  match map_find ci_less key (headers h) with Some v => v | None => [] end.

Definition get_content_type (h : http_header) : str :=
  match map_find ci_less (lit "Content-Type") (headers h) with
  | Some v => v
  | None => lit "text/plain"
  end.

Definition set_content_type (value : str) (h : http_header) : http_header :=
  put_header (lit "Content-Type") value h.

Section header_operations.
Context `{TimeLib} (u : nat → uninit).

(** [set_header(key, value)]; [u] supplies the uninitialised memory of each cookie built. *)
Definition set_header (key value : str) (h : http_header) : http_header :=
  if compare key (lit "Cookie") then
    with_cookies
      (cookies h ++ imap (λ i c, http_cookie_parse (u i) c) (tokenize value (lit ";"))) h
  else if compare key (lit "Set-Cookie") then
    with_cookies (cookies h ++ [http_cookie_parse (u 0) value]) h
  else put_header key value h.

(** [set_header(header)] *)
Definition set_header_line (header : str) (h : http_header) : http_header :=
  match find_first_of (lit ":") header 0 with
  | Some pos => set_header (trim (substr 0 pos header)) (trim (drop (pos + 1) header)) h
  | None => h
  end.

(** [operator>>(istream, http_header)] *)
Definition read_header (s : stream) (h : http_header) : stream * http_header :=
  let '(w, s1) := read_word s in (s1, set_header_line w h).
End header_operations.

(** ** Content *)
Definition get_content_size (h : http_header) : Z :=
  match content h with [] => 0 | c => s32 (u64 (Z.of_nat (length c) - 1)) end.

(** [set_content(value_size, value)]: [value] must have [value_size] readable bytes. *)
Definition set_content_n (value_size : Z) (value : str) (h : http_header) : outcome http_header :=
  let n := Z.to_nat value_size in
  if length value <? n then Undef
  else Ret (put_header (lit "Content-Length") (to_string_int value_size)
              (with_content (take n value ++ content h ++ [nul]) (overrun h) h)).

(** [set_content(value)]: the length is converted to [int]. *)
Definition set_content (value : str) (h : http_header) : outcome http_header :=
  set_content_n (s32 (Z.of_nat (length value))) (value ++ [nul]) h.

(** [add_content(value_size, value)]: the content is resized with zeros, the bytes read
    replace it from its last byte on, and one zero is stored past its end. *)
Definition add_content_n (value_size : Z) (s : stream) (h : http_header) : stream * http_header :=
  let c := match content h with [] => [nul] | c => c end in
  let oldsize := length c in
  if (0 <? value_size)%Z then
    let n := Z.to_nat value_size in
    let '(got, s1) := read n s in
    let resized := c ++ replicate n nul in
    let filled := take (oldsize - 1) resized ++ got ++ drop (oldsize - 1 + length got) resized in
    (s1, put_header (lit "Content-Length")
           (to_string_int (s32 (Z.of_nat oldsize + value_size - 1)))
           (with_content filled (overrun h + (if oldsize + n <? length filled then 0 else 1)) h))
  else (s, put_header (lit "Content-Length") (lit "0") (with_content c (overrun h) h)).

(** A [streampos] as a number. *)
Definition pos_off (p : option nat) : Z := match p with Some n => Z.of_nat n | None => -1 end.

(** [add_content(value)]: the rest of the stream. *)
Definition add_content (s : stream) (h : http_header) : stream * http_header :=
  let '(pos, s1) := tellg s in
  let '(last, s2) := tellg (seekg_end s1) in
  let size := u64 (pos_off last - pos_off pos) in
  let s3 := seekg pos s2 in
  if (size =? 0)%Z then (set_eof s3, h) else add_content_n (s32 size) s3 h.

(** ** The cookie list *)
Definition get_cookies (h : http_header) : list http_cookie := cookies h.

Definition set_cookies (c : list http_cookie) (h : http_header) : http_header := with_cookies c h.

Definition set_cookie (c : http_cookie) (h : http_header) : http_header := with_cookies [c] h.

Definition add_cookie (c : http_cookie) (h : http_header) : http_header :=
  with_cookies (cookies h ++ [c]) h.

(** ** Requests *)
Record http_request := HttpRequest {
  req_header : http_header;
  _auth_type : str;
  _gateway_interface : str;
  _path_info : str;
  _path_translated : str;
  _query_string : str;
  _remote_addr : str;
  _remote_host : str;
  _remote_ident : str;
  _remote_user : str;
  _script_name : str;
  _server_name : str;
  _server_port : Z;
  _server_protocol : str;
  _method : http_method.http_method;
  _server_software : str;
  _https : bool }.

(** [http_request()]: [_method] is not initialised. *)
Definition http_request_new (junk : http_method.http_method) : http_request :=
  HttpRequest http_header_new [] [] [] [] [] [] [] [] [] [] [] 0 [] junk [] false.

Definition on_request (f : http_header → http_header) (r : http_request) : http_request :=
  let '(HttpRequest h a g pi pt q ra rh ri ru sn se sp pr m so s) := r in
  HttpRequest (f h) a g pi pt q ra rh ri ru sn se sp pr m so s.

Definition set_auth_type (value : str) (r : http_request) : http_request :=
  let '(HttpRequest h _ g pi pt q ra rh ri ru sn se sp pr m so s) := r in
  HttpRequest h value g pi pt q ra rh ri ru sn se sp pr m so s.

Definition set_gateway_interface (value : str) (r : http_request) : http_request :=
  let '(HttpRequest h a _ pi pt q ra rh ri ru sn se sp pr m so s) := r in
  HttpRequest h a value pi pt q ra rh ri ru sn se sp pr m so s.

Definition set_path_info (value : str) (r : http_request) : http_request :=
  let '(HttpRequest h a g _ pt q ra rh ri ru sn se sp pr m so s) := r in
  HttpRequest h a g value pt q ra rh ri ru sn se sp pr m so s.

Definition set_path_translated (value : str) (r : http_request) : http_request :=
  let '(HttpRequest h a g pi _ q ra rh ri ru sn se sp pr m so s) := r in
  HttpRequest h a g pi value q ra rh ri ru sn se sp pr m so s.

Definition set_query_string (value : str) (r : http_request) : http_request :=
  let '(HttpRequest h a g pi pt _ ra rh ri ru sn se sp pr m so s) := r in
  HttpRequest h a g pi pt value ra rh ri ru sn se sp pr m so s.

Definition set_remote_addr (value : str) (r : http_request) : http_request :=
  let '(HttpRequest h a g pi pt q _ rh ri ru sn se sp pr m so s) := r in
  HttpRequest h a g pi pt q value rh ri ru sn se sp pr m so s.

Definition set_remote_host (value : str) (r : http_request) : http_request :=
  let '(HttpRequest h a g pi pt q ra _ ri ru sn se sp pr m so s) := r in
  HttpRequest h a g pi pt q ra value ri ru sn se sp pr m so s.

Definition set_remote_ident (value : str) (r : http_request) : http_request :=
  let '(HttpRequest h a g pi pt q ra rh _ ru sn se sp pr m so s) := r in
  HttpRequest h a g pi pt q ra rh value ru sn se sp pr m so s.

Definition set_remote_user (value : str) (r : http_request) : http_request :=
  let '(HttpRequest h a g pi pt q ra rh ri _ sn se sp pr m so s) := r in
  HttpRequest h a g pi pt q ra rh ri value sn se sp pr m so s.

Definition set_script_name (value : str) (r : http_request) : http_request :=
  let '(HttpRequest h a g pi pt q ra rh ri ru _ se sp pr m so s) := r in
  HttpRequest h a g pi pt q ra rh ri ru value se sp pr m so s.

Definition set_server_name (value : str) (r : http_request) : http_request :=
  let '(HttpRequest h a g pi pt q ra rh ri ru sn _ sp pr m so s) := r in
  HttpRequest h a g pi pt q ra rh ri ru sn value sp pr m so s.

Definition set_server_port (value : Z) (r : http_request) : http_request :=
  let '(HttpRequest h a g pi pt q ra rh ri ru sn se _ pr m so s) := r in
  HttpRequest h a g pi pt q ra rh ri ru sn se value pr m so s.

Definition set_server_protocol (value : str) (r : http_request) : http_request :=
  let '(HttpRequest h a g pi pt q ra rh ri ru sn se sp _ m so s) := r in
  HttpRequest h a g pi pt q ra rh ri ru sn se sp value m so s.

Definition set_method_code (value : http_method.http_method) (r : http_request) : http_request :=
  let '(HttpRequest h a g pi pt q ra rh ri ru sn se sp pr _ so s) := r in
  HttpRequest h a g pi pt q ra rh ri ru sn se sp pr value so s.

Definition set_server_software (value : str) (r : http_request) : http_request :=
  let '(HttpRequest h a g pi pt q ra rh ri ru sn se sp pr m _ s) := r in
  HttpRequest h a g pi pt q ra rh ri ru sn se sp pr m value s.

Definition set_https (value : bool) (r : http_request) : http_request :=
  let '(HttpRequest h a g pi pt q ra rh ri ru sn se sp pr m so _) := r in
  HttpRequest h a g pi pt q ra rh ri ru sn se sp pr m so value.

Definition set_method (method : str) (r : http_request) : http_request :=
  set_method_code (http_method.convert_string method) r.

Definition request_method (r : http_request) : outcome str :=
  http_method.convert_method (_method r).

Definition get_host (r : http_request) : str := get_header (lit "Host") (req_header r).

Definition set_host (value : str) (r : http_request) : http_request :=
  on_request (put_header (lit "Host") value) r.

(** [operator<<(ostream, http_request)] *)
Fixpoint put_headers (hs : http_headers) (out : stream) : stream :=
  match hs with
  | [] => out
  | (k, v) :: hs' => put_headers hs' (write CRLF (write (k ++ lit ": " ++ v) out))
  end.

Fixpoint cookie_pairs (cs : list http_cookie) : str :=
  match cs with
  | [] => []
  | c :: cs' =>
      cookie_name c ++ lit "=" ++ cookie_value c
      ++ match cs' with [] => [] | _ => lit "; " ++ cookie_pairs cs' end
  end.

Definition put_content (h : http_header) (out : stream) : stream :=
  if (0 <? get_content_size h)%Z
  then write (take (Z.to_nat (get_content_size h)) (content h)) out else out.

Definition put_request (r : http_request) (out : stream) : stream :=
  let h := req_header r in
  let out1 := put_headers (headers h) out in
  let out2 :=
    match cookie_pairs (cookies h) with
    | [] => out1
    | s => write CRLF (write s (write (lit "Cookie: ") out1))
    end in
  put_content h (write CRLF out2).

(** ** Responses *)
Record http_response := HttpResponse {
  resp_header : http_header;
  _status : http_error.http_error }.

Definition http_response_new : http_response :=
  HttpResponse (set_content_type (lit "text/plain; charset=utf-8") http_header_new) http_error.ok.

Definition on_response (f : http_header → http_header) (r : http_response) : http_response :=
  HttpResponse (f (resp_header r)) (_status r).

Definition get_allow (r : http_response) : http_method.http_method :=
  match map_find ci_less (lit "Allow") (headers (resp_header r)) with
  | None => http_method.unknown
  | Some v => http_method.convert_string v
  end.

Definition set_allow (m : http_method.http_method) (r : http_response) : outcome http_response :=
  v ← http_method.convert_method m; Ret (on_response (put_header (lit "Allow") v) r).

Definition get_status (r : http_response) : outcome str :=
  text ← http_error.convert_error (_status r);
  Ret (to_string_int (http_error.error_code (_status r)) ++ lit " " ++ text).

Definition set_status (code : http_error.http_error) (r : http_response) : http_response :=
  HttpResponse (resp_header r) code.

(** [operator<<(ostream, http_response)] *)
Fixpoint put_set_cookies `{TimeLib} (cs : list http_cookie) (out : stream) : outcome stream :=
  match cs with
  | [] => Ret out
  | c :: cs' =>
      s ← http_cookie_str c;
      put_set_cookies cs' (write CRLF (write s (write (lit "Set-Cookie: ") out)))
  end.

Definition put_response `{TimeLib} (r : http_response) (out : stream) : outcome stream :=
  let h := resp_header r in
  out1 ← put_set_cookies (cookies h) (put_headers (headers h) out);
  Ret (put_content h (write CRLF out1)).

(** ** Lemmas: the two tables *)
Lemma find_str_In {A} (l : list (str * A)) s x :
  List.find (λ y, str_eqb y.1 s) l = Some x → In x l ∧ x.1 = s.
Proof.
  intros [H1 H2]%List.find_some. split; [done |]. by apply bool_decide_eq_true in H2.
Qed.

Lemma convert_method_total m : ∃ s, http_method.convert_method m = Ret s.
Proof. destruct m; by eexists. Qed.

Lemma convert_string_method m s :
  http_method.convert_method m = Ret s → http_method.convert_string s = m.
Proof. destruct m; intros [= <-]; reflexivity. Qed.

Lemma convert_error_total e :
  ∃ text, http_error.convert_error e = Ret text ∧ text ≠ [] ∧
    ∀ e', http_error.convert_error e' = Ret text → e' = e.
Proof.
  destruct e; (eexists; split; [reflexivity |]); (split; [discriminate |]);
    intros []; vm_compute; congruence.
Qed.

(** ** Lemmas: case-insensitive keys *)
Lemma tolower_toupper c : tolower (toupper c) = tolower c ∧ toupper (tolower c) = toupper c.
Proof. split; by_bytes c. Qed.

Lemma fmap_fold_case (f g : ascii → ascii) (x y : str) :
  (∀ c, f (g c) = f c) → g <$> x = g <$> y → f <$> x = f <$> y.
Proof.
  intros Hf H. apply (f_equal (fmap f)) in H. rewrite <- !list_fmap_compose in H.
  rewrite (list_fmap_ext f (f ∘ g) x), (list_fmap_ext f (f ∘ g) y); [done | |];
    intros; cbn; by rewrite Hf.
Qed.

Lemma ci_equiv_compare x y : key_equiv ci_less x y = compare x y.
Proof.
  apply eq_iff_eq_true. rewrite compare_toupper. unfold ci_less, nocase_compare.
  rewrite lex_equiv_map. change (λ c, ord (tolower c)) with (ord ∘ tolower).
  rewrite !(list_fmap_compose tolower ord).
  split; intros H.
  - apply (inj (fmap ord)) in H. eapply fmap_fold_case, H. intros c. apply tolower_toupper.
  - f_equal. eapply fmap_fold_case, H. intros c. apply tolower_toupper.
Qed.

#[global] Instance ci_less_order : KeyOrder ci_less.
Proof. unfold ci_less, nocase_compare. apply _. Qed.

Lemma compare_sym x y : compare x y = compare y x.
Proof. apply eq_iff_eq_true. rewrite !compare_toupper. split; congruence. Qed.

Lemma compare_refl x : compare x x = true.
Proof. by apply compare_toupper. Qed.

Lemma get_put_header k key v h :
  get_header k (put_header key v h) = if compare k key then v else get_header k h.
Proof.
  unfold get_header, put_header. cbn. rewrite compare_sym, <- ci_equiv_compare.
  destruct (key_equiv ci_less key k) eqn:E.
  - by rewrite map_find_set_same by (done || apply _).
  - by rewrite map_find_set_other by (done || apply _).
Qed.

Lemma put_header_sorted k v h :
  map_sorted ci_less (headers h) → map_sorted ci_less (headers (put_header k v h)).
Proof. apply map_set_sorted, _. Qed.

#[export] Hint Rewrite get_put_header compare_refl : dcl.
#[export] Hint Resolve put_header_sorted : dcl.

(** ** Lemmas: content *)
Lemma get_content_size_spec h body :
  content h = body ++ [nul] → (Z.of_nat (length body) ≤ INT_MAX)%Z →
  get_content_size h = Z.of_nat (length body).
Proof.
  intros Hc Hb. unfold get_content_size. rewrite Hc.
  destruct (body ++ [nul]) as [| c s] eqn:E; [by destruct body |]. rewrite <- E, length_app.
  cbn [length]. unfold INT_MAX in Hb. rewrite u64_small, s32_small; unfold INT_MIN, INT_MAX; lia.
Qed.

Lemma set_content_result value h :
  (Z.of_nat (length value) ≤ INT_MAX)%Z →
  set_content value h
  = Ret (put_header (lit "Content-Length") (print_dec (Z.of_nat (length value)))
           (with_content (value ++ content h ++ [nul]) (overrun h) h)).
Proof.
  intros Hv. unfold set_content, set_content_n.
  rewrite s32_small by (unfold INT_MIN, INT_MAX in *; lia). rewrite Nat2Z.id, length_app. cbn [length].
  destruct (Nat.ltb_spec (length value + 1) (length value)); [lia |].
  rewrite to_string_int_print by (unfold INT_MIN, INT_MAX in *; lia).
  by rewrite take_app_length.
Qed.

(** The content is empty or a body closed by one NUL. *)
Definition content_ok (h : http_header) (body : str) : Prop :=
  (content h = [] ∧ body = []) ∨ content h = body ++ [nul].

Lemma read_all n s :
  good s = true → n = length (rest s) →
  read n s = (rest s, set_gpos (gpos s + n) s).
Proof.
  intros Hg ->. unfold read. rewrite Hg, take_ge by done.
  by rewrite Nat.ltb_irrefl.
Qed.

Lemma add_content_n_result n s h body :
  good s = true → 0 < n → n = length (rest s) → content_ok h body →
  (Z.of_nat (length body) + Z.of_nat n ≤ INT_MAX)%Z →
  add_content_n (Z.of_nat n) s h
  = (set_gpos (gpos s + n) s,
     put_header (lit "Content-Length") (print_dec (Z.of_nat (length body) + Z.of_nat n))
       (with_content (body ++ rest s ++ [nul]) (S (overrun h)) h)).
Proof.
  intros Hg Hn Hr Hok Hb. unfold add_content_n.
  assert (match content h with [] => [nul] | c :: l => c :: l end = body ++ [nul]) as ->.
  { destruct Hok as [[-> ->] | ->]; [done | by destruct body]. }
  destruct (Z.ltb_spec 0 (Z.of_nat n)); [| lia].
  rewrite Nat2Z.id, read_all by done. rewrite length_app. cbn [length].
  replace (length body + 1 - 1) with (length body) by lia.
  rewrite <- app_assoc, take_app_length, <- Hr.
  replace (drop (length body + n) (body ++ [nul] ++ replicate n nul)) with [nul].
  2: { rewrite <- drop_drop, drop_app_length. change ([nul] ++ replicate n nul) with (replicate (S n) nul).
       rewrite drop_replicate. by replace (S n - n) with 1 by lia. }
  rewrite !length_app, <- Hr. cbn [length].
  destruct (Nat.ltb_spec (length body + 1 + n) (length body + (n + 1))); [lia |].
  f_equal. f_equal.
  - rewrite s32_small by (unfold INT_MIN, INT_MAX in *; lia).
    rewrite to_string_int_print by (unfold INT_MIN, INT_MAX in *; lia).
    f_equal. lia.
  - by rewrite Nat.add_1_r.
Qed.

Lemma add_content_result s h body :
  good s = true → rest s ≠ [] → content_ok h body →
  (Z.of_nat (length body) + Z.of_nat (length (rest s)) ≤ INT_MAX)%Z →
  add_content s h
  = (set_gpos (length (sbuf s)) s,
     put_header (lit "Content-Length")
       (print_dec (Z.of_nat (length body) + Z.of_nat (length (rest s))))
       (with_content (body ++ rest s ++ [nul]) (S (overrun h)) h)).
Proof.
  intros Hg Hne Hok Hb.
  assert (length (rest s) = length (sbuf s) - gpos s) as Hl by apply length_drop.
  assert (length (rest s) ≠ 0) by by destruct (rest s).
  pose proof (proj1 (good_spec s) Hg) as (He & Hf & Hbad).
  destruct s as [b g p e f bd]. cbn in He, Hf, Hbad. subst e f bd.
  set (s := Stream b g p false false false) in *.
  assert (tellg s = (Some g, s)) as Ht by done.
  assert (tellg (seekg_end s) = (Some (length b), set_gpos (length b) s)) as Ht' by done.
  assert (seekg (Some g) (set_gpos (length b) s) = s) as Hs by done.
  unfold add_content. rewrite Ht, Ht', Hs. cbn [pos_off]. change (gpos s) with g in *.
  change (sbuf s) with b in *. unfold INT_MAX in Hb.
  rewrite u64_small by lia. destruct (Z.eqb_spec (Z.of_nat (length b) - Z.of_nat g) 0); [lia |].
  rewrite s32_small by (unfold INT_MIN, INT_MAX; lia).
  replace (Z.of_nat (length b) - Z.of_nat g)%Z with (Z.of_nat (length (rest s))) by lia.
  rewrite (add_content_n_result _ _ _ body) by (done || lia).
  change (gpos s) with g. by replace (g + length (rest s)) with (length b) by lia.
Qed.

(** ** Lemmas: header lines *)
Definition header_line (e : str * str) : str := e.1 ++ lit ": " ++ e.2.

(** A header whose line is read back as the same header. *)
Definition header_ok (e : str * str) : Prop :=
  free (lit ":") e.1 ∧ trimmed e.1 ∧ trimmed e.2 ∧
  compare e.1 (lit "Cookie") = false ∧ compare e.1 (lit "Set-Cookie") = false.

Lemma put_headers_append hs out :
  at_end out →
  put_headers hs out = append (concat ((λ e, header_line e ++ CRLF) <$> hs)) out.
Proof.
  revert out. induction hs as [| [k v] hs IH]; intros out H; cbn [put_headers fmap list_fmap concat].
  - by rewrite append_nil.
  - append_simpl. rewrite IH by auto with dcl. rewrite append_append. reflexivity.
Qed.

Section header_lemmas.
Context `{TimeLib} (u : nat → uninit).

Lemma set_header_line_spec e h :
  header_ok e → set_header_line u (header_line e) h = put_header e.1 e.2 h.
Proof.
  intros (Hfree & Hk & Hv & Hc & Hsc). unfold set_header_line, find_first_of, header_line.
  change (lit ": " ++ e.2) with (":"%char :: " "%char :: e.2).
  rewrite drop_0, find_index_app_l by done. cbn [fmap option_fmap option_map Nat.add].
  unfold substr. rewrite drop_0, take_app_length, <- drop_drop, drop_app_length. cbn [drop].
  rewrite (trim_id e.1) by done.
  pose proof (trim_blanks [" "%char] e.2 []) as Ht. rewrite app_nil_r in Ht.
  change ([" "%char] ++ e.2) with (" "%char :: e.2) in Ht.
  rewrite Ht by (done || by repeat constructor). unfold set_header. by rewrite Hc, Hsc.
Qed.

Lemma set_header_lines hs h :
  Forall header_ok hs →
  foldl (λ a l, set_header_line u l a) h (header_line <$> hs)
  = with_headers (foldl (λ a e, map_set ci_less e.1 e.2 a) (headers h) hs) h.
Proof.
  intros Hok. revert h. induction Hok as [| e hs He _ IH]; intros h; cbn [fmap list_fmap foldl].
  - by destruct h.
  - rewrite set_header_line_spec by done. rewrite IH. by destruct h.
Qed.
End header_lemmas.

(** ** Lemmas: cookies *)

(** Text that survives in a cookie: trimmed and without a semicolon. *)
Definition attr_text (s : str) : Prop := trimmed s ∧ free (lit ";") s.

Definition attr_keys : list str :=
  lit <$> ["expires"; "domain"; "path"; "samesite"; "secure"; "HttpOnly"]%string.

Definition cookie_ok (c : http_cookie) : Prop :=
  cookie_name c ≠ [] ∧ attr_text (cookie_name c) ∧ free (lit "=") (cookie_name c) ∧
  (cookie_name c ∉ attr_keys) ∧ attr_text (cookie_value c) ∧
  attr_text (domain c) ∧ attr_text (path c) ∧ attr_text (same_site c) ∧ expires c = 0%Z.

(** A "key=value" field: its printed form, with the blank that follows a semicolon. *)
Definition field_text (key v : str) : str := " "%char :: key ++ lit "=" ++ v.

Lemma free_app delims a b : free delims (a ++ b) ↔ free delims a ∧ free delims b.
Proof. apply Forall_app. Qed.

Lemma trim_field key v :
  trimmed key → key ≠ [] → trimmed v → trim (field_text key v) = key ++ lit "=" ++ v.
Proof.
  intros. pose proof (trim_blanks [" "%char] (key ++ lit "=" ++ v) []) as Ht.
  rewrite app_nil_r in Ht. apply Ht; [by repeat constructor | done | by apply trimmed_key_value].
Qed.

Section cookie_lemmas.
Context `{TimeLib}.

Lemma cookie_fields_key u i c key v fs :
  trimmed key → free (lit "=") key → trimmed v →
  cookie_fields u i c ((key ++ lit "=" ++ v) :: fs)
  = cookie_fields u (S i) (cookie_field (u_tm u i) c key v) fs.
Proof.
  intros. cbn [cookie_fields]. change (lit "=" ++ v) with ("="%char :: v).
  rewrite tokenize_pair_first by done. by rewrite !trim_id.
Qed.

Lemma cookie_fields_flag u i c key fs :
  trimmed key → key ≠ [] → free (lit "=") key →
  cookie_fields u i c (key :: fs) = cookie_fields u (S i) (cookie_field (u_tm u i) c key []) fs.
Proof.
  intros. cbn [cookie_fields]. rewrite tokenize_pair_free by done. by rewrite trim_id.
Qed.

Lemma cookie_fields_attr u i c key v fs :
  trim key = key → key ≠ [] → free (lit "=") key → trimmed v →
  cookie_fields u i c (trim (field_text key v) :: fs)
  = cookie_fields u (S i) (cookie_field (u_tm u i) c key v) fs.
Proof.
  intros Hk Hne Hf Hv. assert (trimmed key) by (rewrite <- Hk; apply trim_trimmed).
  rewrite trim_field by done. by apply cookie_fields_key.
Qed.

Lemma cookie_field_name junk c n v :
  n ∉ attr_keys → cookie_field junk c n v
  = HttpCookie (secure c) (http_only c) (partitioned c) n v (domain c) (expires c) (path c)
      (same_site c).
Proof.
  intros Hn. destruct c. unfold cookie_field.
  assert (∀ k, k ∈ attr_keys → str_eqb n k = false) as Hk.
  { intros k Hin. apply bool_decide_eq_false. by intros ->. }
  rewrite !Hk by (unfold attr_keys; set_solver). done.
Qed.

(** The fields of a printed cookie, as the tokenizer cuts them. *)
Lemma tokenize_fields w ws :
  free (lit ";") w → Forall (free (lit ";")) ws → w ≠ [] →
  tokenize (w ++ concat ((cons ";"%char) <$> ws)) (lit ";") = trim <$> (w :: ws).
Proof.
  intros Hw Hws Hne. rewrite tokenize_split.
  assert (split_on (in_set (lit ";")) (w ++ concat ((cons ";"%char) <$> ws)) = w :: ws) as Hsp.
  { clear Hne. revert w Hw. induction Hws as [| w' ws Hw' _ IH]; intros w Hw;
      cbn [fmap list_fmap concat].
    - rewrite app_nil_r. by apply split_on_none.
    - cbn [app]. rewrite split_on_sep by done. by rewrite IH. }
  rewrite Hsp. destruct w; [done |]. done.
Qed.
End cookie_lemmas.

(** ** Properties *)

(** [http_method::convert] is a bijection between the 27 methods and their names: the
    name of a method is read back as that method, and every string that is not "unknown"
    is the name of the method it is read as. *)
Theorem http_method_roundtrip m s :
  (∃ name, http_method.convert_method m = Ret name ∧ http_method.convert_string name = m) ∧
  (http_method.convert_string s ≠ http_method.unknown →
     http_method.convert_method (http_method.convert_string s) = Ret s).
Proof.
  split.
  - destruct (convert_method_total m) as [name Hn]. exists name. eauto using convert_string_method.
  - unfold http_method.convert_string. destruct (List.find _ _) as [[k m'] |] eqn:Hf; [| done].
    intros _. apply find_str_In in Hf as [Hin Hs]. cbn in *. subst k.
    repeat (destruct Hin as [[= <- <-] | Hin]; [reflexivity |]). done.
Qed.

(** The status line of a response is its three-digit code, a blank and the text of the
    code; every code has a text, and no two codes share one. *)
Theorem http_status_text r :
  ∃ text, get_status r = Ret (print_dec (http_error.error_code (_status r)) ++ lit " " ++ text) ∧
    length (print_dec (http_error.error_code (_status r))) = 3 ∧ text ≠ [] ∧
    ∀ e, http_error.convert_error e = Ret text → e = _status r.
Proof.
  destruct r as [h e]. unfold get_status. cbn [_status].
  destruct (convert_error_total e) as (text & -> & Hne & Hinj).
  exists text. cbn [mbind outcome_bind]. repeat split; [| by destruct e | done | done].
  rewrite to_string_int_print; [done |]. unfold INT_MIN, INT_MAX. by destruct e.
Qed.

(** C39. A header that is not a cookie is stored under its name whatever the case and changes
    nothing else; cookie headers leave the header map alone and append one cookie, or one per
    piece between semicolons.  The map stays sorted without duplicate names. *)
Theorem set_header_case_insensitive `{TimeLib} u key value h k :
  map_sorted ci_less (headers h) →
  let h' := set_header u key value h in
  map_sorted ci_less (headers h') ∧ content h' = content h ∧
  (if compare key (lit "Cookie") || compare key (lit "Set-Cookie") then
     headers h' = headers h ∧ get_header k h' = get_header k h ∧
     length (cookies h') = length (cookies h) +
       (if compare key (lit "Cookie") then length (tokenize value (lit ";")) else 1)
   else
     cookies h' = cookies h ∧
     get_header k h' = if compare k key then value else get_header k h).
Proof.
  intros Hs h'. subst h'. unfold set_header.
  destruct (compare key (lit "Cookie")) eqn:E1; cbn [orb];
    [| destruct (compare key (lit "Set-Cookie")) eqn:E2]; cbn [headers content cookies with_cookies].
  - rewrite length_app, length_imap. repeat split; auto.
  - rewrite length_app. repeat split; auto.
  - repeat split; [auto with dcl |]. apply get_put_header.
Qed.

(** [set_content] writes a content whose size is the "Content-Length" it sets exactly when
    the message had no content before; otherwise the old bytes stay behind the new ones and
    the header is too small. *)
Theorem set_content_length value h :
  (Z.of_nat (length value) + Z.of_nat (length (content h)) ≤ INT_MAX)%Z →
  ∃ h', set_content value h = Ret h' ∧ content h' = value ++ content h ++ [nul] ∧
    from_string_int (get_header (lit "content-length") h') = Z.of_nat (length value) ∧
    (get_content_size h' = Z.of_nat (length value) ↔ content h = []) ∧
    (content h = [] → content_ok h' value).
Proof.
  intros Hb. rewrite set_content_result by lia. eexists. split; [reflexivity |].
  split; [done |]. rewrite get_put_header.
  change (compare (lit "content-length") (lit "Content-Length")) with true. cbv iota.
  rewrite from_string_int_print by (unfold INT_MIN, INT_MAX in *; lia). split; [done |].
  rewrite (get_content_size_spec _ (value ++ content h)).
  - split; [| intros ->; by right]. rewrite length_app.
    split; [| intros ->; cbn; lia]. intros Hl. apply length_zero_iff_nil. lia.
  - cbn. by rewrite <- app_assoc.
  - rewrite length_app. lia.
Qed.

(** [add_content] of a good stream appends the unread bytes to the body, sets
    "Content-Length" to the new size, consumes the stream, and stores one byte past the end of
    the buffer; on an exhausted stream it only sets its [eofbit]. *)
Theorem add_content_appends s h body :
  good s = true → content_ok h body →
  (Z.of_nat (length body) + Z.of_nat (length (rest s)) ≤ INT_MAX)%Z →
  let '(s', h') := add_content s h in
  (rest s ≠ [] →
     content h' = body ++ rest s ++ [nul] ∧
     get_content_size h' = (Z.of_nat (length body) + Z.of_nat (length (rest s)))%Z ∧
     from_string_int (get_header (lit "Content-Length") h') = get_content_size h' ∧
     rest s' = [] ∧ good s' = true ∧ overrun h' = S (overrun h)) ∧
  (rest s = [] → gpos s ≤ length (sbuf s) → h' = h ∧ eofbit s' = true).
Proof.
  intros Hg Hok Hb. destruct (decide (rest s = [])) as [Hr | Hr].
  - destruct (add_content s h) as [s' h'] eqn:E. split; [done |]. intros _ Hle. revert E.
    assert (length (rest s) = length (sbuf s) - gpos s) as Hl by apply length_drop.
    rewrite Hr in Hl. cbn in Hl.
    apply good_spec in Hg as (He & Hf & Hbad). destruct s as [b g p e f bd].
    cbn in He, Hf, Hbad, Hle, Hl. subst e f bd. unfold add_content. set (s := Stream b g p false false false).
    assert (tellg s = (Some g, s)) as -> by done.
    assert (tellg (seekg_end s) = (Some (length b), set_gpos (length b) s)) as -> by done.
    replace (pos_off (Some (length b)) - pos_off (Some g))%Z with 0%Z by (cbn; lia).
    cbn. by intros [= <- <-].
  - rewrite (add_content_result _ _ body) by done. split; [| done]. intros _.
    split; [done |].
    rewrite (get_content_size_spec _ (body ++ rest s)), length_app by
      (rewrite ?length_app; cbn; rewrite <- ?app_assoc; done || lia).
    rewrite get_put_header, compare_refl. cbv iota.
    rewrite from_string_int_print by (unfold INT_MIN, INT_MAX in *; lia).
    repeat split; [lia | lia | | done].
    unfold rest. cbn. by rewrite drop_all.
Qed.

(** C9. Printing the header block of a message and reading its lines back with
    [set_header] rebuilds the header map. *)
Theorem header_block_roundtrip `{TimeLib} u h out :
  map_sorted ci_less (headers h) → Forall header_ok (headers h) → at_end out →
  sbuf (put_headers (headers h) out)
    = sbuf out ++ concat ((λ e, header_line e ++ CRLF) <$> headers h) ∧
  headers (foldl (λ a l, set_header_line u l a) http_header_new (header_line <$> headers h))
    = headers h.
Proof.
  intros Hs Hok Hout. rewrite put_headers_append by done. split; [done |].
  rewrite set_header_lines by done. exact (map_set_rebuild ci_less _ [] Hs).
Qed.

(** A cookie is read back from its own text, "SameSite" apart: with that attribute printed
    the parser, which only knows "samesite", takes it for the name and value of the cookie;
    "partitioned" is printed when set and never read.  *)
Theorem cookie_text_roundtrip `{TimeLib} u c :
  cookie_ok c → partitioned c = false → u_partitioned u = false →
  ∃ text, http_cookie_str c = Ret text ∧
    http_cookie_parse u text =
      match same_site c with
      | [] => c
      | ss => HttpCookie (secure c) (http_only c) false (lit "SameSite") ss (domain c) 0 (path c) []
      end.
Proof.
  destruct c as [sec ho part n v d e pa ss].
  intros (Hne & [Htn Hsn] & Hfn & Hn & [Htv Hsv] & [Htd Hsd] & [Htp Hsp] & [Hts Hss] & He) Hpart Hu.
  cbn in Hne, Htn, Hsn, Hfn, Hn, Htv, Hsv, Htd, Hsd, Htp, Hsp, Hts, Hss, He, Hpart. subst part e.
  set (opt := λ k (s : str), match s with [] => [] | _ => [field_text (lit k) s] end).
  set (ws := opt "domain"%string d ++ opt "path"%string pa ++ opt "SameSite"%string ss
             ++ (if sec then [lit " secure"] else []) ++ (if ho then [lit " HttpOnly"] else [])).
  set (w := n ++ lit "=" ++ v).
  exists (w ++ concat ((cons ";"%char) <$> ws)). split.
  - unfold http_cookie_str. cbn [cookie_name expires]. destruct n as [| a n]; [done |].
    cbn [dt_empty Z.eqb mbind outcome_bind]. subst w ws opt.
    cbn [cookie_value domain path same_site secure http_only partitioned].
    rewrite !fmap_app, !concat_app. unfold opt_attr.
    destruct d, pa, ss, sec, ho; cbn; by rewrite <- ?app_assoc, ?app_nil_r.
  - unfold http_cookie_parse.
    assert (∀ k s, free (lit ";") (lit k) → free (lit ";") s →
      Forall (free (lit ";")) (opt k s)) as Hopt.
    { intros k s Hk Hs. subst opt. cbn. destruct s; constructor; [| done].
      constructor; [done |]. apply free_app. split; [done |]. by constructor. }
    rewrite tokenize_fields; cycle 1.
    { subst w. rewrite !free_app. split; [done |]. split; [by repeat constructor | done]. }
    { subst ws. rewrite !Forall_app.
      repeat split; [apply Hopt; by repeat constructor.. | |]; destruct sec, ho; by repeat constructor. }
    { subst w. by destruct n. }
    cbn [fmap list_fmap]. subst w. rewrite trim_id by by apply trimmed_key_value.
    rewrite cookie_fields_key by done. rewrite cookie_field_name by done.
    unfold http_cookie_new, http_cookie_make. rewrite Hu. subst ws opt. cbn [same_site].
    destruct d, pa, ss, sec, ho; cbn -[cookie_field field_text trim lit cookie_fields];
      rewrite ?cookie_fields_attr by (done || by repeat constructor); reflexivity.
Qed.

Definition sample_cookie : http_cookie :=
  HttpCookie true false false (lit "id") (lit "a=b") (lit "example.org") 0 (lit "/") (lit "Lax").

Example cookie_text_roundtrip_witness :
  let _ := flat_calendar in
  cookie_ok sample_cookie ∧
  ∃ text, http_cookie_str sample_cookie = Ret text ∧
    cookie_name (http_cookie_parse (Uninit false (λ _, flat_tm 0)) text) = lit "SameSite".
Proof.
  cbv zeta. assert (cookie_ok sample_cookie) as Hok.
  { assert (∀ s, trim s = s → forallb (λ c, negb (in_set (lit ";") c)) s = true → attr_text s) as Ha.
    { intros s Hs Hf. split; [rewrite <- Hs; apply trim_trimmed |]. apply Forall_forall.
      intros c Hc%list_elem_of_In. rewrite forallb_forall in Hf. specialize (Hf c Hc).
      by destruct (in_set (lit ";") c). }
    unfold cookie_ok. repeat match goal with |- _ ∧ _ => split end;
      try (apply Ha; reflexivity); try discriminate; try reflexivity.
    - by repeat constructor.
    - rewrite list_elem_of_In. vm_compute. intuition congruence. }
  split; [exact Hok |].
  destruct (@cookie_text_roundtrip flat_calendar (Uninit false (λ _, flat_tm 0)) sample_cookie
              Hok eq_refl eq_refl) as (text & Ht & Hp).
  exists text. split; [exact Ht |]. rewrite Hp. reflexivity.
Defined.

Example set_header_case_insensitive_witness :
  let _ := flat_calendar in let u := λ _ : nat, Uninit false (λ _, flat_tm 0) in
  map_sorted ci_less (headers http_header_new) ∧
  get_header (lit "HOST") (set_header u (lit "host") (lit "a") http_header_new) = lit "a".
Proof.
  cbv zeta. assert (map_sorted ci_less (headers http_header_new)) as H by constructor.
  split; [exact H |].
  pose proof (@set_header_case_insensitive flat_calendar (λ _, Uninit false (λ _, flat_tm 0))
    (lit "host") (lit "a") http_header_new (lit "HOST") H) as (_ & _ & _ & Hg).
  exact Hg.
Defined.

Example set_content_length_witness :
  let h := with_content [nul] 0 http_header_new in
  (Z.of_nat (length (lit "ab")) + Z.of_nat (length (content h)) ≤ INT_MAX)%Z ∧
  ∃ h', set_content (lit "ab") h = Ret h' ∧ content h' = lit "ab" ++ [nul; nul].
Proof.
  cbv zeta. assert (Z.of_nat (length (lit "ab"))
    + Z.of_nat (length (content (with_content [nul] 0 http_header_new))) ≤ INT_MAX)%Z as H
    by (vm_compute; discriminate).
  split; [exact H |].
  destruct (set_content_length (lit "ab") _ H) as (h' & H1 & H2 & _). exists h'. split; assumption.
Defined.

Example add_content_appends_witness :
  good (of_string (lit "xyz")) = true ∧ content_ok http_header_new [] ∧
  content (add_content (of_string (lit "xyz")) http_header_new).2 = lit "xyz" ++ [nul].
Proof.
  assert (content_ok http_header_new []) as Hok by by left.
  split; [reflexivity |]. split; [exact Hok |].
  pose proof (add_content_appends (of_string (lit "xyz")) http_header_new [] eq_refl Hok) as H.
  destruct (add_content (of_string (lit "xyz")) http_header_new) as [s' h'].
  apply H; [vm_compute; discriminate | discriminate].
Defined.

Definition sample_headers : http_header :=
  put_header (lit "Host") (lit "a b") (put_header (lit "Accept") (lit "c") http_header_new).

Example header_block_roundtrip_witness :
  let _ := flat_calendar in let u := λ _ : nat, Uninit false (λ _, flat_tm 0) in
  Forall header_ok (headers sample_headers) ∧
  headers (foldl (λ a l, set_header_line u l a) http_header_new
             (header_line <$> headers sample_headers)) = headers sample_headers.
Proof.
  cbv zeta.
  assert (∀ e, forallb (λ c, negb (in_set (lit ":") c)) e.1 = true → trim e.1 = e.1 →
    trim e.2 = e.2 → compare e.1 (lit "Cookie") = false → compare e.1 (lit "Set-Cookie") = false →
    header_ok e) as Ha.
  { intros e Hf Hk Hv H1 H2. repeat match goal with |- header_ok _ => unfold header_ok end.
    rewrite <- Hv. split; [| split; [rewrite <- Hk; apply trim_trimmed |
      split; [apply trim_trimmed | by split]]].
    apply Forall_forall. intros c Hc%list_elem_of_In.
    rewrite forallb_forall in Hf. specialize (Hf c Hc). by destruct (in_set (lit ":") c). }
  assert (Forall header_ok (headers sample_headers)) as Hok.
  { change (headers sample_headers) with [(lit "Accept", lit "c"); (lit "Host", lit "a b")].
    constructor; [by apply Ha |]. constructor; [by apply Ha | constructor]. }
  split; [exact Hok |].
  refine (proj2 (@header_block_roundtrip flat_calendar _ sample_headers (of_string []) _ Hok _)).
  - unfold sample_headers. repeat apply put_header_sorted. constructor.
  - split; reflexivity.
Defined.
