(* ===== verification/Url.v ===== *)
(** * [src/src/dcl/url.cpp] and [src/include/dcl/url.h]: URLs.

    The class [url] as a record, its parser and printer, the escape codec and the path
    normaliser.  The services database behind [getservbyname] is the class [Services]. *)
From S2P Require Export StrUtils.

(** The port [getservbyname(scheme, "tcp")] finds, in host byte order. *)
Class Services := getservbyname : str → option Z.

Record url := Url {
  scheme : str;
  user : str;
  password : str;
  host : str;
  port : Z;
  path : str;
  query : str;
  fragment : str;
  parameters : str }.

Definition url_new : url := Url [] [] [] [] 0 [] [] [] [].

(** ** Parsing *)

(** [pos = t.find(c)], then the text before and after it. *)
Definition cut_at (c : ascii) (t : str) : option (str * str) :=
  match find_char c t with
  | Some pos => Some (take pos t, drop (pos + 1) t)
  | None => None
  end.

(** The scheme, when there is one, and the rest of the text. *)
Definition parse_scheme (t : str) : str * str :=
  match find_char ":"%char t with
  | Some pos =>
      if (2 <? pos) && (pos + 2 <? length t)
         && bool_decide (t !! (pos + 1) = Some "/"%char)
         && bool_decide (t !! (pos + 2) = Some "/"%char)
      then (take pos t, drop (pos + 3) t) else ([], t)
  | None => ([], t)
  end.

(** The server part: up to the first slash, which stays in the path. *)
Definition parse_host (t : str) : str * str :=
  match find_char "/"%char t with
  | None => (t, [])
  | Some pos => (take pos t, drop pos t)
  end.

(** [user[:password]@], and the host after it. *)
Definition parse_user (u : url) : url :=
  match cut_at "@"%char (host u) with
  | None => u
  | Some (us, h) =>
      match cut_at ":"%char us with
      | None => Url (scheme u) us (password u) h (port u) (path u) (query u) (fragment u) (parameters u)
      | Some (us', pw) =>
          Url (scheme u) us' pw h (port u) (path u) (query u) (fragment u) (parameters u)
      end
  end.

Definition parse_port (u : url) : url :=
  match cut_at ":"%char (host u) with
  | None => u
  | Some (h, p) =>
      Url (scheme u) (user u) (password u) h
        (match p with [] => port u | _ => from_string_int p end)
        (path u) (query u) (fragment u) (parameters u)
  end.

(** Parameters, fragment and query, cut off in this order; the rest of the text is returned. *)
Definition parse_tail (t : str) (u : url) : str * url :=
  let '(t1, ps) := default (t, parameters u) (cut_at ";"%char t) in
  let '(t2, fr) := default (t1, fragment u) (cut_at "#"%char t1) in
  let '(t3, qu) := default (t2, query u) (cut_at "?"%char t2) in
  (t3, Url (scheme u) (user u) (password u) (host u) (port u) (path u) qu fr ps).

Definition set_path (p : str) (u : url) : url :=
  Url (scheme u) (user u) (password u) (host u) (port u) p (query u) (fragment u) (parameters u).

Section operations.
Context `{Services}.

(** [url::parse]: the fields the text does not mention keep their value. *)
Definition url_parse (value : str) (u : url) : url :=
  let '(sc, t) := parse_scheme value in
  let '(h, t1) := match sc with [] => (host u, t) | _ => parse_host t end in
  let u1 := Url sc (user u) (password u) h (port u) (path u) (query u) (fragment u) (parameters u) in
  let '(t2, u2) :=
    if negb (str_eqb sc []) && negb (str_eqb sc (lit "file")) then
      let u2 := Url sc (user u) (password u) h (default (port u) (getservbyname (c_str sc)))
                  (path u) (query u) (fragment u) (parameters u) in
      parse_tail t1 (parse_port (parse_user u2))
    else (t1, u1) in
  set_path (match t2 with "/"%char :: _ => t2 | _ => "/"%char :: t2 end) u2.

(** [url(value)]; a null pointer gives the empty url. *)
Definition url_of_string (value : str) : url := url_parse value url_new.

Definition url_of_cstr (value : option str) : url :=
  match value with Some v => url_parse v url_new | None => url_new end.

(** ** Printing *)
Definition prefixed (c : ascii) (s : str) : str := match s with [] => [] | _ => c :: s end.

Definition get_full_path (u : url) : str :=
  path u ++ prefixed "?" (query u) ++ prefixed "#" (fragment u) ++ prefixed ";" (parameters u).

Definition port_text (u : url) : str :=
  if (0 <? port u)%Z then
    match getservbyname (c_str (scheme u)) with
    | Some p => if (p =? port u)%Z then [] else ":"%char :: to_string_int (port u)
    | None => []
    end
  else [].

Definition url_str (u : url) : str :=
  let rslt :=
    match scheme u with [] => [] | s => s ++ lit "://" end
    ++ match user u with
       | [] => []
       | us => us ++ match password u with [] => [] | pw => lit ":" ++ pw ++ lit "@" end
       end
    ++ match host u with [] => [] | h => h ++ port_text u end
    ++ get_full_path u in
  match rslt with [] => lit "/" | _ => rslt end.
End operations.

(** [url::copy_from] *)
Definition or_else (a b : str) : str := match a with [] => b | _ => a end.

Definition copy_from (u v : url) : url :=
  Url (or_else (scheme u) (scheme v)) (or_else (user u) (user v))
    (or_else (password u) (password v)) (or_else (host u) (host v))
    (if (0 <? port u)%Z then port u else port v)
    (or_else (path u) (path v)) (or_else (query u) (query v))
    (or_else (fragment u) (fragment v)) (or_else (parameters u) (parameters v)).

(** ** The escape codec *)
Definition must_escape (c : ascii) : bool :=
  (ord c <? 48)%Z || ((58 <? ord c)%Z && (ord c <? 65)%Z)
  || ((91 <? ord c)%Z && (ord c <? 97)%Z) || (123 <? ord c)%Z.

Fixpoint encode (value : str) : str :=
  match value with
  | [] => []
  | c :: s => (if must_escape c then "%"%char :: print_hex2 true (ord c) else [c]) ++ encode s
  end.

Fixpoint decode (value : str) : str :=
  match value with
  | [] => []
  | c :: s =>
      let plain := if bool_decide (c = "+"%char) then " "%char else c in
      match s with
      | a :: b :: s' =>
          if bool_decide (c = "%"%char) && isxdigit a && isxdigit b
          then chr (strtol [a; b] 16) :: decode s'
          else plain :: decode s
      | _ => plain :: decode s
      end
  end.

(** ** Normalisation *)

(** The loop over the reversed segments: [s] elements are still to be skipped. *)
Fixpoint normalize_loop (v : list str) (s : nat) (acc : str) : str :=
  match v with
  | [] => acc
  | i :: v' =>
      if str_eqb i (lit "..") then normalize_loop v' (S s) acc
      else if str_eqb i (lit ".") then normalize_loop v' s acc
      else if str_eqb i [] then acc
      else match s with
           | S s' => normalize_loop v' s' acc
           | O => normalize_loop v' 0 ("/"%char :: i ++ acc)
           end
  end.

Definition normalize (base_path : str) (u : url) : url :=
  let p := match path u with
           | ("/"%char | "\"%char) :: p => p
           | p => p
           end in
  let v := tokenize (base_path ++ p) (lit "/") in
  set_path (normalize_loop (reverse v) 0 []) u.

(** ** Lemmas: cutting text *)
Lemma find_char_app c s1 s2 :
  free [c] s1 → find_char c (s1 ++ c :: s2) = Some (length s1).
Proof.
  intros H. apply find_index_app_l; [| by apply bool_decide_eq_true].
  eapply Forall_impl; [exact H |]. cbn. intros d Hd%in_set_false.
  apply bool_decide_eq_false. intros ->. apply Hd. by left.
Qed.

Lemma find_char_free c s : free [c] s → find_char c s = None.
Proof.
  intros H. apply find_index_None. eapply Forall_impl; [exact H |]. cbn.
  intros d Hd%in_set_false. apply bool_decide_eq_false. intros ->. apply Hd. by left.
Qed.

Lemma cut_at_app c s1 s2 : free [c] s1 → cut_at c (s1 ++ c :: s2) = Some (s1, s2).
Proof.
  intros H. unfold cut_at. rewrite find_char_app by done.
  by rewrite take_app_length, <- drop_drop, drop_app_length.
Qed.

Lemma cut_at_free c s : free [c] s → cut_at c s = None.
Proof. intros H. unfold cut_at. by rewrite find_char_free. Qed.

(** Text with an optional tail that starts with [c]. *)
Lemma cut_at_prefixed c s t old :
  free [c] s → default (s ++ prefixed c t, old) (cut_at c (s ++ prefixed c t))
               = (s, match t with [] => old | _ => t end).
Proof.
  intros H. destruct t as [| a t]; cbn [prefixed].
  - rewrite app_nil_r, cut_at_free by done. done.
  - by rewrite cut_at_app.
Qed.

Lemma free_sub delims delims' s :
  free delims s → (∀ c, c ∈ delims' → c ∈ delims) → free delims' s.
Proof.
  intros H Hs. eapply Forall_impl; [exact H |]. cbn.
  intros c Hc%in_set_false. apply in_set_false. auto.
Qed.

(** ** Lemmas: the codec *)
Lemma decode_plain c s :
  c ≠ "%"%char → c ≠ "+"%char → decode (c :: s) = c :: decode s.
Proof.
  intros H1 H2. destruct s as [| a [| b s]]; cbn [decode];
    rewrite ?(bool_decide_false (c = "+"%char)), ?(bool_decide_false (c = "%"%char)) by done; done.
Qed.

Lemma escape_byte c :
  isxdigit (digit_char true (ord c / 16)) = true ∧ isxdigit (digit_char true (ord c mod 16)) = true ∧
  chr (strtol [digit_char true (ord c / 16); digit_char true (ord c mod 16)] 16) = c.
Proof. repeat split; by_bytes c. Qed.

Definition escaped_char (c : ascii) : bool := isalnum c || in_set (lit "%:[{") c.

Lemma escaped_byte_chars c :
  forallb escaped_char
    (if must_escape c
     then ["%"%char; digit_char true (ord c / 16); digit_char true (ord c mod 16)] else [c]) = true.
Proof. by_bytes c. Qed.

Lemma plain_byte c : must_escape c = false → c ≠ "%"%char ∧ c ≠ "+"%char.
Proof. intros H. split; intros ->; by vm_compute in H. Qed.

Lemma url_decode_encode s : decode (encode s) = s.
Proof.
  induction s as [| c s IH]; [done |]. cbn [encode]. destruct (must_escape c) eqn:Hc.
  - rewrite print_hex2_spec. cbn [app decode].
    destruct (escape_byte c) as (-> & -> & ->). rewrite bool_decide_true by done.
    cbn [andb]. by rewrite IH.
  - apply plain_byte in Hc as [? ?]. cbn [app]. by rewrite decode_plain, IH.
Qed.

Lemma encode_chars s : Forall (λ c, isalnum c = true ∨ c ∈ lit "%:[{") (encode s).
Proof.
  induction s as [| c s IH]; [constructor |]. cbn [encode]. apply Forall_app. split; [| done].
  rewrite print_hex2_spec. pose proof (escaped_byte_chars c) as H. apply forallb_Forall in H.
  eapply Forall_impl; [exact H |]. intros d Hd. unfold escaped_char in Hd.
  apply orb_true_iff in Hd as [? | Hd%in_set_spec]; [by left | by right].
Qed.

(** ** Lemmas: normalisation *)

(** The reference: a stack of segments, its top first. *)
Definition push_segment (st : list str) (i : str) : list str :=
  if str_eqb i (lit "..") then tail st
  else if str_eqb i (lit ".") then st
  else if str_eqb i [] then [] else i :: st.

Definition resolve (v : list str) : list str := foldl push_segment [] v.

Definition path_of (segs : list str) : str := concat ((cons "/"%char) <$> segs).

(** A segment a normalised path may have. *)
Definition proper_segment (i : str) : Prop :=
  i ≠ [] ∧ i ≠ lit "." ∧ i ≠ lit ".." ∧ free (lit "/") i ∧ trimmed i.

Lemma normalize_loop_resolve v s acc :
  normalize_loop (reverse v) s acc = path_of (reverse (drop s (resolve v))) ++ acc.
Proof.
  revert s acc. induction v as [| i v IH] using rev_ind; intros s acc; [by destruct s |].
  rewrite reverse_snoc. cbn [normalize_loop].
  unfold resolve. rewrite foldl_snoc. fold (resolve v). unfold push_segment.
  destruct (str_eqb i (lit "..")); [rewrite IH; destruct (resolve v); [by rewrite drop_nil; destruct s | done] |].
  destruct (str_eqb i (lit ".")); [apply IH |].
  destruct (str_eqb i []); [by destruct s |].
  destruct s as [| s]; rewrite IH; [| done].
  cbn [drop]. rewrite drop_0, reverse_cons. unfold path_of.
  rewrite fmap_app, concat_app, <- app_assoc. cbn. by rewrite <- app_assoc.
Qed.

Lemma str_eqb_spec a b : str_eqb a b = true ↔ a = b.
Proof. apply bool_decide_eq_true. Qed.

Lemma str_eqb_ne a b : a ≠ b → str_eqb a b = false.
Proof. apply bool_decide_eq_false. Qed.

Lemma resolve_proper v :
  Forall (λ w, free (lit "/") w ∧ trimmed w) v → Forall proper_segment (resolve v).
Proof.
  intros H. induction v as [| i v IH] using rev_ind; [constructor |].
  apply Forall_app in H as [Hv Hi]. inv Hi. destruct H1 as [Hf Ht].
  unfold resolve. rewrite foldl_snoc. fold (resolve v). unfold push_segment.
  specialize (IH Hv).
  destruct (str_eqb i (lit "..")) eqn:E1; [by destruct IH |].
  destruct (str_eqb i (lit ".")) eqn:E2; [done |].
  destruct (str_eqb i []) eqn:E3; [constructor |].
  constructor; [| done]. unfold proper_segment.
  rewrite <- !str_eqb_spec. rewrite E1, E2, E3. by repeat split.
Qed.

Lemma resolve_of_proper segs : Forall proper_segment segs → resolve segs = reverse segs.
Proof.
  intros H. induction segs as [| i v IH] using rev_ind; [done |].
  apply Forall_app in H as [Hv Hi]. inv Hi. destruct H1 as (H1 & H3 & H4 & _).
  unfold resolve. rewrite foldl_snoc. fold (resolve v). rewrite IH by done.
  unfold push_segment. rewrite !str_eqb_ne by done. by rewrite reverse_snoc.
Qed.

Lemma path_of_join segs : segs ≠ [] → path_of segs = "/"%char :: join (lit "/") segs.
Proof.
  destruct segs as [| i v]; [done |]. intros _. change (path_of (i :: v)) with ("/"%char :: i ++ path_of v).
  f_equal. revert i. induction v as [| j v IH]; intros i; [apply app_nil_r |].
  change (i ++ "/"%char :: j ++ path_of v = i ++ lit "/" ++ join (lit "/") (j :: v)).
  rewrite <- IH. done.
Qed.

(** ** Lemmas: printing and parsing *)
Section round_trip.
Context `{Services}.

(** A URL whose parts have none of the separators that end them in its text. *)
Record url_ok (u : url) : Prop := {
  ok_scheme : 2 < length (scheme u) ∧ free [":"%char] (scheme u);
  ok_user : free (lit "/@:") (user u);
  ok_password : free (lit "/@") (password u);
  ok_host : host u ≠ [] ∧ free (lit "/@:") (host u);
  ok_port : (port u ≤ INT_MAX)%Z;
  ok_path : (∃ p, path u = "/"%char :: p) ∧ free (lit ";#?") (path u);
  ok_query : free (lit ";#") (query u);
  ok_fragment : free (lit ";") (fragment u) }.

Lemma port_text_free u : url_ok u → free (lit "/@") (port_text u).
Proof.
  intros Hok. pose proof (ok_port u Hok) as Hmax. unfold port_text.
  destruct (Z.ltb_spec 0 (port u)); [| constructor].
  destruct (getservbyname _); [| constructor]. case_match; [constructor |].
  constructor; [done |]. rewrite to_string_int_print by (unfold INT_MIN; lia).
  eapply Forall_impl; [apply print_dec_chars |]. cbn. intros c Hc.
  apply in_set_false. intros Hin. change (lit "/@") with ["/"%char; "@"%char] in Hin.
  rewrite !elem_of_cons in Hin.
  destruct Hin as [-> | [-> | Hin]]; [done.. | by apply not_elem_of_nil in Hin].
Qed.

Lemma parse_scheme_app sc rest :
  2 < length sc → free [":"%char] sc → parse_scheme (sc ++ lit "://" ++ rest) = (sc, rest).
Proof.
  intros Hl Hf. unfold parse_scheme. change (lit "://" ++ rest) with (":"%char :: "/"%char :: "/"%char :: rest).
  rewrite find_char_app by done. rewrite length_app. cbn [length].
  destruct (Nat.ltb_spec 2 (length sc)); [| lia].
  destruct (Nat.ltb_spec (length sc + 2) (length sc + S (S (S (length rest))))); [| lia].
  rewrite !lookup_app_r by lia.
  replace (length sc + 1 - length sc) with 1 by lia. replace (length sc + 2 - length sc) with 2 by lia.
  cbn [lookup list_lookup andb]. rewrite !bool_decide_true by done.
  by rewrite take_app_length, <- drop_drop, drop_app_length.
Qed.

Lemma parse_host_app h p :
  free ["/"%char] h → (∃ p', p = "/"%char :: p') → parse_host (h ++ p) = (h, p).
Proof.
  intros Hh [p' ->]. unfold parse_host. rewrite find_char_app by done.
  by rewrite take_app_length, drop_app_length.
Qed.

Lemma parse_tail_full_path u v :
  url_ok u → query v = [] → fragment v = [] → parameters v = [] →
  parse_tail (get_full_path u) v
  = (path u, Url (scheme v) (user v) (password v) (host v) (port v) (path v)
               (query u) (fragment u) (parameters u)).
Proof.
  intros [_ _ _ _ _ [_ Hp] Hq Hf] Hv1 Hv2 Hv3. unfold parse_tail, get_full_path.
  rewrite Hv1, Hv2, Hv3.
  assert (∀ c d s, c ≠ d → free [c] s → free [c] (prefixed d s)) as Hcons.
  { intros c d [| a s] Hne Hs; [constructor |]. cbn. constructor; [| done].
    apply in_set_false. intros Hin%list_elem_of_singleton. congruence. }
  assert (∀ (c : ascii) delims s, free delims s → c ∈ delims → free [c] s) as Hsub.
  { intros c delims s Hs Hc. eapply free_sub; [exact Hs |].
    by intros d ->%list_elem_of_singleton. }
  replace (path u ++ prefixed "?" (query u) ++ prefixed "#" (fragment u) ++ prefixed ";" (parameters u))
    with ((path u ++ prefixed "?" (query u) ++ prefixed "#" (fragment u)) ++ prefixed ";" (parameters u))
    by by rewrite <- !app_assoc.
  rewrite cut_at_prefixed.
  2: { rewrite !Forall_app. repeat split;
       [eapply Hsub; [exact Hp |]; set_solver
       | apply Hcons; [done |]; eapply Hsub; [exact Hq |]; set_solver
       | apply Hcons; [done |]; eapply Hsub; [exact Hf |]; set_solver]. }
  rewrite app_assoc, cut_at_prefixed.
  2: { rewrite Forall_app. split;
       [eapply Hsub; [exact Hp |]; set_solver
       | apply Hcons; [done |]; eapply Hsub; [exact Hq |]; set_solver]. }
  rewrite cut_at_prefixed by (eapply Hsub; [exact Hp |]; set_solver).
  f_equal. destruct (query u), (fragment u), (parameters u); done.
Qed.

(** The server part [parse] splits again. *)
Definition user_text (u : url) : str :=
  match user u with
  | [] => []
  | us => us ++ match password u with [] => [] | pw => lit ":" ++ pw ++ lit "@" end
  end.

Definition with_server (us pw h : str) (po : Z) (v : url) : url :=
  Url (scheme v) us pw h po (path v) (query v) (fragment v) (parameters v).

(** The port that is read: the one of the URL, which is printed or known, or none when the
    service of the scheme is not known; the service's when the URL has none. *)
Definition read_port (u : url) : Z :=
  match getservbyname (c_str (scheme u)) with
  | Some p => if (0 <? port u)%Z then port u else p
  | None => 0
  end.

(** What is read from the text of a URL: of a [file] URL only host and path are read; a user
    without a password becomes a part of the host. *)
Definition url_read (u : url) : url :=
  if str_eqb (scheme u) (lit "file")
  then Url (scheme u) [] [] (user_text u ++ host u ++ port_text u) 0 (get_full_path u) [] [] []
  else match user u, password u with
       | [], _ => with_server [] [] (host u) (read_port u) u
       | us, [] => with_server [] [] (us ++ host u) (read_port u) u
       | us, pw => with_server us pw (host u) (read_port u) u
       end.

Lemma url_str_ok u :
  url_ok u →
  url_str u = scheme u ++ lit "://" ++ (user_text u ++ host u ++ port_text u) ++ get_full_path u.
Proof.
  intros [(Hs & _) _ _ [Hh _] _ _ _ _]. unfold url_str, user_text.
  destruct (scheme u) as [| c sc] eqn:Esc; [cbn in Hs; lia |].
  destruct (host u) as [| h0 h] eqn:Eh; [done |]. cbn [app].
  rewrite <- !app_assoc. cbn [app]. by rewrite <- !app_assoc.
Qed.

Lemma parse_port_text u v h :
  url_ok u → free [":"%char] h → host v = h ++ port_text u →
  port v = default 0%Z (getservbyname (c_str (scheme u))) →
  parse_port v = with_server (user v) (password v) h (read_port u) v.
Proof.
  intros Hok Hh Hv Hp. pose proof (ok_port u Hok) as Hmax. unfold parse_port. rewrite Hv.
  assert (port_text u = [] → read_port u = port v →
    match cut_at ":"%char (h ++ port_text u) with
    | None => v
    | Some (h', p) =>
        Url (scheme v) (user v) (password v) h' (match p with [] => port v | _ => from_string_int p end)
          (path v) (query v) (fragment v) (parameters v)
    end = with_server (user v) (password v) h (read_port u) v) as Hnone.
  { intros Ht ->. rewrite Ht, app_nil_r in *. rewrite cut_at_free by done. destruct v; unfold with_server; cbn in *.
    by subst. }
  unfold port_text, read_port in *. destruct (getservbyname _) as [p |]; cbn in Hp.
  - destruct (Z.ltb_spec 0 (port u)); [| by apply Hnone].
    destruct (Z.eqb_spec p (port u)) as [E | Hne]; [apply Hnone; congruence |].
    rewrite cut_at_app by done. unfold with_server.
    rewrite to_string_int_print by (unfold INT_MIN; lia).
    rewrite from_string_int_print by (unfold INT_MIN; lia).
    destruct (print_dec (port u)) eqn:Ep; [| done].
    destruct (print_nat_base_head false 10 (port u)) as (d & s & Heq & _); [lia.. |].
    unfold print_dec in Ep. destruct (Z.ltb_spec (port u) 0); [lia |]. congruence.
  - destruct (0 <? port u)%Z; by apply Hnone.
Qed.

Lemma free_char c delims s : free delims s → c ∈ delims → free [c] s.
Proof.
  intros Hs Hc. eapply free_sub; [exact Hs |]. by intros d ->%list_elem_of_singleton.
Qed.

Lemma free_mid (c d : ascii) a b :
  free [c] a → c ≠ d → free [c] b → free [c] (a ++ d :: b).
Proof.
  intros Ha Hne Hb. apply Forall_app. split; [done |]. constructor; [| done].
  apply in_set_false. intros Hin%list_elem_of_singleton. congruence.
Qed.

(** [url_parse] on a scheme, a server part and a full path. *)
Lemma url_parse_file u server :
  url_ok u → free ["/"%char] server → scheme u = lit "file" →
  url_of_string (scheme u ++ lit "://" ++ server ++ get_full_path u)
  = Url (scheme u) [] [] server 0 (get_full_path u) [] [] [].
Proof.
  intros Hok Hf Hfile. destruct (ok_scheme u Hok) as (Hl & Hs). destruct (ok_path u Hok) as [[p Hp] _].
  unfold url_of_string, url_parse. rewrite parse_scheme_app, Hfile by done.
  change (match lit "file" with [] => _ | _ => ?x end) with x.
  rewrite parse_host_app; [| done | unfold get_full_path; rewrite Hp; by eexists]. cbn.
  unfold get_full_path. by rewrite Hp.
Qed.

Lemma url_parse_parts u server v :
  url_ok u → free ["/"%char] server → scheme u ≠ lit "file" →
  parse_port (parse_user (Url (scheme u) [] [] server
    (default 0%Z (getservbyname (c_str (scheme u)))) [] [] [] [])) = v →
  query v = [] → fragment v = [] → parameters v = [] →
  url_of_string (scheme u ++ lit "://" ++ server ++ get_full_path u)
  = Url (scheme v) (user v) (password v) (host v) (port v) (path u) (query u) (fragment u) (parameters u).
Proof.
  intros Hok Hf Hfile Hv Hq Hfr Hpa. destruct (ok_scheme u Hok) as (Hl & Hs).
  destruct (ok_path u Hok) as [[p Hp] _].
  unfold url_of_string, url_parse. rewrite parse_scheme_app by done.
  rewrite (str_eqb_ne _ (lit "file")) by done.
  destruct (scheme u) as [| c sc] eqn:Esc; [cbn in Hl; lia |].
  rewrite parse_host_app; [| done | unfold get_full_path; rewrite Hp; by eexists].
  rewrite str_eqb_ne by done. cbn [negb andb url_new user password port path query fragment parameters].
  rewrite Hv, parse_tail_full_path by done. rewrite Hp. done.
Qed.
End round_trip.

(** ** Properties *)

(** C34. [decode] inverts [encode] on every byte string, and the escaped text is made of
    letters, digits, "%", and the three characters ":", "[" and "{" that the range tests of
    [encode] let through. *)
Theorem url_codec_roundtrip s :
  decode (encode s) = s ∧
  Forall (λ c, isalnum c = true ∨ c ∈ lit "%:[{") (encode s) ∧
  Forall (λ c, encode [c] = [c]) (lit ":[{").
Proof.
  split; [| split; [| by repeat constructor]].
  - apply url_decode_encode.
  - apply encode_chars.
Qed.

(** C33. Normalisation ends, computes what a stack of segments computes (".." pops, "." is
    skipped, an empty segment drops what precedes it), leaves only proper segments (neither
    empty nor "." nor ".."), and is idempotent. *)
Theorem normalize_stack base u :
  let p := match path u with ("/"%char | "\"%char) :: p => p | p => p end in
  let segs := reverse (resolve (tokenize (base ++ p) (lit "/"))) in
  path (normalize base u) = path_of segs ∧ Forall proper_segment segs ∧
  normalize [] (normalize base u) = normalize base u.
Proof.
  intros p segs.
  assert (path (normalize base u) = path_of segs) as Hp.
  { unfold normalize. cbn [path set_path]. rewrite normalize_loop_resolve, drop_0. apply app_nil_r. }
  assert (Forall proper_segment segs) as Hs.
  { apply Forall_reverse, resolve_proper, tokenize_pieces. }
  split; [exact Hp |]. split; [exact Hs |].
  assert (∀ v, path v = path_of segs → normalize [] v = set_path (path_of segs) v) as Hn.
  { intros v Hv. unfold normalize. f_equal. rewrite Hv.
    rewrite normalize_loop_resolve, drop_0, app_nil_r. f_equal.
    destruct (decide (segs = [])) as [-> | Hne]; [done |].
    rewrite path_of_join by done. cbn [app].
    change (join (lit "/") segs) with (join ["/"%char] segs). rewrite tokenize_join.
    - by rewrite resolve_of_proper, reverse_involutive.
    - done.
    - eapply Forall_impl; [exact Hs |]. by intros w (_ & _ & _ & ? & ?).
    - done.
    - intros Heq. rewrite Heq in Hs. inv Hs. by destruct H1. }
  rewrite (Hn _ Hp), <- Hp. by destruct u.
Qed.

(** The text of a URL without a user. *)
Lemma url_parse_host `{Services} u h :
  url_ok u → scheme u ≠ lit "file" → free (lit "/@:") h →
  url_of_string (scheme u ++ lit "://" ++ (h ++ port_text u) ++ get_full_path u)
  = with_server [] [] h (read_port u) u.
Proof.
  intros Hok Hfile Hfh. pose proof (port_text_free u Hok) as Hpt.
  rewrite (url_parse_parts u _ (with_server [] [] h (read_port u)
    (Url (scheme u) [] [] [] 0 [] [] [] []))); try done.
  - apply Forall_app. split; eapply free_char; try done; set_solver.
  - unfold parse_user. cbn [host]. rewrite cut_at_free
      by (apply Forall_app; split; eapply free_char; try done; set_solver).
    rewrite (parse_port_text u _ h); [done | done | | done | done].
    eapply free_char; [done |]. set_solver.
Qed.

Lemma user_text_free u : url_ok u → free ["/"%char] (user_text u).
Proof.
  intros Hok. pose proof (ok_user u Hok) as Hus. pose proof (ok_password u Hok) as Hpw. unfold user_text.
  destruct (user u) as [| a us]; [constructor |]. apply Forall_app.
  split; [eapply free_char; [exact Hus | set_solver] |].
  destruct (password u) as [| b pw]; [constructor |]. apply Forall_app. split; [by repeat constructor |].
  apply Forall_app. split; [eapply free_char; [exact Hpw | set_solver] | by repeat constructor].
Qed.

(** The text of a URL with a user and a password. *)
Lemma url_parse_password `{Services} u a us b pw :
  url_ok u → scheme u ≠ lit "file" → user u = a :: us → password u = b :: pw →
  url_of_string (scheme u ++ lit "://"
    ++ (((a :: us) ++ ":"%char :: b :: pw) ++ "@"%char :: host u ++ port_text u) ++ get_full_path u)
  = with_server (user u) (password u) (host u) (read_port u) u.
Proof.
  intros Hok Hfile Eu Epw. destruct (ok_host u Hok) as [Hhne Hh]. pose proof (ok_user u Hok) as Hus.
  pose proof (ok_password u Hok) as Hpw. pose proof (port_text_free u Hok) as Hpt.
  rewrite Eu in Hus |- *. rewrite Epw in Hpw |- *.
  assert (free ["/"%char] (a :: us) ∧ free ["@"%char] (a :: us) ∧ free [":"%char] (a :: us))
    as (H1 & H2 & H3) by (repeat split; eapply free_char; try done; set_solver).
  rewrite (url_parse_parts u _ (with_server (a :: us) (b :: pw) (host u) (read_port u)
    (Url (scheme u) [] [] [] 0 [] [] [] []))); try done.
  - repeat (apply free_mid; try done); try apply Forall_app; try split;
      eapply free_char; try done; set_solver.
  - unfold parse_user. cbn [host]. rewrite cut_at_app.
    2: { apply free_mid; [done.. |]. eapply free_char; [done |]. set_solver. }
    rewrite cut_at_app by done.
    rewrite (parse_port_text u _ (host u)); [done | done | | done | done].
    eapply free_char; [done |]. set_solver.
Qed.

(** C11. What [parse] reads from the text [str] prints.  The parts are to have none of the
    characters that end them in the text, the scheme at least three characters, the host one, the
    path a slash at its start, and the port is at most INT_MAX.  Then every part is read back -
    a port that is the default of the scheme, which is not printed, among them - but: the port
    is lost when the service of the scheme is not known, and is the default one when it is not
    positive; of a [file] URL only host and path are read, with everything printed before and
    after them glued to them; and a user without a password is glued to the host, a password
    without a user lost.  With a user and a password or neither of them, a known service, a
    positive port and another scheme than [file] the text gives back the URL itself. *)
Theorem url_text_roundtrip `{Services} u :
  url_ok u →
  url_of_string (url_str u) = url_read u ∧
  (scheme u ≠ lit "file" → is_Some (getservbyname (c_str (scheme u))) → (0 < port u)%Z →
   (user u = [] ↔ password u = []) → url_read u = u).
Proof.
  intros Hok. split.
  - rewrite url_str_ok by done. destruct (ok_host u Hok) as [_ Hh]. pose proof (ok_user u Hok) as Hus.
    unfold url_read. destruct (str_eqb (scheme u) (lit "file")) eqn:Ef.
    { apply bool_decide_eq_true in Ef. rewrite url_parse_file; [done | done | | done].
      rewrite !Forall_app. split_and!; [by apply user_text_free | |];
        eapply free_char; [exact Hh | set_solver | by apply port_text_free | set_solver]. }
    apply bool_decide_eq_false in Ef. unfold user_text.
    destruct (user u) as [| a us] eqn:Eu; [cbn [app]; by apply url_parse_host |].
    destruct (password u) as [| b pw] eqn:Epw.
    + rewrite app_nil_r. replace ((a :: us) ++ host u ++ port_text u) with (((a :: us) ++ host u) ++ port_text u)
        by by rewrite <- app_assoc.
      apply url_parse_host; [done.. |]. by apply Forall_app.
    + replace (((a :: us) ++ lit ":" ++ (b :: pw) ++ lit "@") ++ host u ++ port_text u)
        with (((a :: us) ++ ":"%char :: b :: pw) ++ "@"%char :: host u ++ port_text u)
        by by rewrite <- !app_assoc.
      rewrite (url_parse_password u a us b pw), Eu, Epw by done. done.
  - intros Hfile [p Hp] Hport Hup. unfold url_read. rewrite str_eqb_ne by done. unfold read_port. rewrite Hp.
    destruct (Z.ltb_spec 0 (port u)); [| lia]. unfold with_server.
    destruct u as [sc us pw h po pa q fr ps]; cbn in *.
    destruct us, pw; [done | by discriminate (proj1 Hup eq_refl) | by discriminate (proj2 Hup eq_refl) | done].
Qed.

Definition http_services : Services := λ s, if str_eqb s (lit "http") then Some 80%Z else None.

Definition sample_url : url :=
  Url (lit "http") (lit "user") (lit "pass:word") (lit "host") 8080 (lit "/a/b") (lit "q=1")
    (lit "frag") (lit "a;b").

Lemma url_text_roundtrip_witness :
  let _ := http_services in
  url_ok sample_url ∧
  url_str sample_url = lit "http://user:pass:word@host:8080/a/b?q=1#frag;a;b" ∧
  url_of_string (url_str sample_url) = sample_url.
Proof.
  cbv zeta. assert (url_ok sample_url) as Hok.
  { split; repeat match goal with |- _ ∧ _ => split end; try discriminate;
      try (vm_compute; lia); try (by eexists); try (by repeat constructor); vm_compute; done. }
  split; [exact Hok |]. split; [vm_compute; reflexivity |].
  rewrite (proj1 (@url_text_roundtrip http_services sample_url Hok)).
  apply (proj2 (@url_text_roundtrip http_services sample_url Hok)); [discriminate | by eexists | done |].
  split; discriminate.
Defined.
