(* ===== verification/Factory.v ===== *)
(** * [src/include/dcl/factory.h] and [src/src/dcl/factory.cpp]: the object factory.

    The registry is a finite map from class names to creators.  [FactoryOps] is the interface
    its clients use, with the laws they rely on; [factory_laws] discharges it for the
    registry. *)
From S2P Require Export StrUtils.

Section factory.
Context {T : Type}.

Abbreviation factory := (gmap str T).

Definition is_registered (name : str) (f : factory) : bool := bool_decide (is_Some (f !! name)).

(** [create(name)]: the creator is called on the spot, so it stands for what it creates. *)
Definition create (name : str) (f : factory) : outcome T :=
  match f !! name with
  | Some c => Ret c
  | None => Throw (Exn factory_non_reg_exception name)
  end.

Definition register_class (name : str) (c : T) (f : factory) : outcome factory :=
  if is_registered name f then Throw (Exn factory_already_reg_exception name)
  else Ret (<[name := c]> f).

Definition unregister_class (name : str) (f : factory) : outcome factory :=
  match f !! name with
  | Some _ => Ret (delete name f)
  | None => Throw (Exn factory_unreg_exception name)
  end.
End factory.

(** [what()] of the three exceptions, before the pointer to the temporary dangles. *)
Definition factory_what (e : exn) : outcome str :=
  match exn_cls e with
  | factory_non_reg_exception =>
      format_str (Format (lit "Can't create class {0}: the class with this name is not registered") [exn_what e])
  | factory_already_reg_exception =>
      format_str (Format (lit "Can't register class {0}: the class with this name is already registered") [exn_what e])
  | factory_unreg_exception =>
      format_str (Format (lit "Can't unregister class {0}: the class is not registered") [exn_what e])
  | _ => Undef
  end.

(** ** The interface *)
Class FactoryLaws {T F : Type} (empty : F) (mk : str → F → outcome T)
    (reg : str → T → F → outcome F) (unreg : str → F → outcome F) : Prop := {
  law_empty : ∀ n, mk n empty = Throw (Exn factory_non_reg_exception n);
  law_reg : ∀ n c f f', reg n c f = Ret f' →
    mk n f' = Ret c ∧ ∀ m, m ≠ n → mk m f' = mk m f;
  law_reg_fresh : ∀ n c f, (∃ f', reg n c f = Ret f') ↔ ¬ (∃ x, mk n f = Ret x);
  law_unreg : ∀ n f f', unreg n f = Ret f' →
    mk n f' = Throw (Exn factory_non_reg_exception n) ∧ ∀ m, m ≠ n → mk m f' = mk m f;
  law_unreg_known : ∀ n f, (∃ f', unreg n f = Ret f') ↔ (∃ x, mk n f = Ret x) }.

#[global] Instance factory_laws {T} :
  FactoryLaws (∅ : gmap str T) create register_class unregister_class.
Proof.
  split; unfold create, register_class, unregister_class, is_registered.
  - intros n. by rewrite lookup_empty.
  - intros n c f f' H. case_bool_decide; [done |]. injection H as <-.
    rewrite lookup_insert_eq. split; [done |]. intros m Hm. by rewrite lookup_insert_ne.
  - intros n c f. split.
    + intros [f' H] [x Hx]. destruct (f !! n) as [y |] eqn:E; [| done].
      rewrite bool_decide_true in H by done. done.
    + intros H. rewrite bool_decide_false; [by eexists |]. intros [x Hx]. apply H.
      rewrite Hx. by eexists.
  - intros n f f' H. destruct (f !! n); [| done]. injection H as <-.
    rewrite lookup_delete_eq. split; [done |]. intros m Hm. by rewrite lookup_delete_ne.
  - intros n f. destruct (f !! n); split; intros [? ?]; by eauto || done.
Qed.

(** ** Properties *)

(** A registered class is what [create] gives until it is unregistered: registering fails
    with "already registered" exactly on a known name and then creates that class and leaves
    the others alone, unregistering fails exactly on an unknown name and undoes it. *)
Theorem factory_register_create {T} (name other : str) (c : T) (f : gmap str T) :
  (f !! name = None →
     ∃ f', register_class name c f = Ret f' ∧ create name f' = Ret c ∧
       (other ≠ name → create other f' = create other f) ∧
       register_class name c f' = Throw (Exn factory_already_reg_exception name) ∧
       unregister_class name f' = Ret f) ∧
  (∀ x, f !! name = Some x →
     register_class name c f = Throw (Exn factory_already_reg_exception name) ∧
     create name f = Ret x) ∧
  (f !! name = None →
     unregister_class name f = Throw (Exn factory_unreg_exception name) ∧
     create name f = Throw (Exn factory_non_reg_exception name)).
Proof.
  split; [| split].
  - intros Hn. destruct (proj2 (law_reg_fresh (FactoryLaws := factory_laws) name c f)) as [f' Hf'].
    { unfold create. rewrite Hn. by intros [x Hx]. }
    exists f'. destruct (law_reg _ _ _ _ Hf') as [H1 H2].
    repeat split; [done | done | by apply H2 | |].
    + unfold register_class, is_registered. unfold create in H1.
      destruct (f' !! name); [by rewrite bool_decide_true | done].
    + unfold register_class, is_registered in Hf'. rewrite Hn in Hf'.
      rewrite bool_decide_false in Hf' by by intros [? ?]. injection Hf' as <-.
      unfold unregister_class. rewrite lookup_insert_eq. by rewrite delete_insert_id.
  - intros x Hx. unfold register_class, is_registered, create. rewrite Hx.
    by rewrite bool_decide_true.
  - intros Hn. unfold unregister_class, create. by rewrite Hn.
Qed.

Example factory_register_create_witness :
  (∅ : gmap str nat) !! lit "a" = None ∧
  ∃ f', register_class (lit "a") 1 (∅ : gmap str nat) = Ret f' ∧ create (lit "a") f' = Ret 1.
Proof.
  assert ((∅ : gmap str nat) !! lit "a" = None) as H by apply lookup_empty.
  split; [exact H |].
  destruct (proj1 (factory_register_create (lit "a") (lit "b") 1 (∅ : gmap str nat)) H)
    as (f' & H1 & H2 & _).
  exists f'. split; [exact H1 | exact H2].
Defined.
