(* ===== verification/HttpContentParser.v ===== *)
(** * [src/src/dcl/http_content_parser.cpp]: the content of a request as named elements.

    The parser of a content type is created by the factory of [Factory.v]; an unregistered
    type gets the generic one.  The multipart parser is a stub in the source. *)
From S2P Require Export HttpHeader Url Factory.

Record http_content_element := Element {
  element_name : str;
  element_value : str }.

(** The three concrete parsers. *)
Inductive http_parser := http_generic_parser | http_urlencoded_parser | http_form_data_parser.

(** [buf] and [buf_size] of [http_parser]. *)
Record parser_content := ParserContent { buf : str; buf_size : Z }.

Definition generic_parse (c : parser_content) : list http_content_element :=
  if (0 <? buf_size c)%Z
  then [Element (lit "content") (take (Z.to_nat (buf_size c)) (buf c))] else [].

(** One "name=value" token. *)
Definition urlencoded_element (token : str) : http_content_element :=
  let '(param, value) := tokenize_pair token [] [] false (lit "=") in
  Element (Url.decode param) (Url.decode value).

Definition urlencoded_parse (c : parser_content) : list http_content_element :=
  urlencoded_element <$> tokenize (c_str (buf c)) (lit "&").

(** The multipart parser's body is empty. *)
Definition form_data_parse (c : parser_content) : list http_content_element := [].

Definition parser_run (p : http_parser) (c : parser_content) : list http_content_element :=
  match p with
  | http_generic_parser => generic_parse c
  | http_urlencoded_parser => urlencoded_parse c
  | http_form_data_parser => form_data_parse c
  end.

(** [impl::impl]: the registry of the concrete parsers. *)
Definition parser_factory : outcome (gmap str http_parser) :=
  f ← register_class (lit "multipart/form-data") http_form_data_parser ∅;
  register_class (lit "application/x-www-form-urlencoded") http_urlencoded_parser f.

(** [impl::create_parser]: any exception of the factory selects the generic parser.  The
    address of the first byte of an empty content is an undefined use. *)
Definition create_parser (h : http_header) : outcome (http_parser * parser_content) :=
  f ← parser_factory;
  let '(ct, cv) := tokenize_pair (get_content_type h) [] [] false (lit ";") in
  let p := match create (trim ct) f with Ret p => p | _ => http_generic_parser end in
  match content h with
  | [] => Undef
  | c => Ret (p, ParserContent c (get_content_size h))
  end.

Definition content_parse (h : http_header) : outcome (list http_content_element) :=
  pc ← create_parser h; Ret (parser_run pc.1 pc.2).

(** ** Lemmas *)

(** The body an HTML form sends for a list of fields. *)
Definition form_field (e : http_content_element) : str :=
  Url.encode (element_name e) ++ lit "=" ++ Url.encode (element_value e).

Definition form_body (es : list http_content_element) : str := join (lit "&") (form_field <$> es).

Definition form_type : str := lit "application/x-www-form-urlencoded".

Lemma encode_free s : free (lit "&=") (Url.encode s) ∧ Forall (λ c, blank c = false ∧ c ≠ nul) (Url.encode s).
Proof.
  assert (∀ c : ascii, isalnum c = true ∨ c ∈ lit "%:[{" →
    in_set (lit "&=") c = false ∧ blank c = false ∧ c ≠ nul) as Hc.
  { assert (∀ c, negb (isalnum c || in_set (lit "%:[{") c)
      || (negb (in_set (lit "&=") c) && negb (blank c) && negb (bool_decide (c = nul))) = true) as Hb.
    { apply all_bytes_forall. vm_compute. reflexivity. }
    intros c Hin. specialize (Hb c).
    assert (isalnum c || in_set (lit "%:[{") c = true) as Ha.
    { apply orb_true_iff. rewrite in_set_spec. exact Hin. }
    rewrite Ha in Hb. cbn in Hb. rewrite !andb_true_iff, !negb_true_iff in Hb.
    rewrite bool_decide_eq_false in Hb. tauto. }
  split; eapply Forall_impl; [apply encode_chars | | apply encode_chars |]; intros c Hin;
    by apply Hc in Hin as (? & ? & ?).
Qed.

Lemma form_field_ok e : free (lit "&") (form_field e) ∧ trimmed (form_field e) ∧ nul ∉ form_field e.
Proof.
  unfold form_field. destruct (encode_free (element_name e)) as [Hn Hn'].
  destruct (encode_free (element_value e)) as [Hv Hv'].
  assert (∀ s, free (lit "&=") s → free (lit "&") s) as Hsub.
  { intros s Hs. eapply free_sub; [exact Hs |]. intros c ->%list_elem_of_singleton.
    change (lit "&=") with ["&"%char; "="%char]. by left. }
  assert (Forall (λ c, blank c = false ∧ c ≠ nul)
    (Url.encode (element_name e) ++ lit "=" ++ Url.encode (element_value e))) as Hall.
  { rewrite !Forall_app. repeat split; try done. by repeat constructor. }
  split; [| split].
  - rewrite !Forall_app. repeat split; [auto | by repeat constructor | auto].
  - apply trimmed_no_blank. eapply Forall_impl; [exact Hall |]. by intros c [? _].
  - intros Hin. rewrite Forall_forall in Hall. by destruct (Hall _ Hin).
Qed.

Lemma form_body_parse es :
  es ≠ [] → urlencoded_parse (ParserContent (form_body es ++ [nul]) (Z.of_nat (length (form_body es))))
            = es.
Proof.
  intros Hne. unfold urlencoded_parse. cbn [buf].
  assert (nul ∉ form_body es) as Hnul.
  { unfold form_body. clear Hne. assert (nul ∉ lit "&") as Ha
      by (rewrite list_elem_of_In; vm_compute; intuition congruence).
    induction es as [| e [| e' es] IH]; cbn [fmap list_fmap join].
    - apply not_elem_of_nil.
    - apply form_field_ok.
    - rewrite !elem_of_app. pose proof (form_field_ok e) as (_ & _ & ?). cbn in IH. tauto. }
  assert (c_str (form_body es ++ [nul]) = form_body es) as ->.
  { clear Hne. induction (form_body es) as [| c s IH]; [done |]. cbn.
    rewrite not_elem_of_cons in Hnul. destruct Hnul as [Hc Hs].
    destruct (Z.eqb_spec (ord c) 0) as [H0 |]; [| by rewrite IH].
    destruct Hc. apply (inj ord). by rewrite H0. }
  unfold form_body. change (lit "&") with ["&"%char].
  assert (∀ e, form_field e ≠ []) as Hf.
  { intros e. unfold form_field. by destruct (Url.encode (element_name e)). }
  rewrite tokenize_join.
  - induction es as [| e es IH]; [done |]. cbn [fmap list_fmap]. f_equal.
    + unfold urlencoded_element, form_field. change (lit "=" ++ ?x) with ("="%char :: x).
      change (lit "=") with ["="%char]. cbn [app].
      rewrite tokenize_pair_first; [| | done].
      * cbv beta iota. rewrite !url_decode_encode. by destruct e.
      * eapply free_char; [apply encode_free |]. change (lit "&=") with ["&"%char; "="%char].
        right. by left.
    + destruct es; [done |]. apply IH; [done |].
      unfold form_body in *. cbn [fmap list_fmap join] in Hnul |- *.
      intros Hin. apply Hnul. rewrite !elem_of_app. by right; right.
  - done.
  - apply Forall_fmap, Forall_forall. intros e _. cbn. pose proof (form_field_ok e). tauto.
  - by destruct es.
  - destruct es as [| e [| ? ?]]; [done | | done]. cbn. intros [= H]. by apply (Hf e).
Qed.

(** ** Properties *)

(** Fields encoded as a form ("name=value" pairs joined by "&", escaped by [url::encode])
    and sent with the form's content type are parsed back into the same fields, in order. *)
Theorem form_roundtrip es h ct :
  es ≠ [] → content h = form_body es ++ [nul] →
  get_content_type h = ct → (ct = form_type ∨ ct = form_type ++ lit "; charset=utf-8") →
  content_parse h = Ret es.
Proof.
  intros Hne Hc <- Hct. unfold content_parse, create_parser.
  change parser_factory with (Ret (<[lit "application/x-www-form-urlencoded" := http_urlencoded_parser]>
    (<[lit "multipart/form-data" := http_form_data_parser]> (∅ : gmap str http_parser)))).
  cbn [mbind outcome_bind].
  assert (∃ cv, tokenize_pair (get_content_type h) [] [] false (lit ";") = (form_type, cv)) as [cv ->].
  { destruct Hct as [-> | ->]; by eexists. }
  change (trim form_type) with (lit "application/x-www-form-urlencoded").
  unfold create. rewrite lookup_insert_eq. rewrite Hc.
  destruct (form_body es ++ [nul]) eqn:E; [by destruct (form_body es) |]. rewrite <- E.
  cbn [mbind outcome_bind fst snd parser_run]. f_equal. exact (form_body_parse es Hne).
Qed.

Definition sample_fields : list http_content_element :=
  [Element (lit "a b") (lit "1&2=3"); Element (lit "c") []].

Definition sample_form : http_header :=
  set_content_type form_type (with_content (form_body sample_fields ++ [nul]) 0 http_header_new).

Example form_roundtrip_witness :
  sample_fields ≠ [] ∧ form_body sample_fields = lit "a%20b=1%262%3D3&c=" ∧
  content_parse sample_form = Ret sample_fields.
Proof.
  split; [discriminate |]. split; [vm_compute; reflexivity |].
  apply (form_roundtrip sample_fields sample_form form_type).
  - discriminate.
  - reflexivity.
  - vm_compute. reflexivity.
  - left. reflexivity.
Defined.
