(* ===== verification/HttpServer.v ===== *)
(** * [src/src/dcl/http_server.cpp]: the HTTP connection state machine.

    [http_step] is one turn of the loop of [http_server::process_data], [run] the loop, and
    [process_data] the whole handler with the table of suspended requests.  The streams are
    the connection's read and write buffers.  Positions are below [INT_MAX]. *)
From S2P Require Export HttpHeader.

(** ** Data *)
Inductive states := WAIT_COMMAND | WAIT_HEADER | RECEIVING_DATA | PROCESS_REQUEST | CLOSING.

Record request := Request {
  state : states;
  data_size : Z;
  data_readed : Z;
  req : http_request }.

(** How [process_data] ends: with a return value and the request to keep, if any; with an
    exception, the request being left as it is; or at an undefined use. *)
Inductive answer :=
  | Answer (keep : bool) (kept : option request) (i o : stream)
  | Raised (e : exn) (rq : request) (i o : stream)
  | Stuck.

Inductive turn :=
  | Again (rq : request) (i o : stream)
  | Stop (a : answer).

Definition request_new (junk : http_method.http_method) : request :=
  Request WAIT_COMMAND 0 0 (http_request_new junk).

Definition goto (s : states) (rq : request) : request :=
  Request s (data_size rq) (data_readed rq) (req rq).

(** ** The state machine *)
Section server.
Context `{TimeLib} (u : nat → uninit).
Context (handler : option (http_request → outcome http_response)).

(** The command line: method, then path up to the last blank, then version. *)
Definition parse_command (buf : str) (r : http_request) : http_request :=
  let '(r1, b1) :=
    match find_first_of (lit " ") buf 0 with
    | Some pos => (set_method (trim (substr 0 (pos + 1) buf)) r, drop (pos + 1) buf)
    | None => (r, buf)
    end in
  let '(r2, b2) :=
    match find_last_of (lit " ") b1 with
    | Some pos => (on_request (set_http_version (trim (drop (pos + 1) b1))) r1, take pos b1)
    | None => (r1, b1)
    end in
  set_path_info b2 r2.

Definition wait_command (rq : request) (i o : stream) : turn :=
  let '(pos, i1) := tellg i in
  let '(buf, i2) := getline i1 in
  if eofbit i2 then Stop (Answer true (Some rq) (seekg pos i2) o)
  else Again (Request WAIT_HEADER (data_size rq) (data_readed rq) (parse_command buf (req rq))) i2 o.

Definition wait_header (rq : request) (i o : stream) : turn :=
  let '(pos, i1) := tellg i in
  let '(buf, i2) := getline i1 in
  if eofbit i2 then Stop (Answer true (Some rq) (seekg pos i2) o)
  else
    let r := on_request (set_header_line u (trim buf)) (req rq) in
    match trim buf with
    | [] =>
        match get_header (lit "Content-Length") (req_header r) with
        | [] => Again (Request RECEIVING_DATA (data_size rq) (data_readed rq) r) i2 o
        | cl =>
            match from_string_size cl with
            | Ret n => Again (Request RECEIVING_DATA n (data_readed rq) r) i2 o
            | Throw e => Stop (Raised e (Request WAIT_HEADER (data_size rq) (data_readed rq) r) i2 o)
            | Undef => Stop Stuck
            end
        end
    | _ => Again (Request WAIT_HEADER (data_size rq) (data_readed rq) r) i2 o
    end.

Definition receiving_data (rq : request) (i o : stream) : turn :=
  if (0 <? data_size rq)%Z then
    if eofbit i then Stop (Answer true (Some rq) i o)
    else
      let '(pos, i1) := tellg i in
      let '(i2, h) := add_content i1 (req_header (req rq)) in
      let '(last, i3) := tellg i2 in
      let readed := u64 (u64 (data_readed rq + pos_off last) - u64 (pos_off pos)) in
      Again (Request (if (data_size rq <=? readed)%Z then PROCESS_REQUEST else RECEIVING_DATA)
               (data_size rq) readed (on_request (λ _, h) (req rq))) i3 o
  else Again (goto PROCESS_REQUEST rq) i o.

Definition process_request (rq : request) (i o : stream) : turn :=
  match handler with
  | Some f =>
      match f (req rq) with
      | Ret resp =>
          match get_status resp with
          | Ret st =>
              let o1 := write (lit " ") (write (http_version (req_header (req rq))) o) in
              match put_response resp (write [newline] (write st o1)) with
              | Ret o2 => Again (goto CLOSING rq) i o2
              | _ => Stop Stuck
              end
          | _ => Stop Stuck
          end
      | Throw e => Stop (Raised e rq i o)
      | Undef => Stop Stuck
      end
  | None => Again (goto CLOSING rq) i o
  end.

Definition closing (rq : request) (i o : stream) : turn :=
  Stop (Answer (str_eqb (get_header (lit "Connection") (req_header (req rq))) (lit "keep-alive"))
          None i o).

Definition http_step (rq : request) (i o : stream) : turn :=
  match state rq with
  | WAIT_COMMAND => wait_command rq i o
  | WAIT_HEADER => wait_header rq i o
  | RECEIVING_DATA => receiving_data rq i o
  | PROCESS_REQUEST => process_request rq i o
  | CLOSING => closing rq i o
  end.

(** [while (1)]; [None] is out of fuel. *)
Fixpoint run (fuel : nat) (rq : request) (i o : stream) : option answer :=
  match fuel with
  | O => None
  | S fuel' =>
      match http_step rq i o with
      | Again rq' i' o' => run fuel' rq' i' o'
      | Stop a => Some a
      end
  end.

(** [http_server::process_data]: the return value, the table of requests and the streams.
    A request that raises is in the table only if it was there before. *)
Definition process_data (fuel : nat) (junk : http_method.http_method) (reqs : gmap Z request)
    (connection : Z) (i o : stream) : option (outcome bool * gmap Z request * stream * stream) :=
  match handler with
  | None => Some (Ret false, reqs, i, o)
  | Some _ =>
      let rq := default (request_new junk) (reqs !! connection) in
      match run fuel rq i o with
      | None => None
      | Some (Answer keep (Some rq') i' o') => Some (Ret keep, <[connection := rq']> reqs, i', o')
      | Some (Answer keep None i' o') => Some (Ret keep, delete connection reqs, i', o')
      | Some (Raised e rq' i' o') =>
          Some (Throw e, match reqs !! connection with
                         | Some _ => <[connection := rq']> reqs
                         | None => reqs
                         end, i', o')
      | Some Stuck => Some (Undef, reqs, i, o)
      end
  end.
End server.

Definition in_bounds (s : stream) : Prop :=
  gpos s ≤ length (sbuf s) ∧ (Z.of_nat (length (sbuf s)) ≤ INT_MAX)%Z.

(** [add_content] on a stream with nothing to read ends at [eofbit]. *)
Lemma add_content_exhausted s h :
  in_bounds s → good s = false ∨ rest s = [] →
  let '(s', h') := add_content s h in eofbit s' = true ∧ h' = h.
Proof.
  intros [Hle Hb] Hs. destruct (good s) eqn:Hg.
  - destruct Hs as [? | Hr]; [done |].
    assert (length (rest s) = length (sbuf s) - gpos s) as Hl by apply length_drop.
    rewrite Hr in Hl. cbn in Hl.
    apply good_spec in Hg as (He & Hf & Hbad). destruct s as [b g p e f bd].
    cbn in He, Hf, Hbad, Hle, Hl. subst e f bd. unfold add_content.
    set (s := Stream b g p false false false).
    assert (tellg s = (Some g, s)) as -> by done.
    assert (tellg (seekg_end s) = (Some (length b), set_gpos (length b) s)) as -> by done.
    replace (pos_off (Some (length b)) - pos_off (Some g))%Z with 0%Z by (cbn; lia). done.
  - unfold add_content. rewrite tellg_bad by done.
    assert (tellg (seekg_end (set_fail s)) = (None, set_fail (clear_eof s))) as ->; [| done].
    unfold tellg, seekg_end, good, fail. destruct s as [b g p e f bd]. cbn. rewrite ?orb_true_r; by destruct e, f, bd.
Qed.

Section termination.
Context `{TimeLib} (u : nat → uninit).
Context (handler : option (http_request → outcome http_response)).

Definition ends (n : nat) (rq : request) (i : stream) : Prop :=
  ∀ f o, n ≤ f → is_Some (run u handler f rq i o).

Lemma ends_step n rq i :
  (∀ o, match http_step u handler rq i o with
        | Again rq' i' o' => ends n rq' i'
        | Stop _ => True
        end) → ends (S n) rq i.
Proof.
  intros Hs f o Hf. destruct f as [| f]; [lia |]. cbn [run]. specialize (Hs o).
  destruct (http_step u handler rq i o); [apply Hs; lia | done].
Qed.

Lemma ends_mono n m rq i : ends n rq i → n ≤ m → ends m rq i.
Proof. intros H1 Hle f o Hf. apply H1. lia. Qed.

Lemma ends_closing rq i : state rq = CLOSING → ends 1 rq i.
Proof. intros Hs. apply ends_step. intros o. unfold http_step. by rewrite Hs. Qed.

Lemma ends_process rq i : state rq = PROCESS_REQUEST → ends 2 rq i.
Proof.
  intros Hs. apply ends_step. intros o. unfold http_step. rewrite Hs. unfold process_request.
  repeat case_match; simplify_eq; try done; by apply ends_closing.
Qed.

Lemma ends_receiving_eof rq i : state rq = RECEIVING_DATA → eofbit i = true → ends 3 rq i.
Proof.
  intros Hs He. apply ends_step. intros o. unfold http_step. rewrite Hs. unfold receiving_data.
  rewrite He. destruct (0 <? data_size rq)%Z; [done |]. by apply ends_process.
Qed.

Lemma receiving_turn rq i o :
  state rq = RECEIVING_DATA → (0 < data_size rq)%Z → eofbit i = false →
  ∃ rq', http_step u handler rq i o
    = Again rq' (tellg (add_content (tellg i).2 (req_header (req rq))).1).2 o ∧
    (state rq' = PROCESS_REQUEST ∨ state rq' = RECEIVING_DATA).
Proof.
  intros Hs Hd He. unfold http_step. rewrite Hs. unfold receiving_data.
  destruct (Z.ltb_spec 0 (data_size rq)); [| lia]. rewrite He.
  destruct (tellg i) as [pos i1]. cbn [snd]. destruct (add_content _ _) as [i2 h]. cbn [fst].
  destruct (tellg i2) as [last i3]. cbn [snd]. eexists. split; [done |]. cbn. case_match; auto.
Qed.

Lemma ends_receiving_exhausted rq i :
  state rq = RECEIVING_DATA → in_bounds i → good i = false ∨ rest i = [] → ends 4 rq i.
Proof.
  intros Hs Hb Hi. destruct (eofbit i) eqn:He; [by eapply ends_mono; [apply ends_receiving_eof | lia] |].
  apply ends_step. intros o. destruct (Z.ltb_spec 0 (data_size rq)) as [Hd | Hd].
  - destruct (receiving_turn rq i o Hs Hd He) as (rq' & -> & [Hs' | Hs']).
    { by eapply ends_mono; [apply ends_process | lia]. }
    apply ends_receiving_eof; [done |].
    assert (in_bounds (tellg i).2 ∧ (good (tellg i).2 = false ∨ rest (tellg i).2 = [])) as [Hb1 Hi1].
    { destruct (good i) eqn:Hg; [rewrite tellg_good by done | rewrite tellg_bad by done].
      { split; [done |]. by destruct Hi; [| right]. }
      split; [done |]. left. apply good_set_fail. }
    pose proof (add_content_exhausted _ (req_header (req rq)) Hb1 Hi1) as Ha.
    destruct (add_content _ _) as [i2 h]. destruct Ha as [Ha _]. cbn [fst].
    assert (good i2 = false) as Hg2 by (unfold good; by rewrite Ha).
    by rewrite tellg_bad.
  - unfold http_step. rewrite Hs. unfold receiving_data.
    destruct (Z.ltb_spec 0 (data_size rq)); [lia |].
    eapply ends_mono; [by apply ends_process | lia].
Qed.

(** [add_content] of everything a good stream has. *)
Lemma add_content_all s h :
  good s = true → in_bounds s → rest s ≠ [] →
  add_content s h = add_content_n (Z.of_nat (length (rest s))) s h.
Proof.
  intros Hg [Hle Hb] Hr.
  assert (length (rest s) = length (sbuf s) - gpos s) as Hl by apply length_drop.
  assert (length (rest s) ≠ 0) by by destruct (rest s).
  apply good_spec in Hg as (He & Hf & Hbad). destruct s as [b g p e f bd].
  cbn in He, Hf, Hbad, Hle, Hb. subst e f bd. unfold add_content.
  set (s := Stream b g p false false false) in *.
  assert (tellg s = (Some g, s)) as -> by done.
  assert (tellg (seekg_end s) = (Some (length b), set_gpos (length b) s)) as -> by done.
  assert (seekg (Some g) (set_gpos (length b) s) = s) as -> by done.
  cbn [pos_off]. change (sbuf s) with b in *. change (gpos s) with g in *. unfold INT_MAX in Hb.
  rewrite u64_small by lia. destruct (Z.eqb_spec (Z.of_nat (length b) - Z.of_nat g) 0); [lia |].
  rewrite s32_small by (unfold INT_MIN, INT_MAX; lia). f_equal. lia.
Qed.

Lemma add_content_stream s h :
  good s = true → in_bounds s → rest s ≠ [] →
  (add_content s h).1 = set_gpos (length (sbuf s)) s.
Proof.
  intros Hg Hb Hr. rewrite add_content_all by done. unfold add_content_n.
  assert (length (rest s) = length (sbuf s) - gpos s) as Hl by apply length_drop.
  assert (length (rest s) ≠ 0) by by destruct (rest s). destruct Hb.
  destruct (Z.ltb_spec 0 (Z.of_nat (length (rest s)))); [| lia].
  rewrite Nat2Z.id, read_all by done. cbn. f_equal. lia.
Qed.

Lemma ends_receiving rq i : state rq = RECEIVING_DATA → in_bounds i → ends 5 rq i.
Proof.
  intros Hs Hb. destruct (decide (good i = false ∨ rest i = [])) as [Hi | Hi].
  { eapply ends_mono; [by apply ends_receiving_exhausted | lia]. }
  assert (good i = true ∧ rest i ≠ []) as [Hg Hr] by (destruct (good i); naive_solver).
  apply ends_step. intros o. destruct (Z.ltb_spec 0 (data_size rq)) as [Hd | Hd].
  - destruct (receiving_turn rq i o Hs Hd) as (rq' & -> & [Hs' | Hs']); [auto with dcl | |].
    { eapply ends_mono; [by apply ends_process | lia]. }
    rewrite (tellg_good i) by done. cbn [snd]. rewrite add_content_stream by done.
    rewrite tellg_good by done. cbn [snd]. apply ends_receiving_exhausted; [done | | ].
    + destruct Hb. by split.
    + right. apply rest_at_end.
  - unfold http_step. rewrite Hs. unfold receiving_data.
    destruct (Z.ltb_spec 0 (data_size rq)); [lia |].
    eapply ends_mono; [by apply ends_process | lia].
Qed.

(** A line read from a stream: the stream is exhausted, was not good, or got shorter. *)
Lemma getline_cases s b s2 :
  in_bounds s → getline (tellg s).2 = (b, s2) →
  eofbit s2 = true ∨ (b = [] ∧ in_bounds s2 ∧ rest s2 = rest s) ∨
  (in_bounds s2 ∧ length (rest s2) < length (rest s)).
Proof.
  intros [Hle Hb] Hl. destruct (good s) eqn:Hg.
  - rewrite tellg_good in Hl by done. cbn [snd] in Hl.
    destruct (line_cases (rest s)) as [(l & r & Hr & Hn) | Hn].
    + destruct (getline_found s l r Hg Hr Hn) as [Hg2 Hr2]. rewrite Hg2 in Hl. injection Hl as <- <-.
      right. right. rewrite Hr2, Hr, length_app. cbn [length]. split; [| lia].
      pose proof (f_equal length Hr) as Hlen. unfold rest in Hlen.
      rewrite length_drop, length_app in Hlen. cbn [length] in Hlen.
      split; [cbn; lia | done].
    + left. destruct (getline_missing s Hg Hn) as [He _]. by rewrite Hl in He.
  - rewrite tellg_bad in Hl by done. cbn [snd] in Hl. rewrite getline_bad in Hl by apply good_set_fail.
    injection Hl as <- <-. right. left. by split.
Qed.

Lemma ends_header n rq i :
  state rq = WAIT_HEADER → in_bounds i → length (rest i) ≤ n → ends (n + 6) rq i.
Proof.
  revert rq i. induction n as [n IH] using lt_wf_ind. intros rq i Hs Hb Hn.
  replace (n + 6) with (S (n + 5)) by lia. apply ends_step. intros o.
  unfold http_step. rewrite Hs. unfold wait_header.
  pose proof (getline_cases i) as Hcases. destruct (tellg i) as [pos i1]. cbn [snd] in Hcases.
  destruct (getline i1) as [buf i2]. specialize (Hcases _ _ Hb eq_refl).
  destruct (eofbit i2); [done |].
  destruct Hcases as [? | Hcases]; [done |].
  assert (in_bounds i2) as Hb2 by naive_solver.
  assert (∀ d r, ends (n + 5) (Request RECEIVING_DATA d (data_readed rq) r) i2) as Hrec.
  { intros d r. eapply ends_mono; [by apply ends_receiving | lia]. }
  destruct (trim buf) eqn:Et.
  - destruct (get_header _ _) as [| c cl]; [apply Hrec |].
    destruct (from_string_size _); [apply Hrec | done | done].
  - destruct Hcases as [(-> & _) | [_ Hlt]]; [done |].
    eapply ends_mono; [apply (IH (length (rest i2))); [lia | done | done | lia] | lia].
Qed.

Lemma ends_all rq i : in_bounds i → ends (length (rest i) + 7) rq i.
Proof.
  intros Hb. destruct (state rq) eqn:Hs.
  - replace (length (rest i) + 7) with (S (length (rest i) + 6)) by lia. apply ends_step. intros o.
    unfold http_step. rewrite Hs. unfold wait_command.
    pose proof (getline_cases i) as Hcases. destruct (tellg i) as [pos i1]. cbn [snd] in Hcases.
    destruct (getline i1) as [buf i2] eqn:Eg. specialize (Hcases _ _ Hb eq_refl).
    destruct (eofbit i2) eqn:He; [done |]. destruct Hcases as [? | Hcases]; [congruence |].
    assert (in_bounds i2 ∧ length (rest i2) ≤ length (rest i)) as [Hb2 Hle].
    { destruct Hcases as [(_ & ? & ->) | [? ?]]; (split; [done | lia]). }
    eapply ends_mono; [by apply (ends_header (length (rest i))) | lia].
  - eapply ends_mono; [by apply ends_header | lia].
  - eapply ends_mono; [by apply ends_receiving | lia].
  - eapply ends_mono; [by apply ends_process | lia].
  - eapply ends_mono; [by apply ends_closing | lia].
Qed.

(** ** The loop as a transition system *)
Abbreviation config := (request * stream * stream)%type.

Definition turns (c c' : config) : Prop :=
  http_step u handler c.1.1 c.1.2 c.2 = Again c'.1.1 c'.1.2 c'.2.

Lemma run_mono f f' rq i o a :
  run u handler f rq i o = Some a → f ≤ f' → run u handler f' rq i o = Some a.
Proof.
  revert f' rq i o. induction f as [| f IH]; intros f' rq i o; [done |].
  destruct f' as [| f']; [lia |]. cbn [run]. intros Hr Hle.
  destruct (http_step u handler rq i o); [| done]. apply IH; [done | lia].
Qed.

Lemma run_turns c c' f a :
  rtc turns c c' → run u handler f c'.1.1 c'.1.2 c'.2 = Some a →
  ∃ f', run u handler f' c.1.1 c.1.2 c.2 = Some a.
Proof.
  induction 1 as [c | c1 c2 c3 Ht _ IH]; intros Hr; [by exists f |].
  destruct (IH Hr) as [f' Hf]. exists (S f'). cbn [run]. by rewrite Ht.
Qed.

(** A run that reaches a configuration ends as that configuration does. *)
Lemma run_complete c c' a f :
  rtc turns c c' → http_step u handler c'.1.1 c'.1.2 c'.2 = Stop a →
  in_bounds c.1.2 → length (rest c.1.2) + 7 ≤ f → run u handler f c.1.1 c.1.2 c.2 = Some a.
Proof.
  intros Ht Hs Hb Hf. destruct (run_turns c c' 1 a Ht) as [f' Hf'].
  { cbn [run]. by rewrite Hs. }
  destruct (ends_all c.1.1 c.1.2 Hb f c.2 Hf) as [b Hrun]. rewrite Hrun.
  apply (run_mono _ (f + f')) in Hrun; [| lia]. apply (run_mono _ (f + f')) in Hf'; [| lia].
  congruence.
Qed.

Lemma run_same c c' f :
  rtc turns c c' → in_bounds c.1.2 → length (rest c.1.2) + 7 ≤ f →
  in_bounds c'.1.2 → length (rest c'.1.2) + 7 ≤ f →
  run u handler f c.1.1 c.1.2 c.2 = run u handler f c'.1.1 c'.1.2 c'.2.
Proof.
  intros Ht Hb Hf Hb' Hf'.
  destruct (ends_all c'.1.1 c'.1.2 Hb' f c'.2 Hf') as [a Ha].
  destruct (ends_all c.1.1 c.1.2 Hb f c.2 Hf) as [b Hrun].
  destruct (run_turns c c' f a Ht Ha) as [k Hk]. rewrite Ha, Hrun.
  apply (run_mono _ (f + k)) in Hrun; [| lia]. apply (run_mono _ (f + k)) in Hk; [| lia].
  congruence.
Qed.

(** ** Lines *)

(** What a complete line does to a request that waits for one. *)
Definition line_effect (rq : request) (l : str) : request :=
  match state rq with
  | WAIT_COMMAND => Request WAIT_HEADER (data_size rq) (data_readed rq) (parse_command l (req rq))
  | _ => Request WAIT_HEADER (data_size rq) (data_readed rq)
           (on_request (set_header_line u (trim l)) (req rq))
  end.

Definition nonblank (l : str) : Prop := trim l ≠ [].

(** The lines a waiting request takes without leaving the header: any command line, then no
    blank line. *)
Definition lines_ok (rq : request) (ls : list str) : Prop :=
  match state rq with
  | WAIT_COMMAND => Forall nonblank (tail ls)
  | WAIT_HEADER => Forall nonblank ls
  | _ => False
  end.

Lemma line_turn rq i o l r :
  lines_ok rq [l] → good i = true → rest i = l ++ newline :: r → newline ∉ l →
  turns (rq, i, o) (line_effect rq l, set_gpos (gpos i + length l + 1) i, o).
Proof.
  intros Hok Hg Hr Hl. unfold turns, http_step. cbn [fst snd].
  unfold lines_ok in Hok. unfold line_effect, wait_command, wait_header.
  rewrite tellg_good by done. destruct (getline_found i l r Hg Hr Hl) as [-> _].
  assert (eofbit (set_gpos (gpos i + length l + 1) i) = false) as He by (cbn; auto with dcl).
  rewrite He. destruct (state rq); try done. inv Hok. unfold nonblank in *.
  by destruct (trim l).
Qed.

Lemma lines_ok_step rq l ls :
  lines_ok rq (l :: ls) → lines_ok rq [l] ∧ lines_ok (line_effect rq l) ls.
Proof.
  unfold lines_ok, line_effect. destruct (state rq); cbn; try done.
  intros H0. inv H0. by repeat constructor.
Qed.

Lemma lines_turns rq i o ls r :
  lines_ok rq ls → Forall (λ l, (newline ∉ l)) ls → good i = true → rest i = unlines ls ++ r →
  rtc turns (rq, i, o) (foldl line_effect rq ls, set_gpos (gpos i + length (unlines ls)) i, o).
Proof.
  intros Hok Hn. revert rq i Hok. induction Hn as [| l ls Hl _ IH]; intros rq i Hok Hg Hr.
  - cbn. rewrite Nat.add_0_r. by destruct i.
  - apply lines_ok_step in Hok as [Hok1 Hok]. cbn [foldl].
    assert (rest i = l ++ newline :: unlines ls ++ r) as Hr'.
    { rewrite Hr. unfold unlines. cbn. by rewrite <- !app_assoc. }
    eapply rtc_l; [by eapply (line_turn _ _ _ _ (unlines ls ++ r)) |].
    destruct (getline_found i l _ Hg Hr' Hl) as [_ Hr2].
    pose proof (IH _ (set_gpos (gpos i + length l + 1) i) Hok Hg Hr2) as IH'.
    replace (gpos i + length (unlines (l :: ls)))
      with (gpos i + length l + 1 + length (unlines ls)); [exact IH' |].
    unfold unlines. cbn. rewrite !length_app. cbn. lia.
Qed.

Lemma lines_ok_fold rq ls :
  lines_ok rq ls → lines_ok (foldl line_effect rq ls) [].
Proof.
  revert rq. induction ls as [| l ls IH]; intros rq Hok; [exact Hok |].
  apply lines_ok_step in Hok as [_ Hok]. by apply IH.
Qed.

(** A waiting request suspends on text without a line end. *)
Lemma wait_suspends rq i o :
  lines_ok rq [] → good i = true → in_bounds i → newline ∉ rest i →
  http_step u handler rq i o
  = Stop (Answer true (Some rq) (match rest i with [] => set_fail i | _ => i end) o).
Proof.
  intros Hok Hg [Hle _] Hn. unfold http_step, wait_command, wait_header.
  rewrite tellg_good by done. destruct (getline_missing i Hg Hn) as [He _].
  assert (seekg (Some (gpos i)) (getline i).2 = match rest i with [] => set_fail i | _ => i end) as Hs.
  { unfold getline, find_char. rewrite Hg, (proj2 (find_index_None _ _)).
    2: { apply Forall_forall. intros c Hc. apply bool_decide_eq_false. by intros <-. }
    apply good_spec in Hg as (H1 & H2 & H3). destruct i as [b g p e f bd]. cbn in H1, H2, H3, Hle.
    subst e f bd. unfold rest. cbn [snd sbuf gpos].
    destruct (drop g b) eqn:E; [| done]. apply (f_equal length) in E. rewrite length_drop in E.
    cbn in E. by replace (length b) with g by lia. }
  destruct (getline i) as [b i2]. cbn [snd] in *. rewrite He, Hs.
  unfold lines_ok in Hok. by destruct (state rq).
Qed.

(** ** The end of the header, the body and the answer *)
Lemma on_request_id r : on_request (λ h, h) r = r.
Proof. by destruct r. Qed.

Lemma blank_turn rq i o l r n :
  state rq = WAIT_HEADER → good i = true → rest i = l ++ newline :: r → newline ∉ l →
  trim l = [] →
  match get_header (lit "Content-Length") (req_header (req rq)) with
  | [] => n = data_size rq
  | cl => from_string_size cl = Ret n
  end →
  turns (rq, i, o) (Request RECEIVING_DATA n (data_readed rq) (req rq),
                    set_gpos (gpos i + length l + 1) i, o).
Proof.
  intros Hs Hg Hr Hl Hb Hn. unfold turns, http_step. cbn [fst snd]. rewrite Hs. unfold wait_header.
  rewrite tellg_good by done. destruct (getline_found i l r Hg Hr Hl) as [-> _].
  assert (eofbit (set_gpos (gpos i + length l + 1) i) = false) as He by (cbn; auto with dcl).
  rewrite He, Hb.
  change (on_request (set_header_line u []) (req rq)) with (on_request (λ h, h) (req rq)).
  rewrite on_request_id. destruct (get_header _ _); [by subst | by rewrite Hn].
Qed.

(** The header of a request once [body] has been received. *)
Definition received (n : Z) (body : str) (h : http_header) : http_header :=
  match body with
  | [] => h
  | _ =>
      if (0 <? n)%Z then
        put_header (lit "Content-Length") (print_dec (Z.of_nat (length body)))
          (with_content (body ++ [nul]) (S (overrun h)) h)
      else h
  end.

Lemma received_nil n h : received n [] h = h.
Proof. done. Qed.

Lemma exhausted_turn rq i o :
  state rq = RECEIVING_DATA → (0 < data_size rq < 2 ^ 63)%Z → good i = true → rest i = [] →
  in_bounds i → (0 ≤ data_readed rq ≤ Z.of_nat (gpos i))%Z →
  ∃ d i', turns (rq, i, o) (Request PROCESS_REQUEST (data_size rq) d (req rq), i', o).
Proof.
  intros Hs [Hd Hmax] Hg Hr [Hle Hb] Hread. unfold turns, http_step. cbn [fst snd]. rewrite Hs.
  unfold receiving_data. destruct (Z.ltb_spec 0 (data_size rq)); [| lia].
  rewrite (good_eofbit i Hg), tellg_good by done.
  pose proof (add_content_exhausted i (req_header (req rq)) (conj Hle Hb) (or_intror Hr)) as Ha.
  destruct (add_content i _) as [i2 h]. destruct Ha as [He ->].
  rewrite tellg_bad by (unfold good; by rewrite He).
  cbn [pos_off]. unfold INT_MAX in Hb.
  rewrite (u64_small (Z.of_nat (gpos i))) by lia.
  assert (u64 (u64 (data_readed rq + -1) - Z.of_nat (gpos i))
          = data_readed rq - 1 - Z.of_nat (gpos i) + 2 ^ 64)%Z as ->.
  { unfold u64. rewrite Zminus_mod_idemp_l. symmetry. apply (Z.mod_unique _ _ (-1)); lia. }
  destruct (Z.leb_spec (data_size rq) (data_readed rq - 1 - Z.of_nat (gpos i) + 2 ^ 64)); [| lia].
  eexists _, _. f_equal. f_equal. destruct (req rq). done.
Qed.

Lemma receive_turns rq i o :
  state rq = RECEIVING_DATA → data_readed rq = 0%Z → (0 ≤ data_size rq < 2 ^ 63)%Z →
  content (req_header (req rq)) = [] → good i = true → in_bounds i →
  ∃ d i', rtc turns (rq, i, o)
    (Request PROCESS_REQUEST (data_size rq) d (on_request (received (data_size rq) (rest i)) (req rq)), i', o).
Proof.
  intros Hs Hd0 [Hd Hmax] Hc Hg Hb. destruct (Z.eq_dec (data_size rq) 0) as [H0 | H0].
  - exists (data_readed rq), i. apply rtc_once. unfold turns, http_step. cbn [fst snd]. rewrite Hs.
    unfold receiving_data. rewrite H0. cbn [Z.ltb Z.compare]. unfold goto. rewrite H0.
    do 2 f_equal. unfold received. destruct (req rq). by destruct (rest i).
  - destruct (decide (rest i = [])) as [Hr | Hr].
    { rewrite Hr. destruct (exhausted_turn rq i o Hs) as (d & i' & Ht); [lia | done.. | lia |].
      exists d, i'. apply rtc_once.
      replace (on_request (received (data_size rq) []) (req rq)) with (req rq); [exact Ht |].
      by destruct (req rq). }
    assert (length (rest i) = length (sbuf i) - gpos i) as Hl by apply length_drop.
    destruct Hb as [Hle Hb].
    set (r := on_request (received (data_size rq) (rest i)) (req rq)).
    set (d := Z.of_nat (length (rest i))). set (i2 := set_gpos (length (sbuf i)) i).
    assert (turns (rq, i, o)
      (Request (if (data_size rq <=? d)%Z then PROCESS_REQUEST else RECEIVING_DATA) (data_size rq) d r,
       i2, o)) as Ht.
    { unfold turns, http_step. cbn [fst snd]. rewrite Hs. unfold receiving_data.
      destruct (Z.ltb_spec 0 (data_size rq)) as [Hpos |]; [| lia].
      rewrite (good_eofbit i Hg), (tellg_good i) by done.
      rewrite (add_content_result i _ []) by (done || (by left) || (cbn; lia)).
      rewrite (tellg_good (set_gpos _ _)) by done. cbn [pos_off gpos set_gpos].
      unfold INT_MAX in Hb. rewrite Hd0, Z.add_0_l, !(u64_small (Z.of_nat _)) by lia.
      rewrite u64_small by lia.
      replace (Z.of_nat (length (sbuf i)) - Z.of_nat (gpos i))%Z with d by lia.
      do 2 f_equal. subst r. destruct (req rq) eqn:Er. cbn [on_request]. f_equal.
      unfold received. cbn [HttpHeader.req_header]. destruct (rest i) eqn:E; [done |].
      destruct (Z.ltb_spec 0 (data_size rq)); [done | lia]. }
    destruct (Z.leb_spec (data_size rq) d).
    { exists d, i2. by apply rtc_once. }
    destruct (exhausted_turn (Request RECEIVING_DATA (data_size rq) d r) i2 o)
      as (d' & i' & Ht'); cbn; try done; try lia.
    { apply rest_at_end. }
    exists d', i'. eapply rtc_l; [exact Ht |]. by apply rtc_once.
Qed.

(** What [process_request] writes. *)
Definition respond (r : http_request) (resp : http_response) (o : stream) : outcome stream :=
  st ← get_status resp;
  put_response resp
    (write [newline] (write st (write (lit " ") (write (http_version (req_header r)) o)))).

Lemma process_turn f rq i o resp o' :
  handler = Some f → state rq = PROCESS_REQUEST → f (req rq) = Ret resp →
  respond (req rq) resp o = Ret o' → turns (rq, i, o) (goto CLOSING rq, i, o').
Proof.
  intros Hh Hs Hf Ho. unfold turns, http_step. cbn [fst snd]. rewrite Hs. unfold process_request.
  rewrite Hh, Hf. unfold respond in Ho. apply bind_Ret in Ho as (st & -> & Ho). by rewrite Ho.
Qed.
End termination.

(** ** A request on the wire *)
Record wire_ok (m p v : str) (hs : http_headers) : Prop := {
  wire_method : trimmed m ∧ free (lit " ") m ∧ newline ∉ m;
  wire_path : newline ∉ p;
  wire_version : trimmed v ∧ free (lit " ") v ∧ newline ∉ v;
  wire_sorted : map_sorted ci_less hs;
  wire_headers :
    Forall (λ e, header_ok e ∧ e.1 ≠ [] ∧ e.2 ≠ [] ∧ (newline ∉ e.1) ∧ (newline ∉ e.2)) hs }.

Definition cr : ascii := chr 13.

Definition command_line (m p v : str) : str := m ++ lit " " ++ p ++ lit " " ++ v.

(** The lines of the request, without their line feeds. *)
Definition wire_lines (m p v : str) (hs : http_headers) : list str :=
  (command_line m p v ++ [cr]) :: ((λ e, header_line e ++ [cr]) <$> hs).

Definition request_text (m p v : str) (hs : http_headers) (body : str) : str :=
  unlines (wire_lines m p v hs) ++ CRLF ++ body.

(** The request a text stands for. *)
Definition parsed_request (junk : http_method.http_method) (m p v : str) (hs : http_headers)
    : http_request :=
  set_path_info p
    (on_request (λ h, with_headers hs (set_http_version v h)) (set_method m (http_request_new junk))).

Definition content_length (hs : http_headers) (n : Z) : Prop :=
  (map_find ci_less (lit "Content-Length") hs = None ∧ n = 0%Z) ∨
  (map_find ci_less (lit "Content-Length") hs = Some (print_dec n) ∧ (0 ≤ n < 2 ^ 63)%Z).

Lemma not_in_app (c : ascii) a b : (c ∉ a ++ b) ↔ (c ∉ a) ∧ (c ∉ b).
Proof. rewrite elem_of_app. tauto. Qed.

Lemma trim_cr s : trimmed s → trim (s ++ [cr]) = s.
Proof. intros H. apply (trim_blanks [] s [cr]); [constructor | by repeat constructor | done]. Qed.

Lemma parse_command_line junk m p v hs :
  wire_ok m p v hs →
  parse_command (command_line m p v ++ [cr]) (http_request_new junk)
  = set_path_info p (on_request (set_http_version v) (set_method m (http_request_new junk))).
Proof.
  intros [(Hm & Hfm & _) _ (Hv & Hfv & _) _ _]. unfold parse_command, command_line.
  rewrite <- !app_assoc. change (lit " ") with [" "%char] in *. cbn [app].
  unfold find_first_of. rewrite drop_0, find_index_app_l by done.
  cbn [fmap option_fmap option_map Nat.add].
  assert (substr 0 (length m + 1) (m ++ " "%char :: p ++ " "%char :: v ++ [cr]) = m ++ [" "%char]) as ->.
  { unfold substr. rewrite drop_0, take_app_add. done. }
  assert (trim (m ++ [" "%char]) = m) as ->.
  { apply (trim_blanks [] m [" "%char]); [constructor | by repeat constructor | done]. }
  rewrite <- drop_drop, drop_app_length. cbn [drop]. rewrite drop_0.
  unfold find_last_of.
  assert (free [" "%char] (v ++ [cr])) as Hfv'.
  { apply Forall_app. split; [done | by repeat constructor]. }
  rewrite find_last_index_app by done.
  rewrite <- drop_drop, drop_app_length, take_app_length. cbn [drop]. rewrite drop_0.
  by rewrite trim_cr.
Qed.

Lemma header_line_trimmed e : header_ok e → e.1 ≠ [] → e.2 ≠ [] → trimmed (header_line e).
Proof.
  intros (_ & Hk & Hv & _) Hk0 Hv0. unfold header_line.
  destruct Hk as [Hk | [(a & s & Hs & Ha) _]]; [done |]. rewrite Hs. cbn [app].
  rewrite app_assoc. by apply trimmed_app_l.
Qed.

Section wire.
Context `{TimeLib} (u : nat → uninit).

Lemma header_effects rq hs :
  state rq = WAIT_HEADER →
  Forall (λ e, header_ok e ∧ e.1 ≠ [] ∧ e.2 ≠ [] ∧ (newline ∉ e.1) ∧ (newline ∉ e.2)) hs →
  foldl (line_effect u) rq ((λ e, header_line e ++ [cr]) <$> hs)
  = Request WAIT_HEADER (data_size rq) (data_readed rq)
      (on_request (λ h, with_headers (foldl (λ a e, map_set ci_less e.1 e.2 a) (headers h) hs) h)
         (req rq)).
Proof.
  intros Hs Hhs. revert rq Hs. induction Hhs as [| e hs (Hok & Hk & Hv & _) _ IH]; intros rq Hs.
  - cbn. destruct rq as [s d1 d2 r]. cbn in Hs. subst s. f_equal. destruct r. cbn. f_equal. by destruct req_header.
  - cbn [fmap list_fmap foldl]. unfold line_effect at 2. rewrite Hs.
    rewrite trim_cr by by apply header_line_trimmed.
    rewrite IH by done. cbn [data_size data_readed req]. f_equal.
    destruct (req rq) as [h]. cbn [on_request]. f_equal. by rewrite set_header_line_spec.
Qed.

Lemma wire_effects junk m p v hs :
  wire_ok m p v hs →
  foldl (line_effect u) (request_new junk) (wire_lines m p v hs)
  = Request WAIT_HEADER 0 0 (parsed_request junk m p v hs).
Proof.
  intros Hw. unfold wire_lines. cbn [foldl]. unfold line_effect at 2. cbn [request_new state].
  rewrite header_effects by (done || apply Hw). cbn [data_size data_readed req request_new].
  rewrite (parse_command_line _ _ _ _ hs) by done. f_equal.
  pose proof (map_set_rebuild ci_less hs [] (wire_sorted _ _ _ _ Hw)) as Hb. cbn [app] in Hb.
  unfold parsed_request. cbn. by rewrite Hb.
Qed.

Lemma wire_lines_ok junk m p v hs :
  wire_ok m p v hs →
  lines_ok (request_new junk) (wire_lines m p v hs) ∧
  Forall (λ l, (newline ∉ l)) (wire_lines m p v hs).
Proof.
  intros [(_ & _ & Hm) Hp (_ & _ & Hv) _ Hhs]. split.
  - cbn. apply Forall_fmap. eapply Forall_impl; [exact Hhs |].
    intros e (Hok & Hk & Hvv & _). unfold nonblank. cbn.
    rewrite trim_cr by by apply header_line_trimmed. unfold header_line. by destruct (e.1).
  - assert ((newline ∉ lit " ") ∧ (newline ∉ lit ": ") ∧ (newline ∉ [cr])) as (H1 & H2 & H3).
    { repeat split; rewrite list_elem_of_In; vm_compute; intuition congruence. }
    unfold wire_lines. constructor.
    + unfold command_line. rewrite !not_in_app. tauto.
    + apply Forall_fmap. eapply Forall_impl; [exact Hhs |]. intros e (_ & _ & _ & Hk & Hvv).
      cbn. unfold header_line. rewrite !not_in_app. tauto.
Qed.
End wire.

(** ** Properties *)

(** The server's loop ends on every input stream, in every state of the request: a run of
    at most seven turns more than the bytes still unread returns an answer. *)
Theorem http_loop_ends `{TimeLib} u handler fuel junk reqs c i o :
  in_bounds i → length (rest i) + 7 ≤ fuel →
  is_Some (process_data u handler fuel junk reqs c i o).
Proof.
  intros Hb Hf. unfold process_data. destruct handler as [f |]; [| done].
  destruct (ends_all u (Some f) (default (request_new junk) (reqs !! c)) i Hb fuel o Hf) as [a ->].
  destruct a as [keep [rq |] i' o' | e rq i' o' |]; done.
Qed.

(** C1. As soon as the blank line after the header has arrived the handler is called, once, on
    the parsed request with whatever part of the body came with it - even less than
    "Content-Length" announces, even nothing - and its response is written after the
    status line; the connection is kept on "keep-alive" only. *)
Theorem http_request_dispatch `{TimeLib} u f junk reqs c m p v hs n body resp o o' fuel :
  let text := request_text m p v hs body in
  let r := on_request (received n body) (parsed_request junk m p v hs) in
  wire_ok m p v hs → content_length hs n → reqs !! c = None →
  in_bounds (of_string text) → length text + 7 ≤ fuel →
  f r = Ret resp → respond r resp o = Ret o' →
  ∃ i', process_data u (Some f) fuel junk reqs c (of_string text) o
    = Some (Ret (str_eqb (get_header (lit "Connection") (req_header r)) (lit "keep-alive")),
            reqs, i', o').
Proof.
  intros text r Hw Hcl Hc Hb Hfuel Hf Ho. set (i := of_string text).
  set (rq0 := request_new junk). set (r0 := parsed_request junk m p v hs).
  destruct (wire_lines_ok junk m p v hs Hw) as [Hlines Hnl].
  set (ls := wire_lines m p v hs) in *.
  pose proof (lines_turns u (Some f) rq0 i o ls (CRLF ++ body) Hlines Hnl eq_refl eq_refl) as Ht.
  rewrite (wire_effects u junk m p v hs Hw) in Ht.
  set (i1 := set_gpos (gpos i + length (unlines ls)) i) in *.
  assert (rest i1 = [cr] ++ newline :: body) as Hr1.
  { subst i1. rewrite rest_advance. change (rest i) with (unlines ls ++ CRLF ++ body).
    by rewrite drop_app_length. }
  assert (newline ∉ [cr]) as Hcr by (rewrite list_elem_of_In; vm_compute; intuition congruence).
  assert (0 ≤ n < 2 ^ 63)%Z as Hn by (destruct Hcl as [[_ ->] | [_ ?]]; lia).
  assert (turns u (Some f) (Request WAIT_HEADER 0 0 r0, i1, o)
    (Request RECEIVING_DATA n 0 r0, set_gpos (gpos i1 + 1 + 1) i1, o)) as Hblank.
  { eapply (blank_turn u (Some f) (Request WAIT_HEADER 0 0 r0) i1 o [cr]); try done.
    cbn [req data_size]. subst r0. unfold get_header. cbn.
    destruct Hcl as [[-> ->] | [-> _]]; [done |].
    destruct (print_dec n) eqn:E; [| rewrite <- E; apply from_string_size_print; lia].
    destruct (Z.eq_dec n 0) as [-> |]; [done |].
    destruct (print_nat_base_head false 10 n) as (d & s & Heq & _); [lia.. |].
    unfold print_dec in E. destruct (Z.ltb_spec n 0); [lia |]. congruence. }
  destruct (getline_found i1 [cr] body eq_refl Hr1 Hcr) as [_ Hr2].
  set (i2 := set_gpos (gpos i1 + 1 + 1) i1) in *. change (rest i2 = body) in Hr2.
  assert (in_bounds i2) as Hb2.
  { destruct Hb as [_ Hb]. split; [| exact Hb]. subst i2 i1 i text. cbn.
    unfold request_text. fold ls. rewrite !length_app. cbn. lia. }
  destruct (receive_turns u (Some f) (Request RECEIVING_DATA n 0 r0) i2 o)
    as (d & i' & Hrec); [done.. |]. cbn [data_size req] in Hrec. rewrite Hr2 in Hrec. fold r in Hrec.
  pose proof (process_turn u (Some f) f (Request PROCESS_REQUEST n d r) i' o resp o'
    eq_refl eq_refl Hf Ho) as Hp.
  exists i'. unfold process_data. rewrite Hc. cbn [default].
  erewrite (run_complete u (Some f) (rq0, i, o) (goto CLOSING (Request PROCESS_REQUEST n d r), i', o'));
    [| | reflexivity | exact Hb | exact Hfuel].
  - by rewrite delete_id.
  - etrans; [exact Ht |]. eapply rtc_l; [exact Hblank |]. etrans; [exact Hrec |]. by apply rtc_once.
Qed.

(** A request may arrive in pieces: on a first piece of complete lines and an unfinished
    one the handler suspends, and going on with the next piece appended to the buffer gives
    the same answer as the two pieces together. *)
Theorem http_resume `{TimeLib} u handler rq ls tail c2 o fuel :
  let c1 := unlines ls ++ tail in
  lines_ok rq ls → Forall (λ l, newline ∉ l) ls → newline ∉ tail →
  in_bounds (of_string (c1 ++ c2)) → length (c1 ++ c2) + 7 ≤ fuel →
  ∃ rq1 i1, run u handler fuel rq (of_string c1) o = Some (Answer true (Some rq1) i1 o) ∧
    run u handler fuel rq1 (write c2 (clear_state i1)) o
      = run u handler fuel rq (of_string (c1 ++ c2)) o.
Proof.
  intros c1 Hok Hn Ht Hb Hf. set (rq1 := foldl (line_effect u) rq ls).
  assert (in_bounds (of_string c1)) as Hb1.
  { destruct Hb as [_ Hb]. split; cbn in *; [lia |]. rewrite length_app in Hb. lia. }
  set (j := λ b, set_gpos (length (unlines ls)) (of_string b)).
  assert (∀ b r, b = unlines ls ++ r →
    rtc (turns u handler) (rq, of_string b, o) (rq1, j b, o)) as Hturns.
  { intros b r ->. exact (lines_turns u handler rq (of_string _) o ls r Hok Hn eq_refl eq_refl). }
  assert (rest (j c1) = tail) as Hr1.
  { change (drop (length (unlines ls)) (unlines ls ++ tail) = tail). by rewrite drop_app_length. }
  pose proof (wait_suspends u handler rq1 (j c1) o (lines_ok_fold u _ _ Hok) eq_refl) as Hs.
  rewrite Hr1 in Hs.
  set (i1 := match tail with [] => set_fail (j c1) | _ => j c1 end) in *.
  exists rq1, i1. split.
  - eapply (run_complete u handler (rq, of_string c1, o) (rq1, j c1, o)).
    + by apply (Hturns c1 tail).
    + apply Hs; [| done]. destruct Hb1. split; [cbn; subst c1; rewrite length_app; lia | done].
    + exact Hb1.
    + rewrite length_app in Hf. cbn. rewrite drop_0. lia.
  - assert (write c2 (clear_state i1) = j (c1 ++ c2)) as ->.
    { assert (clear_state i1 = j c1) as -> by (subst i1; by destruct tail).
      unfold write, j, of_string. cbn. rewrite firstn_all, drop_ge by lia.
      by rewrite app_nil_r, length_app. }
    symmetry. apply (run_same u handler (rq, of_string (c1 ++ c2), o) (rq1, j (c1 ++ c2), o)).
    + apply (Hturns (c1 ++ c2) (tail ++ c2)). subst c1. by rewrite <- app_assoc.
    + exact Hb.
    + exact Hf.
    + destruct Hb. split; [| done]. cbn. subst c1. rewrite !length_app. lia.
    + unfold j. cbn [fst snd]. unfold rest. cbn [sbuf gpos set_gpos of_string].
      rewrite length_drop. lia.
Qed.

(** Running the handler again on a buffer that ended at the end of a header line, with
    nothing read in between (which the TCP server's worker does), takes the missing line for
    the blank one and dispatches the unfinished request. *)
Theorem http_redispatch_truncates `{TimeLib} u f rq ls resp o o' fuel :
  let c1 := unlines ls in let rq1 := foldl (line_effect u) rq ls in
  lines_ok rq ls → ls ≠ [] → Forall (λ l, newline ∉ l) ls → in_bounds (of_string c1) →
  data_size rq = 0%Z → get_header (lit "Content-Length") (req_header (req rq1)) = [] →
  f (req rq1) = Ret resp → respond (req rq1) resp o = Ret o' → length c1 + 7 ≤ fuel →
  ∃ i1, run u (Some f) fuel rq (of_string c1) o = Some (Answer true (Some rq1) i1 o) ∧
    ∃ keep i2, run u (Some f) fuel rq1 i1 o = Some (Answer keep None i2 o').
Proof.
  intros c1 rq1 Hok Hne Hn Hb Hd Hcl Hresp Ho Hf.
  set (j := set_gpos (length c1) (of_string c1)).
  assert (rest j = []) as Hr by apply rest_at_end.
  pose proof (lines_turns u (Some f) rq (of_string c1) o ls [] Hok Hn eq_refl) as Ht.
  rewrite app_nil_r in Ht. specialize (Ht eq_refl).
  pose proof (wait_suspends u (Some f) rq1 j o (lines_ok_fold u _ _ Hok) eq_refl) as Hs.
  rewrite Hr in Hs. exists (set_fail j). split.
  { eapply (run_complete u (Some f) (rq, of_string c1, o) (rq1, j, o)); [exact Ht | | exact Hb | exact Hf].
    apply Hs; [| by apply not_elem_of_nil]. destruct Hb. by split. }
  assert (state rq1 = WAIT_HEADER ∧ data_size rq1 = 0%Z) as [Hst Hd1].
  { subst rq1. clear -Hne Hok Hd. destruct ls as [| l ls _] using rev_ind; [done |].
    rewrite foldl_snoc.
    assert (∀ r a, state (line_effect u r a) = WAIT_HEADER ∧
      data_size (line_effect u r a) = data_size r) as Heff.
    { intros r a. unfold line_effect. by destruct (state r). }
    split; [apply Heff |]. rewrite (proj2 (Heff _ _)). clear Hne Hok.
    revert rq Hd. induction ls as [| a k IH]; intros rq Hd; [done |]. cbn. apply IH.
    by rewrite (proj2 (Heff _ _)). }
  set (rq2 := Request RECEIVING_DATA 0 (data_readed rq1) (req rq1)).
  assert (turns u (Some f) (rq1, set_fail j, o) (rq2, set_fail j, o)) as H1.
  { unfold turns, http_step. cbn [fst snd]. rewrite Hst. unfold wait_header.
    rewrite tellg_bad by done. rewrite getline_bad by done. cbn [eofbit set_fail j set_gpos of_string].
    change (on_request (set_header_line u (trim [])) (req rq1)) with (on_request (λ h, h) (req rq1)).
    change (trim []) with (@nil ascii). cbv iota. rewrite on_request_id, Hcl, Hd1. done. }
  assert (turns u (Some f) (rq2, set_fail j, o) (goto PROCESS_REQUEST rq2, set_fail j, o)) as H2 by done.
  pose proof (process_turn u (Some f) f (goto PROCESS_REQUEST rq2) (set_fail j) o resp o'
    eq_refl eq_refl Hresp Ho) as H3.
  eexists _, (set_fail j).
  eapply (run_complete u (Some f) (rq1, set_fail j, o) (goto CLOSING (goto PROCESS_REQUEST rq2), set_fail j, o')).
  - eapply rtc_l; [exact H1 |]. eapply rtc_l; [exact H2 |]. by apply rtc_once.
  - reflexivity.
  - destruct Hb. by split.
  - cbn. fold (rest j). change (drop (length c1) c1) with (rest j). rewrite Hr. cbn. lia.
Qed.

(** ** Witnesses *)
Definition sample_uninit (n : nat) : uninit := Uninit false (λ _, flat_tm 0).

Definition sample_handler (r : http_request) : outcome http_response := Ret http_response_new.

Definition sample_wire_headers : http_headers := [(lit "Content-Length", lit "5")].

Lemma sample_wire_ok : wire_ok (lit "POST") (lit "/a b") (lit "HTTP/1.1") sample_wire_headers.
Proof.
  assert (∀ s, trim s = s → trimmed s) as Ht by (intros s <-; apply trim_trimmed).
  assert (∀ c s, in_set s c = false → c ∉ s) as Hn by (intros c s; apply in_set_false).
  split.
  - split; [by apply Ht |]. split; [by repeat constructor | by apply Hn].
  - by apply Hn.
  - split; [by apply Ht |]. split; [by repeat constructor | by apply Hn].
  - repeat constructor.
  - constructor; [| constructor]. cbn [fst snd].
    split; [| split; [done | split; [done | split; by apply Hn]]].
    split; [by repeat constructor |]. split; [by apply Ht |]. split; [by apply Ht | done].
Qed.

Lemma sample_in_bounds s :
  (Z.of_nat (length s) <=? INT_MAX)%Z = true → in_bounds (of_string s).
Proof. intros H%Z.leb_le. split; cbn; [lia | exact H]. Qed.

Example http_loop_ends_witness :
  let _ := flat_calendar in
  in_bounds (of_string (lit "GET / ")) ∧
  is_Some (process_data sample_uninit (Some sample_handler) 13 http_method.get ∅ 4
             (of_string (lit "GET / ")) (of_string [])).
Proof.
  cbv zeta. assert (in_bounds (of_string (lit "GET / "))) as Hb by by apply sample_in_bounds.
  split; [exact Hb |]. refine (@http_loop_ends flat_calendar _ _ 13 _ _ _ _ _ Hb _). vm_compute. lia.
Defined.

(** Two bytes of a body of five are enough for the handler to be called. *)
Example http_request_dispatch_witness :
  let _ := flat_calendar in
  wire_ok (lit "POST") (lit "/a b") (lit "HTTP/1.1") sample_wire_headers ∧
  ∃ i' o', process_data sample_uninit (Some sample_handler) 100 http_method.get ∅ 4
      (of_string (request_text (lit "POST") (lit "/a b") (lit "HTTP/1.1") sample_wire_headers (lit "ab")))
      (of_string [])
    = Some (Ret false, ∅, i', o').
Proof.
  cbv zeta. split; [exact sample_wire_ok |].
  destruct (respond (H := flat_calendar) (parsed_request http_method.get (lit "POST") (lit "/a b")
    (lit "HTTP/1.1") sample_wire_headers) http_response_new (of_string [])) as [o' | |] eqn:E;
    [| vm_compute in E; discriminate E | vm_compute in E; discriminate E].
  destruct (@http_request_dispatch flat_calendar sample_uninit sample_handler http_method.get ∅ 4
    (lit "POST") (lit "/a b") (lit "HTTP/1.1") sample_wire_headers 5 (lit "ab") http_response_new
    (of_string []) o' 100) as [i' Hi].
  - exact sample_wire_ok.
  - right. split; [reflexivity | lia].
  - reflexivity.
  - apply sample_in_bounds. vm_compute. reflexivity.
  - vm_compute. lia.
  - reflexivity.
  - rewrite <- E. reflexivity.
  - exists i', o'. exact Hi.
Defined.

Definition sample_piece : list str := [lit "GET / HTTP/1.1" ++ [cr]; lit "Host: a" ++ [cr]].

Lemma sample_piece_ok :
  lines_ok (request_new http_method.get) sample_piece ∧ Forall (λ l, newline ∉ l) sample_piece.
Proof.
  split.
  - cbn. constructor; [| constructor]. unfold nonblank. vm_compute. discriminate.
  - repeat constructor; apply in_set_false; vm_compute; reflexivity.
Qed.

Example http_resume_witness :
  let _ := flat_calendar in
  lines_ok (request_new http_method.get) sample_piece ∧
  ∃ rq1 i1,
    run sample_uninit (Some sample_handler) 99 (request_new http_method.get)
      (of_string (unlines sample_piece ++ lit "Conn")) (of_string [])
    = Some (Answer true (Some rq1) i1 (of_string [])).
Proof.
  cbv zeta. split; [apply sample_piece_ok |].
  destruct (@http_resume flat_calendar sample_uninit (Some sample_handler)
    (request_new http_method.get) sample_piece (lit "Conn") (lit "ection: keep-alive") (of_string []) 99)
    as (rq1 & i1 & H1 & _).
  - apply sample_piece_ok.
  - apply sample_piece_ok.
  - apply in_set_false. vm_compute. reflexivity.
  - apply sample_in_bounds. vm_compute. reflexivity.
  - vm_compute. lia.
  - exists rq1, i1. exact H1.
Defined.

Example http_redispatch_truncates_witness :
  let _ := flat_calendar in
  lines_ok (request_new http_method.get) sample_piece ∧
  ∃ rq1 i1 keep i2 o',
    run sample_uninit (Some sample_handler) 99 (request_new http_method.get)
      (of_string (unlines sample_piece)) (of_string []) = Some (Answer true (Some rq1) i1 (of_string [])) ∧
    run sample_uninit (Some sample_handler) 99 rq1 i1 (of_string []) = Some (Answer keep None i2 o').
Proof.
  cbv zeta. split; [apply sample_piece_ok |].
  set (rq1 := foldl (@line_effect flat_calendar sample_uninit) (request_new http_method.get) sample_piece).
  destruct (respond (H := flat_calendar) (req rq1) http_response_new (of_string [])) as [o' | |] eqn:E;
    [| vm_compute in E; discriminate E | vm_compute in E; discriminate E].
  destruct (@http_redispatch_truncates flat_calendar sample_uninit sample_handler
    (request_new http_method.get) sample_piece http_response_new (of_string []) o' 99)
    as (i1 & H1 & keep & i2 & H2).
  - apply sample_piece_ok.
  - discriminate.
  - apply sample_piece_ok.
  - apply sample_in_bounds. vm_compute. reflexivity.
  - reflexivity.
  - vm_compute. reflexivity.
  - reflexivity.
  - exact E.
  - vm_compute. lia.
  - exists rq1, i1, keep, i2, o'. split; [exact H1 | exact H2].
Defined.
