(* ===== verification/WebApplication.v ===== *)
(** * [src/include/dcl/web_application.h]: what the web application front ends share

    The answer to an exception, and the lemmas on headers that come one by one. *)
From S2P Require Export HttpHeader.

(** The response when no handler takes the exception. *)
Definition error_page (e : exn) (resp : http_response) : outcome http_response :=
  let r := set_status http_error.internal_server_error resp in
  h ← set_content (c_str (exn_what e)) (resp_header r);
  Ret (HttpResponse h (_status r)).

(** The run of the client's handlers, whatever the exception.  The handler of exceptions changes
    the response it is given, which is a new one. *)
Definition answer (request_handler : http_request → outcome http_response)
    (exception_handler : option (exn → http_response → outcome http_response))
    (req : http_request) : outcome http_response :=
  match request_handler req with
  | Throw e =>
      match exception_handler with
      | Some g => g e http_response_new
      | None => error_page e http_response_new
      end
  | r => r
  end.

(** ** Lemmas *)

(** The value of the last variable whose name satisfies [p]. *)
Fixpoint last_value (p : str → bool) (vars : list (str * str)) : option str :=
  match vars with
  | [] => None
  | (n, v) :: vars' =>
      match last_value p vars' with
      | Some w => Some w
      | None => if p n then Some v else None
      end
  end.

(** Headers that have no meaning of their own here. *)
Definition plain_header (k : str) : Prop :=
  compare k (lit "Content-Type") = false ∧ compare k (lit "Content-Length") = false ∧
  compare k (lit "Cookie") = false ∧ compare k (lit "Set-Cookie") = false.

Lemma compare_trans x y z : compare x y = true → compare y z = true → compare x z = true.
Proof. rewrite !compare_toupper. congruence. Qed.

Lemma compare_same x y z : compare x y = true → compare x z = compare y z.
Proof.
  intros Hxy. apply eq_iff_eq_true. split; intros Hz; eapply compare_trans; eauto. by rewrite compare_sym.
Qed.

(** Headers that are kept as headers: the others are read as cookies. *)
Definition kept_header (k : str) : bool :=
  negb (compare k (lit "Cookie")) && negb (compare k (lit "Set-Cookie")).

Lemma get_set_header `{TimeLib} u k l r h :
  get_header k (set_header u l r h) = if kept_header k && compare k l then r else get_header k h.
Proof.
  unfold set_header, kept_header. destruct (compare k l) eqn:E.
  - rewrite !(compare_same _ _ _ E). destruct (compare l (lit "Cookie")); [done |].
    destruct (compare l (lit "Set-Cookie")); [done |]. by rewrite get_put_header, E.
  - rewrite andb_false_r. repeat case_match; [done.. |]. by rewrite get_put_header, E.
Qed.

(** The cookies a header brings: those of a list, or one. *)
Definition read_cookies `{TimeLib} (u : nat → uninit) (h : str * str) : list http_cookie :=
  if compare h.1 (lit "Cookie") then imap (λ i c, http_cookie_parse (u i) c) (tokenize h.2 (lit ";"))
  else if compare h.1 (lit "Set-Cookie") then [http_cookie_parse (u 0) h.2]
  else [].

Lemma set_header_cookies `{TimeLib} u k v h :
  cookies (set_header u k v h) = cookies h ++ read_cookies u (k, v).
Proof. unfold set_header, read_cookies. cbn. repeat case_match; cbn; by rewrite ?app_nil_r. Qed.

(** Those of some headers that come one by one, each with memory of its own. *)
Fixpoint given_cookies `{TimeLib} (u : nat → nat → uninit) (i : nat) (hs : list (option (str * str)))
    : list http_cookie :=
  match hs with
  | [] => []
  | h :: hs' => match h with Some e => read_cookies (u i) e | None => [] end ++ given_cookies u (S i) hs'
  end.

Lemma set_header_content `{TimeLib} u k v h : content (set_header u k v h) = content h.
Proof. unfold set_header. by repeat case_match. Qed.

(** The header fields of a request with the body [body]: its length is put last. *)
Definition with_length (body k v : str) : str :=
  if compare k (lit "Content-Length") && negb (str_eqb body []) then print_dec (Z.of_nat (length body)) else v.

Lemma on_request_header f req : req_header (on_request f req) = f (req_header req).
Proof. by destruct req. Qed.

(** The bytes of the body. *)
Definition body_of (h : http_header) : str := take (Z.to_nat (get_content_size h)) (content h).

(** Memory that holds nothing in particular. *)
Definition no_memory : nat → nat → uninit := λ _ _, Uninit false (λ _, Tm 0 0 0 0 0 0 (0, 0, 0)%Z).
