(* ===== verification/CgiApplication.v ===== *)
(** * [src/src/dcl/cgi_application.cpp]: web applications on the CGI protocol.

    [get_request] builds a request from the environment and the standard input, [run] is the
    whole application: request, the client's handlers, response on the standard output. *)
From S2P Require Export WebApplication.

(** One [PARAM=VALUE] of the environment. *)
Definition split_variable (line : str) : str * str :=
  match find_first_of (lit "=") line 0 with
  | None => (line, [])
  | Some pos => (substr 0 pos line, substr (pos + 1) (length line - pos - 1) line)
  end.

(** The loop that turns underscores into dashes; [fuel] is the length of the name. *)
Fixpoint dashes_loop (fuel : nat) (left : str) : option str :=
  match fuel with
  | O => None
  | S f =>
      match find_first_of (lit "_") left 0 with
      | None => Some left
      | Some pos => dashes_loop f (<[pos := "-"%char]> left)
      end
  end.

Definition dashes (left : str) : str := default [] (dashes_loop (S (length left)) left).

Section request.
Context `{TimeLib}.

(** One turn of the loop over the environment, on the request and [c_len]; [u] is the memory of
    the cookies a header may build. *)
Definition set_variable (u : nat → uninit) (left right : str) (st : http_request * Z)
    : http_request * Z :=
  let '(req, c_len) := st in
  if str_eqb left (lit "AUTH_TYPE") then (set_auth_type right req, c_len)
  else if str_eqb left (lit "CONTENT_LENGTH") then (req, from_string_int right)
  else if str_eqb left (lit "CONTENT_TYPE") then (on_request (set_content_type right) req, c_len)
  else if str_eqb left (lit "GATEWAY_INTERFACE") then (set_gateway_interface right req, c_len)
  else if str_eqb left (lit "PATH_INFO") then (set_path_info right req, c_len)
  else if str_eqb left (lit "PATH_TRANSLATED") then (set_path_translated right req, c_len)
  else if str_eqb left (lit "QUERY_STRING") then (set_query_string right req, c_len)
  else if str_eqb left (lit "REMOTE_ADDR") then (set_remote_addr right req, c_len)
  else if str_eqb left (lit "REMOTE_HOST") then (set_remote_host right req, c_len)
  else if str_eqb left (lit "REMOTE_IDENT") then (set_remote_ident right req, c_len)
  else if str_eqb left (lit "REMOTE_USER") then (set_remote_user right req, c_len)
  else if str_eqb left (lit "REQUEST_METHOD") then (set_method right req, c_len)
  else if str_eqb left (lit "SCRIPT_NAME") then (set_script_name right req, c_len)
  else if str_eqb left (lit "SERVER_NAME") then (set_server_name right req, c_len)
  else if str_eqb left (lit "SERVER_PORT") then (set_server_port (from_string_int right) req, c_len)
  else if str_eqb left (lit "SERVER_PROTOCOL") then (set_server_protocol right req, c_len)
  else if str_eqb left (lit "SERVER_SOFTWARE") then (set_server_software right req, c_len)
  else if str_eqb left (lit "HTTPS") then (set_https (str_eqb right (lit "on")) req, c_len)
  else if str_eqb (substr 0 5 left) (lit "HTTP_") then
    (on_request (set_header u (dashes (substr 5 (length left - 5) left)) right) req, c_len)
  else (req, c_len).

Fixpoint set_variables (u : nat → nat → uninit) (i : nat) (env : list str) (st : http_request * Z)
    : http_request * Z :=
  match env with
  | [] => st
  | line :: env' =>
      let '(l, r) := split_variable line in
      set_variables u (S i) env' (set_variable (u i) l r st)
  end.

(** [get_request(env)]; a null [env] is an empty one. *)
Definition get_request (u : nat → nat → uninit) (junk : http_method.http_method) (env : list str)
    (cin : stream) : http_request * stream :=
  let '(req, c_len) := set_variables u 0 env (http_request_new junk, 0%Z) in
  if (0 <? c_len)%Z then
    let '(cin', h) := add_content_n c_len cin (req_header req) in (on_request (λ _, h) req, cin')
  else (req, cin).

Definition send_response (response : http_response) (cout : stream) : outcome stream :=
  st ← get_status response;
  put_response response (write CRLF (write st (write (lit "Status: ") cout))).

(** [run]: its answer and the two streams. *)
Definition run (request_handler : option (http_request → outcome http_response))
    (exception_handler : option (exn → http_response → outcome http_response))
    (u : nat → nat → uninit) (junk : http_method.http_method) (env : list str) (cin cout : stream)
    : outcome Z * stream * stream :=
  let '(req, cin') := get_request u junk env cin in
  match request_handler with
  | None => (Ret 0%Z, cin', cout)
  | Some f =>
      match (r ← answer f exception_handler req; send_response r cout) with
      | Ret cout' => (Ret 0%Z, cin', cout')
      | Throw e => (Throw e, cin', cout)
      | Undef => (Undef, cin', cout)
      end
  end.
End request.

(** ** Lemmas: the environment *)

(** A variable as the server passes it. *)
Definition variable (v : str * str) : str := v.1 ++ lit "=" ++ v.2.

Definition named (v : str * str) : Prop := free (lit "=") v.1.

Lemma split_variable_spec v : named v → split_variable (variable v) = v.
Proof.
  intros Hv. unfold split_variable, variable. destruct v as [l r]. cbn in *.
  change (l ++ lit "=" ++ r) with (l ++ "="%char :: r).
  unfold find_first_of. rewrite drop_0, find_index_app_l by done.
  cbn [fmap option_fmap option_map Nat.add]. unfold substr.
  rewrite drop_0, take_app_length, length_app. cbn [length].
  rewrite <- drop_drop, drop_app_length. cbn [drop]. rewrite drop_0, take_ge by lia. done.
Qed.

Definition dash (c : ascii) : ascii := if bool_decide (c = "_"%char) then "-"%char else c.

(** The loop ends with every underscore replaced. *)
Lemma dashes_loop_spec fuel s :
  length (List.filter (in_set (lit "_")) s) < fuel → dashes_loop fuel s = Some (dash <$> s).
Proof.
  revert s. induction fuel as [| fuel IH]; intros s Hf; [lia |]. cbn [dashes_loop].
  unfold find_first_of. rewrite drop_0.
  destruct (find_index_split (in_set (lit "_")) s) as [Hnone | (s1 & c & s2 & -> & Hc & Hall)].
  - rewrite (proj2 (find_index_None _ _) Hnone). cbn. f_equal.
    induction Hnone as [| c s Hc _ IHs]; [done |]. cbn. rewrite <- IHs; [| cbn in Hf; rewrite Hc in Hf; lia].
    f_equal. unfold dash. rewrite bool_decide_false; [done |]. intros ->. done.
  - rewrite find_index_app_l by done. cbn [fmap option_fmap option_map Nat.add].
    rewrite insert_app_r_alt, Nat.sub_diag by done. cbn [insert list_insert].
    assert (List.filter (in_set (lit "_")) s1 = []) as Hs1.
    { clear Hf. induction Hall as [| d s1 Hd _ IHs]; [done |]. cbn. by rewrite Hd. }
    rewrite List.filter_app, Hs1 in Hf. cbn in Hf. rewrite Hc in Hf. cbn in Hf.
    rewrite IH.
    + f_equal. rewrite !fmap_app. cbn. f_equal. f_equal.
      apply in_set_spec in Hc. apply list_elem_of_singleton in Hc as ->. done.
    + rewrite List.filter_app, Hs1. cbn. change (in_set (lit "_") "-"%char) with false. cbn. lia.
Qed.

Lemma dashes_spec s : dashes s = dash <$> s.
Proof.
  unfold dashes. rewrite dashes_loop_spec; [done |]. apply Nat.lt_succ_r, filter_length_le.
Qed.

Section fields.
Context `{TimeLib}.
Implicit Types st : http_request * Z.

(** What each variable does to a part of the state, carried through the environment. *)
Lemma set_variables_part {A} (g : http_request * Z → A) (p : str → bool) (f : str → A) vars u i st :
  (∀ u l r st, g (set_variable u l r st) = if p l then f r else g st) → Forall named vars →
  g (set_variables u i (variable <$> vars) st)
  = match last_value p vars with Some v => f v | None => g st end.
Proof.
  intros Hg Hv. revert i st. induction Hv as [| [n v] vars Hn _ IH]; intros i st; [done |].
  cbn [fmap list_fmap set_variables last_value]. rewrite split_variable_spec by done.
  rewrite IH, Hg. destruct (last_value p vars); [done |]. by destruct (p n).
Qed.

(** A field that one variable sets. *)
Ltac field_tac :=
  let l := fresh "l" in
  intros ? l ? [[] ?];
  match goal with |- context [if str_eqb ?n l then _ else _] =>
    let E := fresh "E" in
    destruct (str_eqb n l) eqn:E;
    [ apply bool_decide_eq_true in E; subst l; reflexivity
    | unfold set_variable; repeat (case_match; try reflexivity);
      match goal with K : str_eqb l n = true |- _ =>
        exfalso; apply bool_decide_eq_true in K; rewrite K in E;
        by apply bool_decide_eq_false in E end ]
  end.

(** The string fields and the variables they come from. *)
Definition string_fields : list (str * (http_request → str)) :=
  [(lit "AUTH_TYPE", _auth_type); (lit "GATEWAY_INTERFACE", _gateway_interface);
   (lit "PATH_INFO", _path_info); (lit "PATH_TRANSLATED", _path_translated);
   (lit "QUERY_STRING", _query_string); (lit "REMOTE_ADDR", _remote_addr);
   (lit "REMOTE_HOST", _remote_host); (lit "REMOTE_IDENT", _remote_ident);
   (lit "REMOTE_USER", _remote_user); (lit "SCRIPT_NAME", _script_name);
   (lit "SERVER_NAME", _server_name); (lit "SERVER_PROTOCOL", _server_protocol);
   (lit "SERVER_SOFTWARE", _server_software)].

Lemma string_field_set n g :
  (n, g) ∈ string_fields →
  ∀ u l r st, g (set_variable u l r st).1 = if str_eqb n l then r else g st.1.
Proof.
  intros Hin. repeat (apply elem_of_cons in Hin as [[= -> ->] | Hin]; [field_tac |]).
  by apply not_elem_of_nil in Hin.
Qed.

Lemma method_set u l r st :
  _method (set_variable u l r st).1
  = if str_eqb (lit "REQUEST_METHOD") l then http_method.convert_string r else _method st.1.
Proof. revert u l r st. field_tac. Qed.

Lemma port_set u l r st :
  _server_port (set_variable u l r st).1
  = if str_eqb (lit "SERVER_PORT") l then from_string_int r else _server_port st.1.
Proof. revert u l r st. field_tac. Qed.

Lemma https_set u l r st :
  _https (set_variable u l r st).1
  = if str_eqb (lit "HTTPS") l then str_eqb r (lit "on") else _https st.1.
Proof. revert u l r st. field_tac. Qed.

Lemma length_set u l r st :
  (set_variable u l r st).2
  = if str_eqb (lit "CONTENT_LENGTH") l then from_string_int r else st.2.
Proof. revert u l r st. field_tac. Qed.

(** The header a variable is for: its name has dashes for underscores. *)
Definition http_header_of (v : str * str) : option (str * str) :=
  if str_eqb (take 5 v.1) (lit "HTTP_") then Some (dash <$> drop 5 v.1, v.2) else None.

(** The variables that carry the header [k]: [CONTENT_TYPE] is one for the type. *)
Definition carries (k l : str) : bool :=
  (str_eqb l (lit "CONTENT_TYPE") && compare k (lit "Content-Type"))
  || (str_eqb (take 5 l) (lit "HTTP_") && (kept_header k && compare k (dash <$> drop 5 l))).

Lemma header_set k u l r st :
  get_header k (req_header (set_variable u l r st).1)
  = if carries k l then r else get_header k (req_header st.1).
Proof.
  destruct st as [[] n]. unfold set_variable.
  assert (carries k (lit "CONTENT_TYPE") = compare k (lit "Content-Type")) as Hct
    by (change (carries k _) with (compare k (lit "Content-Type") || false); apply orb_false_r).
  destruct (str_eqb l (lit "CONTENT_TYPE")) eqn:Et.
  { apply bool_decide_eq_true in Et. subst l. rewrite Hct. apply get_put_header. }
  repeat match goal with
  | |- context [if str_eqb l ?N then _ else _] =>
      destruct (str_eqb l N) eqn:?E;
      [apply bool_decide_eq_true in E; subst l; reflexivity | clear E]
  end.
  unfold carries, substr. rewrite drop_0, Et. cbn [andb orb].
  destruct (str_eqb (take 5 l) (lit "HTTP_")); [| done].
  cbn -[get_header set_header dashes compare lit kept_header].
  by rewrite get_set_header, dashes_spec, take_ge by (rewrite length_drop; lia).
Qed.

Lemma cookies_set u l r st :
  cookies (req_header (set_variable u l r st).1)
  = cookies (req_header st.1) ++ match http_header_of (l, r) with Some h => read_cookies u h | None => [] end.
Proof.
  destruct st as [[] n]. unfold set_variable, http_header_of. cbn [fst snd].
  repeat match goal with
  | |- context [if str_eqb l ?N then _ else _] =>
      destruct (str_eqb l N) eqn:?E;
      [apply bool_decide_eq_true in E; subst l; cbn; by rewrite app_nil_r | clear E]
  end.
  unfold substr. rewrite drop_0. destruct (str_eqb (take 5 l) (lit "HTTP_")); cbn [fst]; [| by rewrite app_nil_r].
  rewrite on_request_header. cbn [HttpHeader.req_header].
  by rewrite set_header_cookies, dashes_spec, take_ge by (rewrite length_drop; lia).
Qed.

(** The cookies of all variables, in their order. *)
Lemma set_variables_cookies u vars i st :
  Forall named vars →
  cookies (req_header (set_variables u i (variable <$> vars) st).1)
  = cookies (req_header st.1) ++ given_cookies u i (http_header_of <$> vars).
Proof.
  intros Hv. revert i st. induction Hv as [| [n v] vars Hn _ IH]; intros i st; [by rewrite app_nil_r |].
  cbn [fmap list_fmap set_variables given_cookies]. rewrite split_variable_spec by done.
  by rewrite IH, cookies_set, <- app_assoc.
Qed.

Lemma content_set u l r st :
  content (req_header (set_variable u l r st).1) = content (req_header st.1).
Proof.
  destruct st as [[] n]. unfold set_variable. repeat (case_match; [reflexivity |]).
  case_match; [apply set_header_content | reflexivity].
Qed.

(** What the meta-variables, header variables and the body make of a request. *)
Record request_of (u : nat → nat → uninit) (junk : http_method.http_method) (vars : list (str * str))
    (body : str) (r : http_request) : Prop := {
  of_fields : ∀ n g, (n, g) ∈ string_fields → g r = default [] (last_value (str_eqb n) vars);
  of_method : _method r = match last_value (str_eqb (lit "REQUEST_METHOD")) vars with
                          | Some m => http_method.convert_string m | None => junk end;
  of_port : _server_port r = match last_value (str_eqb (lit "SERVER_PORT")) vars with
                             | Some p => from_string_int p | None => 0%Z end;
  of_https : _https r = match last_value (str_eqb (lit "HTTPS")) vars with
                        | Some v => str_eqb v (lit "on") | None => false end;
  of_headers : ∀ k,
    get_header k (req_header r) = with_length body k (default [] (last_value (carries k) vars));
  of_cookies : cookies (req_header r) = given_cookies u 0 (http_header_of <$> vars) }.

(** The choice the goal makes. *)
Ltac goal_case := match goal with |- match ?x with _ => _ end = _ => destruct x end.

Lemma string_field_cases (P : str → (http_request → str) → Prop) :
  Forall (λ e, P e.1 e.2) string_fields → ∀ n g, (n, g) ∈ string_fields → P n g.
Proof. rewrite Forall_forall. intros H' n g Hin. by apply (H' (n, g)). Qed.

Lemma set_variables_request u junk vars :
  Forall named vars →
  let st := set_variables u 0 (variable <$> vars) (http_request_new junk, 0%Z) in
  request_of u junk vars [] st.1 ∧ content (req_header st.1) = [] ∧
  st.2 = match last_value (str_eqb (lit "CONTENT_LENGTH")) vars with
         | Some v => from_string_int v | None => 0%Z end.
Proof.
  intros Hv st. subst st. split_and!; [split | |].
  - intros n g Hin. etrans; [apply (set_variables_part (g ∘ fst) (str_eqb n) id); [| done] |].
    { intros. by apply (string_field_set n). }
    goal_case; [done |]. cbn. revert n g Hin. apply string_field_cases. by repeat constructor.
  - exact (set_variables_part (_method ∘ fst) (str_eqb (lit "REQUEST_METHOD"))
      http_method.convert_string vars u 0 _ method_set Hv).
  - exact (set_variables_part (_server_port ∘ fst) (str_eqb (lit "SERVER_PORT")) from_string_int
      vars u 0 _ port_set Hv).
  - exact (set_variables_part (_https ∘ fst) (str_eqb (lit "HTTPS")) (λ v, str_eqb v (lit "on"))
      vars u 0 _ https_set Hv).
  - intros k. unfold with_length. rewrite andb_false_r.
    etrans; [apply (set_variables_part (get_header k ∘ req_header ∘ fst) (carries k) id) |].
    + intros. by apply header_set.
    + done.
    + by goal_case.
  - by apply set_variables_cookies.
  - etrans; [exact (set_variables_part (content ∘ req_header ∘ fst) (λ _, false) (λ _, []) vars u 0 _
      content_set Hv) |]. by goal_case.
  - exact (set_variables_part snd (str_eqb (lit "CONTENT_LENGTH")) from_string_int vars u 0 _ length_set Hv).
Qed.

(** The body added to a request without one. *)
Lemma request_of_body u junk vars r h body :
  request_of u junk vars [] r → (∀ k, get_header k h = with_length body k (get_header k (req_header r))) →
  cookies h = cookies (req_header r) → request_of u junk vars body (on_request (λ _, h) r).
Proof.
  intros [Hf Hm Hp Hs Hk Hc] Hh Hch. split; [| by destruct r.. | |].
  - intros n g Hin. rewrite <- (Hf n g Hin). revert n g Hin. apply string_field_cases.
    destruct r. by repeat constructor.
  - intros k. rewrite on_request_header, Hh, Hk. unfold with_length at 2. by rewrite andb_false_r.
  - by rewrite on_request_header, Hch.
Qed.
End fields.

(** A response without cookies, as text. *)
Lemma send_response_text `{TimeLib} resp st cout :
  at_end cout → cookies (resp_header resp) = [] → get_status resp = Ret st →
  send_response resp cout
  = Ret (append (lit "Status: " ++ st ++ CRLF
                 ++ concat ((λ e, header_line e ++ CRLF) <$> headers (resp_header resp)) ++ CRLF
                 ++ body_of (resp_header resp)) cout).
Proof.
  intros Hend Hc Hs. unfold send_response, put_response. rewrite Hs, Hc. cbn [mbind outcome_bind put_set_cookies].
  append_simpl. rewrite put_headers_append by auto with dcl. append_simpl. unfold put_content, body_of.
  destruct (Z.ltb_spec 0 (get_content_size (resp_header resp))).
  - append_simpl. by rewrite <- !app_assoc.
  - rewrite Z2Nat.nonpos, take_0, app_nil_r by done. done.
Qed.

(** ** Properties *)

(** C10. A CGI request is read as the protocol gives it: each meta-variable reaches its field -
    the last one where a name occurs twice -, each header comes from its [HTTP_] variable
    whatever its case, the content type also from [CONTENT_TYPE], the length is that of the body
    if there is one, the cookies are those of [HTTP_COOKIE] and [HTTP_SET_COOKIE] in their order and
    are no headers, and the body is exactly the bytes of the standard input, as many as
    [CONTENT_LENGTH] says, none of them left unread. *)
Theorem cgi_request_reads `{TimeLib} u junk vars cin :
  Forall named vars → good cin = true → (Z.of_nat (length (rest cin)) ≤ INT_MAX)%Z →
  default [] (last_value (str_eqb (lit "CONTENT_LENGTH")) vars)
    = (match rest cin with [] => [] | body => print_dec (Z.of_nat (length body)) end) →
  let '(req, cin') := get_request u junk (variable <$> vars) cin in
  request_of u junk vars (rest cin) req ∧
  take (Z.to_nat (get_content_size (req_header req))) (content (req_header req)) = rest cin ∧
  rest cin' = [].
Proof.
  intros Hv Hg Hmax Hcl. unfold get_request. pose proof (set_variables_request u junk vars Hv) as Hr.
  destruct (set_variables u 0 (variable <$> vars) (http_request_new junk, 0%Z)) as [req n].
  destruct Hr as (Hr & Hc & Hn). cbn [fst snd] in *.
  assert (n = Z.of_nat (length (rest cin))) as ->.
  { rewrite Hn. destruct (rest cin) as [| c body] eqn:Er; [| rewrite <- Er in *];
      destruct (last_value _ vars) as [v |]; cbn in Hcl; try subst v; try reflexivity.
    - apply from_string_int_print. unfold INT_MIN, INT_MAX in *. lia.
    - by apply eq_sym, print_dec_not_nil in Hcl. }
  destruct (Z.ltb_spec 0 (Z.of_nat (length (rest cin)))) as [Hlt | Hle].
  - rewrite (add_content_n_result _ _ _ []) by (done || lia || by left).
    set (h := put_header _ _ _). split_and!.
    + apply request_of_body; [done | | done]. intros k. subst h. rewrite get_put_header. unfold with_length.
      destruct (compare k _); [| done]. by destruct (rest cin).
    + assert (req_header (on_request (λ _, h) req) = h) as -> by by destruct req. subst h.
      rewrite (get_content_size_spec _ (rest cin)) by done. rewrite Nat2Z.id. cbn.
      by rewrite take_app_length.
    + unfold rest. cbn. apply drop_ge. unfold rest. rewrite length_drop. lia.
  - assert (rest cin = []) as -> by (destruct (rest cin); [done | cbn in Hle; lia]).
    split_and!; [done | | done]. unfold get_content_size. by rewrite Hc.
Qed.

(** A handler that throws costs the client nothing but the answer: without a handler of
    exceptions the application answers status 500 with the message as its text, ends with 0
    and writes exactly these bytes. *)
Theorem cgi_exception_page `{TimeLib} u junk env cin cout f e :
  at_end cout → f (get_request u junk env cin).1 = Throw e →
  (Z.of_nat (length (c_str (exn_what e))) ≤ INT_MAX)%Z →
  run (Some f) None u junk env cin cout
  = (Ret 0%Z, (get_request u junk env cin).2,
     append (lit "Status: 500 Internal Server Error" ++ CRLF
             ++ lit "Content-Length: " ++ print_dec (Z.of_nat (length (c_str (exn_what e)))) ++ CRLF
             ++ lit "Content-Type: text/plain; charset=utf-8" ++ CRLF ++ CRLF
             ++ c_str (exn_what e)) cout).
Proof.
  intros Hend Hf Hmax. unfold run. destruct (get_request u junk env cin) as [req cin']. cbn [fst snd] in *.
  unfold answer. rewrite Hf. unfold error_page. rewrite set_content_result by done. set (what := c_str (exn_what e)) in *.
  cbn [mbind outcome_bind]. set (h := put_header _ _ _).
  assert (body_of h = what) as Hb.
  { unfold body_of. rewrite (get_content_size_spec h what) by done. rewrite Nat2Z.id.
    apply take_app_length. }
  assert (headers h = [(lit "Content-Length", print_dec (Z.of_nat (length what)));
    (lit "Content-Type", lit "text/plain; charset=utf-8")]) as Hh by reflexivity.
  rewrite (send_response_text _ (lit "500 Internal Server Error")) by done.
  cbn [resp_header mbind outcome_bind]. rewrite Hb, Hh. do 2 f_equal.
  cbn [fmap list_fmap concat]. unfold header_line. cbn [fst snd]. rewrite <- !app_assoc. reflexivity.
Qed.

(** ** Witnesses *)
Definition sample_vars : list (str * str) :=
  [(lit "REQUEST_METHOD", lit "POST"); (lit "CONTENT_LENGTH", lit "3");
   (lit "HTTP_ACCEPT_LANGUAGE", lit "ru"); (lit "SERVER_PORT", lit "8080");
   (lit "CONTENT_TYPE", lit "text/html"); (lit "HTTP_COOKIE", lit "a=1; b=2")].

Lemma cgi_request_reads_witness :
  let '(req, cin') := get_request (H := flat_calendar) no_memory http_method.get
                        (variable <$> sample_vars) (of_string (lit "a=b")) in
  get_header (lit "Accept-Language") (req_header req) = lit "ru" ∧
  get_header (lit "Content-Type") (req_header req) = lit "text/html" ∧
  cookie_value <$> cookies (req_header req) = [lit "1"; lit "2"] ∧
  take (Z.to_nat (get_content_size (req_header req))) (content (req_header req)) = lit "a=b".
Proof.
  pose proof (cgi_request_reads (H := flat_calendar) no_memory http_method.get sample_vars
    (of_string (lit "a=b"))
    ltac:(repeat constructor) eq_refl ltac:(vm_compute; discriminate) eq_refl) as Hr.
  destruct (get_request _ _ _ _) as [req cin']. destruct Hr as (Hr & Hb & _).
  rewrite !(of_headers _ _ _ _ _ Hr), (of_cookies _ _ _ _ _ Hr). split_and!; [reflexivity.. | exact Hb].
Defined.

Lemma cgi_exception_page_witness :
  run (H := flat_calendar) (Some (λ _, Throw (Exn user_exception (lit "no")))) None no_memory http_method.get []
    (of_string []) (of_string [])
  = (Ret 0%Z, of_string [],
     append (lit "Status: 500 Internal Server Error" ++ CRLF ++ lit "Content-Length: 2" ++ CRLF
             ++ lit "Content-Type: text/plain; charset=utf-8" ++ CRLF ++ CRLF ++ lit "no")
       (of_string [])).
Proof.
  exact (cgi_exception_page (H := flat_calendar) no_memory http_method.get [] (of_string []) (of_string [])
    (λ _, Throw (Exn user_exception (lit "no"))) (Exn user_exception (lit "no")) ltac:(by split) eq_refl
    ltac:(vm_compute; discriminate)).
Defined.
