(* ===== verification/ApacheApplication.v ===== *)
(** * [src/src/dcl/apache_application.cpp], [src/include/dcl/apache_application.h]: web
    applications as modules of the Apache server.

    The server hands over a [request_rec]: the fields that are read, the answers of its input
    filters, and what the application fills in - the table of output headers, the status, the
    content type and the bytes written.  Tables are the class [Apr]. *)
From S2P Require Export Logger WebApplication.

(** The functions of the Apache Portable Runtime and of the server. *)
Class Apr := {
  apr_table : Type;
  apr_table_set : str → str → apr_table → apr_table;
  apr_table_get : str → apr_table → option str;
  ap_get_server_banner : option str }.

(** Keys of a table are compared without case, and [apr_table_set] replaces. *)
Class AprLaws `{Apr} : Prop := {
  apr_get_set : ∀ k k' v t,
    apr_table_get k (apr_table_set k' v t) = if compare k k' then Some v else apr_table_get k t }.

(** A bucket of the input: what reading it gives, and whether it is the end of the stream. *)
Record bucket := Bucket { data : option str; eos : bool }.

(** The fields that are used.  [brigades] are the answers of the calls of [ap_get_brigade], an
    error or some buckets. *)
Record request_rec `{Apr} := RequestRec {
  headers_in : list (option str * option str);
  ap_auth_type : option str;
  user : option str;
  filename : option str;
  ap_method : option str;
  path_info : option str;
  args : option str;
  uri : option str;
  server_hostname : option str;
  server_port : Z;
  protocol : option str;
  remote_host : option str;
  client_ip : option str;
  brigades : list (option (list bucket));
  headers_out : apr_table;
  ap_status : Z;
  content_type : option str;
  written : str }.
Arguments RequestRec {_} headers_in ap_auth_type user filename ap_method path_info args uri
  server_hostname server_port protocol remote_host client_ip brigades headers_out ap_status
  content_type written.

Definition OK : Z := 0.

Definition DECLINED : Z := -1.

(** ** [apache_helper_impl::input] *)

(** The loop over the buckets: whether all of them could be read, whether the end was seen, the
    bytes so far. *)
Fixpoint read_buckets (bs : list bucket) (seen_eos : bool) (buf : str) : bool * bool * str :=
  match bs with
  | [] => (true, seen_eos, buf)
  | b :: bs' =>
      match data b with
      | None => (false, seen_eos, buf)
      | Some d => read_buckets bs' (seen_eos || eos b) (buf ++ d)
      end
  end.

(** The loop over the brigades; [None] when it asks for more answers than there are. *)
Fixpoint input (answers : list (option (list bucket))) (buf : str) : option str :=
  match answers with
  | [] => None
  | None :: _ => Some buf
  | Some bs :: answers' =>
      match read_buckets bs false buf with
      | (false, _, buf') => Some buf'
      | (true, true, buf') => Some buf'
      | (true, false, buf') => input answers' buf'
      end
  end.

Section apache.
Context `{TimeLib, Apr}.

Definition fill_request (u : nat → uninit) (header : option str * option str) (req : http_request)
    : http_request :=
  match header with
  | (Some key, Some value) => on_request (set_header u (c_str key) (c_str value)) req
  | _ => req
  end.

(** [apr_table_do] with [fill_request], which never stops it. *)
Fixpoint fill_requests (u : nat → nat → uninit) (i : nat) (table : list (option str * option str))
    (req : http_request) : http_request :=
  match table with
  | [] => req
  | h :: table' => fill_requests u (S i) table' (fill_request (u i) h req)
  end.

(** The fields, in the order of the calls. *)
Definition set_fields (r : request_rec) (req : http_request) : http_request :=
  let req := set_auth_type (to_string_chars (ap_auth_type r)) req in
  let req := set_remote_user (to_string_chars (user r)) req in
  let req := set_path_translated (to_string_chars (filename r)) req in
  let req := set_method (to_string_chars (ap_method r)) req in
  let req := set_path_info (to_string_chars (path_info r)) req in
  let req := set_query_string (to_string_chars (args r)) req in
  let req := set_script_name (to_string_chars (uri r)) req in
  let req := set_server_name (to_string_chars (server_hostname r)) req in
  let req := set_server_port (server_port r) req in
  let req := set_server_protocol (to_string_chars (protocol r)) req in
  let req := set_server_software (to_string_chars ap_get_server_banner) req in
  let req := set_remote_host (to_string_chars (remote_host r)) req in
  let req := set_remote_addr (to_string_chars (client_ip r)) req in
  let req := set_gateway_interface (lit "CGI/1.1") req in
  set_https (server_port r =? 443)%Z req.

Definition get_request (u : nat → nat → uninit) (junk : http_method.http_method) (r : request_rec)
    : option (outcome http_request) :=
  let req := set_fields r (fill_requests u 0 (headers_in r) (http_request_new junk)) in
  match input (brigades r) [] with
  | None => None
  | Some buffer =>
      Some (if (0 <? length buffer)
            then h ← set_content_n (s32 (Z.of_nat (length buffer))) buffer (req_header req);
                 Ret (on_request (λ _, h) req)
            else Ret req)
  end.

(** ** [send_response] *)
Definition with_headers_out (t : apr_table) (r : request_rec) : request_rec :=
  RequestRec (headers_in r) (ap_auth_type r) (user r) (filename r) (ap_method r) (path_info r)
    (args r) (uri r) (server_hostname r) (server_port r) (protocol r) (remote_host r) (client_ip r)
    (brigades r) t (ap_status r) (content_type r) (written r).

(** The status, the content type and the bytes are set after the headers. *)
Definition with_answer (status : Z) (type : option str) (body : str) (r : request_rec) : request_rec :=
  RequestRec (headers_in r) (ap_auth_type r) (user r) (filename r) (ap_method r) (path_info r)
    (args r) (uri r) (server_hostname r) (server_port r) (protocol r) (remote_host r) (client_ip r)
    (brigades r) (headers_out r) status type (written r ++ body).

Definition set_out_header (e : str * str) (t : apr_table) : apr_table :=
  if negb (str_eqb e.1 (lit "Content-Length")) && negb (str_eqb e.1 (lit "Content-Type"))
  then apr_table_set (c_str e.1) (c_str e.2) t else t.

Fixpoint set_out_headers (hs : list (str * str)) (t : apr_table) : apr_table :=
  match hs with [] => t | e :: hs' => set_out_headers hs' (set_out_header e t) end.

Fixpoint set_out_cookies (cs : list http_cookie) (t : apr_table) : outcome apr_table :=
  match cs with
  | [] => Ret t
  | c :: cs' =>
      s ← http_cookie_str c; set_out_cookies cs' (apr_table_set (lit "Set-Cookie") (c_str s) t)
  end.

Definition send_response (response : http_response) (r : request_rec) : outcome request_rec :=
  let h := resp_header response in
  t ← set_out_cookies (get_cookies h) (set_out_headers (headers h) (headers_out r));
  let type := match get_content_type h with [] => content_type r | c => Some (c_str c) end in
  let body := if (0 <? get_content_size h)%Z then body_of h else [] in
  Ret (with_answer (http_error.error_code (_status response)) type body (with_headers_out t r)).

(** ** [handle_request], over any logger *)

(** The exceptions that are not [dbp::exception]. *)
Definition is_dbp (e : exn) : bool := match exn_cls e with out_of_range | bad_alloc => false | _ => true end.

Definition respond `{Logger L} (request_handler : http_request → outcome http_response)
    (exception_handler : option (exn → http_response → outcome http_response))
    (req : http_request) (l : L) : outcome http_response * L :=
  match request_handler req with
  | Throw e =>
      match exception_handler, is_dbp e with
      | Some g, true => (g e http_response_new, l)
      | _, _ => (error_page e http_response_new, log_error (c_str (exn_what e)) l)
      end
  | o => (o, l)
  end.

Definition handle_request `{Logger L} (request_handler : option (http_request → outcome http_response))
    (exception_handler : option (exn → http_response → outcome http_response))
    (u : nat → nat → uninit) (junk : http_method.http_method) (r : request_rec) (l : L)
    : option (outcome Z * request_rec * L) :=
  match request_handler with
  | None => Some (Ret DECLINED, r, l)
  | Some f =>
      match get_request u junk r with
      | None => None
      | Some (Throw e) => Some (Throw e, r, l)
      | Some Undef => Some (Undef, r, l)
      | Some (Ret req) =>
          let '(o, l') := respond f exception_handler req l in
          match (resp ← o; r' ← send_response resp r; Ret (resp, r')) with
          | Ret (resp, r') =>
              let rslt := http_error.error_code (_status resp) in
              Some (Ret (if (rslt =? 200)%Z then OK else rslt), r', l')
          | Throw e => Some (Throw e, r, l')
          | Undef => Some (Undef, r, l')
          end
      end
  end.
End apache.

(** ** Lemmas: the request *)
Section request.
Context `{TimeLib, Apr}.

(** A header that comes with a name and a value. *)
Definition whole_header (e : option str * option str) : option (str * str) :=
  match e with (Some k, Some v) => Some (c_str k, c_str v) | _ => None end.

Definition header_list (table : list (option str * option str)) : list (str * str) := omap whole_header table.

Lemma fill_requests_header u i table req k :
  get_header k (req_header (fill_requests u i table req))
  = match last_value (λ n, kept_header k && compare k n) (header_list table) with
    | Some v => v | None => get_header k (req_header req) end.
Proof.
  revert i req. induction table as [| [[key |] [value |]] table IH]; intros i req;
    [done | | exact (IH _ _)..].
  cbn [fill_requests header_list omap list_omap last_value whole_header]. rewrite IH.
  fold (header_list table). destruct (last_value _ (header_list table)); [done |].
  cbn [fill_request]. rewrite on_request_header, get_set_header. by destruct (kept_header k && _).
Qed.

Lemma fill_requests_cookies u i table req :
  cookies (req_header (fill_requests u i table req))
  = cookies (req_header req) ++ given_cookies u i (whole_header <$> table).
Proof.
  revert i req. induction table as [| e table IH]; intros i req; [by rewrite app_nil_r |].
  cbn [fill_requests fmap list_fmap given_cookies]. rewrite IH, app_assoc. f_equal.
  destruct e as [[key |] [value |]]; cbn [fill_request whole_header]; rewrite ?app_nil_r; [| done..].
  by rewrite on_request_header, set_header_cookies.
Qed.

Lemma fill_requests_content u i table req :
  content (req_header (fill_requests u i table req)) = content (req_header req).
Proof.
  revert i req. induction table as [| [[key |] [value |]] table IH]; intros i req; [done | | exact (IH _ _)..].
  cbn [fill_requests]. rewrite IH. cbn [fill_request]. rewrite on_request_header. apply set_header_content.
Qed.

Lemma set_fields_header r req : req_header (set_fields r req) = req_header req.
Proof. by destruct req. Qed.

(** A brigade that can be read, and what it holds. *)
Definition brigade_text (bs : list bucket) : str := concat ((λ b, default [] (data b)) <$> bs).

Definition readable (bs : list bucket) : Prop := Forall (λ b, is_Some (data b)) bs.

Definition ends (bs : list bucket) : bool := existsb eos bs.

Lemma read_buckets_readable bs seen buf :
  readable bs → read_buckets bs seen buf = (true, seen || ends bs, buf ++ brigade_text bs).
Proof.
  intros Hb. revert seen buf. induction Hb as [| b bs [d Hd] _ IH]; intros seen buf; cbn.
  - by rewrite orb_false_r, app_nil_r.
  - rewrite Hd, IH. cbn. unfold ends. by rewrite orb_assoc, app_assoc.
Qed.

Lemma input_whole front final after buf :
  Forall (λ bs, readable bs ∧ ends bs = false) front → readable final → ends final = true →
  input ((Some <$> front) ++ Some final :: after) buf
  = Some (buf ++ concat (brigade_text <$> front) ++ brigade_text final).
Proof.
  intros Hf Hr He. revert buf. induction Hf as [| bs front [Hb Hn] _ IH]; intros buf; cbn.
  - by rewrite read_buckets_readable, He by done.
  - rewrite read_buckets_readable, Hn by done. cbn. by rewrite IH, !app_assoc.
Qed.

(** The fields that do not depend on the headers. *)
Definition fields_of (r : request_rec) (req : http_request) : Prop :=
  _auth_type req = to_string_chars (ap_auth_type r) ∧ _remote_user req = to_string_chars (user r) ∧
  _path_translated req = to_string_chars (filename r) ∧
  _method req = http_method.convert_string (to_string_chars (ap_method r)) ∧
  _path_info req = to_string_chars (path_info r) ∧ _query_string req = to_string_chars (args r) ∧
  _script_name req = to_string_chars (uri r) ∧
  _server_name req = to_string_chars (server_hostname r) ∧ _server_port req = server_port r ∧
  _server_protocol req = to_string_chars (protocol r) ∧
  _server_software req = to_string_chars ap_get_server_banner ∧
  _remote_host req = to_string_chars (remote_host r) ∧
  _remote_addr req = to_string_chars (client_ip r) ∧
  _gateway_interface req = lit "CGI/1.1" ∧ _https req = (server_port r =? 443)%Z.

Lemma set_fields_of r req h : fields_of r (on_request (λ _, h) (set_fields r req)).
Proof. destruct req. by split_and!. Qed.

Lemma fields_of_header r req : fields_of r (set_fields r req).
Proof. destruct req. by split_and!. Qed.

(** The header fields and the cookies. *)
Definition headers_of (u : nat → nat → uninit) (r : request_rec) (body : str) (h : http_header) : Prop :=
  (∀ k, get_header k h
     = with_length body k (default [] (last_value (λ n, kept_header k && compare k n) (header_list (headers_in r))))) ∧
  cookies h = given_cookies u 0 (whole_header <$> headers_in r).

Lemma get_request_spec u junk r body :
  input (brigades r) [] = Some body → (Z.of_nat (length body) ≤ INT_MAX)%Z →
  ∃ req, get_request u junk r = Some (Ret req) ∧ fields_of r req ∧ body_of (req_header req) = body ∧
    headers_of u r body (req_header req).
Proof.
  intros Hi Hl. unfold get_request. rewrite Hi.
  set (req0 := fill_requests u 0 (headers_in r) (http_request_new junk)).
  assert (headers_of u r [] (req_header req0)) as [Hk Hck].
  { subst req0. split; [intros k | apply fill_requests_cookies].
    unfold with_length. rewrite andb_false_r, fill_requests_header. by destruct (last_value _ _). }
  assert (content (req_header req0) = []) as Hc by by (subst req0; rewrite fill_requests_content).
  rewrite set_fields_header. destruct (Nat.ltb_spec 0 (length body)) as [Hlt | Hle].
  - unfold set_content_n. rewrite s32_small by (unfold INT_MIN, INT_MAX in *; lia).
    rewrite Nat2Z.id, Nat.ltb_irrefl, Hc. cbn [mbind outcome_bind app].
    eexists. split; [done |]. split; [apply set_fields_of |]. rewrite on_request_header.
    split.
    + unfold body_of. rewrite (get_content_size_spec _ body) by (cbn; rewrite ?firstn_all; done).
      rewrite Nat2Z.id. cbn. by rewrite firstn_all, take_app_length.
    + split; [| exact Hck]. intros k. rewrite get_put_header. pose proof (Hk k) as Hk'.
      unfold with_length in *. rewrite andb_false_r in Hk'. rewrite <- Hk'.
      destruct (compare k _); [| done]. rewrite to_string_int_print by (unfold INT_MIN; lia).
      by destruct body; [cbn in Hlt; lia |].
  - eexists. split; [done |]. split; [apply fields_of_header |]. rewrite set_fields_header.
    destruct body; [| cbn in Hle; lia]. split; [| by split]. unfold body_of. by rewrite Hc, take_nil.
Qed.
End request.

(** ** Lemmas: the answer *)
Section answer.
Context `{TimeLib, AprLaws}.

(** What is sent as headers: all but the two that have their own field, then the cookies. *)
Definition sent_headers (hs : list (str * str)) (cs : list str) : list (str * str) :=
  omap (λ e, if negb (str_eqb e.1 (lit "Content-Length")) && negb (str_eqb e.1 (lit "Content-Type"))
             then Some (c_str e.1, c_str e.2) else None) hs
  ++ ((λ c, (lit "Set-Cookie", c_str c)) <$> cs).

Lemma last_value_app p l1 l2 :
  last_value p (l1 ++ l2)
  = match last_value p l2 with Some v => Some v | None => last_value p l1 end.
Proof.
  induction l1 as [| [n v] l1 IH]; cbn; [by destruct (last_value p l2) |].
  rewrite IH. by destruct (last_value p l2).
Qed.

Lemma set_out_headers_get hs t k :
  apr_table_get k (set_out_headers hs t)
  = match last_value (compare k) (sent_headers hs []) with
    | Some v => Some v | None => apr_table_get k t end.
Proof.
  unfold sent_headers. rewrite app_nil_r. revert t. induction hs as [| e hs IH]; intros t; [done |].
  cbn [set_out_headers omap list_omap]. rewrite IH. unfold set_out_header.
  destruct (negb _ && negb _); [| done]. cbn [last_value].
  destruct (last_value _ _); [done |]. rewrite apr_get_set. by destruct (compare k _).
Qed.

Lemma set_out_cookies_get cs ss t k :
  Forall2 (λ c s, http_cookie_str c = Ret s) cs ss →
  ∃ t', set_out_cookies cs t = Ret t' ∧
    apr_table_get k t' = match last_value (compare k) ((λ c, (lit "Set-Cookie", c_str c)) <$> ss) with
                         | Some v => Some v | None => apr_table_get k t end.
Proof.
  intros Hs. revert t. induction Hs as [| c s cs ss Hc _ IH]; intros t; [by exists t |].
  cbn [set_out_cookies]. rewrite Hc. cbn [mbind outcome_bind].
  destruct (IH (apr_table_set (lit "Set-Cookie") (c_str s) t)) as (t' & -> & Ht'). exists t'.
  split; [done |]. rewrite Ht'. cbn [fmap list_fmap last_value]. destruct (last_value _ _); [done |].
  rewrite apr_get_set. by destruct (compare k _).
Qed.
End answer.

(** ** Properties *)

(** C21. The handler of an Apache module is given the request the server describes - the fields,
    each header, the content type among them, by its last value (the length being that of the
    body, if there is one), the cookies in their order, the body as the concatenation of all
    buckets up to the end of the stream.  What it returns is left in the request record: the
    status, the content type, exactly the bytes of the body as output, and every header but
    Content-Length and Content-Type; of several cookies, or headers of one name, only the last
    one.  The server is told OK for the status 200, and any other status as it is (upon which it
    answers with a page of its own: what the client then gets is not claimed). *)
Theorem apache_answers `{TimeLib, AprLaws, Logger L} u junk r (l : L) front final after :
  brigades r = (Some <$> front) ++ Some final :: after →
  Forall (λ bs, readable bs ∧ ends bs = false) front → readable final → ends final = true →
  (Z.of_nat (length (concat (brigade_text <$> front) ++ brigade_text final)) ≤ INT_MAX)%Z →
  ∃ req,
    (fields_of r req ∧
     body_of (req_header req) = concat (brigade_text <$> front) ++ brigade_text final ∧
     headers_of u r (concat (brigade_text <$> front) ++ brigade_text final) (req_header req)) ∧
    ∀ f g resp ss,
      f req = Ret resp → Forall2 (λ c s, http_cookie_str c = Ret s) (cookies (resp_header resp)) ss →
      let code := http_error.error_code (_status resp) in
      ∃ r', handle_request (Some f) g u junk r l
        = Some (Ret (if (code =? 200)%Z then OK else code), r', l) ∧
        ap_status r' = code ∧ written r' = written r ++ body_of (resp_header resp) ∧
        content_type r' = (match get_content_type (resp_header resp) with
                           | [] => content_type r | c => Some (c_str c) end) ∧
        ∀ k, apr_table_get k (headers_out r')
             = match last_value (compare k) (sent_headers (headers (resp_header resp)) ss) with
               | Some v => Some v | None => apr_table_get k (headers_out r) end.
Proof.
  intros Hb Hf Hr He Hl. destruct (get_request_spec u junk r _
    ltac:(rewrite Hb; by apply input_whole) Hl) as (req & Hreq & Hfields & Hbody & Hk).
  exists req. split; [done |]. intros f g resp ss Hresp Hss code. unfold handle_request, respond.
  rewrite Hreq, Hresp. unfold send_response, get_cookies. cbn [mbind outcome_bind].
  set (t := set_out_headers (headers (resp_header resp)) (headers_out r)).
  destruct (set_out_cookies_get _ _ t [] Hss) as (t' & Et & _). rewrite Et. eexists. cbn [mbind outcome_bind]. split; [done |]. split; [done |].
  split; [| split; [by destruct (get_content_type _) |]].
  - cbn. f_equal. destruct (Z.ltb_spec 0 (get_content_size (resp_header resp))); [done |].
    unfold body_of. by rewrite Z2Nat.nonpos.
  - intros k. cbn. destruct (set_out_cookies_get _ _ t k Hss) as (t'' & Ht'' & Hget).
    rewrite Et in Ht''. injection Ht'' as <-. rewrite Hget. subst t. rewrite set_out_headers_get. unfold sent_headers.
    rewrite app_nil_r, last_value_app. by destruct (last_value _ _).
Qed.

(** A handler that throws is answered with status 500 and the message, which is logged, unless
    the exception is the library's and a handler of exceptions takes it. *)
Lemma apache_exception_page `{TimeLib, AprLaws, Logger L} f g u junk r req (l : L) e :
  get_request u junk r = Some (Ret req) → f req = Throw e → g = None ∨ is_dbp e = false →
  (Z.of_nat (length (c_str (exn_what e))) ≤ INT_MAX)%Z →
  ∃ r', handle_request (Some f) g u junk r l = Some (Ret 500%Z, r', log_error (c_str (exn_what e)) l) ∧
    ap_status r' = 500%Z ∧ written r' = written r ++ c_str (exn_what e).
Proof.
  intros Hreq Hf Hg Hl. unfold handle_request, respond. rewrite Hreq, Hf.
  assert (match g, is_dbp e with
    | Some g, true => (g e http_response_new, l)
    | _, _ => (error_page e http_response_new, log_error (c_str (exn_what e)) l)
    end = (error_page e http_response_new, log_error (c_str (exn_what e)) l)) as ->.
  { destruct Hg as [-> | ->]; [done |]. by destruct g. }
  unfold error_page. rewrite set_content_result by done. set (what := c_str (exn_what e)) in *.
  cbn [mbind outcome_bind]. unfold send_response. set (h := put_header _ _ _).
  assert (body_of h = what ∧ get_content_size h = Z.of_nat (length what)) as [Hb Hs].
  { unfold body_of. rewrite (get_content_size_spec h what) by done. rewrite Nat2Z.id.
    split; [apply take_app_length | done]. }
  eexists. split; [reflexivity |]. split; [done |]. cbn [resp_header]. rewrite Hb, Hs. cbn. f_equal.
  by destruct what.
Qed.

(** ** A table as a list *)
Definition list_get (k : str) (t : list (str * str)) : option str :=
  snd <$> List.find (λ e, compare k e.1) t.

#[export] Instance list_apr : Apr := {
  apr_table := list (str * str);
  apr_table_set k v t := (k, v) :: List.filter (λ e, negb (compare k e.1)) t;
  apr_table_get := list_get;
  ap_get_server_banner := Some (lit "Apache") }.

#[export] Instance list_apr_laws : AprLaws.
Proof.
  split. intros k k' v t. cbn. unfold list_get. cbn. destruct (compare k k') eqn:E; [done |].
  f_equal. induction t as [| [n w] t IH]; [done |]. cbn. destruct (compare k n) eqn:En.
  - destruct (compare k' n) eqn:En'; cbn; [| by rewrite En].
    rewrite compare_sym in En'. by rewrite (compare_trans _ _ _ En En') in E.
  - destruct (compare k' n); cbn; [done | by rewrite En].
Qed.

Definition sample_request : request_rec :=
  RequestRec [(Some (lit "Accept"), Some (lit "text/html")); (Some (lit "Cookie"), Some (lit "a=1; b=2"));
     (Some (lit "Content-Type"), Some (lit "text/css"))] None None None (Some (lit "POST")) None
    None (Some (lit "/app")) None 443 None None None
    [Some [Bucket (Some (lit "a=")) false]; Some [Bucket (Some (lit "b")) false; Bucket (Some []) true]]
    [] 0 None [].

Definition cookie_named (n : string) : http_cookie :=
  http_cookie_make (Uninit false (λ _, Tm 0 0 0 0 0 0 (0, 0, 0)%Z)) (lit n) (lit "1").

(** Of two cookies the client gets one. *)
Example apache_last_cookie :
  let resp := on_response (set_cookies [cookie_named "a"; cookie_named "b"]) http_response_new in
  (headers_out <$> send_response (H := flat_calendar) resp sample_request)
  = Ret [(lit "Set-Cookie", lit "b=1")].
Proof. vm_compute. reflexivity. Qed.

(** A body that could not be read to its end is taken for the whole. *)
Example apache_truncated_body :
  input [Some [Bucket (Some (lit "a=")) false]; None] [] = Some (lit "a=").
Proof. reflexivity. Qed.

(** ** Witness *)
Lemma apache_answers_witness :
  ∃ r', handle_request (H := flat_calendar) (Some (λ req, Ret (on_response (set_cookie (cookie_named "a"))
          (set_status http_error.not_found http_response_new)))) None no_memory http_method.get sample_request []
    = Some (Ret 404%Z, r', []) ∧ apr_table_get (lit "set-cookie") (headers_out r') = Some (lit "a=1").
Proof.
  destruct (apache_answers (H := flat_calendar) no_memory http_method.get sample_request []
    [[Bucket (Some (lit "a=")) false]] [Bucket (Some (lit "b")) false; Bucket (Some []) true] []
    eq_refl ltac:(repeat constructor; by eexists) ltac:(repeat constructor; by eexists) eq_refl
    ltac:(vm_compute; discriminate)) as (req & _ & Hans).
  destruct (Hans (λ req, Ret (on_response (set_cookie (cookie_named "a"))
      (set_status http_error.not_found http_response_new))) None _ [lit "a=1"] eq_refl
    ltac:(repeat constructor)) as (r' & Hrun & _ & _ & _ & Hget).
  exists r'. split; [exact Hrun |]. rewrite Hget. reflexivity.
Defined.
