(* ===== verification/IsapiApplication.v ===== *)
(** * [src/src/dcl/isapi_application.cpp], [src/include/dcl/isapi_application.h]: web
    applications as extensions of Internet Information Services.

    The server hands over an [EXTENSION_CONTROL_BLOCK]: fields, the bytes of the body it has
    already, and functions - [GetServerVariable], [ReadClient], [WriteClient] - whose answers
    are fields of the record.  What the application sends is a list. *)
From S2P Require Export WebApplication.

(** The answer of [GetServerVariable] when it is given a buffer of some size. *)
Inductive var_answer := Copied (v : str) | Insufficient (needed : Z) | NoVariable.

(** [ReadClient] answers the bytes it stored, [WriteClient] whether it succeeded. *)
Record EXTENSION_CONTROL_BLOCK := ControlBlock {
  lpszMethod : option str;
  lpszQueryString : option str;
  lpszPathInfo : option str;
  lpszPathTranslated : option str;
  lpszContentType : option str;
  cbTotalBytes : Z;
  cbAvailable : Z;
  lpbData : str;
  GetServerVariable : str → Z → var_answer;
  ReadClient : Z → option str;
  WriteClient : str → bool }.

Record HSE_SEND_HEADER_EX_INFO := SendHeader {
  pszStatus : char_ptr;
  pszHeader : char_ptr;
  cchStatus : Z;
  cchHeader : Z;
  fKeepConn : bool }.

(** A call that sends something. *)
Inductive sent := SentHeader (hdr : HSE_SEND_HEADER_EX_INFO) | SentBytes (s : str).

Definition HSE_STATUS_SUCCESS : Z := 1.

Definition HSE_STATUS_ERROR : Z := 4.

Definition DEFAULT_BUFFER_SIZE : Z := 1024.

(** [get_server_variable]: the loop runs twice at most.  The second buffer comes from [new[]]
    and is given to [delete], which is undefined. *)
Definition get_server_variable (isapi_req : EXTENSION_CONTROL_BLOCK) (name : str) : outcome str :=
  let missing := Throw (Exn dbp_exception (lit "The specified variable doesn't exist")) in
  match GetServerVariable isapi_req (c_str name) DEFAULT_BUFFER_SIZE with
  | Copied v => Ret (c_str v)
  | NoVariable => missing
  | Insufficient len =>
      match GetServerVariable isapi_req (c_str name) len with
      | Copied _ => Undef
      | NoVariable => missing
      | Insufficient _ => Throw (Exn bad_alloc (lit "std::bad_alloc"))
      end
  end.

(** The body; [mem] is the memory [malloc] returns.  [memcpy] is undefined when it reads or writes past
    a block; the answer of one call of [ReadClient] is taken for the rest, whatever it stored. *)
Definition read_body (mem : nat → ascii) (isapi_req : EXTENSION_CONTROL_BLOCK) (h : http_header)
    : outcome http_header :=
  let total := cbTotalBytes isapi_req in
  let avail := cbAvailable isapi_req in
  if (0 <? total)%Z then
    if (total <? avail)%Z || (Z.of_nat (length (lpbData isapi_req)) <? avail)%Z then Undef
    else
      let data := take (Z.to_nat avail) (lpbData isapi_req) in
      more ← (if (avail <? total)%Z then
                match ReadClient isapi_req (u32 (total - avail)) with
                | Some s => Ret s
                | None => Throw (Exn dbp_exception (lit "Can't obtain data from the web server"))
                end
              else Ret []);
      let filled := data ++ more in
      let buf := filled ++ (mem <$> seq (length filled) (Z.to_nat total - length filled)) in
      set_content_n (s32 total) buf h
  else Ret h.

Section isapi.
Context `{TimeLib}.

(** The headers the client sent, one per line. *)
Fixpoint set_raw_headers (u : nat → nat → uninit) (i : nat) (lines : list str) (req : http_request)
    : http_request :=
  match lines with
  | [] => req
  | l :: lines' =>
      set_raw_headers u (S i) lines' (on_request (set_header_line (u i) (trim l)) req)
  end.

Definition get_request (u : nat → nat → uninit) (mem : nat → ascii) (junk : http_method.http_method)
    (isapi_req : EXTENSION_CONTROL_BLOCK) : outcome http_request :=
  let var n := get_server_variable isapi_req (lit n) in
  raw ← var "ALL_RAW"%string;
  let req := set_raw_headers u 0 (tokenize raw [newline]) (http_request_new junk) in
  let req := set_method (to_string_chars (lpszMethod isapi_req)) req in
  let req := set_query_string (to_string_chars (lpszQueryString isapi_req)) req in
  let req := set_path_info (to_string_chars (lpszPathInfo isapi_req)) req in
  let req := set_path_translated (to_string_chars (lpszPathTranslated isapi_req)) req in
  let req := on_request (set_content_type (to_string_chars (lpszContentType isapi_req))) req in
  auth ← var "AUTH_TYPE"%string;
  user ← var "REMOTE_USER"%string;
  script ← var "SCRIPT_NAME"%string;
  name ← var "SERVER_NAME"%string;
  port ← var "SERVER_PORT"%string;
  protocol ← var "SERVER_PROTOCOL"%string;
  software ← var "SERVER_SOFTWARE"%string;
  host ← var "REMOTE_HOST"%string;
  addr ← var "REMOTE_ADDR"%string;
  gateway ← var "GATEWAY_INTERFACE"%string;
  let req := set_gateway_interface gateway (set_remote_addr addr (set_remote_host host
    (set_server_software software (set_server_protocol protocol (set_server_port
    (from_string_int port) (set_server_name name (set_script_name script (set_remote_user user
    (set_auth_type auth req))))))))) in
  h ← read_body mem isapi_req (req_header req);
  Ret (on_request (λ _, h) req).

(** ** [send_response] *)
Fixpoint header_text (hs : list (str * str)) (h : str) : str :=
  match hs with
  | [] => h
  | (k, v) :: hs' => header_text hs' (h ++ k ++ lit ": " ++ v ++ CRLF)
  end.

Fixpoint cookie_text (cs : list http_cookie) (h : str) : outcome str :=
  match cs with
  | [] => Ret h
  | c :: cs' => s ← http_cookie_str c; cookie_text cs' (h ++ lit "Set-Cookie: " ++ s ++ CRLF)
  end.

(** The status text is a temporary that dies before the call, and its length is the code. *)
Definition send_response (isapi_req : EXTENSION_CONTROL_BLOCK) (response : http_response)
    : stm (list sent) unit := λ out,
  let hd := resp_header response in
  match (h ← cookie_text (get_cookies hd) (header_text (headers hd) []);
         _ ← get_status response; Ret (h ++ CRLF)) with
  | Throw e => (Throw e, out)
  | Undef => (Undef, out)
  | Ret h =>
      let hdr := SendHeader Dangling (Live (c_str h)) (http_error.error_code (_status response))
        (u32 (Z.of_nat (length h))) false in
      let out := out ++ [SentHeader hdr] in
      let len := u32 (get_content_size hd) in
      if (0 <? len)%Z then
        let bytes := take (Z.to_nat len) (content hd) in
        let out := out ++ [SentBytes bytes] in
        if WriteClient isapi_req bytes then (Ret (), out)
        else (Throw (Exn dbp_exception (lit "Can't send data to the web server")), out)
      else (Ret (), out)
  end.

Definition handle_request (request_handler : option (http_request → outcome http_response))
    (exception_handler : option (exn → http_response → outcome http_response))
    (u : nat → nat → uninit) (mem : nat → ascii) (junk : http_method.http_method)
    (isapi_req : EXTENSION_CONTROL_BLOCK) : stm (list sent) Z :=
  match request_handler with
  | None => mret HSE_STATUS_ERROR
  | Some f =>
      req ← lift (get_request u mem junk isapi_req);
      resp ← lift (answer f exception_handler req);
      let rslt := if (http_error.error_code (_status resp)
                      =? http_error.error_code http_error.internal_server_error)%Z
                  then HSE_STATUS_ERROR else HSE_STATUS_SUCCESS in
      _ ← send_response isapi_req resp;
      mret rslt
  end.
End isapi.

(** ** Lemmas *)

(** What the documentation of the server promises of [GetServerVariable]: the value with its
    terminating zero if the buffer holds it, the size that is needed if not. *)
Definition serves (isapi_req : EXTENSION_CONTROL_BLOCK) (vars : str → option str) : Prop :=
  ∀ n len, GetServerVariable isapi_req n len =
    match vars n with
    | None => NoVariable
    | Some v => if (Z.of_nat (length v) <? len)%Z then Copied v
                else Insufficient (Z.of_nat (length v) + 1)
    end.

(** A value without zeros that the first buffer holds. *)
Definition short_value (v : str) : Prop := (nul ∉ v) ∧ (Z.of_nat (length v) < DEFAULT_BUFFER_SIZE)%Z.

(** The three outcomes of [get_server_variable]; a long value is never returned. *)
Lemma get_server_variable_spec isapi_req vars n :
  serves isapi_req vars → nul ∉ n →
  get_server_variable isapi_req n =
    match vars n with
    | None => Throw (Exn dbp_exception (lit "The specified variable doesn't exist"))
    | Some v => if (Z.of_nat (length v) <? DEFAULT_BUFFER_SIZE)%Z then Ret (c_str v) else Undef
    end.
Proof.
  intros Hs Hn. unfold get_server_variable. rewrite (c_str_id n), Hs by done.
  destruct (vars n) as [v |] eqn:E; [| done].
  destruct (Z.ltb_spec (Z.of_nat (length v)) DEFAULT_BUFFER_SIZE); [done |].
  rewrite Hs, E. destruct (Z.ltb_spec (Z.of_nat (length v)) (Z.of_nat (length v) + 1)); [done | lia].
Qed.

Lemma server_variable_short isapi_req vars n v :
  serves isapi_req vars → nul ∉ n → vars n = Some v → short_value v →
  get_server_variable isapi_req n = Ret v.
Proof.
  intros Hs Hn Hv [Hz Hl]. rewrite (get_server_variable_spec _ vars), Hv by done.
  apply Z.ltb_lt in Hl as ->. by rewrite c_str_id.
Qed.

(** The server has a part of the body and gives the rest when asked. *)
Record delivers (isapi_req : EXTENSION_CONTROL_BLOCK) (body : str) : Prop := {
  total_bytes : cbTotalBytes isapi_req = Z.of_nat (length body);
  total_small : (Z.of_nat (length body) ≤ INT_MAX)%Z;
  available_bytes : (0 ≤ cbAvailable isapi_req ≤ cbTotalBytes isapi_req)%Z;
  available_data : lpbData isapi_req = take (Z.to_nat (cbAvailable isapi_req)) body;
  remaining_data : (0 < cbTotalBytes isapi_req - cbAvailable isapi_req)%Z →
    ReadClient isapi_req (cbTotalBytes isapi_req - cbAvailable isapi_req)
    = Some (drop (Z.to_nat (cbAvailable isapi_req)) body) }.

(** The body is what the server has, then what it gives, when that is everything. *)
Lemma read_body_whole mem isapi_req h body :
  content h = [] → delivers isapi_req body →
  ∃ h', read_body mem isapi_req h = Ret h' ∧ body_of h' = body ∧
    ∀ k, compare k (lit "Content-Length") = false → get_header k h' = get_header k h.
Proof.
  intros Hc [Ht Hmax Ha Hd Hr]. unfold read_body.
  destruct (Z.ltb_spec 0 (cbTotalBytes isapi_req)) as [Hpos | Hz].
  2: { exists h. split; [done |]. split; [| done]. unfold body_of. rewrite Hc, take_nil.
       by destruct body; [| cbn in Ht; lia]. }
  destruct (Z.ltb_spec (cbTotalBytes isapi_req) (cbAvailable isapi_req)); [lia |].
  rewrite Hd, length_take.
  destruct (Z.ltb_spec (Z.of_nat (Z.to_nat (cbAvailable isapi_req) `min` length body))
    (cbAvailable isapi_req)); [lia |]. cbn [orb].
  set (m := if (cbAvailable isapi_req <? cbTotalBytes isapi_req)%Z then _ else _).
  assert (m = Ret (drop (Z.to_nat (cbAvailable isapi_req)) body)) as ->.
  { subst m. destruct (Z.ltb_spec (cbAvailable isapi_req) (cbTotalBytes isapi_req)).
    - unfold INT_MAX in *. rewrite u32_small, Hr by lia. done.
    - rewrite drop_ge by lia. done. }
  cbn [mbind outcome_bind]. rewrite take_take, Nat.min_id, take_drop.
  rewrite Ht, Nat2Z.id, Nat.sub_diag. cbn [seq fmap list_fmap]. rewrite app_nil_r.
  unfold set_content_n. rewrite s32_small by (unfold INT_MIN, INT_MAX in *; lia).
  rewrite Nat2Z.id, Nat.ltb_irrefl, Hc, firstn_all. cbn [app].
  eexists. split; [done |]. split.
  - unfold body_of. rewrite (get_content_size_spec _ body) by done. rewrite Nat2Z.id. cbn.
    apply take_app_length.
  - intros k Hk. by rewrite get_put_header, Hk.
Qed.

(** A line of the block of headers. *)
Definition raw_ok (e : str * str) : Prop :=
  header_ok e ∧ trimmed (header_line e) ∧ free [newline] (header_line e) ∧ free [nul] (header_line e).

Definition raw_headers (hs : list (str * str)) : str := concat ((λ e, header_line e ++ CRLF) <$> hs).

Lemma tokenize_raw hs :
  Forall raw_ok hs →
  tokenize (raw_headers hs) [newline] = match hs with [] => [] | _ => (header_line <$> hs) ++ [[]] end.
Proof.
  intros Hok. rewrite tokenize_split.
  assert (trim <$> split_on (in_set [newline]) (raw_headers hs) = (header_line <$> hs) ++ [[]]) as E.
  { induction Hok as [| e hs (_ & Ht & Hf & _) _ IH]; [done |]. unfold raw_headers in *.
    rewrite !fmap_cons. cbn [concat]. change (header_line e ++ CRLF) with (header_line e ++ [chr 13] ++ [newline]).
    rewrite <- !app_assoc, app_assoc. cbn [app]. rewrite split_on_sep; [| | done].
    - rewrite fmap_cons, IH. cbn [app]. f_equal. apply (trim_blanks [] _ [chr 13]); [done | | done].
      by repeat constructor.
    - apply Forall_app. split; [exact Hf | by repeat constructor]. }
  destruct hs as [| e hs]; [done |]. rewrite E.
  destruct (raw_headers (e :: hs)) as [| a s] eqn:Er; [| done]. exfalso.
  unfold raw_headers in Er. cbn in Er. apply app_eq_nil in Er as [Er _]. by apply app_eq_nil in Er as [_ Er].
Qed.

Lemma raw_headers_zero hs : Forall raw_ok hs → c_str (raw_headers hs) = raw_headers hs.
Proof.
  intros Hok. apply c_str_id. induction Hok as [| e hs (_ & _ & _ & Hz) _ IH]; [apply not_elem_of_nil |].
  unfold raw_headers in *. cbn [fmap list_fmap concat]. rewrite !elem_of_app. intros [[Hin | Hin] | Hin]; [| | done].
  - by pose proof (proj1 (Forall_forall _ _) Hz _ Hin).
  - revert Hin. apply (bool_decide_unpack _). vm_compute. exact I.
Qed.

Section request.
Context `{TimeLib}.

(** The plain headers of a request are the last values of the lines; the body is untouched. *)
Lemma set_raw_headers_get u i hs req k :
  Forall raw_ok hs → plain_header k →
  get_header k (req_header (set_raw_headers u i (header_line <$> hs) req))
  = default (get_header k (req_header req)) (last_value (compare k) hs).
Proof.
  intros Hok Hk. revert i req. induction Hok as [| [n v] hs (Hh & Ht & _) _ IH]; intros i req; [done |].
  cbn [fmap list_fmap set_raw_headers last_value]. rewrite IH, on_request_header, trim_id by done.
  rewrite set_header_line_spec, get_put_header by done. cbn [fst snd].
  destruct (last_value _ hs); [done |]. by destruct (compare k n).
Qed.

Lemma set_raw_headers_content u i lines req :
  content (req_header (set_raw_headers u i lines req)) = content (req_header req).
Proof.
  revert i req. induction lines as [| l lines IH]; intros i req; [done |]. cbn [set_raw_headers].
  rewrite IH, on_request_header. unfold set_header_line. case_match; [| done]. apply set_header_content.
Qed.

(** The empty piece after the last line adds nothing. *)
Lemma set_raw_headers_nil_line u i lines req k :
  get_header k (req_header (set_raw_headers u i (lines ++ [[]]) req))
  = get_header k (req_header (set_raw_headers u i lines req)).
Proof.
  revert i req. induction lines as [| l lines IH]; intros i req; [| apply IH].
  cbn. rewrite on_request_header. reflexivity.
Qed.

(** The variables [get_request] asks for. *)
Definition variable_names : list str :=
  lit <$> ["AUTH_TYPE"; "REMOTE_USER"; "SCRIPT_NAME"; "SERVER_NAME"; "SERVER_PORT"; "SERVER_PROTOCOL";
    "SERVER_SOFTWARE"; "REMOTE_HOST"; "REMOTE_ADDR"; "GATEWAY_INTERFACE"]%string.

(** The fields of a request: from the record and from the variables [var]. *)
Definition fields_of (isapi_req : EXTENSION_CONTROL_BLOCK) (var : str → str) (req : http_request) : Prop :=
  _method req = http_method.convert_string (to_string_chars (lpszMethod isapi_req)) ∧
  _query_string req = to_string_chars (lpszQueryString isapi_req) ∧
  _path_info req = to_string_chars (lpszPathInfo isapi_req) ∧
  _path_translated req = to_string_chars (lpszPathTranslated isapi_req) ∧
  _auth_type req = var (lit "AUTH_TYPE") ∧ _remote_user req = var (lit "REMOTE_USER") ∧
  _script_name req = var (lit "SCRIPT_NAME") ∧ _server_name req = var (lit "SERVER_NAME") ∧
  _server_port req = from_string_int (var (lit "SERVER_PORT")) ∧
  _server_protocol req = var (lit "SERVER_PROTOCOL") ∧
  _server_software req = var (lit "SERVER_SOFTWARE") ∧ _remote_host req = var (lit "REMOTE_HOST") ∧
  _remote_addr req = var (lit "REMOTE_ADDR") ∧
  _gateway_interface req = var (lit "GATEWAY_INTERFACE").

Lemma variables_read isapi_req vars :
  serves isapi_req vars → Forall (λ n, ∃ v, vars n = Some v ∧ short_value v) variable_names →
  Forall (λ n, get_server_variable isapi_req n = Ret (default [] (vars n))) variable_names.
Proof.
  intros Hs Hvars. apply Forall_forall. intros n Hin.
  pose proof (proj1 (Forall_forall _ _) Hvars n Hin) as (v & Hv & Hsh). rewrite Hv.
  assert (Forall (λ n, nul ∉ n) variable_names) as Hz by by apply (bool_decide_unpack _).
  apply (server_variable_short _ vars); [done | | done..].
  exact (proj1 (Forall_forall _ _) Hz n Hin).
Qed.

(** The request before the body is read. *)
Lemma raw_request u junk hs :
  Forall raw_ok hs →
  let h := req_header (set_raw_headers u 0 (match hs with [] => [] | _ => (header_line <$> hs) ++ [[]] end)
    (http_request_new junk)) in
  content h = [] ∧
  ∀ k, plain_header k → get_header k h = default [] (last_value (compare k) hs).
Proof.
  intros Hok h. split; [apply set_raw_headers_content |]. intros k Hk. subst h.
  destruct hs as [| e hs]; [done |]. rewrite set_raw_headers_nil_line. by apply set_raw_headers_get.
Qed.

Lemma isapi_request_spec u mem junk isapi_req vars hs body :
  serves isapi_req vars → vars (lit "ALL_RAW") = Some (raw_headers hs) → Forall raw_ok hs →
  (Z.of_nat (length (raw_headers hs)) < DEFAULT_BUFFER_SIZE)%Z →
  Forall (λ n, ∃ v, vars n = Some v ∧ short_value v) variable_names → delivers isapi_req body →
  ∃ req, get_request u mem junk isapi_req = Ret req ∧
    fields_of isapi_req (λ n, default [] (vars n)) req ∧ body_of (req_header req) = body ∧
    get_header (lit "Content-Type") (req_header req) = to_string_chars (lpszContentType isapi_req) ∧
    ∀ k, plain_header k → get_header k (req_header req) = default [] (last_value (compare k) hs).
Proof.
  intros Hs Hraw Hok Hlen Hvars Hbody. unfold get_request. cbv beta zeta.
  rewrite (get_server_variable_spec _ vars (lit "ALL_RAW")), Hraw by (done || by apply (bool_decide_unpack _)).
  apply Z.ltb_lt in Hlen as ->. cbn [mbind outcome_bind]. rewrite raw_headers_zero, tokenize_raw by done.
  pose proof (variables_read _ _ Hs Hvars) as Hr. unfold variable_names in Hr. cbn [fmap list_fmap] in Hr.
  rewrite !Forall_cons in Hr.
  destruct Hr as (-> & -> & -> & -> & -> & -> & -> & -> & -> & -> & _). cbn [mbind outcome_bind].
  pose proof (raw_request u junk hs Hok) as Hraw'. cbv zeta in Hraw'. revert Hraw'.
  generalize (set_raw_headers u 0 (match hs with [] => [] | _ => (header_line <$> hs) ++ [[]] end)
    (http_request_new junk)). intros r [Hc Hk].
  destruct (read_body_whole mem isapi_req
    (set_content_type (to_string_chars (lpszContentType isapi_req)) (req_header r)) body Hc Hbody)
    as (h' & Hh' & Hb & Hget).
  match goal with |- context [read_body _ _ (req_header ?q)] => set (rq := q) end.
  assert (∀ h, fields_of isapi_req (λ n, default [] (vars n)) (on_request (λ _, h) rq)) as Hf
    by (intros h; by destruct r).
  assert (req_header rq = set_content_type (to_string_chars (lpszContentType isapi_req)) (req_header r))
    as -> by by destruct r.
  rewrite Hh'. exists (on_request (λ _, h') rq). rewrite on_request_header.
  split_and!; [done | apply Hf | done | |].
  - rewrite Hget by done. unfold set_content_type. by rewrite get_put_header.
  - intros k Hpl. rewrite <- Hk, Hget by (done || apply Hpl). unfold set_content_type.
    rewrite get_put_header. destruct Hpl as (-> & _). done.
Qed.
End request.

(** ** Lemmas: the answer *)
Section answer.
Context `{TimeLib}.

Lemma header_text_spec hs h :
  header_text hs h = h ++ concat ((λ e, header_line e ++ CRLF) <$> hs).
Proof.
  revert h. induction hs as [| [k v] hs IH]; intros h; cbn [header_text fmap list_fmap concat];
    [by rewrite app_nil_r |]. rewrite IH. unfold header_line. cbn [fst snd]. by rewrite <- !app_assoc.
Qed.

Lemma cookie_text_spec cs ss h :
  Forall2 (λ c s, http_cookie_str c = Ret s) cs ss →
  cookie_text cs h = Ret (h ++ concat ((λ s, lit "Set-Cookie: " ++ s ++ CRLF) <$> ss)).
Proof.
  intros Hs. revert h. induction Hs as [| c s cs ss Hc _ IH]; intros h; cbn [cookie_text fmap list_fmap concat];
    [by rewrite app_nil_r |]. rewrite Hc. cbn [mbind outcome_bind]. rewrite IH. by rewrite <- !app_assoc.
Qed.

(** The block of headers that is sent for a response whose cookies read [ss]. *)
Definition header_block (resp : http_response) (ss : list str) : str :=
  concat ((λ e, header_line e ++ CRLF) <$> headers (resp_header resp))
  ++ concat ((λ s, lit "Set-Cookie: " ++ s ++ CRLF) <$> ss) ++ CRLF.

(** What is sent for a response: the status as a dangling pointer with the code for its length. *)
Definition answer_of (resp : http_response) (ss : list str) : list sent :=
  let block := header_block resp ss in
  SentHeader (SendHeader Dangling (Live (c_str block)) (http_error.error_code (_status resp))
    (u32 (Z.of_nat (length block))) false)
  :: (match body_of (resp_header resp) with [] => [] | body => [SentBytes body] end).

Lemma content_size_bounds h :
  (0 ≤ get_content_size h)%Z →
  (get_content_size h < 2 ^ 32)%Z ∧ Z.to_nat (get_content_size h) ≤ length (content h).
Proof.
  unfold get_content_size. destruct (content h) as [| c s]; [cbn; lia |]. cbn [length].
  rewrite Nat2Z.inj_succ. replace (Z.succ (Z.of_nat (length s)) - 1)%Z with (Z.of_nat (length s)) by lia.
  intros Hn. pose proof (s32_range (u64 (Z.of_nat (length s)))) as Hr.
  assert (s32 (u64 (Z.of_nat (length s))) ≤ Z.of_nat (length s))%Z.
  { unfold s32, u64 in *. pose proof (Z.mod_le (Z.of_nat (length s)) (2 ^ 64)).
    set (z := (Z.of_nat (length s) mod 2 ^ 64)%Z) in *.
    assert (0 ≤ z)%Z by (apply Z.mod_pos_bound; lia).
    pose proof (Z.mod_le (z + 2 ^ 31) (2 ^ 32)). lia. }
  unfold INT_MAX in *. lia.
Qed.

Lemma send_response_spec isapi_req resp ss out :
  Forall2 (λ c s, http_cookie_str c = Ret s) (cookies (resp_header resp)) ss →
  (0 ≤ get_content_size (resp_header resp))%Z →
  send_response isapi_req resp out
  = (if WriteClient isapi_req (body_of (resp_header resp))
        || (get_content_size (resp_header resp) =? 0)%Z then Ret ()
     else Throw (Exn dbp_exception (lit "Can't send data to the web server")), out ++ answer_of resp ss).
Proof.
  intros Hss Hn. destruct (content_size_bounds _ Hn) as [Hmax Hl]. unfold send_response, get_cookies, answer_of, header_block.
  rewrite (cookie_text_spec _ ss), header_text_spec by done. cbn [mbind outcome_bind app].
  unfold get_status. destruct (convert_error_total (_status resp)) as (text & -> & _).
  cbn [mbind outcome_bind].
  rewrite (u32_small (get_content_size _)), <- (app_assoc _ _ CRLF) by lia. fold (body_of (resp_header resp)).
  destruct (Z.ltb_spec 0 (get_content_size (resp_header resp))) as [Hpos | Hz].
  - destruct (Z.eqb_spec (get_content_size (resp_header resp)) 0); [lia |]. rewrite orb_false_r.
    assert (body_of (resp_header resp) ≠ []) as Hne.
    { intros E. apply (f_equal length) in E. unfold body_of in E. rewrite length_take in E. cbn in E. lia. }
    destruct (body_of (resp_header resp)) as [| b body] eqn:E; [done |].
    rewrite <- app_assoc. by destruct (WriteClient isapi_req _).
  - assert (get_content_size (resp_header resp) = 0%Z) as E by lia. unfold body_of. rewrite E.
    change (Z.to_nat 0) with 0. change (0 =? 0)%Z with true. rewrite take_0, orb_true_r. reflexivity.
Qed.
End answer.

(** ** Properties *)

(** The handler of an ISAPI extension is given the request the server describes - the fields,
    each header by its last line, the whole body - if no variable is longer than the first
    buffer; what it returns is sent as one block of headers, its cookies included, and exactly
    the bytes of its body, and only the code 500 is reported as an error.  The text of the
    status does not reach the server: the pointer to it dangles. *)
Theorem isapi_answers `{TimeLib} u mem junk isapi_req vars hs body out :
  serves isapi_req vars → vars (lit "ALL_RAW") = Some (raw_headers hs) → Forall raw_ok hs →
  (Z.of_nat (length (raw_headers hs)) < DEFAULT_BUFFER_SIZE)%Z →
  Forall (λ n, ∃ v, vars n = Some v ∧ short_value v) variable_names → delivers isapi_req body →
  ∃ req,
    (fields_of isapi_req (λ n, default [] (vars n)) req ∧ body_of (req_header req) = body ∧
     get_header (lit "Content-Type") (req_header req) = to_string_chars (lpszContentType isapi_req) ∧
     ∀ k, plain_header k → get_header k (req_header req) = default [] (last_value (compare k) hs)) ∧
    ∀ f g resp ss,
      f req = Ret resp → Forall2 (λ c s, http_cookie_str c = Ret s) (cookies (resp_header resp)) ss →
      (0 ≤ get_content_size (resp_header resp))%Z →
      WriteClient isapi_req (body_of (resp_header resp)) = true →
      handle_request (Some f) g u mem junk isapi_req out
      = (Ret (if (http_error.error_code (_status resp) =? 500)%Z then HSE_STATUS_ERROR
              else HSE_STATUS_SUCCESS), out ++ answer_of resp ss).
Proof.
  intros Hs Hraw Hok Hlen Hvars Hbody.
  destruct (isapi_request_spec u mem junk _ _ _ _ Hs Hraw Hok Hlen Hvars Hbody) as (req & Hreq & Hfacts).
  exists req. split; [exact Hfacts |]. intros f g resp ss Hf Hss Hn Hw.
  unfold handle_request, answer, lift, mbind, stm_bind. rewrite Hreq, Hf, send_response_spec with (ss := ss) by done.
  by rewrite Hw.
Qed.

(** A handler that throws is answered with the page of its message; the server is told of an
    error after the page has been sent. *)
Lemma isapi_exception_page `{TimeLib} f u mem junk isapi_req req e out :
  get_request u mem junk isapi_req = Ret req → f req = Throw e →
  (Z.of_nat (length (c_str (exn_what e))) ≤ INT_MAX)%Z →
  WriteClient isapi_req (c_str (exn_what e)) = true →
  ∃ hdr, handle_request (Some f) None u mem junk isapi_req out
    = (Ret HSE_STATUS_ERROR, out ++ SentHeader hdr ::
         match c_str (exn_what e) with [] => [] | w => [SentBytes w] end) ∧
    cchStatus hdr = 500%Z ∧ pszStatus hdr = Dangling.
Proof.
  intros Hreq Hf Hl Hw. unfold handle_request, answer, lift, mbind, stm_bind. rewrite Hreq, Hf.
  unfold error_page. rewrite set_content_result by done. cbn [mbind outcome_bind].
  set (what := c_str (exn_what e)) in *. set (h := put_header _ _ _).
  assert (get_content_size h = Z.of_nat (length what)) as Hs.
  { by rewrite (get_content_size_spec h what) by done. }
  assert (body_of h = what) as Hb.
  { unfold body_of. rewrite Hs, Nat2Z.id. apply take_app_length. }
  rewrite send_response_spec with (ss := []); [| by constructor | cbn [resp_header]; lia].
  cbn [resp_header]. rewrite Hb, Hw. eexists. split; [unfold answer_of; cbn [resp_header]; by rewrite Hb |]. done.
Qed.

(** ** A server *)

(** The variables of a server, as an association list. *)
Definition list_server (vars : list (str * str)) (n : str) (len : Z) : var_answer :=
  match last_value (str_eqb n) vars with
  | None => NoVariable
  | Some v => if (Z.of_nat (length v) <? len)%Z then Copied v
              else Insufficient (Z.of_nat (length v) + 1)
  end.

Definition sample_vars (raw : str) : list (str * str) :=
  (lit "ALL_RAW", raw) :: ((λ n, (n, lit "80")) <$> variable_names).

(** Of four bytes of the body the server has one; [more] is what it answers for the others. *)
Definition sample_block (raw : str) (more : option str) : EXTENSION_CONTROL_BLOCK :=
  ControlBlock (Some (lit "POST")) (Some (lit "a=b")) None None (Some (lit "text/plain")) 4 1 (lit "b")
    (list_server (sample_vars raw)) (λ _, more) (λ _, true).

Definition sample_raw : list (str * str) := [(lit "Accept", lit "text/html"); (lit "Accept", lit "*")].

Lemma trim_fixed s : trim s = s → trimmed s.
Proof. intros <-. apply trim_trimmed. Qed.

Lemma sample_raw_ok : Forall raw_ok sample_raw.
Proof.
  repeat (apply Forall_cons; split); [..| apply Forall_nil_2]; unfold raw_ok, header_ok;
    split_and!; first [apply trim_fixed; reflexivity | reflexivity | by apply (bool_decide_unpack _)].
Qed.

Definition request_body (o : outcome http_request) : outcome str := (body_of ∘ req_header) <$> o.

(** An answer of [ReadClient] that is short leaves what was in the memory in the body. *)
Example isapi_short_read :
  request_body (get_request (H := flat_calendar) no_memory (λ _, "?"%char) http_method.get
    (sample_block (raw_headers sample_raw) (Some (lit "o")))) = Ret (lit "bo??").
Proof. vm_compute. reflexivity. Qed.

(** Headers of 1024 characters are enough to make the request undefined. *)
Example isapi_long_headers :
  request_body (get_request (H := flat_calendar) no_memory (λ _, "?"%char) http_method.get
    (sample_block (repeat "a"%char 1024) (Some (lit "ody")))) = Undef.
Proof. vm_compute. reflexivity. Qed.

(** A server without one of the variables gets no answer. *)
Example isapi_missing_variable :
  handle_request (H := flat_calendar) (Some (λ _, Ret http_response_new)) None no_memory (λ _, nul)
    http_method.get (ControlBlock None None None None None 0 0 []
      (list_server [(lit "ALL_RAW", [])]) (λ _, None) (λ _, true)) []
  = (Throw (Exn dbp_exception (lit "The specified variable doesn't exist")), []).
Proof. vm_compute. reflexivity. Qed.

(** ** Witness *)
Lemma isapi_answers_witness :
  ∃ req, body_of (req_header req) = lit "body" ∧
    get_header (lit "accept") (req_header req) = lit "*" ∧
    handle_request (H := flat_calendar) (Some (λ _, Ret (set_status http_error.not_found http_response_new)))
      None no_memory (λ _, nul) http_method.get
      (sample_block (raw_headers sample_raw) (Some (lit "ody"))) []
    = (Ret HSE_STATUS_SUCCESS, answer_of (set_status http_error.not_found http_response_new) []).
Proof.
  destruct (isapi_answers (H := flat_calendar) no_memory (λ _, nul) http_method.get
    (sample_block (raw_headers sample_raw) (Some (lit "ody")))
    (λ n, last_value (str_eqb n) (sample_vars (raw_headers sample_raw))) sample_raw (lit "body") []
    ltac:(done) ltac:(vm_compute; reflexivity)
    sample_raw_ok ltac:(vm_compute; reflexivity)
    ltac:(repeat constructor; eexists; (split; [vm_compute; reflexivity | split; [by apply (bool_decide_unpack _) | done]]))
    ltac:(split; try reflexivity; vm_compute; (done || split; discriminate)))
    as (req & (_ & Hb & _ & Hk) & Hans).
  exists req. split; [exact Hb |]. split.
  - rewrite Hk by (repeat split; reflexivity). reflexivity.
  - rewrite (Hans _ None (set_status http_error.not_found http_response_new) []); [| done..]. reflexivity.
Defined.
