(* ===== verification/TcpServer.v ===== *)
(** * [src/src/dcl/tcp_server.cpp] and [src/include/dcl/tcp_server.h]: the TCP server.

    [connection_read] and [connection_write] on one request; then the server's threads as a
    step relation: the listening thread works through the active requests and the workers
    take requests from the queue, each step being one region the code runs under [_lock] or
    one call of the data handler.  Requests are pointers, so the state keeps them in a heap
    and the lists hold their names. *)
From S2P Require Import Socket.
From S2P Require Export Streams Steps.

Inductive states := WAIT_DATA | TIME_OUT | CLOSING.

Record request := Request {
  cur_state : states;
  connection : Z;
  read_buffer : stream;
  write_buffer : stream }.

(** [request(conn)]: both buffers start at the end of the file. *)
Definition request_new (conn : Z) : request :=
  Request WAIT_DATA conn (set_eof (of_string [])) (set_eof (of_string [])).

Definition close (rq : request) : request :=
  Request CLOSING (connection rq) (read_buffer rq) (write_buffer rq).

Definition with_buffers (r w : stream) (rq : request) : request :=
  Request (cur_state rq) (connection rq) r w.

(** [in.tellg() == in.tellp()]. *)
Definition same_pos (s : stream) : bool * stream :=
  let '(g, s1) := tellg s in (bool_decide (g = tellp s1), s1).

Section connection.
(** The data handler keeps a state of its own (the HTTP server's table of requests) and may
    throw. *)
Context {S : Type}.

Abbreviation data_handler := (S → Z → stream → stream → S * outcome bool * stream * stream).

Context (process_data_handler : option data_handler).

(** [connection_read]: [size] is what [socket::read] answers and [tmp] the bytes it stores. *)
Definition connection_read (st : S) (rq : request) (size : Z) (tmp : str)
    : S * outcome request * request :=
  match process_data_handler with
  | None => (st, Ret rq, rq)
  | Some handler =>
      if (size =? io_error)%Z then
        let rq' := close (with_buffers (set_bad (read_buffer rq)) (write_buffer rq) rq) in
        (st, Ret rq', rq')
      else if (0 <? size)%Z then
        let w := clear_state (write_buffer rq) in
        let r := write (take (Z.to_nat size) tmp) (clear_state (read_buffer rq)) in
        let '(st', keep, r', w') := handler st (connection rq) r w in
        let rq1 := with_buffers r' w' rq in
        match keep with
        | Ret k =>
            let rq2 := if k then rq1 else close rq1 in
            let '(same, r2) := same_pos (read_buffer rq2) in
            let rq3 := with_buffers (if same then set_str [] r2 else r2) (write_buffer rq2) rq2 in
            (st', Ret rq3, rq3)
        | Throw e => (st', Throw e, rq1)
        | Undef => (st', Undef, rq1)
        end
      else (st, Ret rq, rq)
  end.

(** [working_process] on the request it took, up to the end of the handler. *)
Definition work (st : S) (rq : request) : S * outcome unit * request :=
  match process_data_handler with
  | None => (st, Ret (), rq)
  | Some handler =>
      let '(st', keep, r, w) := handler st (connection rq) (read_buffer rq) (write_buffer rq) in
      let rq1 := with_buffers r w rq in
      match keep with
      | Ret k => (st', Ret (), if k then rq1 else close rq1)
      | Throw e => (st', Throw e, rq1)
      | Undef => (st', Undef, rq1)
      end
  end.
End connection.

(** The handler returns or throws, its behaviour being defined. *)
Definition handler_returns {S : Type}
    (handler : option (S → Z → stream → stream → S * outcome bool * stream * stream)) : Prop :=
  ∀ h st c r w, handler = Some h → (h st c r w).1.1.2 ≠ Undef.

(** ** Writing

    Positions and sizes are kept in [int]s there; the bytes to be sent are copied to an array of
    that size on the stack, whose room is the class [Stack]. *)
Class Stack := stack_room : Z.

(** A position as an [int]: what [tellg] returns is converted. *)
Definition int_pos (p : option nat) : Z := s32 (match p with Some n => Z.of_nat n | None => -1 end).

(** The difference of two [int]s. *)
Definition int_minus (a b : Z) : outcome Z :=
  if (INT_MIN <=? a - b)%Z && (a - b <=? INT_MAX)%Z then Ret (a - b)%Z else Undef.

(** [in.seekg(pos)] for an [int], which may be negative. *)
Definition seekg_int (pos : Z) (s : stream) : stream :=
  seekg (if (pos <? 0)%Z then None else Some (Z.to_nat pos)) s.

(** What becomes of the buffer when [socket::write] answers [rsize]. *)
Definition after_send (rsize size : Z) (w : stream) : stream :=
  if (rsize =? io_error)%Z then set_bad w
  else if (0 <? rsize)%Z then
    if (rsize =? size)%Z then set_str [] w
    else let w1 := clear_state w in set_gpos (gpos w1 + Z.to_nat rsize) w1
  else w.

(** [connection_write]: the bytes passed to [socket::write], whose answer is [accept] of them,
    and the write buffer after it.  It is undefined when the difference overflows, when the array
    has a negative size or does not fit the stack, and when bytes of it that were not read are
    sent. *)
Definition connection_write {room : Stack} (accept : str → Z) (w : stream) : outcome (str * stream) :=
  if eofbit w then Ret ([], w)
  else
    let '(p, w1) := tellg w in
    let pos := int_pos p in
    let '(e, w2) := tellg (seekg_end w1) in
    size ← int_minus (int_pos e) pos;
    if (size =? 0)%Z then Ret ([], set_eof w2)
    else if (size <? 0)%Z || (stack_room <? size)%Z then Undef
    else
      let '(tmp, w3) := read (Z.to_nat size) (seekg_int pos w2) in
      let w4 := seekg_int pos w3 in
      if (length tmp <? Z.to_nat size) then Undef
      else Ret (tmp, after_send (accept tmp) size w4).

(** ** Starting: the listening sockets *)
Section start.
Context `{SocketOs}.

(** The loop of [start]: each address gets a new socket, which is bound and copied into
    [listen_sockets]; the local object is destroyed, with its descriptor when it still has one.
    The answer, the vector and the system, also after an exception. *)
Fixpoint bind_all (addresses : list str) (listen_sockets : list socket) (s : os)
    : outcome unit * list socket * os :=
  match addresses with
  | [] => (Ret (), listen_sockets, s)
  | a :: addresses' =>
      match open_socket tcp_kind s with
      | (Ret k, s1) =>
          let '(o, k', s2) := match parse a with
                              | Ret sa => bind sa k s1
                              | Throw e => (Throw e, k, s1)
                              | Undef => (Undef, k, s1)
                              end in
          match o with
          | Ret _ => bind_all addresses' (listen_sockets ++ [(socket_copy k').1]) s2
          | _ => match socket_destroy k' s2 with
                 | (Ret _, s3) => (o, listen_sockets, s3)
                 | (_, s3) => (Undef, listen_sockets, s3)
                 end
          end
      | (Throw e, s1) => (Throw e, listen_sockets, s1)
      | (Undef, s1) => (Undef, listen_sockets, s1)
      end
  end.

Definition start_sockets (addresses : str) (s : os) : outcome unit * list socket * os :=
  bind_all (tokenize addresses (lit ",;")) [] s.
End start.

(** ** The server *)
Section server.
Context {room : Stack} {S : Type}.

(** The connect handler may write a greeting. *)
Abbreviation connect_handler_type := (S → Z → stream → stream → S * outcome unit * stream * stream).

Context (connect_handler : option connect_handler_type).
Context (process_data_handler :
  option (S → Z → stream → stream → S * outcome bool * stream * stream)).
Context (queue_size workers : nat).

(** [connection_accept] after [accept]: the new request, and what the connect handler makes of
    it. *)
Definition connect_events (st : S) (conn : Z) : S * outcome unit * request :=
  let rq := request_new conn in
  match connect_handler with
  | None => (st, Ret (), rq)
  | Some h =>
      let '(st', o, r, w) := h st conn (read_buffer rq) (write_buffer rq) in
      (st', o, with_buffers r w rq)
  end.

(** The lists of the source are [a_reqs] and [reqs]; the pointers that only a thread has are
    [incoming] (the listening thread, before it pushes a new request), [held] and [handled] (a
    worker, before and after the handler's call), [freed] and [lost].  [admitted] tells that
    the listening thread is past the size check of [connection_accept]. *)
Record server := Server {
  heap : gmap nat request;
  a_reqs : list nat;
  reqs : list nat;
  incoming : list nat;
  held : list nat;
  handled : list nat;
  freed : list nat;
  lost : list nat;
  next : nat;
  is_stopped : bool;
  admitted : bool;
  hstate : S }.

(** The constructor: stopped, with no request. *)
Definition server_new (st : S) : server := Server ∅ [] [] [] [] [] [] [] 0 true false st.

(** The flag turned, for [start] and [stop]. *)
Definition set_stopped (b : bool) (s : server) : server :=
  Server (heap s) (a_reqs s) (reqs s) (incoming s) (held s) (handled s) (freed s) (lost s) (next s)
    b (admitted s) (hstate s).

Definition set_admitted (b : bool) (s : server) : server :=
  Server (heap s) (a_reqs s) (reqs s) (incoming s) (held s) (handled s) (freed s) (lost s) (next s)
    (is_stopped s) b (hstate s).

(** The request [n] and the handlers' state after a call on it. *)
Definition store (n : nat) (rq : request) (st : S) (s : server) : server :=
  Server (<[n := rq]> (heap s)) (a_reqs s) (reqs s) (incoming s) (held s) (handled s) (freed s)
    (lost s) (next s) (is_stopped s) (admitted s) st.

(** The events [select] reports for a request: the answers of its write and read calls. *)
Record ready := Ready {
  wready : option (str → Z);
  rready : option (Z * str) }.

(** [was_events] *)
Definition has_events (ev : ready) : bool :=
  match wready ev, rready ev with None, None => false | _, _ => true end.

(** The listening thread on one ready request: write, then read. *)
Definition io_events (st : S) (rq : request) (ev : ready) : S * outcome request * request :=
  let written := match wready ev with
                 | Some accept => snd <$> connection_write accept (write_buffer rq)
                 | None => Ret (write_buffer rq)
                 end in
  match written with
  | Ret w =>
      let rq1 := with_buffers (read_buffer rq) w rq in
      match rready ev with
      | Some (size, tmp) => connection_read process_data_handler st rq1 size tmp
      | None => (st, Ret rq1, rq1)
      end
  | Throw e => (st, Throw e, rq)
  | Undef => (st, Undef, rq)
  end.

Definition remove (n : nat) (l : list nat) : list nat := filter (λ m, m ≠ n) l.

(** The [connection_accept] of a client that passed the size check: a new request. *)
Definition connected (st : S) (rq : request) (kept : bool) (s : server) : server :=
  Server (<[next s := rq]> (heap s)) (a_reqs s) (reqs s)
    (if kept then incoming s ++ [next s] else incoming s) (held s) (handled s) (freed s)
    (if kept then lost s else lost s ++ [next s]) (Datatypes.S (next s)) (is_stopped s) false st.

(** What the threads do, one region under [_lock] or one call of a handler at a time. *)
Inductive action :=
  | Admit | Refused | Connect | ConnectThrow | Arrive
  | Queue (n : nat) | Keep (n : nat) | IoThrow (n : nat) | Disconnect (n : nat)
  | Take (n : nat) | Work (n : nat) | WorkThrow (n : nat) | Done (n : nat)
  | Start | Stop.

Inductive act (s : server) : action → server → Prop :=
  (* connection_accept: nothing when more than queue_size requests are active *)
  | act_admit :
      length (a_reqs s) ≤ queue_size → act s Admit (set_admitted true s)
  (* the socket's accept throws *)
  | act_refused :
      admitted s = true → act s Refused (set_admitted false s)
  | act_connect conn st' rq :
      admitted s = true → connect_events (hstate s) conn = (st', Ret (), rq) →
      act s Connect (connected st' rq true s)
  (* the connect handler throws: the request is in no list *)
  | act_connect_throw conn st' e rq :
      admitted s = true → connect_events (hstate s) conn = (st', Throw e, rq) →
      act s ConnectThrow (connected st' rq false s)
  | act_arrive n l :
      incoming s = n :: l →
      act s Arrive (Server (heap s) (a_reqs s ++ [n]) (reqs s) l (held s) (handled s) (freed s)
                      (lost s) (next s) (is_stopped s) (admitted s) (hstate s))
  (* a ready request is queued for the workers unless it is closing *)
  | act_queue n rq ev st' rq' :
      n ∈ a_reqs s → heap s !! n = Some rq → has_events ev = true →
      io_events (hstate s) rq ev = (st', Ret rq', rq') → cur_state rq' ≠ CLOSING →
      act s (Queue n)
        (Server (<[n := rq']> (heap s)) (remove n (a_reqs s)) (reqs s ++ [n]) (incoming s) (held s)
           (handled s) (freed s) (lost s) (next s) (is_stopped s) (admitted s) st')
  | act_keep n rq ev st' rq' :
      n ∈ a_reqs s → heap s !! n = Some rq → io_events (hstate s) rq ev = (st', Ret rq', rq') →
      cur_state rq' = CLOSING → act s (Keep n) (store n rq' st' s)
  (* an exception ends the pass over the active requests, this one staying where it was *)
  | act_io_throw n rq ev st' e rq' :
      n ∈ a_reqs s → heap s !! n = Some rq → io_events (hstate s) rq ev = (st', Throw e, rq') →
      act s (IoThrow n) (store n rq' st' s)
  (* disconnect_client: a closing request with nothing left to write is deleted *)
  | act_disconnect n rq :
      n ∈ a_reqs s → heap s !! n = Some rq → cur_state rq = CLOSING →
      eofbit (write_buffer rq) = true →
      act s (Disconnect n)
        (Server (delete n (heap s)) (remove n (a_reqs s)) (reqs s) (incoming s) (held s) (handled s)
           (freed s ++ [n]) (lost s) (next s) (is_stopped s) (admitted s) (hstate s))
  (* a worker that has no request takes the front of the queue *)
  | act_take n q :
      reqs s = n :: q → is_stopped s = false → length (held s) + length (handled s) < workers →
      act s (Take n)
        (Server (heap s) (a_reqs s) q (incoming s) (n :: held s) (handled s) (freed s) (lost s)
           (next s) false (admitted s) (hstate s))
  | act_work n rq st' rq' :
      n ∈ held s → heap s !! n = Some rq →
      work process_data_handler (hstate s) rq = (st', Ret (), rq') →
      act s (Work n)
        (Server (<[n := rq']> (heap s)) (a_reqs s) (reqs s) (incoming s) (remove n (held s))
           (n :: handled s) (freed s) (lost s) (next s) (is_stopped s) (admitted s) st')
  (* the worker's catch clause drops the pointer *)
  | act_work_throw n rq st' e rq' :
      n ∈ held s → heap s !! n = Some rq →
      work process_data_handler (hstate s) rq = (st', Throw e, rq') →
      act s (WorkThrow n)
        (Server (<[n := rq']> (heap s)) (a_reqs s) (reqs s) (incoming s) (remove n (held s))
           (handled s) (freed s) (lost s ++ [n]) (next s) (is_stopped s) (admitted s) st')
  (* the worker returns the connection to the active ones *)
  | act_done n :
      n ∈ handled s →
      act s (Done n)
        (Server (heap s) (a_reqs s ++ [n]) (reqs s) (incoming s) (held s) (remove n (handled s))
           (freed s) (lost s) (next s) (is_stopped s) (admitted s) (hstate s))
  (* start() and stop() only turn the flag as far as the requests go *)
  | act_start : is_stopped s = true → act s Start (set_stopped false s)
  | act_stop : is_stopped s = false → act s Stop (set_stopped true s).

Definition step (s s' : server) : Prop := ∃ a, act s a s'.

Definition reachable (st : S) (s : server) : Prop := rtc step (server_new st) s.
End server.

(** ** Lemmas: the write buffer *)

(** A buffer whose positions are [int]s and whose unread bytes fit the stack. *)
Definition writable_size {room : Stack} (w : stream) : Prop :=
  (Z.of_nat (length (sbuf w)) ≤ INT_MAX)%Z ∧ (Z.of_nat (length (rest w)) ≤ stack_room)%Z.

Lemma int_pos_small n : (Z.of_nat n ≤ INT_MAX)%Z → int_pos (Some n) = Z.of_nat n.
Proof. intros Hn. apply s32_small. unfold INT_MIN, INT_MAX in *. lia. Qed.

Lemma seekg_int_nat n s : seekg_int (Z.of_nat n) s = seekg (Some n) s.
Proof. unfold seekg_int. destruct (Z.ltb_spec (Z.of_nat n) 0); [lia |]. by rewrite Nat2Z.id. Qed.

Lemma connection_write_good {room : Stack} accept w :
  good w = true → gpos w < length (sbuf w) → writable_size w →
  connection_write accept w = Ret (rest w, after_send (accept (rest w)) (Z.of_nat (length (rest w))) w).
Proof.
  intros Hg Hlt [Hint Hroom].
  assert (length (rest w) = length (sbuf w) - gpos w) as Hl by apply length_drop.
  apply good_spec in Hg as (He & Hf & Hb). destruct w as [b g p e f bd].
  cbn in He, Hf, Hb, Hlt, Hint. subst e f bd. set (w := Stream b g p false false false) in *.
  change (sbuf w) with b in *. change (gpos w) with g in *.
  unfold connection_write. cbn [eofbit w]. assert (tellg w = (Some g, w)) as -> by done.
  assert (tellg (seekg_end w) = (Some (length b), set_gpos (length b) w)) as -> by done.
  rewrite !int_pos_small by lia. unfold int_minus.
  destruct (Z.leb_spec INT_MIN (Z.of_nat (length b) - Z.of_nat g)); [| unfold INT_MIN in *; lia].
  destruct (Z.leb_spec (Z.of_nat (length b) - Z.of_nat g) INT_MAX); [| lia].
  cbn [andb mbind outcome_bind]. replace (Z.of_nat (length b) - Z.of_nat g)%Z with (Z.of_nat (length (rest w))) by lia.
  destruct (Z.eqb_spec (Z.of_nat (length (rest w))) 0); [lia |].
  destruct (Z.ltb_spec (Z.of_nat (length (rest w))) 0); [lia |].
  destruct (Z.ltb_spec stack_room (Z.of_nat (length (rest w)))); [lia |]. cbn [orb].
  rewrite seekg_int_nat, Nat2Z.id.
  assert (seekg (Some g) (set_gpos (length b) w) = w) as -> by done.
  assert (read (length (rest w)) w = (rest w, set_gpos (length b) w)) as ->.
  { unfold read. cbn [good eofbit failbit badbit w orb negb]. rewrite take_ge by lia.
    destruct (Nat.ltb_spec (length (rest w)) (length (rest w))); [lia |].
    do 2 f_equal. change (gpos w) with g. lia. }
  rewrite seekg_int_nat. assert (seekg (Some g) (set_gpos (length b) w) = w) as -> by done.
  destruct (Nat.ltb_spec (length (rest w)) (length (rest w))); [lia | done].
Qed.

(** What one [connection_write] sends, given how much the socket takes. *)
Definition sent {room : Stack} (accept : str → Z) (w : stream) : str :=
  match connection_write accept w with
  | Ret (tmp, _) => take (Z.to_nat (accept tmp)) tmp
  | _ => []
  end.

(** ** Lemmas: ownership *)
Lemma remove_not_in n l : n ∉ l → remove n l = l.
Proof.
  induction l as [| m l IH]; [done |]. rewrite not_elem_of_cons. intros [Hm Hl].
  unfold remove. rewrite filter_cons, decide_True by done. f_equal. by apply IH.
Qed.

Lemma remove_perm n l : NoDup l → n ∈ l → l ≡ₚ n :: remove n l.
Proof.
  intros Hnd Hin. induction Hnd as [| m l Hm Hnd IH]; [by apply not_elem_of_nil in Hin |].
  unfold remove. rewrite filter_cons. destruct (decide (m ≠ n)) as [Hne | ->%dec_stable].
  - apply elem_of_cons in Hin as [-> | Hin]; [done |]. fold (remove n l).
    rewrite (IH Hin) at 1. apply Permutation_swap.
  - fold (remove n l). by rewrite remove_not_in.
Qed.

Lemma work_returns {S} (handler : option (S → Z → stream → stream → S * outcome bool * stream * stream))
    st rq :
  handler_returns handler →
  ∃ st' rq', work handler st rq = (st', Ret (), rq') ∨ ∃ e, work handler st rq = (st', Throw e, rq').
Proof.
  unfold work. intros Hh. destruct handler as [h |] eqn:Eh; [| by eauto].
  specialize (Hh h st (connection rq) (read_buffer rq) (write_buffer rq) eq_refl).
  destruct (h _ _ _ _) as [[[st1 [k | e |]] r] w]; [by eauto.. | done].
Qed.

Section invariants.
Context {room : Stack} {S : Type} (greeter : option (S → Z → stream → stream → S * outcome unit * stream * stream)).
Context (handler : option (S → Z → stream → stream → S * outcome bool * stream * stream)).
Context (queue_size workers : nat).

(** The threads that have a request, or what became of it. *)
Definition live (s : server (S := S)) : list nat :=
  a_reqs s ++ reqs s ++ incoming s ++ held s ++ handled s.

Definition gone (s : server (S := S)) : list nat := freed s ++ lost s.

(** Every request ever accepted is in exactly one place, and its memory lives until it is
    freed. *)
Record owned (s : server (S := S)) : Prop := {
  owned_once : live s ++ gone s ≡ₚ seq 0 (next s);
  owned_heap : ∀ n, is_Some (heap s !! n) ↔ n < next s ∧ n ∉ freed s;
  owned_open : ∀ n rq, n ∈ reqs s ++ held s → heap s !! n = Some rq → cur_state rq ≠ CLOSING }.

Lemma owned_NoDup s : owned s → NoDup (live s ++ gone s).
Proof. intros [H _ _]. rewrite H. apply NoDup_seq. Qed.

Lemma owned_new st : owned (server_new st).
Proof.
  split; cbn; [done | |].
  - intros n. rewrite lookup_empty. split; [by intros [] | lia].
  - intros n rq H. by apply not_elem_of_nil in H.
Qed.

(** A request's name is in one list only. *)
Lemma owned_active s n :
  owned s → n ∈ a_reqs s → (n ∉ reqs s ++ held s) ∧ (n ∉ freed s).
Proof. intros H%owned_NoDup. unfold live, gone in H. rewrite !NoDup_app in H. set_solver. Qed.

Lemma owned_live s n : owned s → n ∈ live s → n ∉ freed s.
Proof. intros H%owned_NoDup. unfold live, gone in H. rewrite !NoDup_app in H. set_solver. Qed.

Lemma owned_lookup s n : owned s → n ∈ live s → ∃ rq, heap s !! n = Some rq.
Proof.
  intros H Hn. apply (owned_heap s H). split; [| by eapply owned_live].
  assert (n ∈ seq 0 (next s)) as ?%elem_of_seq; [| lia].
  rewrite <- (owned_once s H), elem_of_app. by left.
Qed.

Lemma owned_held_out s n : owned s → n ∈ held s → n ∉ reqs s.
Proof. intros H%owned_NoDup. unfold live, gone in H. rewrite !NoDup_app in H. set_solver. Qed.

Lemma owned_a_reqs s n : owned s → n ∈ a_reqs s → a_reqs s ≡ₚ n :: remove n (a_reqs s).
Proof.
  intros H%owned_NoDup Hn. unfold live in H. rewrite !NoDup_app in H.
  apply remove_perm; [tauto | done].
Qed.

Lemma owned_held s n : owned s → n ∈ held s → held s ≡ₚ n :: remove n (held s).
Proof.
  intros H%owned_NoDup Hn. unfold live in H. rewrite !NoDup_app in H.
  apply remove_perm; [tauto | done].
Qed.

Lemma owned_handled s n : owned s → n ∈ handled s → handled s ≡ₚ n :: remove n (handled s).
Proof.
  intros H%owned_NoDup Hn. unfold live in H. rewrite !NoDup_app in H.
  apply remove_perm; [tauto | done].
Qed.

Lemma elem_of_remove n m l : m ∈ remove n l ↔ m ≠ n ∧ m ∈ l.
Proof. unfold remove. by rewrite list_elem_of_filter. Qed.

Lemma owned_fresh s : owned s → next s ∉ live s ++ gone s.
Proof. intros H. rewrite (owned_once s H), elem_of_seq. lia. Qed.

(** Writing back a live request keeps the heap clause. *)
Lemma heap_update s n rq rq' :
  owned s → heap s !! n = Some rq →
  ∀ m, is_Some (<[n := rq']> (heap s) !! m) ↔ m < next s ∧ m ∉ freed s.
Proof.
  intros H Hn m. rewrite <- (owned_heap s H m). destruct (decide (m = n)) as [-> |].
  - rewrite lookup_insert_eq, Hn. by split; intros _; eexists.
  - by rewrite lookup_insert_ne.
Qed.

Lemma heap_accept s rq :
  owned s → ∀ m, is_Some (<[next s := rq]> (heap s) !! m) ↔ m < Datatypes.S (next s) ∧ m ∉ freed s.
Proof.
  intros H m. rewrite lookup_insert_is_Some, (owned_heap s H m).
  assert (next s ∉ freed s) as Hfr by (pose proof (owned_fresh s H); set_solver).
  destruct (decide (next s = m)) as [<- |]; [split; [auto with lia | by left] |]. naive_solver lia.
Qed.

(** Updating a request outside the queue keeps the queued and held ones open. *)
Lemma open_update (h : gmap nat request) n rq' (l l' : list nat) :
  (∀ m rq, m ∈ l → h !! m = Some rq → cur_state rq ≠ CLOSING) →
  (∀ m, m ∈ l' → (m = n ∧ cur_state rq' ≠ CLOSING) ∨ (m ≠ n ∧ m ∈ l)) →
  ∀ m rq, m ∈ l' → <[n := rq']> h !! m = Some rq → cur_state rq ≠ CLOSING.
Proof.
  intros H Hl m rq Hm Hlk. destruct (Hl m Hm) as [[-> Hc] | [Hne Hin]].
  - rewrite lookup_insert_eq in Hlk. by injection Hlk as <-.
  - rewrite lookup_insert_ne in Hlk by done. by eapply H.
Qed.

(** The lists after an action that takes [n] out of a list. *)
Ltac taken H :=
  pose proof H as Ha; revert Ha;
  match goal with |- _ ≡ₚ _ :: ?r → _ => generalize r end; intros r Ha; rewrite Ha; solve_Permutation.

Lemma owned_act a s s' : act greeter handler queue_size workers s a s' → owned s → owned s'.
Proof.
  intros Hstep H. pose proof (owned_once s H) as Hp. unfold live, gone in Hp.
  destruct Hstep as [Hq | Ha | conn st' rq Ha Hst | conn st' e rq Ha Hst | n l Hi
    | n rq ev st' rq' Hn Hlk Hev Hio Hc | n rq ev st' rq' Hn Hlk Hio Hc
    | n rq ev st' e rq' Hn Hlk Hio | n rq Hn Hlk Hc He | n q Hq Hst Hfree | n rq st' rq' Hn Hlk Hw
    | n rq st' e rq' Hn Hlk Hw | n Hn | Hst | Hst].
  all: split; unfold live, gone, connected, store, set_admitted, set_stopped;
    cbn [heap a_reqs reqs incoming held handled freed lost next is_stopped admitted hstate];
    try exact Hp; try (by apply (owned_heap s H)); try (by apply (owned_open s H));
    try (by eapply heap_update); try (by apply heap_accept);
    try (rewrite seq_S, <- Hp; cbn; solve_Permutation); try rewrite <- Hp.
  (* connect *)
  1-2: eapply open_update; [by apply (owned_open s H) |]; intros m Hm; right; split; [| done];
    intros ->; apply (owned_fresh s H); unfold live; set_solver.
  - rewrite Hi. solve_Permutation.
  - taken (owned_a_reqs s n H Hn).
  - eapply open_update; [by apply (owned_open s H) |]. intros m Hm.
    destruct (decide (m = n)) as [-> | Hne]; [by left | right]. set_solver.
  - eapply open_update; [by apply (owned_open s H) |]. intros m Hm. right.
    pose proof (owned_active s n H Hn). set_solver.
  - eapply open_update; [by apply (owned_open s H) |]. intros m Hm. right.
    pose proof (owned_active s n H Hn). set_solver.
  - taken (owned_a_reqs s n H Hn).
  - intros m. rewrite lookup_delete_is_Some, (owned_heap s H m). set_solver.
  - intros m r Hm Hl. apply lookup_delete_Some in Hl as [_ Hl]. by eapply (owned_open s H).
  - rewrite Hq. solve_Permutation.
  - intros m r Hm. apply (owned_open s H). rewrite Hq. set_solver.
  - taken (owned_held s n H Hn).
  - eapply open_update; [by apply (owned_open s H) |]. intros m Hm. right.
    pose proof (owned_held_out s n H Hn). rewrite elem_of_app, elem_of_remove in *. set_solver.
  - taken (owned_held s n H Hn).
  - eapply open_update; [by apply (owned_open s H) |]. intros m Hm. right.
    pose proof (owned_held_out s n H Hn). rewrite elem_of_app, elem_of_remove in *. set_solver.
  - taken (owned_handled s n H Hn).
Qed.

Lemma owned_step s s' : step greeter handler queue_size workers s s' → owned s → owned s'.
Proof. intros [a Ha]. by eapply owned_act. Qed.
End invariants.

(** ** Lemmas: sending *)
Definition send_contract (accept : str → Z) : Prop := ∀ s, (accept s ≤ Z.of_nat (length s))%Z.

(** [socket::write] keeps it. *)
Lemma socket_write_contract `{SocketLaws} k s : send_contract (λ b, (Socket.write b k s).1).
Proof.
  intros b. unfold Socket.write. pose proof (send_bound (socket_fd k) b s) as Hb.
  destruct (sys_send (socket_fd k) b s) as [[n e] s']. cbn in *.
  unfold Socket.data_not_ready, io_error. destruct (n <? 0)%Z; [| done]. destruct (e =? EAGAIN)%Z; lia.
Qed.

Lemma int_minus_self z : int_minus z z = Ret 0%Z.
Proof. unfold int_minus. by rewrite Z.sub_diag. Qed.

(** A buffer that has failed, or has nothing to send, is marked. *)
Lemma connection_write_idle {room : Stack} accept w :
  gpos w ≤ length (sbuf w) → good w = false ∨ rest w = [] →
  ∃ w', connection_write accept w = Ret ([], w') ∧ rest w' = rest w ∧
    gpos w' = gpos w ∧ sbuf w' = sbuf w ∧ eofbit w' = true.
Proof.
  intros Hle Hw. destruct w as [b g p e f bd]. unfold connection_write. cbn [eofbit].
  destruct e; [by eexists |]. destruct (f || bd) eqn:Hfb.
  - assert (tellg (Stream b g p false f bd) = (None, Stream b g p false true bd)) as ->.
    { unfold tellg, good, fail. cbn. by rewrite Hfb. }
    assert (tellg (seekg_end (Stream b g p false true bd)) = (None, Stream b g p false true bd)) as -> by done.
    rewrite int_minus_self. cbn. by eexists.
  - apply orb_false_iff in Hfb as [-> ->]. destruct Hw as [? | Hr]; [done |].
    set (w := Stream b g p false false false) in *.
    assert (tellg w = (Some g, w)) as -> by done.
    assert (tellg (seekg_end w) = (Some (length b), set_gpos (length b) w)) as -> by done.
    apply (f_equal length) in Hr. unfold rest in Hr. rewrite length_drop in Hr. cbn in Hr, Hle.
    assert (g = length b) as -> by lia. rewrite int_minus_self. cbn. by eexists.
Qed.

Lemma writable_size_less {room : Stack} w w' :
  writable_size w → length (sbuf w') ≤ length (sbuf w) → length (rest w') ≤ length (rest w) →
  writable_size w'.
Proof. intros [H1 H2] ? ?. split; lia. Qed.

(** What [after_send] leaves in the buffer. *)
Lemma after_send_step {room : Stack} k w :
  good w = true → rest w ≠ [] → gpos w ≤ length (sbuf w) → (k ≤ Z.of_nat (length (rest w)))%Z →
  let w' := after_send k (Z.of_nat (length (rest w))) w in
  take (Z.to_nat k) (rest w) ++ rest w' = rest w ∧ gpos w' ≤ length (sbuf w') ∧
  length (sbuf w') ≤ length (sbuf w) ∧ length (rest w') ≤ length (rest w) ∧ eofbit w' = false.
Proof.
  intros Hg Hr Hle Hk. assert (length (rest w) = length (sbuf w) - gpos w) as Hl by apply length_drop.
  apply good_eofbit in Hg as He. unfold after_send. cbv zeta.
  destruct (Z.eqb_spec k io_error) as [-> | _]; [by split_and! |].
  destruct (Z.ltb_spec 0 k); [| rewrite Z2Nat.nonpos by lia; by split_and!].
  destruct (Z.eqb_spec k (Z.of_nat (length (rest w)))) as [-> | Hne].
  - rewrite Nat2Z.id, firstn_all. split_and!; [apply app_nil_r | cbn; lia.. | done].
  - assert (rest (set_gpos (gpos (clear_state w) + Z.to_nat k) (clear_state w)) = drop (Z.to_nat k) (rest w)) as Hrest
      by (rewrite rest_advance; done).
    rewrite Hrest, take_drop, length_drop. split_and!; [done | cbn; lia | done | lia | done].
Qed.

Lemma connection_write_step {room : Stack} accept w :
  gpos w ≤ length (sbuf w) → writable_size w → send_contract accept →
  ∃ tmp w', connection_write accept w = Ret (tmp, w') ∧ sent accept w ++ rest w' = rest w ∧
    gpos w' ≤ length (sbuf w') ∧ writable_size w' ∧
    (eofbit w = false → eofbit w' = true → rest w = [] ∨ fail w = true).
Proof.
  intros Hle Hsz Hacc. unfold sent.
  destruct (decide (good w = false ∨ rest w = [])) as [Hw | Hw].
  - destruct (connection_write_idle accept w Hle Hw) as (w' & -> & Hr & Hg & Hb & _).
    exists [], w'. rewrite take_nil, Hr, Hg, Hb. split_and!; try done.
    + eapply writable_size_less; [exact Hsz | by rewrite Hb | by rewrite Hr].
    + intros He _. destruct Hw as [Hw | Hw]; [right | by left]. unfold good in Hw. unfold fail.
      rewrite He in Hw. by destruct (failbit w), (badbit w).
  - assert (good w = true ∧ rest w ≠ []) as [Hg Hr] by (destruct (good w); naive_solver).
    assert (length (rest w) = length (sbuf w) - gpos w) as Hl by apply length_drop.
    assert (length (rest w) ≠ 0) by by destruct (rest w).
    rewrite connection_write_good by (done || lia).
    destruct (after_send_step (accept (rest w)) w Hg Hr Hle (Hacc _)) as (S1 & S2 & S3 & S4 & S5).
    eexists _, _. split; [done |]. split_and!; [done.. | by eapply writable_size_less |]. congruence.
Qed.

(** Writing leaves the end the buffer is written at, or empties it. *)
Lemma connection_write_put {room : Stack} accept w tmp w' :
  connection_write accept w = Ret (tmp, w') →
  (sbuf w' = sbuf w ∧ ppos w' = ppos w) ∨ (sbuf w' = [] ∧ ppos w' = 0).
Proof.
  assert (∀ s, sbuf (tellg s).2 = sbuf s ∧ ppos (tellg s).2 = ppos s) as Ht.
  { intros s. unfold tellg. by destruct (good s). }
  assert (∀ s, sbuf (seekg_end s) = sbuf s ∧ ppos (seekg_end s) = ppos s) as He.
  { intros s. unfold seekg_end. by case_match. }
  assert (∀ p s, sbuf (seekg_int p s) = sbuf s ∧ ppos (seekg_int p s) = ppos s) as Hs.
  { intros p s. unfold seekg_int, seekg. by repeat case_match. }
  assert (∀ n s, sbuf (read n s).2 = sbuf s ∧ ppos (read n s).2 = ppos s) as Hr.
  { intros n s. unfold read. by repeat case_match. }
  unfold connection_write. intros Hw. destruct (eofbit w); [injection Hw as _ <-; by left |].
  pose proof (Ht w) as H1. destruct (tellg w) as [p w1]. pose proof (Ht (seekg_end w1)) as H2.
  pose proof (He w1) as H2'. destruct (tellg (seekg_end w1)) as [e w2].
  destruct (int_minus _ _) as [size | |]; cbn in Hw, H1, H2; [| done..].
  destruct (size =? 0)%Z; [injection Hw as _ <-; left; cbn; intuition congruence |].
  destruct ((size <? 0)%Z || _); [done |]. pose proof (Hr (Z.to_nat size) (seekg_int (int_pos p) w2)) as H3.
  pose proof (Hs (int_pos p) w2) as H3'. destruct (read _ _) as [t w3]. pose proof (Hs (int_pos p) w3) as H4.
  destruct (length t <? _); [done |]. injection Hw as _ <-. cbn in H3. unfold after_send.
  repeat case_match; cbn; intuition congruence.
Qed.

(** A run of [connection_write] calls: all the bytes the socket took, and the final buffer. *)
Fixpoint write_all {room : Stack} (accepts : list (str → Z)) (w : stream) : outcome (str * stream) :=
  match accepts with
  | [] => Ret ([], w)
  | a :: accepts' =>
      r ← connection_write a w;
      r' ← write_all accepts' r.2;
      Ret (sent a w ++ r'.1, r'.2)
  end.

(** ** Lemmas: closing *)
Section closing.
Context {room : Stack} {S : Type} (greeter : option (S → Z → stream → stream → S * outcome unit * stream * stream)).
Context (handler : option (S → Z → stream → stream → S * outcome bool * stream * stream)).
Context (queue_size workers : nat).



Lemma owned_reachable st s : reachable greeter handler queue_size workers st s → owned s.
Proof.
  unfold reachable. intros H. remember (server_new st) as s0 eqn:E.
  assert (owned s0) as H0 by (subst; apply owned_new). clear E.
  induction H as [| s1 s2 s3 Hs _ IH]; [done |]. apply IH. by eapply owned_step.
Qed.

End closing.

(** ** Lemmas: starting *)
Section starting.
Context `{SocketLaws}.

(** Opening, parsing and binding one address. *)
Lemma bind_one a k s1 o k' s2 :
  match parse a with Ret sa => bind sa k s1 | Throw e => (Throw e, k, s1) | Undef => (Undef, k, s1) end
    = (o, k', s2) →
  opened s2 = opened s1 ∧ (socket_fd k' = socket_fd k ∨ socket_fd k' = -1)%Z ∧
  (o = Ret () → socket_fd k' = socket_fd k).
Proof.
  destruct (parse a) as [sa | e |]; [| by intros [= <- <- <-]; auto..]. intros E.
  destruct (bind_opened _ _ _ _ _ _ E) as [Ho Hk]. split_and!; [done.. |]. intros ->.
  unfold bind in E. repeat (case_match; simplify_eq); done.
Qed.

(** The sockets [new] are open with distinct descriptors that were not open in [s]. *)
Definition fresh_sockets (new : list socket) (s s' : os) : Prop :=
  NoDup (socket_fd <$> new) ∧ opened s ⊆ opened s' ∧
  Forall (λ k, (socket_fd k ∉ opened s) ∧ socket_fd k ∈ opened s') new.

Lemma fresh_sockets_cons k new s s1 s' :
  socket_fd k ∉ opened s → opened s1 = {[ socket_fd k ]} ∪ opened s → fresh_sockets new s1 s' →
  fresh_sockets (k :: new) s s'.
Proof.
  intros Hk Ho (Hnd & Hsub & Hall). rewrite Ho in *. split_and!.
  - cbn. apply NoDup_cons. split; [| done]. intros (k' & E & Hk')%list_elem_of_fmap.
    rewrite Forall_forall in Hall. destruct (Hall k' Hk') as [Hn _]. set_solver.
  - set_solver.
  - constructor; [set_solver |]. eapply Forall_impl; [exact Hall |]. cbn. set_solver.
Qed.

Lemma bind_all_spec l acc s o v s' :
  bind_all l acc s = (o, v, s') →
  ∃ new, v = acc ++ new ∧ length new ≤ length l ∧ (o = Ret () → length new = length l) ∧
    (o ≠ Undef → fresh_sockets new s s').
Proof.
  revert acc s. induction l as [| a l IH]; intros acc s E; cbn [bind_all] in E.
  { injection E as <- <- <-. exists []. rewrite app_nil_r. split_and!; [done.. |].
    intros _. split_and!; [constructor | done | constructor]. }
  destruct (open_socket tcp_kind s) as [ok s1] eqn:Eo. apply open_socket_opened in Eo.
  destruct ok as [k | e |].
  - destruct Eo as (Hk & Hnew & Ho).
    destruct (match parse a with Ret sa => _ | Throw e => _ | Undef => _ end) as [[ob k'] s2] eqn:Eb.
    apply bind_one in Eb as (Ho2 & Hk' & Hret).
    assert (opened s ⊆ opened s2) as Hsub by (rewrite Ho2, Ho; set_solver).
    destruct ob as [[] | e |].
    + specialize (Hret eq_refl). destruct (IH _ _ E) as (new & -> & Hlen & Hl & Hf).
      exists ((socket_copy k').1 :: new). rewrite <- app_assoc. split_and!; [done | cbn; lia | |].
      * intros Hr. cbn. by rewrite Hl.
      * intros Hr. apply (fresh_sockets_cons _ _ _ s2); [| | by apply Hf]; cbn; rewrite Hret; [done |].
        by rewrite Ho2.
    + destruct (socket_destroy k' s2) as [[[] | |] s3] eqn:Ed; injection E as <- <- <-; exists [];
        rewrite app_nil_r; (split_and!; [done | cbn; lia | done |]); try done.
      intros _. apply socket_destroy_opened in Ed. split_and!; [constructor | | constructor].
      rewrite Ed. destruct (0 <=? socket_fd k')%Z eqn:El; [| done].
      assert (socket_fd k' = socket_fd k) as -> by (destruct Hk'; [done | lia]). set_solver.
    + destruct (socket_destroy k' s2) as [[[] | |] s3]; injection E as <- <- <-; exists [];
        rewrite app_nil_r; (split_and!; [done | cbn; lia | done | done]).
  - injection E as <- <- <-. exists []. rewrite app_nil_r. split_and!; [done | cbn; lia | done |].
    intros _. split_and!; [constructor | by rewrite Eo | constructor].
  - injection E as <- <- <-. exists []. rewrite app_nil_r. by split_and!; [| cbn; lia | |].
Qed.
End starting.

(** ** Properties *)

(** C3. Every request the server accepted is at all times in exactly one place - active,
    queued, in the hands of the listening thread or of one worker, deleted, or dropped by an
    exception - so no two threads ever work on the same request, and a request any thread can
    still reach has not been deleted. *)
Theorem tcp_requests_owned {room : Stack} {S} greeter handler queue_size workers (st : S) s :
  reachable greeter handler queue_size workers st s →
  live s ++ freed s ++ lost s ≡ₚ seq 0 (next s) ∧
  NoDup (a_reqs s ++ reqs s ++ incoming s ++ held s ++ handled s) ∧
  ∀ n, n ∈ a_reqs s ++ reqs s ++ incoming s ++ held s ++ handled s → is_Some (heap s !! n).
Proof.
  intros H%owned_reachable. split; [apply H |]. fold (live s). split.
  - by apply owned_NoDup, NoDup_app in H as [? _].
  - intros n Hn. apply (owned_heap s H). split; [| by eapply owned_live].
    assert (n ∈ seq 0 (next s)) as Hin%elem_of_seq; [| lia].
    rewrite <- (owned_once s H), elem_of_app. by left.
Qed.


(** C7. As long as the write buffer holds no more than [INT_MAX] bytes and the unread ones fit the
    stack: whatever part of each buffer the socket takes, and whether its calls fail or not, every
    call is defined, and the bytes sent so far followed by the unread bytes of the write buffer
    are the bytes there were to send: none is lost, repeated or reordered.  Once all is sent the
    next call marks the buffer, which lets a closing request go. *)
Theorem tcp_write_conserves {room : Stack} accepts w :
  gpos w ≤ length (sbuf w) → writable_size w → Forall send_contract accepts →
  ∃ out w', write_all accepts w = Ret (out, w') ∧ out ++ rest w' = rest w ∧
    (rest w' = [] → ∀ a, ∃ w2, connection_write a w' = Ret ([], w2) ∧ eofbit w2 = true).
Proof.
  intros Hle Hsz Hall.
  assert (∃ out w', write_all accepts w = Ret (out, w') ∧ out ++ rest w' = rest w ∧
    gpos w' ≤ length (sbuf w')) as (out & w' & E & Hout & Hle').
  { revert w Hle Hsz. induction Hall as [| a accepts Ha _ IH]; intros w Hle Hsz; [by exists [], w |].
    destruct (connection_write_step a w Hle Hsz Ha) as (tmp & w1 & E & Hs & Hle1 & Hsz1 & _).
    destruct (IH w1 Hle1 Hsz1) as (out & w' & E' & Hout & Hle'). exists (sent a w ++ out), w'.
    cbn [write_all]. rewrite E. cbn [mbind outcome_bind snd]. rewrite E'.
    split; [done |]. by rewrite <- app_assoc, Hout. }
  exists out, w'. split_and!; [done.. |]. intros Hr a.
  destruct (connection_write_idle a w' Hle' (or_intror Hr)) as (w2 & ? & _ & _ & _ & ?). eauto.
Qed.

(** Beyond that size bytes are lost: when the unread ones are 2^32 the size is zero as an [int],
    nothing is written, and the buffer is marked as sent. *)
Theorem tcp_write_wraps {room : Stack} accept w :
  good w = true → gpos w ≤ length (sbuf w) → Z.of_nat (length (rest w)) = (2 ^ 32)%Z →
  ∃ w', connection_write accept w = Ret ([], w') ∧ eofbit w' = true ∧ rest w' = [].
Proof.
  intros Hg Hle Hlen.
  apply good_spec in Hg as (He & Hf & Hb). destruct w as [b g p e f bd]. cbn in He, Hf, Hb, Hle.
  subst e f bd. set (w := Stream b g p false false false) in *.
  assert (length (rest w) = length b - g) as Hl by apply length_drop.
  unfold connection_write. cbn [eofbit w]. assert (tellg w = (Some g, w)) as -> by done.
  assert (tellg (seekg_end w) = (Some (length b), set_gpos (length b) w)) as -> by done.
  assert (int_pos (Some (length b)) = int_pos (Some g)) as ->.
  { unfold int_pos, s32. replace (Z.of_nat (length b) + 2 ^ 31)%Z with (Z.of_nat g + 2 ^ 31 + 1 * 2 ^ 32)%Z by lia.
    by rewrite Z_mod_plus_full. }
  rewrite int_minus_self. cbn [mbind outcome_bind Z.eqb]. eexists. split; [done |]. split; [done |].
  unfold rest. cbn. by rewrite drop_all.
Qed.

(** [start] opens the sockets it listens on: when it goes through there is one for each of
    the addresses between the commas and semicolons, with distinct descriptors that are open
    and were not before; when an address throws, the sockets bound so far stay in the vector,
    and no descriptor that was open before is closed. *)
Theorem tcp_start_listens `{SocketLaws} addresses s o v s' :
  start_sockets addresses s = (o, v, s') → o ≠ Undef →
  (o = Ret () → length v = length (tokenize addresses (lit ",;"))) ∧
  NoDup (socket_fd <$> v) ∧ opened s ⊆ opened s' ∧
  Forall (λ k, (socket_fd k ∉ opened s) ∧ socket_fd k ∈ opened s') v.
Proof.
  intros E Ho. destruct (bind_all_spec _ _ _ _ _ _ E) as (new & -> & _ & Hl & Hf).
  split; [exact Hl | by apply Hf].
Qed.

(** ** Witnesses *)

(** The usual stack of a thread. *)
Definition eight_megabytes : Stack := 8388608%Z.

#[local] Existing Instance eight_megabytes.

Definition echo (st : unit) (c : Z) (r w : stream) : unit * outcome bool * stream * stream :=
  ((), Ret true, set_gpos (length (sbuf r)) r, write (rest r) w).

Lemma echo_returns : handler_returns (Some echo).
Proof. by intros h st c r w [= <-]. Qed.


(** One client that connects. *)
Definition one_client : server (S := unit) :=
  Server (<[0 := request_new 7]> ∅) [0] [] [] [] [] [] [] 1 false false ().

Lemma one_client_reachable h : reachable (S := unit) None (Some h) 1 1 () one_client.
Proof.
  eapply rtc_l; [eexists; by apply act_start |].
  eapply rtc_l; [eexists; apply act_admit; cbn; lia |].
  eapply rtc_l; [eexists; by apply (act_connect _ _ _ _ _ 7 () (request_new 7)) |].
  eapply rtc_l; [eexists; by apply (act_arrive _ _ _ _ _ 0 []) |]. apply rtc_refl.
Qed.

Example tcp_requests_owned_witness :
  reachable (S := unit) None (Some echo) 1 1 () one_client ∧ is_Some (heap one_client !! 0).
Proof.
  split; [apply one_client_reachable |].
  destruct (tcp_requests_owned None (Some echo) 1 1 () one_client (one_client_reachable echo)) as (_ & _ & H).
  apply H. apply list_elem_of_singleton. reflexivity.
Defined.





Example tcp_write_conserves_witness :
  writable_size (of_string (lit "hello")) ∧
  ∃ out w', write_all [(λ _, io_error); (λ s, Z.min 2 (Z.of_nat (length s)))] (of_string (lit "hello"))
    = Ret (out, w') ∧ out ++ rest w' = lit "hello".
Proof.
  assert (writable_size (of_string (lit "hello"))) as H by (split; vm_compute; discriminate).
  split; [exact H |].
  destruct (tcp_write_conserves [(λ _, io_error); (λ s, Z.min 2 (Z.of_nat (length s)))]
    (of_string (lit "hello"))) as (out & w' & E & Hout & _).
  - cbn. lia.
  - exact H.
  - repeat constructor; intros s; unfold io_error; lia.
  - exists out, w'. split; [exact E | exact Hout].
Defined.

(** Two addresses on a system that numbers descriptors from 3 on. *)
Lemma tcp_start_listens_witness :
  let r := start_sockets (H := table_os) (lit "*:80;localhost:443") (Table [] ∅) in
  r.1.1 = Ret () ∧ (socket_fd <$> r.1.2) = [3; 4]%Z ∧ NoDup (socket_fd <$> r.1.2).
Proof.
  intros r. assert (r.1.1 = Ret ()) as H1 by (vm_compute; reflexivity).
  split; [exact H1 |]. split; [vm_compute; reflexivity |].
  apply (tcp_start_listens (H := table_os) (lit "*:80;localhost:443") (Table [] ∅) r.1.1 r.1.2 r.2);
    [reflexivity | rewrite H1; discriminate].
Defined.
