(* ===== verification/HttpOverTcp.v ===== *)
(** * The HTTP server over the TCP server: [http_server.cpp] on [tcp_server.cpp].

    An [http_server] is a [tcp_server] whose data handler is [http_server::process_data].  Here
    the two models are composed: [HttpServer.process_data] is the handler of
    [TcpServer.connection_read], [TcpServer.work] and the server's steps, its table of requests
    is the state the handler keeps, and a conversation is what one connection receives and
    sends. *)
From S2P Require HttpServer TcpServer.
From S2P Require Export HttpHeader Steps.
Import HttpServer(process_data, run, turns, line_effect, lines_ok, in_bounds, wire_ok,
  wire_lines, request_text, parsed_request, content_length, respond, cr).
Import TcpServer(cur_state, connection, read_buffer, write_buffer, connection_read, work,
  connection_write, write_all, sent, send_contract, Stack, stack_room, writable_size).

Section stack.
Context {room : Stack} `{TimeLib} (u : nat → uninit) (junk : http_method.http_method).

(** [on_request] of a server: its handler, if one is assigned. *)
Context (request_handler : option (http_request → outcome http_response)).

Abbreviation requests := (gmap Z HttpServer.request).

(** The handler the constructor of [http_server] installs, by the handle of the connection. *)
Definition http_handler (reqs : requests) (conn : Z) (r w : stream)
    : requests * outcome bool * stream * stream :=
  match process_data u request_handler (length (rest r) + 7) junk reqs conn r w with
  | Some (keep, reqs', r', w') => (reqs', keep, r', w')
  | None => (reqs, Undef, r, w)
  end.

(** [http_server(...)]: no requests, no client, stopped. *)
Definition http_server_new : TcpServer.server (S := requests) := TcpServer.server_new ∅.

(** ** One connection *)

(** After its events a connection is queued, unless it is closing, and a worker calls the handler
    on its buffers. *)
Definition looked (s : requests * TcpServer.request) : option (requests * TcpServer.request) :=
  match cur_state s.2 with
  | TcpServer.CLOSING => Some s
  | _ =>
      match work (Some http_handler) s.1 s.2 with
      | (reqs, Ret _, rq) => Some (reqs, rq)
      | _ => None
      end
  end.

(** What [select] finds: how much the socket takes, and the text it has. *)
Record event := Event { ev_write : option (str → Z); ev_read : option str }.

(** Writing is waited for only while the write buffer is not at its end. *)
Definition writable (e : event) (rq : TcpServer.request) : option (str → Z) :=
  if eofbit (write_buffer rq) then None else ev_write e.

Definition ready_of (e : event) (rq : TcpServer.request) : TcpServer.ready :=
  TcpServer.Ready (writable e rq) ((λ c, (Z.of_nat (length c), c)) <$> ev_read e).

Definition sent_of (e : event) (rq : TcpServer.request) : str :=
  match writable e rq with Some accept => sent accept (write_buffer rq) | None => [] end.

(** One pass of the listening thread over the connection, and the worker's: the bytes sent, and
    the connection after it. *)
Definition pass (e : event) (s : requests * TcpServer.request)
    : option (str * (requests * TcpServer.request)) :=
  if TcpServer.has_events (ready_of e s.2) then
    match TcpServer.io_events (Some http_handler) s.1 s.2 (ready_of e s.2) with
    | (reqs, Ret _, rq) => (λ s', (sent_of e s.2, s')) <$> looked (reqs, rq)
    | _ => None
    end
  else Some ([], s).

(** What a connection sends while it goes through events. *)
Fixpoint converse (es : list event) (s : requests * TcpServer.request)
    : option (str * (requests * TcpServer.request)) :=
  match es with
  | [] => Some ([], s)
  | e :: es' =>
      match pass e s with
      | Some (out, s1) => (λ r, (out ++ r.1, r.2)) <$> converse es' s1
      | None => None
      end
  end.

(** The two halves of a pass. *)
Definition writes (e : event) (s : requests * TcpServer.request)
    : outcome (requests * TcpServer.request) :=
  match writable e s.2 with
  | Some accept =>
      r ← connection_write accept (write_buffer s.2);
      Ret (s.1, TcpServer.with_buffers (read_buffer s.2) r.2 s.2)
  | None => Ret s
  end.

Definition arrives (c : str) (s : requests * TcpServer.request)
    : option (requests * TcpServer.request) :=
  match connection_read (Some http_handler) s.1 s.2 (Z.of_nat (length c)) c with
  | (reqs, Ret _, rq) => looked (reqs, rq)
  | _ => None
  end.

Lemma pass_read w c s :
  pass (Event w (Some c)) s
  = match writes (Event w (Some c)) s with
    | Ret s1 => (λ s', (sent_of (Event w (Some c)) s.2, s')) <$> arrives c s1
    | _ => None
    end.
Proof.
  unfold pass, arrives, writes, sent_of, ready_of, TcpServer.io_events, TcpServer.has_events.
  destruct (writable (Event w (Some c)) s.2) as [accept |] eqn:E; cbn [TcpServer.wready TcpServer.rready fmap option_fmap option_map ev_read].
  - destruct (connection_write accept (write_buffer s.2)) as [[tmp o'] | |]; cbn [mbind outcome_bind fmap outcome_fmap snd];
      [| done..]. cbn [fst snd]. by destruct (connection_read _ _ _ _ _) as [[reqs [rq1 | e |]] rq].
  - assert (TcpServer.with_buffers (read_buffer s.2) (write_buffer s.2) s.2 = s.2) as -> by by destruct s as [? []].
    by destruct (connection_read _ _ _ _ _) as [[reqs [rq1 | e |]] rq].
Qed.

Lemma pass_write w s :
  pass (Event w None) s
  = match writable (Event w None) s.2 with
    | Some accept =>
        match writes (Event w None) s with
        | Ret s1 => (λ s', (sent accept (write_buffer s.2), s')) <$> looked s1
        | _ => None
        end
    | None => Some ([], s)
    end.
Proof.
  unfold pass, writes, sent_of, ready_of, TcpServer.io_events, TcpServer.has_events.
  destruct s as [reqs [st cn r o]]. destruct (writable _ _) as [accept |]; cbn; [| done].
  by destruct (connection_write accept o) as [[tmp o'] | |].
Qed.
End stack.

(** ** The text of an answer *)
Section answers.
Context `{TimeLib}.

Definition set_cookie_lines (cs : list http_cookie) : outcome str :=
  foldr (λ c o, s ← http_cookie_str c; t ← o; Ret (lit "Set-Cookie: " ++ s ++ CRLF ++ t)) (Ret []) cs.

Definition content_text (h : http_header) : str :=
  if (0 <? get_content_size h)%Z then take (Z.to_nat (get_content_size h)) (content h) else [].

(** The status line, the headers, the cookies, and the content after a blank line. *)
Definition answer_text (r : http_request) (resp : http_response) : outcome str :=
  st ← get_status resp;
  cs ← set_cookie_lines (cookies (resp_header resp));
  Ret (http_version (req_header r) ++ lit " " ++ st ++ [newline]
       ++ concat ((λ e, header_line e ++ CRLF) <$> headers (resp_header resp))
       ++ cs ++ CRLF ++ content_text (resp_header resp)).

Lemma put_set_cookies_append cs out :
  at_end out → put_set_cookies cs out = (t ← set_cookie_lines cs; Ret (append t out)).
Proof.
  revert out. induction cs as [| c cs IH]; intros out Ho; cbn [put_set_cookies set_cookie_lines foldr].
  - cbn. by rewrite append_nil.
  - destruct (http_cookie_str c) as [s | |]; cbn [mbind outcome_bind]; [| done | done].
    append_simpl. rewrite IH by auto with dcl. fold (set_cookie_lines cs).
    destruct (set_cookie_lines cs); cbn; [| done | done]. by rewrite append_append, <- !app_assoc.
Qed.

Lemma respond_text r resp o :
  at_end o → respond r resp o = (t ← answer_text r resp; Ret (append t o)).
Proof.
  intros Ho. unfold respond, answer_text, put_response. destruct (get_status resp) as [st | |]; cbn; [| done..].
  append_simpl. rewrite put_headers_append by auto with dcl. rewrite append_append.
  rewrite put_set_cookies_append by auto with dcl.
  destruct (set_cookie_lines _) as [cs | |]; cbn; [| done..].
  unfold put_content, content_text. rewrite append_append. destruct (0 <? _)%Z.
  - append_simpl. f_equal. f_equal. by rewrite <- !app_assoc.
  - append_simpl. f_equal. f_equal. by rewrite <- !app_assoc.
Qed.
End answers.

(** ** Lemmas: text in lines *)


Lemma unlines_app L1 L2 : unlines (L1 ++ L2) = unlines L1 ++ unlines L2.
Proof. unfold unlines. by rewrite fmap_app, concat_app. Qed.

(** The read buffer after some complete lines and part of another one. *)
Definition line_buffer (ls : list str) (tail : str) : stream :=
  set_gpos (length (unlines ls)) (of_string (unlines ls ++ tail)).

Lemma line_buffer_write ls tail c : write c (line_buffer ls tail) = line_buffer ls (tail ++ c).
Proof.
  unfold write, line_buffer, of_string. cbn. rewrite firstn_all, drop_ge by lia.
  unfold set_gpos. cbn. by rewrite app_nil_r, <- app_assoc, !length_app, Nat.add_assoc.
Qed.

Lemma line_buffer_rest ls tail : rest (line_buffer ls tail) = tail.
Proof. apply drop_app_length. Qed.

Lemma line_buffer_in_bounds ls tail :
  (Z.of_nat (length (unlines ls ++ tail)) ≤ INT_MAX)%Z → in_bounds (line_buffer ls tail).
Proof. intros H. split; [cbn; rewrite length_app; lia | exact H]. Qed.

Lemma line_buffer_advance ls l tail :
  set_gpos (gpos (line_buffer ls (unlines l ++ tail)) + length (unlines l)) (line_buffer ls (unlines l ++ tail))
  = line_buffer (ls ++ l) tail.
Proof. unfold line_buffer. cbn. by rewrite unlines_app, <- app_assoc, !length_app. Qed.

(** ** Exchanges *)
Section conversation.
Context {room : Stack} `{TimeLib} (u : nat → uninit) (junk : http_method.http_method).
Context (f : http_request → outcome http_response).

(** A request without a body, and what the handler answers; the answer fits the [int]s and the
    stack of [connection_write]. *)
Record exchange := Exchange {
  ex_method : str;
  ex_path : str;
  ex_version : str;
  ex_headers : http_headers;
  ex_answer : str }.

Definition ex_request (x : exchange) : http_request :=
  parsed_request junk (ex_method x) (ex_path x) (ex_version x) (ex_headers x).

Definition ex_text (x : exchange) : str :=
  request_text (ex_method x) (ex_path x) (ex_version x) (ex_headers x) [].

Definition keeps (x : exchange) : bool :=
  str_eqb (get_header (lit "Connection") (req_header (ex_request x))) (lit "keep-alive").

Record exchange_ok (x : exchange) : Prop := {
  ex_wire : wire_ok (ex_method x) (ex_path x) (ex_version x) (ex_headers x);
  ex_no_body : content_length (ex_headers x) 0;
  ex_short : (Z.of_nat (length (ex_text x)) ≤ INT_MAX)%Z;
  ex_answered : ∃ resp, f (ex_request x) = Ret resp ∧ answer_text (ex_request x) resp = Ret (ex_answer x);
  ex_sendable : (Z.of_nat (length (ex_answer x)) ≤ Z.min INT_MAX stack_room)%Z }.




(** ** The steps of a conversation *)

(** The write buffer between two calls. *)
Definition sound (w : stream) : Prop :=
  gpos w ≤ length (sbuf w) ∧ ppos w = length (sbuf w) ∧ writable_size w.

(** A connection that waits: the lines [ls] of its request are taken, [tail] is not. *)
Record standing (conn : Z) (ls : list str) (tail : str)
    (s : gmap Z HttpServer.request * TcpServer.request) : Prop := {
  standing_request : default (HttpServer.request_new junk) (s.1 !! conn)
    = foldl (line_effect u) (HttpServer.request_new junk) ls;
  standing_buffer : clear_state (read_buffer s.2) = line_buffer ls tail;
  standing_open : cur_state s.2 = TcpServer.WAIT_DATA;
  standing_conn : connection s.2 = conn;
  standing_out : sound (write_buffer s.2);
  standing_nothing : sbuf (write_buffer s.2) = [];
  standing_idle : (read_buffer s.2 = line_buffer ls tail ∧ tail ≠ []) ∨ eofbit (write_buffer s.2) = true;
  standing_lines : lines_ok (HttpServer.request_new junk) ls;
  standing_tail : newline ∉ tail;
  standing_short : (Z.of_nat (length (unlines ls ++ tail)) ≤ INT_MAX)%Z }.

Abbreviation handler := (http_handler u junk (Some f)).
Abbreviation rq0 := (HttpServer.request_new junk).

Lemma sound_write accept w :
  sound w → send_contract accept →
  ∃ tmp w', connection_write accept w = Ret (tmp, w') ∧ sent accept w ++ rest w' = rest w ∧ sound w' ∧
    (sbuf w = [] → sbuf w' = []).
Proof.
  intros (Hg & Hp & Hz) Ha.
  destruct (TcpServer.connection_write_step accept w Hg Hz Ha) as (tmp & w' & Hw & Hs & Hg' & Hz' & _).
  exists tmp, w'. destruct (TcpServer.connection_write_put accept w tmp w' Hw) as [[E1 E2] | [E1 E2]].
  - split_and!; try done; [split_and!; congruence | congruence].
  - split_and!; try done. split_and!; [done | by rewrite E1, E2 | done].
Qed.




Lemma lines_ok_app rq l1 l2 :
  lines_ok rq (l1 ++ l2) → lines_ok rq l1 ∧ lines_ok (foldl (line_effect u) rq l1) l2.
Proof.
  revert rq. induction l1 as [| l l1 IH]; intros rq Hok.
  - cbn in *. split; [| done]. unfold lines_ok in *. destruct (HttpServer.state rq); done || constructor.
  - cbn [app foldl]. cbn [app] in Hok. pose proof Hok as Hok'.
    apply (HttpServer.lines_ok_step u) in Hok as [_ Hok]. apply IH in Hok as [_ Hok]. split; [| exact Hok].
    unfold lines_ok in *. destruct (HttpServer.state rq); [| | done..].
    + cbn in *. by apply Forall_app in Hok' as [? _].
    + change (l :: l1 ++ l2) with ((l :: l1) ++ l2) in Hok'. by apply Forall_app in Hok' as [? _].
Qed.

(** The handler takes the complete lines and waits for the rest of an unfinished one. *)
Lemma handler_suspends reqs conn ls R tail w :
  default rq0 (reqs !! conn) = foldl (line_effect u) rq0 ls →
  lines_ok rq0 (ls ++ R) → Forall (λ l, newline ∉ l) R → newline ∉ tail →
  (Z.of_nat (length (unlines ls ++ unlines R ++ tail)) ≤ INT_MAX)%Z →
  handler reqs conn (line_buffer ls (unlines R ++ tail)) w
  = (<[conn := foldl (line_effect u) rq0 (ls ++ R)]> reqs, Ret true,
     match tail with [] => set_fail | _ => id end (line_buffer (ls ++ R) tail), w).
Proof.
  intros Hrq Hok Hn Ht Hb. unfold http_handler, process_data. rewrite Hrq.
  apply lines_ok_app in Hok as [_ Hok].
  set (i := line_buffer ls (unlines R ++ tail)). set (i' := line_buffer (ls ++ R) tail).
  assert (in_bounds i) as Hi by by apply line_buffer_in_bounds.
  assert (in_bounds i') as Hi'.
  { apply line_buffer_in_bounds. by rewrite unlines_app, <- app_assoc. }
  pose proof (HttpServer.lines_turns u (Some f) _ i w R tail Hok Hn eq_refl (line_buffer_rest _ _)) as Hturns.
  unfold i in Hturns at 2. unfold i in Hturns at 2. rewrite line_buffer_advance in Hturns. fold i i' in Hturns.
  rewrite <- foldl_app in Hturns. rewrite foldl_app in Hturns |- *.
  pose proof (HttpServer.wait_suspends u (Some f) _ i' w (HttpServer.lines_ok_fold u _ _ Hok) eq_refl Hi') as Hs.
  unfold i' in Hs at 1 3. rewrite line_buffer_rest in Hs. specialize (Hs Ht). fold i' in Hs.
  rewrite (HttpServer.run_complete u (Some f) (_, i, w) (_, i', w) _ _ Hturns Hs Hi); [| cbn; lia].
  by destruct tail.
Qed.

(** Called again with nothing new, it changes nothing. *)
Lemma handler_waits reqs conn ls tail w :
  default rq0 (reqs !! conn) = foldl (line_effect u) rq0 ls → lines_ok rq0 ls → newline ∉ tail →
  (Z.of_nat (length (unlines ls ++ tail)) ≤ INT_MAX)%Z →
  handler reqs conn (line_buffer ls tail) w
  = (<[conn := foldl (line_effect u) rq0 ls]> reqs, Ret true,
     match tail with [] => set_fail | _ => id end (line_buffer ls tail), w).
Proof.
  intros Hrq Hok Hn Hb. pose proof (handler_suspends reqs conn ls [] tail w Hrq) as Hw.
  rewrite app_nil_r in Hw. by apply Hw.
Qed.

Lemma no_newline_cr : newline ∉ [cr].
Proof. apply in_set_false. reflexivity. Qed.

(** The lines of a request, the blank one after them included. *)
Definition ex_lines (x : exchange) : list str :=
  wire_lines (ex_method x) (ex_path x) (ex_version x) (ex_headers x) ++ [[cr]].

Lemma ex_lines_text x : unlines (ex_lines x) = ex_text x.
Proof. unfold ex_lines, ex_text, request_text. rewrite unlines_app. done. Qed.


Lemma ex_request_content x : content (req_header (ex_request x)) = [].
Proof. done. Qed.

Lemma ex_buffer_in_bounds x ls R :
  exchange_ok x → ex_lines x = ls ++ R → in_bounds (line_buffer ls (unlines R)).
Proof.
  intros [_ _ Hshort _ _] HL. apply line_buffer_in_bounds. by rewrite <- unlines_app, <- HL, ex_lines_text.
Qed.

(** The lines that are left take the request to its body, of which there is none. *)
Lemma header_turns x ls R w :
  exchange_ok x → ex_lines x = ls ++ R → R ≠ [] →
  rtc (turns u (Some f)) (foldl (line_effect u) rq0 ls, line_buffer ls (unlines R), w)
    (HttpServer.Request HttpServer.RECEIVING_DATA 0 0 (ex_request x), line_buffer (ex_lines x) [], w).
Proof.
  intros [Hwire Hcl _ _ _] HL HR. destruct (exists_last HR) as (R' & l & ->).
  rewrite app_assoc in HL. unfold ex_lines in HL. apply app_inj_tail in HL as [HL <-].
  destruct (HttpServer.wire_lines_ok junk _ _ _ _ Hwire) as [Hok Hn].
  rewrite unlines_app. change (unlines [[cr]]) with CRLF. unfold ex_lines. rewrite HL.
  set (i := line_buffer ls _). set (i1 := line_buffer (ls ++ R') CRLF).
  set (rq1 := HttpServer.Request HttpServer.WAIT_HEADER 0 0 (ex_request x)).
  assert (foldl (line_effect u) rq0 (ls ++ R') = rq1) as Hrq1.
  { rewrite <- HL. by apply HttpServer.wire_effects. }
  rewrite HL in Hok, Hn. apply lines_ok_app in Hok as [_ Hok]. apply Forall_app in Hn as [_ Hn].
  pose proof (HttpServer.lines_turns u (Some f) _ i w R' CRLF Hok Hn eq_refl (line_buffer_rest _ _)) as Ht.
  rewrite <- foldl_app, Hrq1 in Ht. unfold i in Ht at 2 3. rewrite line_buffer_advance in Ht.
  etrans; [exact Ht |]. apply rtc_once.
  assert (line_buffer ((ls ++ R') ++ [[cr]]) [] = set_gpos (gpos i1 + length [cr] + 1) i1) as ->.
  { rewrite <- line_buffer_advance, <- Nat.add_assoc. done. }
  apply (HttpServer.blank_turn u (Some f) rq1 i1 w [cr] []); try done.
  - apply line_buffer_rest.
  - apply no_newline_cr.
  - cbn [HttpServer.req rq1 HttpServer.data_size]. unfold get_header. cbn.
    by destruct Hcl as [[-> _] | [-> _]].
Qed.

(** Once the blank line is in, the handler writes the answer and forgets the request. *)
Lemma handler_answers x reqs conn ls R w :
  exchange_ok x → default rq0 (reqs !! conn) = foldl (line_effect u) rq0 ls →
  ex_lines x = ls ++ R → R ≠ [] → at_end w →
  handler reqs conn (line_buffer ls (unlines R)) w
  = (delete conn reqs, Ret (keeps x), line_buffer (ex_lines x) [], append (ex_answer x) w).
Proof.
  intros Hx Hrq HL HR Hw. pose proof (header_turns x ls R w Hx HL HR) as Ht.
  pose proof (ex_buffer_in_bounds x ls R Hx HL) as Hi.
  destruct Hx as [_ _ _ (resp & Hf & Ha) _].
  set (i := line_buffer ls (unlines R)) in *. set (i2 := line_buffer (ex_lines x) []) in *.
  set (rq3 := HttpServer.Request HttpServer.PROCESS_REQUEST 0 0 (ex_request x)).
  assert (turns u (Some f) (rq3, i2, w) (HttpServer.goto HttpServer.CLOSING rq3, i2, append (ex_answer x) w))
    as Hp.
  { apply (HttpServer.process_turn u (Some f) f rq3 i2 w resp); try done.
    cbn [HttpServer.req rq3]. rewrite respond_text, Ha by done. done. }
  assert (rtc (turns u (Some f)) (foldl (line_effect u) rq0 ls, i, w)
    (HttpServer.goto HttpServer.CLOSING rq3, i2, append (ex_answer x) w)) as Hall.
  { etrans; [exact Ht |]. eapply (rtc_l _ _ (rq3, i2, w)); [done |]. by apply rtc_once. }
  unfold http_handler, process_data. rewrite Hrq.
  pose proof (HttpServer.run_complete u (Some f) _ _ _ _ Hall eq_refl Hi (le_n _)) as Hrun.
  cbn [fst snd] in Hrun. by rewrite Hrun.
Qed.

(** The listening thread on a piece: it is appended to what is left of the request. *)
Lemma connection_read_piece conn ls tail s c :
  standing conn ls tail s → c ≠ [] →
  connection_read (Some handler) s.1 s.2 (Z.of_nat (length c)) c
  = let '(st', keep, r', w') :=
      handler s.1 conn (line_buffer ls (tail ++ c)) (clear_state (write_buffer s.2)) in
    match keep with
    | Ret k =>
        let rq2 := (if k then id else TcpServer.close) (TcpServer.with_buffers r' w' s.2) in
        let '(same, r2) := TcpServer.same_pos r' in
        let rq3 := TcpServer.with_buffers (if same then set_str [] r2 else r2) w' rq2 in
        (st', Ret rq3, rq3)
    | Throw e => (st', Throw e, TcpServer.with_buffers r' w' s.2)
    | Undef => (st', Undef, TcpServer.with_buffers r' w' s.2)
    end.
Proof.
  intros [_ Hbuf _ Hconn _ _ _ _ _ _] Hc. unfold connection_read.
  destruct (Z.eqb_spec (Z.of_nat (length c)) Socket.io_error); [unfold Socket.io_error in *; lia |].
  destruct (Z.ltb_spec 0 (Z.of_nat (length c))); [| destruct c; [done | cbn in *; lia]].
  rewrite Nat2Z.id, firstn_all, Hbuf, line_buffer_write, Hconn.
  destruct (handler _ _ _ _) as [[[st' keep] r'] w'].
  destruct keep as [[|] | |]; done.
Qed.

Lemma clear_sound w : sound w → at_end (clear_state w) ∧ rest (clear_state w) = rest w ∧ sound (clear_state w).
Proof. by intros (? & ? & ?). Qed.




Lemma same_pos_finished ls : TcpServer.same_pos (line_buffer ls []) = (true, line_buffer ls []).
Proof.
  unfold TcpServer.same_pos, line_buffer, tellg, tellp. cbn. f_equal.
  apply bool_decide_eq_true. by rewrite app_nil_r.
Qed.



(** The connection before the worker's look at it, when the piece has completed the request. *)
Lemma arrives_answers x conn ls R tail s c :
  exchange_ok x → standing conn ls tail s → ex_lines x = ls ++ R → unlines R = tail ++ c → c ≠ [] →
  let w := append (ex_answer x) (clear_state (write_buffer s.2)) in
  arrives u junk (Some f) c s
  = looked u junk (Some f) (delete conn s.1,
      TcpServer.Request (if keeps x then TcpServer.WAIT_DATA else TcpServer.CLOSING) conn (line_buffer [] []) w) ∧
  sound w ∧ rest w = rest (write_buffer s.2) ++ ex_answer x.
Proof.
  intros Hx Hs HL HR Hc w. assert (R ≠ []) as HR0 by (intros ->; by destruct tail, c).
  unfold arrives. rewrite (connection_read_piece conn ls tail s c Hs Hc), <- HR.
  destruct Hs as [Hrq Hbuf Hopen Hconn Hout Hemp _ _ _ _].
  destruct (clear_sound _ Hout) as (Hend & Hrest & Hg & Hp & Hz).
  rewrite (handler_answers x s.1 conn ls R _ Hx Hrq HL HR0 Hend), same_pos_finished. fold w.
  split.
  { unfold id, TcpServer.close, TcpServer.with_buffers.
    destruct (keeps x); cbv beta zeta iota; cbn [cur_state connection read_buffer write_buffer];
      by rewrite ?Hopen, ?Hconn. }
  assert (rest (append (ex_answer x) (clear_state (write_buffer s.2))) = rest (write_buffer s.2) ++ ex_answer x) as Hr.
  { unfold rest, append. cbn in *. by rewrite drop_app_le. }
  pose proof (ex_sendable x Hx) as Hsz.
  split; [| exact Hr]. unfold w, sound, writable_size. rewrite Hr. unfold rest, append.
  cbn [sbuf gpos ppos clear_state] in *. rewrite Hemp in *. cbn in *. rewrite drop_nil. cbn. split_and!; lia.
Qed.

(** ** Conversations *)








(** A fresh connection, its handle not in the table. *)
Lemma standing_new x conn reqs :
  exchange_ok x → reqs !! conn = None → standing conn [] [] (reqs, TcpServer.request_new conn).
Proof.
  intros Hx Hreqs. pose proof (ex_sendable x Hx) as Hz.
  split; cbn; try done; [by rewrite Hreqs | | by right | by apply not_elem_of_nil].
  split_and!; [done.. |]. split; [done | cbn; lia].
Qed.


(** ** What follows a kept connection *)

(** The table has a request that waits for its first line, and the read buffer has failed. *)
Lemma looked_kept reqs conn w :
  looked u junk (Some f) (delete conn reqs, TcpServer.Request TcpServer.WAIT_DATA conn (line_buffer [] []) w)
  = Some (<[conn := rq0]> (delete conn reqs),
      TcpServer.Request TcpServer.WAIT_DATA conn (set_fail (line_buffer [] [])) w).
Proof.
  unfold looked, work. cbn [cur_state snd fst connection read_buffer write_buffer].
  rewrite (handler_waits _ conn [] []);
    [done | by rewrite lookup_delete_eq | constructor | by apply not_elem_of_nil | done].
Qed.

(** On a read buffer that has failed it reads two blank lines, and answers them as a request. *)
Lemma handler_blank reqs conn w resp t :
  reqs !! conn = Some rq0 → at_end w →
  f (http_request_new junk) = Ret resp → answer_text (http_request_new junk) resp = Ret t →
  handler reqs conn (set_fail (line_buffer [] [])) w
  = (delete conn reqs, Ret false, set_fail (line_buffer [] []), append t w).
Proof.
  intros Hrq Hw Hf Ht. set (i := set_fail (line_buffer [] [])).
  set (rq3 := HttpServer.goto HttpServer.PROCESS_REQUEST rq0).
  assert (turns u (Some f) (rq3, i, w) (HttpServer.goto HttpServer.CLOSING rq3, i, append t w)) as Hp.
  { apply (HttpServer.process_turn u (Some f) f rq3 i w resp); try done.
    cbn [HttpServer.req rq3 HttpServer.goto]. rewrite respond_text by done.
    change (HttpServer.req rq0) with (http_request_new junk). by rewrite Ht. }
  assert (rtc (turns u (Some f)) (rq0, i, w) (HttpServer.goto HttpServer.CLOSING rq3, i, append t w)) as Hall.
  { apply (rtc_l _ _ (HttpServer.goto HttpServer.WAIT_HEADER rq0, i, w)); [done |].
    apply (rtc_l _ _ (HttpServer.goto HttpServer.RECEIVING_DATA rq0, i, w)); [done |].
    apply (rtc_l _ _ (rq3, i, w)); [done |]. by apply rtc_once. }
  unfold http_handler, process_data. rewrite Hrq. cbn [default id].
  assert (in_bounds i) as Hi by by apply line_buffer_in_bounds.
  pose proof (HttpServer.run_complete u (Some f) _ _ _ _ Hall eq_refl Hi (le_n _)) as Hrun.
  cbn [fst snd] in Hrun. by rewrite Hrun.
Qed.

(** The socket takes some of the bytes: the connection can be written to again. *)
Lemma connection_write_at_end accept w :
  at_end w → sound w → rest w ≠ [] → (∀ s, (0 ≤ accept s ≤ Z.of_nat (length s))%Z) →
  ∃ tmp w', connection_write accept w = Ret (tmp, w') ∧ at_end w'.
Proof.
  intros [Hg Hp] (Hle & _ & Hz) Hr Ha.
  assert (length (rest w) = length (sbuf w) - gpos w) as Hl by apply length_drop.
  assert (length (rest w) ≠ 0) by by destruct (rest w).
  rewrite TcpServer.connection_write_good by (done || lia). specialize (Ha (rest w)).
  eexists _, _. split; [done |]. unfold TcpServer.after_send.
  destruct (Z.eqb_spec (accept (rest w)) Socket.io_error); [unfold Socket.io_error in *; lia |].
  apply good_spec in Hg as (He & Hf & Hb).
  repeat case_match; (split; [apply good_spec; by cbn | by cbn]).
Qed.

Lemma answer_nonempty r resp t : answer_text r resp = Ret t → t ≠ [].
Proof.
  unfold answer_text. intros Ht. apply bind_Ret in Ht as (st & _ & Ht). apply bind_Ret in Ht as (cs & _ & [= <-]).
  by destruct (http_version (req_header r)).
Qed.

(** A connection that asks to be kept is not: after the answer to the request it was opened
    for, the first bytes the socket takes of it make a worker call the handler on the read
    buffer its last look has left failed, which passes a blank request to the application, puts
    the answer to it after the first one and closes the connection. *)
Theorem keep_alive_closes x conn reqs accept resp t :
  exchange_ok x → keeps x = true → reqs !! conn = None →
  f (http_request_new junk) = Ret resp → answer_text (http_request_new junk) resp = Ret t →
  (∀ s, (0 ≤ accept s ≤ Z.of_nat (length s))%Z) →
  ∃ out reqs' rq,
    converse u junk (Some f) [Event None (Some (ex_text x)); Event (Some accept) None]
      (reqs, TcpServer.request_new conn) = Some (out, (reqs', rq)) ∧
    out ++ rest (write_buffer rq) = ex_answer x ++ t ∧ cur_state rq = TcpServer.CLOSING.
Proof.
  intros Hx Hk Hreqs Hf Ht Ha. set (s := (reqs, TcpServer.request_new conn)).
  pose proof Hx as [_ _ _ (resp' & _ & Hans) _]. apply answer_nonempty in Hans.
  pose proof (standing_new x conn reqs Hx Hreqs) as Hst. fold s in Hst.
  assert (ex_text x ≠ []) as Hne.
  { rewrite <- ex_lines_text. unfold ex_lines. rewrite unlines_app. by destruct (unlines _). }
  destruct (arrives_answers x conn [] (ex_lines x) [] s (ex_text x) Hx Hst eq_refl (ex_lines_text x) Hne)
    as (Harr & Hsound & Hrest).
  cbn [converse]. rewrite pass_read. change (writes _ s) with (Ret s). cbv iota. rewrite Harr, Hk, looked_kept.
  set (w := append _ _) in *. cbn [fmap option_fmap option_map]. rewrite pass_write.
  assert (at_end w) as Hw by done.
  assert (rest w ≠ []) as Hrw by (rewrite Hrest; cbn; by destruct (ex_answer x)).
  assert (send_contract accept) as Hc by (intros b; by apply Ha).
  destruct (sound_write accept w Hsound Hc) as (tmp & w' & Hwr & Hout & Hsound' & _).
  destruct (connection_write_at_end accept w Hw Hsound Hrw Ha) as (tmp' & w'' & Hwr' & Hw').
  rewrite Hwr in Hwr'. injection Hwr' as <- <-.
  unfold writes, writable. cbn [fst snd write_buffer read_buffer ev_write].
  assert (eofbit w = false) as -> by done. rewrite Hwr. unfold looked, work. cbn [mbind outcome_bind].
  cbn [cur_state fst snd connection read_buffer write_buffer TcpServer.with_buffers].
  rewrite (handler_blank _ conn _ resp t); [| by rewrite lookup_insert_eq | done..].
  cbn [fmap option_fmap option_map fst snd app]. eexists _, _, _. split; [reflexivity |].
  split; [| done]. cbn [write_buffer TcpServer.close TcpServer.with_buffers]. rewrite app_nil_r.
  assert (∀ o, at_end o → sound o → rest (append t o) = rest o ++ t) as Happ.
  { intros o _ [Hle _]. unfold append, rest. cbn. by rewrite drop_app_le. }
  rewrite Happ by done.
  rewrite app_assoc. f_equal. change (sent_of _ s.2) with (@nil ascii). cbn [app]. by rewrite Hout, Hrest.
Qed.
End conversation.

(** ** Properties *)


(** ** The server's steps

    [pass] is what the server's threads do with a connection that has events, when the queue is
    empty. *)
Section steps.
Context {room : Stack} `{TimeLib} (u : nat → uninit) (junk : http_method.http_method).
Context (f : option (http_request → outcome http_response)).

Abbreviation step := (TcpServer.step None (Some (http_handler u junk f))).

Lemma connection_read_same st rq size c st' rq1 rq2 :
  connection_read (Some (http_handler u junk f)) st rq size c = (st', Ret rq1, rq2) → rq1 = rq2.
Proof. unfold connection_read, TcpServer.same_pos. intros Hr. by repeat case_match; simplify_eq. Qed.

Lemma io_events_same st rq ev st' rq1 rq2 :
  TcpServer.io_events (Some (http_handler u junk f)) st rq ev = (st', Ret rq1, rq2) → rq1 = rq2.
Proof.
  unfold TcpServer.io_events. destruct (match TcpServer.wready ev with Some _ => _ | None => _ end); [| done..].
  destruct (TcpServer.rready ev) as [[size c] |].
  - apply connection_read_same.
  - by intros [= _ <- <-].
Qed.

(** What [pass] does to a connection is reached by steps of the server that leave every
    other connection as it is: the listening thread's, and, unless the connection is closing,
    those of a worker that takes it from the queue, calls the handler and gives it back. *)
Theorem pass_steps qs workers (s : TcpServer.server) n rq e out reqs' rq' :
  n ∈ TcpServer.a_reqs s → TcpServer.heap s !! n = Some rq → TcpServer.reqs s = [] →
  length (TcpServer.held s) + length (TcpServer.handled s) < workers →
  TcpServer.is_stopped s = false → TcpServer.has_events (ready_of e rq) = true →
  pass u junk f e (TcpServer.hstate s, rq) = Some (out, (reqs', rq')) →
  ∃ s', rtc (step qs workers) s s' ∧ TcpServer.heap s' !! n = Some rq' ∧ TcpServer.hstate s' = reqs' ∧
    n ∈ TcpServer.a_reqs s' ∧ (∀ m, m ≠ n → TcpServer.heap s' !! m = TcpServer.heap s !! m).
Proof.
  intros Hn Hrq Hq Hfree Hrun Hev Ha. unfold pass in Ha. cbn [fst snd] in Ha. rewrite Hev in Ha.
  destruct (TcpServer.io_events _ _ _ _) as [[reqs1 o1] rq1] eqn:Hio.
  destruct o1 as [rq1' | |]; [| done..]. pose proof (io_events_same _ _ _ _ _ _ Hio) as ->.
  unfold looked in Ha. cbn [fst snd] in Ha.
  assert (cur_state rq1 = TcpServer.CLOSING ∨ cur_state rq1 ≠ TcpServer.CLOSING) as [Hcl | Hcl]
    by (destruct (cur_state rq1); auto).
  - rewrite Hcl in Ha. injection Ha as <- <- <-.
    exists (TcpServer.store n rq1 reqs1 s). split_and!; cbn; [| by rewrite lookup_insert_eq | done | done |].
    + apply rtc_once. eexists. by eapply TcpServer.act_keep.
    + intros m Hm. by rewrite lookup_insert_ne.
  - destruct (work _ reqs1 rq1) as [[reqs2 o2] rq2] eqn:Hwork.
    assert (o2 = Ret () ∧ reqs2 = reqs' ∧ rq2 = rq') as (-> & -> & ->).
    { destruct (cur_state rq1), o2 as [[] | |]; cbn in Ha; simplify_eq; done. }
    eexists. split_and!.
    + eapply rtc_l; [eexists; by eapply (TcpServer.act_queue _ _ _ _ s n rq (ready_of e rq)) |].
      eapply rtc_l; [eexists; eapply (TcpServer.act_take _ _ _ _ _ n []); cbn; [by rewrite Hq | done..] |].
      eapply rtc_l; [eexists; eapply (TcpServer.act_work _ _ _ _ _ n rq1); cbn;
        [by left | by rewrite lookup_insert_eq | exact Hwork] |].
      apply rtc_once. eexists. apply (TcpServer.act_done _ _ _ _ _ n). cbn. by left.
    + cbn. by rewrite lookup_insert_eq.
    + done.
    + cbn. set_solver.
    + intros m Hm. cbn. by rewrite !lookup_insert_ne.
Qed.
End steps.

(** ** Witnesses and examples *)

(** A handler that answers with the path it was asked for. *)
Definition echo_path (r : http_request) : outcome http_response :=
  h ← set_content (_path_info r) (resp_header http_response_new);
  Ret (HttpResponse h http_error.ok).

Section samples.
Local Instance flat : TimeLib := flat_calendar.
#[local] Existing Instance TcpServer.eight_megabytes.

Definition sample_response (r : http_request) : http_response :=
  match echo_path r with Ret resp => resp | _ => http_response_new end.

Definition sample_answer (r : http_request) : str :=
  match answer_text r (sample_response r) with Ret t => t | _ => [] end.

Definition sample_exchange (p : str) (hs : http_headers) : exchange :=
  Exchange (lit "GET") p (lit "HTTP/1.1") hs
    (sample_answer (parsed_request http_method.get (lit "GET") p (lit "HTTP/1.1") hs)).

Definition sample_keep : exchange := sample_exchange (lit "/a") [(lit "Connection", lit "keep-alive")].


Definition sample_ok (x : exchange) : Prop := exchange_ok http_method.get echo_path x.

Lemma sample_trimmed s : trim s = s → trimmed s.
Proof. intros <-. apply trim_trimmed. Qed.

(** A request for [p] with one header. *)
Lemma sample_exchange_ok p n v :
  in_set p newline = false → trim n = n → trim v = v → n ≠ [] → v ≠ [] →
  in_set n newline = false → in_set v newline = false → header_ok (n, v) →
  content_length [(n, v)] 0 → (Z.of_nat (length (ex_text (sample_exchange p [(n, v)]))) ≤ INT_MAX)%Z →
  (∃ resp, echo_path (ex_request http_method.get (sample_exchange p [(n, v)])) = Ret resp ∧
    answer_text (ex_request http_method.get (sample_exchange p [(n, v)])) resp
    = Ret (ex_answer (sample_exchange p [(n, v)]))) →
  (Z.of_nat (length (ex_answer (sample_exchange p [(n, v)]))) ≤ Z.min INT_MAX stack_room)%Z →
  sample_ok (sample_exchange p [(n, v)]).
Proof.
  intros Hp Hn Hv Hn0 Hv0 Hnn Hvn Hh Hcl Hshort Ha Hfit. split; [| done..].
  assert (∀ c s, in_set s c = false → c ∉ s) as Hin by (intros c s; apply in_set_false).
  split; [| by apply Hin | | |].
  - split; [by apply sample_trimmed |]. split; [by repeat constructor | by apply Hin].
  - split; [by apply sample_trimmed |]. split; [by repeat constructor | by apply Hin].
  - by repeat constructor.
  - constructor; [| constructor]. cbn [fst snd].
    split; [done |]. split; [done |]. split; [done |]. split; by apply Hin.
Qed.


Lemma sample_keep_ok : sample_ok sample_keep.
Proof.
  apply sample_exchange_ok; try done.
  - split; [by repeat constructor |]. split; [by apply sample_trimmed |]. by split; [apply sample_trimmed |].
  - by left.
  - exists (sample_response (ex_request http_method.get sample_keep)). split; vm_compute; reflexivity.
Qed.


Definition ten_bytes (s : str) : Z := Z.min 10 (Z.of_nat (length s)).



Lemma keep_alive_closes_witness :
  ∃ out reqs' rq,
    converse HttpServer.sample_uninit http_method.get (Some echo_path)
      [Event None (Some (ex_text sample_keep)); Event (Some ten_bytes) None]
      (∅, TcpServer.request_new 5) = Some (out, (reqs', rq)) ∧
    out ++ rest (write_buffer rq) = ex_answer sample_keep ++ sample_answer (http_request_new http_method.get) ∧
    cur_state rq = TcpServer.CLOSING.
Proof.
  apply (keep_alive_closes HttpServer.sample_uninit http_method.get echo_path sample_keep 5 ∅ ten_bytes
    (sample_response (http_request_new http_method.get))).
  - exact sample_keep_ok.
  - reflexivity.
  - reflexivity.
  - vm_compute. reflexivity.
  - vm_compute. reflexivity.
  - intros s. unfold ten_bytes. lia.
Defined.

(** The state of the table and the connection after some pieces, with nothing sent. *)
Definition after (cs : list str) (reqs : gmap Z HttpServer.request)
    : option (gmap Z HttpServer.request * str * TcpServer.states) :=
  (λ p, (p.2.1, rest (write_buffer p.2.2), cur_state p.2.2))
    <$> converse HttpServer.sample_uninit http_method.get (Some echo_path)
          ((λ c, Event None (Some c)) <$> cs) (reqs, TcpServer.request_new 5).

(** A piece that ends with a line is answered by the worker before the request is complete. *)
Example answered_at_line_end :
  (λ p, (p.1.2, p.2)) <$> after [lit "GET /a HTTP/1.1" ++ CRLF] ∅
  = Some (ex_answer (sample_exchange (lit "/a") []), TcpServer.CLOSING).
Proof. vm_compute. reflexivity. Qed.

(** A client that leaves an unfinished request behind: its handle, once it is given to the next
    client, still has the request, so that the next client's own is read as lines of it. *)
Example unfinished_request_inherited :
  (r ← after [lit "GET /first HTTP/1.1" ++ CRLF ++ lit "A: b"] ∅;
   (λ p, p.1.2) <$> after [lit "GET /second HTTP/1.1" ++ CRLF ++ CRLF] r.1.1)
  = Some (ex_answer (sample_exchange (lit "/first") [])).
Proof. vm_compute. reflexivity. Qed.
End samples.
