(* ===== verification/TcpLifecycle.v ===== *)
(** * The life of a connection: what [tcp_server.cpp] implements.

    The specification gives each connection one phase and keeps the order in which connections
    wait for a worker.  [TcpServer.step], with its heap, buffers, handlers and lists, refines
    it; and a waiting connection is taken after as many turns of the workers as connections
    wait before it. *)
From S2P Require Export TcpServer.

(** [Arriving]: accepted, not pushed yet; [Returning]: the handler's call is over and the
    worker has not pushed it back yet. *)
Inductive phase := Arriving | Active | Waiting | Working | Returning | Closed | Dropped.

Record lifecycle := Lifecycle {
  phases : gmap nat phase;
  fifo : list nat }.

(** The changes of phase that leave the queue alone. *)
Inductive life_edge : phase → phase → Prop :=
  | edge_arrive : life_edge Arriving Active
  | edge_work : life_edge Working Returning
  | edge_drop : life_edge Working Dropped
  | edge_done : life_edge Returning Active
  | edge_close : life_edge Active Closed.

Inductive life_step (l : lifecycle) : lifecycle → Prop :=
  | life_accept n p :
      phases l !! n = None → p = Arriving ∨ p = Dropped →
      life_step l (Lifecycle (<[n := p]> (phases l)) (fifo l))
  | life_wait n :
      phases l !! n = Some Active →
      life_step l (Lifecycle (<[n := Waiting]> (phases l)) (fifo l ++ [n]))
  | life_take n q :
      fifo l = n :: q → phases l !! n = Some Waiting →
      life_step l (Lifecycle (<[n := Working]> (phases l)) q)
  | life_move n p p' :
      phases l !! n = Some p → life_edge p p' →
      life_step l (Lifecycle (<[n := p']> (phases l)) (fifo l)).

(** ** The refinement mapping *)
Definition in_phase (p : phase) (l : list nat) : list (nat * phase) := (λ n, (n, p)) <$> l.

#[global] Instance in_phase_proper p : Proper ((≡ₚ) ==> (≡ₚ)) (in_phase p).
Proof. intros l l' H. by apply fmap_Permutation. Qed.

Section mapping.
Context {S : Type}.
Implicit Types s : server (S := S).

Definition places s : list (nat * phase) :=
  in_phase Active (a_reqs s) ++ in_phase Waiting (reqs s) ++ in_phase Arriving (incoming s)
  ++ in_phase Working (held s) ++ in_phase Returning (handled s)
  ++ in_phase Closed (freed s) ++ in_phase Dropped (lost s).

Definition life_of s : lifecycle := Lifecycle (list_to_map (places s)) (reqs s).

Lemma in_phase_fst p l : (in_phase p l).*1 = l.
Proof. unfold in_phase. induction l as [| n l IH]; cbn; by f_equal. Qed.

Lemma places_fst s : (places s).*1 = live s ++ gone s.
Proof. unfold places, live, gone. by rewrite !fmap_app, !in_phase_fst, <- !app_assoc. Qed.

Lemma places_NoDup s : owned s → NoDup (places s).*1.
Proof. intros H. rewrite places_fst. by apply owned_NoDup. Qed.


(** The list that holds the connections of a phase, and the places of the other phases. *)
Definition phase_list s (p : phase) : list nat :=
  match p with
  | Active => a_reqs s
  | Waiting => reqs s
  | Arriving => incoming s
  | Working => held s
  | Returning => handled s
  | Closed => freed s
  | Dropped => lost s
  end.

Definition others s (p : phase) : list (nat * phase) :=
  match p with Active => [] | _ => in_phase Active (a_reqs s) end
  ++ match p with Waiting => [] | _ => in_phase Waiting (reqs s) end
  ++ match p with Arriving => [] | _ => in_phase Arriving (incoming s) end
  ++ match p with Working => [] | _ => in_phase Working (held s) end
  ++ match p with Returning => [] | _ => in_phase Returning (handled s) end
  ++ match p with Closed => [] | _ => in_phase Closed (freed s) end
  ++ match p with Dropped => [] | _ => in_phase Dropped (lost s) end.

Lemma places_split s p : places s ≡ₚ in_phase p (phase_list s p) ++ others s p.
Proof. unfold places. destruct p; cbn [others phase_list]; cbn; solve_Permutation. Qed.

(** A step that moves [n] from one phase to another, [r] being what stays in the phase. *)
Lemma life_moved s s' n p p' r :
  owned s → phase_list s p ≡ₚ n :: r → places s' ≡ₚ (n, p') :: in_phase p r ++ others s p →
  phases (life_of s') = <[n := p']> (phases (life_of s)) ∧ phases (life_of s) !! n = Some p.
Proof.
  intros Ho Hn Hp'. eapply (moved (places s) (places s')); [by apply places_NoDup | | exact Hp'].
  by rewrite (places_split s p), Hn.
Qed.

Lemma life_eq s q m : phases (life_of s) = m → reqs s = q → life_of s = Lifecycle m q.
Proof. unfold life_of. cbn. by intros -> ->. Qed.
End mapping.

Section refinement.
Context {room : Stack} {S : Type} (greeter : option (S → Z → stream → stream → S * outcome unit * stream * stream)).
Context (handler : option (S → Z → stream → stream → S * outcome bool * stream * stream)).
Context (queue_size workers : nat).

(** Permutations of the places of two states, the lists being known up to [H]. *)
Ltac places_tac :=
  unfold places, connected, store, set_admitted, set_stopped;
  cbn [a_reqs reqs incoming held handled freed lost];
  unfold in_phase; rewrite ?fmap_app; cbn [fmap list_fmap]; solve_Permutation.

(** [n] moves from [p] to [p'], [H] telling what stays; then the edge. *)
Ltac move_tac s n p p' H :=
  match goal with
  | Ho : owned s |- life_step _ (life_of ?s') =>
      let r := match type of H with _ ≡ₚ _ :: ?r => r end in
      let E := fresh "E" in let L := fresh "L" in
      destruct (life_moved s s' n p p' r Ho H) as [E L];
      [unfold others; places_tac | rewrite (life_eq _ _ _ E eq_refl)]
  end.

Lemma server_refinement :
  refinement (step greeter handler queue_size workers) owned life_step life_of.
Proof.
  split; [intros s s' Hs; by eapply owned_step |]. intros s s' Ho Hs.
  pose proof (owned_step greeter handler queue_size workers s s' Hs Ho) as Ho'.
  destruct Hs as [a Hs].
  destruct Hs as [Hq | Ha | conn st' rq Ha Hst | conn st' e rq Ha Hst | n l Hi
    | n rq ev st' rq' Hn Hlk Hev Hio Hc | n rq ev st' rq' Hn Hlk Hio Hc
    | n rq ev st' e rq' Hn Hlk Hio | n rq Hn Hlk Hc He | n q Hq Hst Hfree | n rq st' rq' Hn Hlk Hw
    | n rq st' e rq' Hn Hlk Hw | n Hn | Hst | Hst];
    try (by left); right.
  - destruct (placed (places s) _ (next s) Arriving (places_NoDup _ Ho')) as [E Hf]; [places_tac |].
    rewrite (life_eq _ _ _ E eq_refl). apply life_accept; [exact Hf | by left].
  - destruct (placed (places s) _ (next s) Dropped (places_NoDup _ Ho')) as [E Hf]; [places_tac |].
    rewrite (life_eq _ _ _ E eq_refl). apply life_accept; [exact Hf | by right].
  - assert (incoming s ≡ₚ n :: l) as Hp by by rewrite Hi.
    move_tac s n Arriving Active Hp. by eapply life_move, edge_arrive.
  - move_tac s n Active Waiting (owned_a_reqs s n Ho Hn). by apply life_wait.
  - move_tac s n Active Closed (owned_a_reqs s n Ho Hn). by eapply life_move, edge_close.
  - assert (reqs s ≡ₚ n :: q) as Hp by by rewrite Hq.
    move_tac s n Waiting Working Hp. by apply life_take.
  - move_tac s n Working Returning (owned_held s n Ho Hn). by eapply life_move, edge_work.
  - move_tac s n Working Dropped (owned_held s n Ho Hn). by eapply life_move, edge_drop.
  - move_tac s n Returning Active (owned_handled s n Ho Hn). by eapply life_move, edge_done.
Qed.
End refinement.

(** ** Waiting for a worker *)

(** How many connections wait before [n]. *)
Fixpoint before (n : nat) (l : list nat) : nat :=
  match l with
  | [] => 0
  | m :: l' => if bool_decide (m = n) then 0 else S (before n l')
  end.

Lemma before_lookup n l k : l !! k = Some n → before n l ≤ k.
Proof.
  revert k. induction l as [| m l IH]; intros k Hk; [done |]. cbn.
  destruct (bool_decide_reflect (m = n)) as [| Hne]; [lia |].
  destruct k as [| k]; [by injection Hk as -> |]. apply IH in Hk. lia.
Qed.

Lemma before_app n l l' : n ∈ l → before n (l ++ l') = before n l.
Proof.
  induction l as [| m l IH]; intros Hn; [by apply not_elem_of_nil in Hn |]. cbn.
  destruct (bool_decide_reflect (m = n)) as [| Hne]; [done |]. f_equal. apply IH.
  by apply elem_of_cons in Hn as [-> |].
Qed.

(** The connections the workers have, one that is handled counting less. *)
Definition load {S} (s : server (S := S)) : nat := 2 * length (held s) + length (handled s).

(** A worker does something: it takes a connection, its handler ends, it gives the connection
    back. *)
Definition worker_turn {S} (s s' : server (S := S)) : bool :=
  (length (held s) <? length (held s')) || (load s' <? load s).

Section waiting.
Context {room : Stack} {S : Type}.
Context (greeter : option (S → Z → stream → stream → S * outcome unit * stream * stream)).
Context (handler : option (S → Z → stream → stream → S * outcome bool * stream * stream)).
Context (queue_size workers : nat).

(** The turns of the workers before [n] is taken. *)
Definition wait (n : nat) (s : server (S := S)) : nat := 3 * before n (reqs s) + load s.

Lemma waiting_step n s s' :
  owned s → n ∈ reqs s → step greeter handler queue_size workers s s' →
  n ∈ held s' ∨ n ∈ reqs s' ∧ wait n s' + (if worker_turn s s' then 1 else 0) ≤ wait n s.
Proof.
  intros Ho Hn Hs.
  assert ((if worker_turn s s' then 1 else 0) ≤ 1) as Hone by (destruct (worker_turn s s'); lia).
  destruct Hs as [a Hs]. destruct Hs as [| | | | | m rq ev st' rq' Hm Hlk Hev Hio Hc | | | | m q Hq Hst
    | m rq st' rq' Hm | m rq st' e rq' Hm | m Hm | |]; unfold wait in *.
  (* the workers *)
  10: { cbn [reqs]. rewrite Hq in *. apply elem_of_cons in Hn as [-> | Hn]; [left; by left |].
        destruct (decide (m = n)) as [-> | Hne]; [left; by left |]. right. split; [done |].
        cbn [before]. rewrite bool_decide_false by done. unfold load in *. cbn [held handled length]. lia. }
  10: { right. split; [done |]. unfold load in *. cbn [reqs held handled length].
        pose proof (Permutation_length (owned_held s m Ho Hm)) as Hl. cbn [length] in Hl. lia. }
  10: { right. split; [done |]. unfold load in *. cbn [reqs held handled length].
        pose proof (Permutation_length (owned_held s m Ho Hm)) as Hl. cbn [length] in Hl. lia. }
  10: { right. split; [done |]. unfold load in *. cbn [reqs held handled length].
        pose proof (Permutation_length (owned_handled s m Ho Hm)) as Hl. cbn [length] in Hl. lia. }
  (* the others leave the workers' lists alone *)
  all: match goal with |- context [worker_turn ?s1 ?s2] =>
    assert (load s2 = load s1 ∧ length (held s2) = length (held s1)) as [El Eh] by done;
    assert (worker_turn s1 s2 = false) as -> by
      (unfold worker_turn; rewrite El, Eh; apply orb_false_iff; split; apply Nat.ltb_ge; lia);
    rewrite El end.
  6: { right. cbn [reqs]. rewrite elem_of_app. split; [by left |]. rewrite before_app by done. lia. }
  all: right; split; [done |]; cbn; lia.
Qed.

(** Some worker can go on. *)
Lemma worker_can_turn s :
  owned s → handler_returns handler → 0 < workers → reqs s ≠ [] → is_stopped s = false →
  ∃ s', step greeter handler queue_size workers s s' ∧ worker_turn s s' = true.
Proof.
  intros Ho Hh Hw Hq Hst. unfold worker_turn, load.
  destruct (handled s) as [| n l] eqn:Ed; [destruct (held s) as [| n l] eqn:Eh |].
  - destruct (reqs s) as [| n q] eqn:Eq; [done |]. eexists. split.
    + exists (Take n). eapply act_take; [done | done |]. rewrite Eh, Ed. cbn. lia.
    + cbn [held handled]. rewrite Eh. done.
  - assert (n ∈ held s) as Hn by (rewrite Eh; by left).
    destruct (owned_lookup s n Ho) as [rq Hrq]; [unfold live; set_solver |].
    pose proof (Permutation_length (owned_held s n Ho Hn)) as Hl. rewrite Eh in Hl. cbn [length] in Hl.
    destruct (work_returns handler (hstate s) rq Hh) as (st' & rq' & [E | [e E]]).
    + eexists. split; [exists (Work n); by eapply act_work |]. apply orb_true_iff. right.
      apply Nat.ltb_lt. cbn [held handled length]. rewrite Eh, Ed. cbn [length]. lia.
    + eexists. split; [exists (WorkThrow n); by eapply act_work_throw |]. apply orb_true_iff. right.
      apply Nat.ltb_lt. cbn [held handled length]. rewrite Eh, Ed. cbn [length]. lia.
  - assert (n ∈ handled s) as Hn by (rewrite Ed; by left).
    pose proof (Permutation_length (owned_handled s n Ho Hn)) as Hl. rewrite Ed in Hl. cbn [length] in Hl.
    eexists. split; [exists (Done n); by eapply act_done |]. apply orb_true_iff. right.
    apply Nat.ltb_lt. cbn [held handled length]. rewrite Ed. cbn [length]. lia.
Qed.
End waiting.

(** ** Clients and the queue *)
#[local] Existing Instance eight_megabytes.

(** A client that sends a byte, and its request once the listening thread has read it. *)
Definition client (n : nat) : request := request_new (Z.of_nat n).

Definition byte_ready : ready := Ready None (Some (1%Z, lit "x")).

Definition served (n : nat) : request :=
  snd (io_events (Some echo) () (client n) byte_ready).

(** A client connects: the size check, the connect handler, the push. *)
Lemma connect_one q w (s : server (S := unit)) c :
  length (a_reqs s) ≤ q → incoming s = [] → hstate s = () → admitted s = false →
  rtc (step None (Some echo) q w) s
    (Server (<[next s := request_new c]> (heap s)) (a_reqs s ++ [next s]) (reqs s) [] (held s)
       (handled s) (freed s) (lost s) (Datatypes.S (next s)) (is_stopped s) false ()).
Proof.
  intros Hq Hi Hs Ha. eapply rtc_l; [eexists; by apply act_admit |].
  eapply rtc_l; [eexists; apply (act_connect _ _ _ _ _ c (hstate s) (request_new c)); done |].
  eapply rtc_l; [eexists; apply (act_arrive _ _ _ _ _ (next s) []) |].
  - unfold connected. cbn. by rewrite Hi.
  - unfold connected. cbn. rewrite Hs. apply rtc_refl.
Qed.

Lemma remove_self n : remove n ([] ++ [n]) = [].
Proof. unfold remove. cbn [app]. rewrite filter_cons, decide_False by auto. done. Qed.

(** With no active request, another client can connect and be queued. *)
Lemma queue_one q w (s : server (S := unit)) :
  a_reqs s = [] → incoming s = [] → hstate s = () → admitted s = false →
  ∃ s', rtc (step None (Some echo) q w) s s' ∧ a_reqs s' = [] ∧ reqs s' = reqs s ++ [next s] ∧
    incoming s' = [] ∧ admitted s' = false ∧ is_stopped s' = is_stopped s.
Proof.
  intros Ha Hi Hs Had. eexists. split; [eapply rtc_r; [apply (connect_one q w s (Z.of_nat (next s))) |] |].
  - rewrite Ha. cbn. lia.
  - done.
  - done.
  - done.
  - exists (Queue (next s)).
    apply (act_queue _ _ _ _ _ (next s) (client (next s)) byte_ready () (served (next s)));
      [rewrite Ha; by left | apply lookup_insert_eq | done | by vm_compute | done].
  - cbn [a_reqs reqs incoming admitted is_stopped]. by rewrite Ha, remove_self.
Qed.

(** ** Properties *)

(** Every execution of the server's threads - over its heap, buffers, handlers and lists -
    is a run of the life of connections: one is accepted (or dropped by the connect handler's
    exception), becomes active, waits for a worker, is taken in the order of waiting, comes
    back or is dropped by the worker's exception, and is closed from the active phase only; no
    other change of phase ever happens. *)
Theorem tcp_refines_lifecycle {room : Stack} {S} greeter handler queue_size workers (st : S) s s' :
  reachable greeter handler queue_size workers st s → rtc (step greeter handler queue_size workers) s s' →
  rtc life_step (Lifecycle ∅ []) (life_of s) ∧ rtc life_step (life_of s) (life_of s').
Proof.
  intros Hr Hs. split.
  - change (Lifecycle ∅ []) with (life_of (server_new st)).
    eapply refinement_rtc; [apply server_refinement | by apply owned_new | exact Hr].
  - eapply refinement_rtc; [apply server_refinement | by eapply owned_reachable | exact Hs].
Qed.

(** C30. No connection starves in the queue, provided the handler's calls end: one that [k] others
    wait before is in the hands of a worker after at most [3 k + 2 h + d + 1] turns of the workers
    - [h] of them being in the handler and [d] past it - whatever the other threads do meanwhile;
    and while the server runs, has a worker and one waits, some worker has a turn to do, also
    when all of them are busy. *)
Theorem tcp_waiting_served {room : Stack} {S} greeter handler queue_size workers (st : S)
    (s : server (S := S)) ss n k :
  reachable greeter handler queue_size workers st s → handler_returns handler → 0 < workers →
  reqs s !! k = Some n → exec (step greeter handler queue_size workers) s ss →
  3 * k + 2 * length (held s) + length (handled s) < count_steps worker_turn s ss →
  Exists (λ s', n ∈ held s') ss ∧
  ∀ s1, rtc (step greeter handler queue_size workers) s s1 → reqs s1 ≠ [] → is_stopped s1 = false →
    ∃ s2, step greeter handler queue_size workers s1 s2 ∧ worker_turn s1 s2 = true.
Proof.
  intros Hr Hh Hw Hk He Hc. pose proof (owned_reachable _ _ _ _ _ _ Hr) as Ho. split.
  - eapply (exec_progress _ (λ s, owned s ∧ n ∈ reqs s) _ worker_turn (wait n)); [| | exact He |].
    + intros s1 s2 [Ho1 Hn] Hs. destruct (waiting_step _ _ _ _ n s1 s2 Ho1 Hn Hs) as [? | [? ?]]; [by left |].
      right. split; [split; [by eapply owned_step | done] | done].
    + split; [done |]. by eapply list_elem_of_lookup_2.
    + apply before_lookup in Hk. unfold wait, load. cbn. lia.
  - intros s1 Hs1 Hq Hst. apply worker_can_turn; try done. eapply owned_reachable.
    unfold reachable. etrans; [exact Hr | exact Hs1].
Qed.

(** The size check of [connection_accept] counts the active requests only, so it bounds
    neither the queue nor the number of open connections: with any [queue_size], and workers
    that are busy, the queue can hold any number of connections. *)
Theorem tcp_queue_unbounded queue_size workers N :
  ∃ s : server, reachable (S := unit) None (Some echo) queue_size workers () s ∧ length (reqs s) = N ∧
    a_reqs s = [] ∧ is_stopped s = false.
Proof.
  assert (∃ s : server, reachable (S := unit) None (Some echo) queue_size workers () s ∧
    length (reqs s) = N ∧ a_reqs s = [] ∧ is_stopped s = false ∧ incoming s = [] ∧
    admitted s = false) as (s & Hr & Hl & Ha & Hst & _); [| by exists s].
  induction N as [| N (s & Hr & Hl & Ha & Hst & Hi & Had)].
  { exists (set_stopped false (server_new ())). split; [| done].
    apply rtc_once. by exists Start; apply act_start. }
  destruct (queue_one queue_size workers s) as (s' & Hs & Ha' & Hq & Hi' & Had' & Hst'); try done.
  { by destruct (hstate s). }
  exists s'. split; [by apply (rtc_trans _ s) |].
  split; [rewrite Hq, length_app, Hl; cbn; lia |]. by rewrite Hst'.
Qed.

(** ** Witnesses *)

(** Both have connected. *)
Definition both_active : server (S := unit) :=
  Server (<[1 := client 1]> (<[0 := client 0]> ∅)) [0; 1] [] [] [] [] [] [] 2 false false ().

Definition first_waiting : server (S := unit) :=
  Server (<[0 := served 0]> (heap both_active)) [1] [0] [] [] [] [] [] 2 false false ().

Definition both_waiting : server (S := unit) :=
  Server (<[1 := served 1]> (heap first_waiting)) [] [0; 1] [] [] [] [] [] 2
    false false ().

(** One worker takes the first, answers it, gives it back and takes the second. *)
Definition answered (n : nat) : request := snd (work (Some echo) () (served n)).

Definition first_taken : server (S := unit) :=
  Server (heap both_waiting) [] [1] [] [0] [] [] [] 2 false false ().

Definition first_over : server (S := unit) :=
  Server (<[0 := answered 0]> (heap both_waiting)) [] [1] [] [] [0] [] [] 2 false false ().

Definition first_back : server (S := unit) :=
  Server (heap first_over) [0] [1] [] [] [] [] [] 2 false false ().

Definition second_taken : server (S := unit) :=
  Server (heap first_over) [0] [] [] [1] [] [] [] 2 false false ().

Lemma both_waiting_reachable w : reachable (S := unit) None (Some echo) 4 w () both_waiting.
Proof.
  eapply rtc_l; [exact (ex_intro _ Start (act_start None (Some echo) 4 w (server_new ()) eq_refl)) |].
  eapply rtc_trans; [apply (connect_one 4 w _ 0); cbn; (done || lia) |].
  eapply rtc_trans; [apply (connect_one 4 w _ 1); cbn; (done || lia) |]. cbn.
  eapply (rtc_l _ both_active first_waiting); [exists (Queue 0) | apply rtc_once; exists (Queue 1)].
  - exact (act_queue None (Some echo) 4 w both_active 0 (client 0) byte_ready () (served 0)
      ltac:(by left) eq_refl eq_refl ltac:(by vm_compute) ltac:(done)).
  - exact (act_queue None (Some echo) 4 w first_waiting 1 (client 1) byte_ready () (served 1)
      ltac:(by left) eq_refl eq_refl ltac:(by vm_compute) ltac:(done)).
Qed.

Lemma both_served :
  exec (step None (Some echo) 4 1) both_waiting [first_taken; first_over; first_back; second_taken].
Proof.
  eapply exec_cons; [exists (Take 0); exact (act_take None (Some echo) 4 1 both_waiting 0 [1] eq_refl eq_refl
    ltac:(cbn; lia)) |].
  eapply exec_cons; [exists (Work 0); exact (act_work None (Some echo) 4 1 first_taken 0 (served 0) ()
    (answered 0) ltac:(by left) eq_refl ltac:(by vm_compute)) |].
  eapply exec_cons; [exists (Done 0); exact (act_done None (Some echo) 4 1 first_over 0 ltac:(by left)) |].
  eapply exec_cons; [exists (Take 1); exact (act_take None (Some echo) 4 1 first_back 1 [] eq_refl eq_refl
    ltac:(cbn; lia)) |].
  apply exec_nil.
Qed.

Lemma tcp_refines_lifecycle_witness :
  rtc life_step (Lifecycle ∅ []) (life_of both_waiting) ∧
  phases (life_of both_waiting) !! 1 = Some Waiting.
Proof.
  split; [| reflexivity].
  exact (proj1 (tcp_refines_lifecycle None (Some echo) 4 1 () both_waiting both_waiting
    (both_waiting_reachable 1) (rtc_refl _ _))).
Defined.

Lemma tcp_waiting_served_witness :
  Exists (λ s', 1 ∈ held s') [first_taken; first_over; first_back; second_taken].
Proof.
  exact (proj1 (tcp_waiting_served None (Some echo) 4 1 () both_waiting
    [first_taken; first_over; first_back; second_taken] 1 1
    (both_waiting_reachable 1) echo_returns ltac:(lia) eq_refl both_served ltac:(vm_compute; lia))).
Defined.
