(* ===== verification/TcpThreads.v ===== *)
(** * The threads of [tcp_server.cpp]: the listening thread, the workers and the thread that
    calls [start] and [stop].

    [TcpServer] gives the effect of each region; here each thread has a program counter, the
    regions are entered and left through the mutex [_lock] (the POSIX calls of [Sync]), and
    sleeping in [_event.wait] releases it.  Every interleaving is an execution.  An exception
    handler is assigned, so the exceptions inside the [try] blocks are taken; those of [listen]
    and of a failing [select] are outside and end the process.  [start] leaves the threads as they
    are when [bind] or the creation of a thread throws, and joining a thread that was not created,
    or was joined before, is undefined. *)
From S2P Require Export Sync TcpLifecycle.

(** Where a thread is.  Listening thread: [LListen] turns [k] more sockets to listening, [LTop] and [LFlag] test the stop flag, [LPrep] and
    [LPrepIn] disconnect closing clients ([l] being the active requests still to visit), [LPoll]
    is [select], [LScan] visits the listening sockets, [LAdmit] to [LArrived] are
    [connection_accept], [LEvents] and [LEventsIn] visit the active requests, [LRaise] wakes the
    workers.  A worker tests in [WTest], sleeps in [WAsleep].  [CBind k]: [start] has started [k] of
    its threads; [CJoin j]: [stop] has joined [j] of them.  The names in [-In], and those
    after an action, are inside the region of a guard. *)
Inductive pc :=
  | LListen (k : nat) | LTop | LFlag | LPrep | LPrepIn (l : list nat) | LPoll | LScan (k : nat)
  | LAdmit (k : nat) | LAdmitIn (k : nat) | LAdmitted (k : nat) | LConnect (k : nat)
  | LArrive (k : nat) | LArriveIn (k : nat) | LArrived (k : nat)
  | LEvents | LEventsIn (l : list nat) | LRaise (l : list nat) | LThrown | LExit
  | WTop | WTest | WAsleep | WAwake | WTook (n : nat) | WServe (n : nat) | WBack (n : nat)
  | WPush (n : nat) | WPushed | WExit
  | CIdle | CStart | CStartIn | CStarted | CBind (k : nat) | CStop | CStopIn | CStopped | CRaise
  | CJoin (j : nat).

(** Whether a thread is between the constructor and the destructor of a [mutex_guard]. *)
Definition inside_region (p : pc) : bool :=
  match p with
  | LFlag | LPrepIn _ | LAdmitIn _ | LAdmitted _ | LArriveIn _ | LArrived _ | LEventsIn _
  | LRaise _ | LThrown | WTest | WTook _ | WPush _ | WPushed | CStartIn | CStarted | CStopIn
  | CStopped => true
  | _ => false
  end.

Definition ended (p : pc) : bool := match p with LExit | WExit => true | _ => false end.

(** [_event.raise()] *)
Definition wake (p : pc) : pc := match p with WAsleep => WAwake | _ => p end.

Section programs.
Context {room : Stack} {S : Type} (greeter : option (S → Z → stream → stream → S * outcome unit * stream * stream)).
Context (handler : option (S → Z → stream → stream → S * outcome bool * stream * stream)).
Context (queue_size : nat).
(** The numbers of workers and of listening sockets. *)
Context (workers listeners : nat).

(** [mutex_guard m(_lock)] before a region; a visit of the active requests starts there. *)
Inductive enters (s : server (S := S)) : pc → pc → Prop :=
  | enters_flag : enters s LTop LFlag
  | enters_prep : enters s LPrep (LPrepIn (a_reqs s))
  | enters_admit k : enters s (LAdmit k) (LAdmitIn k)
  | enters_arrive k : enters s (LArrive k) (LArriveIn k)
  | enters_events : enters s LEvents (LEventsIn (a_reqs s))
  | enters_test : enters s WTop WTest
  | enters_awake : enters s WAwake WTest
  | enters_push n : enters s (WBack n) (WPush n)
  | enters_start : enters s CStart CStartIn
  | enters_stop : enters s CStop CStopIn.

(** The end of a region; [_event.wait()] leaves it too. *)
Inductive leaves (s : server (S := S)) : pc → pc → Prop :=
  | leaves_stopped : is_stopped s = true → leaves s LFlag LExit
  | leaves_running : is_stopped s = false → leaves s LFlag LPrep
  | leaves_prep : leaves s (LPrepIn []) LPoll
  | leaves_overload k : queue_size < length (a_reqs s) → leaves s (LAdmitIn k) (LScan k)
  | leaves_admit k : leaves s (LAdmitted k) (LConnect k)
  | leaves_arrive k : leaves s (LArrived k) (LScan k)
  | leaves_events : leaves s (LEventsIn []) LTop
  | leaves_thrown : leaves s LThrown LTop
  | leaves_wait : reqs s = [] → is_stopped s = false → leaves s WTest WAsleep
  | leaves_break : is_stopped s = true → leaves s WTest WExit
  | leaves_take n : leaves s (WTook n) (WServe n)
  | leaves_push : leaves s WPushed WTop
  | leaves_started : leaves s CStarted (CBind 0)
  | leaves_start : is_stopped s = false → leaves s CStartIn CIdle
  | leaves_stop : is_stopped s = true → leaves s CStopIn CIdle
  | leaves_flagged : leaves s CStopped CRaise.

(** The actions on the requests. *)
Inductive acts : pc → action → pc → Prop :=
  | acts_disconnect n l : acts (LPrepIn (n :: l)) (Disconnect n) (LPrepIn l)
  | acts_admit k : acts (LAdmitIn k) Admit (LAdmitted k)
  | acts_refused k : acts (LConnect k) Refused LTop
  | acts_connect k : acts (LConnect k) Connect (LArrive k)
  | acts_connect_throw k : acts (LConnect k) ConnectThrow LTop
  | acts_arrive k : acts (LArriveIn k) Arrive (LArrived k)
  | acts_queue n l : acts (LEventsIn (n :: l)) (Queue n) (LRaise l)
  | acts_keep n l : acts (LEventsIn (n :: l)) (Keep n) (LEventsIn l)
  | acts_io_throw n l : acts (LEventsIn (n :: l)) (IoThrow n) LThrown
  | acts_take n : acts WTest (Take n) (WTook n)
  | acts_work n : acts (WServe n) (Work n) (WBack n)
  | acts_work_throw n : acts (WServe n) (WorkThrow n) WTop
  | acts_done n : acts (WPush n) (Done n) WPushed
  | acts_start : acts CStartIn Start CStarted
  | acts_stop : acts CStopIn Stop CStopped.

Inductive raises : pc → pc → Prop :=
  | raises_queue l : raises (LRaise l) (LEventsIn l)
  | raises_stop : raises CRaise (CJoin 0).

(** The test of the first visit: a closing client whose answer is sent. *)
Definition closable (s : server (S := S)) (n : nat) : bool :=
  match heap s !! n with
  | Some rq => match cur_state rq with CLOSING => eofbit (write_buffer rq) | _ => false end
  | None => false
  end.

(** Steps without effect on the requests: nothing to do for a request, [select]'s answers, a
    spurious wakeup, a call of [start] or [stop], an exception of [bind] or of the creation of a
    thread. *)
Inductive moves (s : server (S := S)) : pc → pc → Prop :=
  | moves_prep n l : closable s n = false → moves s (LPrepIn (n :: l)) (LPrepIn l)
  | moves_listen k : moves s (LListen (Datatypes.S k)) (LListen k)
  | moves_listening : moves s (LListen 0) LTop
  | moves_timeout : moves s LPoll LTop
  | moves_ready : moves s LPoll (LScan listeners)
  | moves_quiet k : moves s (LScan (Datatypes.S k)) (LScan k)
  | moves_accept k : moves s (LScan (Datatypes.S k)) (LAdmit k)
  | moves_events : moves s (LScan 0) LEvents
  | moves_next n l : moves s (LEventsIn (n :: l)) (LEventsIn l)
  | moves_awake : moves s WAsleep WAwake
  | moves_call_start : moves s CIdle CStart
  | moves_call_stop : moves s CIdle CStop
  | moves_start_throw k : moves s (CBind k) CIdle.

(** The exceptions that nothing catches: [listen] and [select] are called outside the [try]. *)
Inductive dies : pc → Prop :=
  | dies_listen k : dies (LListen (Datatypes.S k))
  | dies_select : dies LPoll.

(** How the process may end: by such an exception, or by a join that is undefined. *)
Inductive fault := Terminated | JoinUndefined.

(** Thread 0 is the listening one, 1 the caller of [start] and [stop], the others the workers.
    [joinable] tells which threads were created and not joined since. *)
Record threads `{Pthread} := Threads {
  lk : mutex_t;
  srv : server (S := S);
  pcs : list pc;
  joinable : list bool;
  fate : option fault }.
Arguments Threads {_} lk srv pcs joinable fate.

(** [stop] joins the listening thread, then the workers. *)
Definition join_thread (j : nat) : nat := match j with O => 0 | _ => Datatypes.S j end.

Definition threads_new `{Pthread} (m : mutex_t) (st : S) : threads :=
  Threads m (server_new st) (LExit :: CIdle :: replicate workers WExit) (replicate (2 + workers) false) None.

Inductive tstep `{Pthread} (ts : threads) : threads → Prop :=
  | t_enter t p p' m :
      fate ts = None →
      pcs ts !! t = Some p → enters (srv ts) p p' → enter t (lk ts) = Some (Ret (), m) →
      tstep ts (Threads m (srv ts) (<[t := p']> (pcs ts)) (joinable ts) None)
  | t_leave t p p' o m :
      fate ts = None →
      pcs ts !! t = Some p → leaves (srv ts) p p' → leave t (lk ts) = (o, m) →
      tstep ts (Threads m (srv ts) (<[t := p']> (pcs ts)) (joinable ts) None)
  | t_act t p a p' s :
      fate ts = None →
      pcs ts !! t = Some p → acts p a p' → act greeter handler queue_size workers (srv ts) a s →
      tstep ts (Threads (lk ts) s (<[t := p']> (pcs ts)) (joinable ts) None)
  | t_raise t p p' :
      fate ts = None →
      pcs ts !! t = Some p → raises p p' →
      tstep ts (Threads (lk ts) (srv ts) (<[t := p']> (wake <$> pcs ts)) (joinable ts) None)
  | t_move t p p' :
      fate ts = None →
      pcs ts !! t = Some p → moves (srv ts) p p' →
      tstep ts (Threads (lk ts) (srv ts) (<[t := p']> (pcs ts)) (joinable ts) None)
  | t_die t p :
      fate ts = None →
      pcs ts !! t = Some p → dies p →
      tstep ts (Threads (lk ts) (srv ts) (pcs ts) (joinable ts) (Some Terminated))
  (* start() starts the workers one by one, then the listening thread *)
  | t_spawn k :
      fate ts = None →
      pcs ts !! 1 = Some (CBind k) → k < workers →
      tstep ts (Threads (lk ts) (srv ts)
        (<[1 := CBind (Datatypes.S k)]> (<[2 + k := WTop]> (pcs ts))) (<[2 + k := true]> (joinable ts)) None)
  | t_listen :
      fate ts = None →
      pcs ts !! 1 = Some (CBind workers) →
      tstep ts (Threads (lk ts) (srv ts)
        (<[1 := CIdle]> (<[0 := LListen listeners]> (pcs ts))) (<[0 := true]> (joinable ts)) None)
  (* stop() waits for one thread after the other, and returns *)
  | t_join j p :
      fate ts = None →
      pcs ts !! 1 = Some (CJoin j) → joinable ts !! join_thread j = Some true →
      pcs ts !! join_thread j = Some p → ended p = true →
      tstep ts (Threads (lk ts) (srv ts) (<[1 := CJoin (Datatypes.S j)]> (pcs ts))
        (<[join_thread j := false]> (joinable ts)) None)
  | t_joined :
      fate ts = None →
      pcs ts !! 1 = Some (CJoin (Datatypes.S workers)) →
      tstep ts (Threads (lk ts) (srv ts) (<[1 := CIdle]> (pcs ts)) (joinable ts) None)
  | t_join_undefined j :
      fate ts = None →
      pcs ts !! 1 = Some (CJoin j) → joinable ts !! join_thread j = Some false →
      tstep ts (Threads (lk ts) (srv ts) (pcs ts) (joinable ts) (Some JoinUndefined)).
End programs.
Arguments Threads {_ _} lk srv pcs joinable fate.

Lemma wake_lookup (l : list pc) t p : (wake <$> l) !! t = Some p → ∃ q, l !! t = Some q ∧ p = wake q.
Proof. rewrite list_lookup_fmap. intros (q & ? & ?)%fmap_Some. by exists q. Qed.

(** ** What the program counters tell *)
Inductive role := Listener | Controller | Worker.

Definition role_of (t : nat) : role :=
  match t with 0 => Listener | 1 => Controller | _ => Worker end.

Definition pc_role (p : pc) : role :=
  match p with
  | WTop | WTest | WAsleep | WAwake | WTook _ | WServe _ | WBack _ | WPush _ | WPushed | WExit => Worker
  | CIdle | CStart | CStartIn | CStarted | CBind _ | CStop | CStopIn | CStopped | CRaise | CJoin _ =>
      Controller
  | _ => Listener
  end.

(** The connection a worker has before the handler's call, and after it. *)
Definition serving (p : pc) : option nat :=
  match p with WTook n | WServe n => Some n | _ => None end.

Definition returning (p : pc) : option nat :=
  match p with WBack n | WPush n => Some n | _ => None end.

(** A call of [raise] is due. *)
Definition raising (p : pc) : bool :=
  match p with LRaise _ | CStopped | CRaise => true | _ => false end.

Definition in_roles (l : list pc) : Prop := ∀ t p, l !! t = Some p → pc_role p = role_of t.

Lemma in_roles_insert l t p p' :
  in_roles l → l !! t = Some p → pc_role p' = pc_role p → in_roles (<[t := p']> l).
Proof.
  intros Hl Ht Hp j q Hj. destruct (insert_lookup _ _ _ _ _ _ Ht Hj) as [[-> ->] | [_ ?]]; [| auto].
  rewrite Hp. by apply Hl.
Qed.

Lemma in_roles_wake l : in_roles l → in_roles (wake <$> l).
Proof. intros Hl t p (q & Hq & ->)%wake_lookup. rewrite <- (Hl t q Hq). by destruct q. Qed.

(** Threads that agree on what is read off program counters. *)
Lemma omap_insert_same {B} (f : pc → option B) (l : list pc) t p p' :
  l !! t = Some p → f p' = f p → omap f (<[t := p']> l) ≡ₚ omap f l.
Proof.
  intros Ht Hf. destruct (insert_perm l t p p' Ht) as (k & H1 & H2). rewrite H2, H1. cbn. by rewrite Hf.
Qed.

Lemma omap_insert_new (f : pc → option nat) (l : list pc) t p p' n :
  l !! t = Some p → f p = None → f p' = Some n → omap f (<[t := p']> l) ≡ₚ n :: omap f l.
Proof.
  intros Ht Hp Hp'. destruct (insert_perm l t p p' Ht) as (k & H1 & H2). rewrite H2, H1. cbn. by rewrite Hp, Hp'.
Qed.

Lemma omap_insert_gone (f : pc → option nat) (l : list pc) t p p' n :
  l !! t = Some p → f p = Some n → f p' = None → omap f l ≡ₚ n :: omap f (<[t := p']> l).
Proof.
  intros Ht Hp Hp'. destruct (insert_perm l t p p' Ht) as (k & H1 & H2). rewrite H2, H1. cbn. by rewrite Hp, Hp'.
Qed.

Lemma omap_wake {B} (f : pc → option B) (l : list pc) : f WAwake = f WAsleep → omap f (wake <$> l) = omap f l.
Proof. intros Hf. induction l as [| p l IH]; [done |]. cbn. rewrite IH. by destruct p; cbn; rewrite ?Hf. Qed.

(** ** The invariant, clause by clause *)
Section clauses.
Context `{DefaultMutex}.

Lemma locked_wake m l : locked inside_region m l → locked inside_region m (wake <$> l).
Proof. intros Hl u. rewrite (Hl u), list_lookup_fmap. destruct (l !! u) as [[] |]; done. Qed.
End clauses.

Section clauses.
Context {S : Type}.
Implicit Types s : server (S := S).

(** Nothing to do for the workers. *)
Definition idle s : Prop := reqs s = [] ∧ is_stopped s = false.

(** A worker sleeps only while there is nothing to do, or a call of [raise] is due. *)
Definition woken s (l : list pc) : Prop :=
  WAsleep ∈ l → (∃ p, p ∈ l ∧ raising p = true) ∨ idle s.

Lemma woken_insert s s' l t p p' :
  woken s l → l !! t = Some p → (raising p = true → raising p' = true) → (p' = WAsleep → idle s') →
  (idle s → raising p' = true ∨ idle s') → woken s' (<[t := p']> l).
Proof.
  intros Hw Ht Hr Hp Hs Ha.
  assert (p' ∈ <[t := p']> l) as Hin.
  { apply (list_elem_of_lookup_2 _ t), list_lookup_insert_eq. by eapply lookup_lt_Some. }
  destruct (insert_elem _ _ _ _ _ Ht Ha) as [<- | Ha']; [by auto |].
  destruct (Hw Ha') as [(q & Hq & Hqr) | Hi].
  - left. destruct (raising p) eqn:E; [exists p'; auto |]. exists q. split; [| done].
    eapply insert_keeps; [done | congruence | done].
  - destruct (Hs Hi); [left; by exists p' | by right].
Qed.

Lemma woken_wake s l t p' :
  p' ≠ WAsleep → woken s (<[t := p']> (wake <$> l)).
Proof.
  intros Hp (j & Hj)%list_elem_of_lookup. exfalso. destruct (decide (t = j)) as [<- | Hne].
  - apply list_lookup_insert_Some in Hj as [(_ & ? & _) | [? _]]; congruence.
  - rewrite list_lookup_insert_ne in Hj by done. apply wake_lookup in Hj as (q & _ & Hq).
    by destruct q.
Qed.

(** All threads but the caller of [start] and [stop] have ended, or were not started. *)
Definition quiet (l : list pc) : Prop := ∀ t p, t ≠ 1 → l !! t = Some p → ended p = true.

Lemma quiet_insert l p : quiet l → quiet (<[1 := p]> l).
Proof. intros Hq t q Ht Hl. rewrite list_lookup_insert_ne in Hl by done. by eapply Hq. Qed.

(** What holds at each point of [start] and [stop]. *)
Definition control s (l : list pc) : Prop :=
  match l !! 1 with
  | Some (CStopped | CRaise) => is_stopped s = true
  | Some (CJoin j) =>
      is_stopped s = true ∧ ∀ i p, i < j → l !! join_thread i = Some p → ended p = true
  | Some CStarted => is_stopped s = false ∧ quiet l
  | Some (CBind k) =>
      is_stopped s = false ∧ ∀ t p, t < 1 ∨ 2 + k ≤ t → l !! t = Some p → ended p = true
  | Some _ => is_stopped s = true → quiet l
  | None => False
  end.

Lemma control_other s s' l t p p' :
  control s l → t ≠ 1 → l !! t = Some p → ended p = false → is_stopped s' = is_stopped s →
  control s' (<[t := p']> l).
Proof.
  intros Hc Ht Hl He Hs. unfold control in *. rewrite list_lookup_insert_ne, Hs by done.
  assert (¬ quiet l) as Hq by (intros Hq; specialize (Hq t p Ht Hl); congruence).
  destruct (l !! 1) as [[] |]; try tauto; (destruct Hc as [Hf Hk]; split; [done |]).
  - intros u q Hu Hq'. destruct (decide (t = u)) as [-> | Hne]; [| rewrite list_lookup_insert_ne in Hq' by done; eauto].
    specialize (Hk u p Hu Hl). congruence.
  - intros i q Hi Hq'. destruct (decide (t = join_thread i)) as [-> | Hne];
      [| rewrite list_lookup_insert_ne in Hq' by done; eauto].
    specialize (Hk i p Hi Hl). congruence.
Qed.

(** Which threads can be joined: between a [start] that went through and [stop] all of them. *)
Definition joins (workers : nat) s (l : list pc) (j : list bool) : Prop :=
  match l !! 1 with
  | Some (CBind k) => j !! 0 = Some false ∧ ∀ i, i < k → j !! (2 + i) = Some true
  | Some CStarted => j !! 0 = Some false
  | Some (CJoin (Datatypes.S k)) =>
      k ≤ workers ∧ j !! 0 = Some false ∧ ∀ i, k ≤ i < workers → j !! (2 + i) = Some true
  | Some (CStopped | CRaise | CJoin O) =>
      j !! 0 = Some true → ∀ i, i < workers → j !! (2 + i) = Some true
  | Some _ =>
      (is_stopped s = true → j !! 0 = Some false) ∧
      (j !! 0 = Some true → ∀ i, i < workers → j !! (2 + i) = Some true)
  | None => False
  end.

Lemma joins_other w s s' l t p' j :
  joins w s l j → t ≠ 1 → is_stopped s' = is_stopped s → joins w s' (<[t := p']> l) j.
Proof. unfold joins. intros Hj Ht ->. by rewrite list_lookup_insert_ne. Qed.

(** What the listening thread has of a client that connects. *)
Definition arrival s (l : list pc) : Prop :=
  match l !! 0 with
  | Some (LArrive _ | LArriveIn _) => length (incoming s) = 1 ∧ admitted s = false
  | Some (LAdmitted _ | LConnect _) => incoming s = [] ∧ admitted s = true
  | Some _ => incoming s = [] ∧ admitted s = false
  | None => False
  end.

(** The requests the first visit still has to see are active. *)
Definition visiting s (l : list pc) : Prop :=
  ∀ m, l !! 0 = Some (LPrepIn m) → NoDup m ∧ ∀ n, n ∈ m → n ∈ a_reqs s.
End clauses.

(** ** Preservation *)
Section preservation.
Context {room : Stack} `{DefaultMutex} {S : Type}.
Context (greeter : option (S → Z → stream → stream → S * outcome unit * stream * stream)).
Context (handler : option (S → Z → stream → stream → S * outcome bool * stream * stream)).
Context (queue_size workers listeners : nat).
Implicit Types (s : server (S := S)) (ts : threads (S := S)) (l : list pc).

Record ok ts : Prop := {
  ok_owned : owned (srv ts);
  ok_roles : in_roles (pcs ts);
  ok_locked : locked inside_region (lk ts) (pcs ts);
  ok_woken : woken (srv ts) (pcs ts);
  ok_held : held (srv ts) ≡ₚ omap serving (pcs ts);
  ok_handled : handled (srv ts) ≡ₚ omap returning (pcs ts);
  ok_control : control (srv ts) (pcs ts);
  ok_arrival : arrival (srv ts) (pcs ts);
  ok_visiting : visiting (srv ts) (pcs ts);
  ok_size : length (pcs ts) = 2 + workers ∧ length (joinable ts) = 2 + workers;
  ok_joins : joins workers (srv ts) (pcs ts) (joinable ts) }.

(** A step that leaves the requests alone. *)
Definition plain s p p' : Prop := enters s p p' ∨ leaves queue_size s p p' ∨ moves listeners s p p'.

Lemma plain_facts s p p' :
  plain s p p' →
  pc_role p' = pc_role p ∧ serving p' = serving p ∧ returning p' = returning p ∧
  ended p = false ∧ (raising p = true → raising p' = true) ∧ (p' = WAsleep → idle s).
Proof. unfold plain, idle. intros [Hp | [Hp | Hp]]; destruct Hp; cbn; naive_solver. Qed.

Lemma plain_control s l p p' :
  control s l → l !! 1 = Some p → pc_role p = Controller → plain s p p' → control s (<[1 := p']> l).
Proof.
  unfold control. intros Hc Hl Hr Hp. rewrite Hl in Hc.
  rewrite list_lookup_insert_eq by by eapply lookup_lt_Some.
  assert (quiet l → quiet (<[1 := p']> l)) as Hq by apply quiet_insert.
  destruct Hp as [Hp | [Hp | Hp]]; destruct Hp; try discriminate Hr; try (by auto); try (naive_solver congruence).
  destruct Hc as [Hf Hc]. split; [done |]. intros t q Ht Hq'.
  rewrite list_lookup_insert_ne in Hq' by lia. by apply (Hc t q ltac:(lia)).
Qed.

Lemma plain_arrival s l t p p' :
  arrival s l → in_roles l → l !! t = Some p → plain s p p' → arrival s (<[t := p']> l).
Proof.
  unfold arrival. intros Ha Hr Hl Hp. pose proof (Hr _ _ Hl) as Hrole.
  destruct (decide (t = 0)) as [-> | Hne]; [| by rewrite list_lookup_insert_ne].
  rewrite Hl in Ha. rewrite list_lookup_insert_eq by by eapply lookup_lt_Some.
  destruct Hp as [Hp | [Hp | Hp]]; destruct Hp; try discriminate Hrole; done.
Qed.

Lemma plain_visiting s l t p p' :
  owned s → visiting s l → in_roles l → l !! t = Some p → plain s p p' → visiting s (<[t := p']> l).
Proof.
  intros Ho Hv Hr Hl Hp m Hm. destruct (decide (t = 0)) as [-> | Hne];
    [| rewrite list_lookup_insert_ne in Hm by done; auto].
  rewrite list_lookup_insert_eq in Hm by by eapply lookup_lt_Some. injection Hm as ->.
  destruct Hp as [Hp | [Hp | Hp]]; inversion Hp; subst.
  - split; [| done]. by apply owned_NoDup, NoDup_app in Ho as [[? _]%NoDup_app _].
  - destruct (Hv _ Hl) as [[_ Hnd]%NoDup_cons Hin]. split; [done |]. intros k Hk. apply Hin. by right.
Qed.

Lemma plain_joins s l p p' j :
  joins workers s l j → control s l → l !! 1 = Some p → pc_role p = Controller → plain s p p' →
  joins workers s (<[1 := p']> l) j.
Proof.
  unfold joins, control. intros Hj Hc Hl Hr Hp. rewrite Hl in Hj, Hc.
  rewrite list_lookup_insert_eq by by eapply lookup_lt_Some.
  destruct Hp as [Hp | [Hp | Hp]]; destruct Hp; try discriminate Hr; try done; try (by split; [| apply Hj]).
  - split; [done | lia].
  - destruct Hj as [Hj _]. split; [congruence |]. intros Hj'. congruence.
Qed.

Lemma ok_plain m' ts t p p' :
  ok ts → pcs ts !! t = Some p → plain (srv ts) p p' → locked inside_region m' (<[t := p']> (pcs ts)) →
  ok (Threads m' (srv ts) (<[t := p']> (pcs ts)) (joinable ts) None).
Proof.
  intros [Ho Hr Hk Hw Hh Hd Hc Ha Hv Hz Hj] Ht Hp Hm.
  destruct (plain_facts _ _ _ Hp) as (F1 & F2 & F3 & F4 & F5 & F6).
  split; cbn [lk srv pcs joinable]; try done.
  - by eapply in_roles_insert.
  - eapply woken_insert; eauto.
  - by rewrite (omap_insert_same serving _ _ _ p' Ht F2).
  - by rewrite (omap_insert_same returning _ _ _ p' Ht F3).
  - destruct (decide (t = 1)) as [-> | Hne]; [| by eapply control_other].
    eapply plain_control; try done. by apply (Hr 1).
  - by eapply plain_arrival.
  - by eapply plain_visiting.
  - by rewrite length_insert.
  - destruct (decide (t = 1)) as [-> | Hne]; [| by apply joins_other with (srv ts)].
    eapply plain_joins; try done. by apply (Hr 1).
Qed.

Lemma ok_enter ts t p p' m :
  ok ts → pcs ts !! t = Some p → enters (srv ts) p p' → enter t (lk ts) = Some (Ret (), m) →
  ok (Threads m (srv ts) (<[t := p']> (pcs ts)) (joinable ts) None).
Proof.
  intros Hok Ht Hp He. eapply ok_plain; [done.. | by left |].
  eapply locked_acquire; [by apply ok_locked | done | by destruct Hp | done].
Qed.

Lemma ok_leave ts t p p' o m :
  ok ts → pcs ts !! t = Some p → leaves queue_size (srv ts) p p' → leave t (lk ts) = (o, m) →
  ok (Threads m (srv ts) (<[t := p']> (pcs ts)) (joinable ts) None).
Proof.
  intros Hok Ht Hp He. eapply ok_plain; [done.. | by right; left |].
  eapply locked_release; [by apply ok_locked | done | by destruct Hp | by destruct Hp | done].
Qed.

Lemma ok_move ts t p p' :
  ok ts → pcs ts !! t = Some p → moves listeners (srv ts) p p' →
  ok (Threads (lk ts) (srv ts) (<[t := p']> (pcs ts)) (joinable ts) None).
Proof.
  intros Hok Ht Hp. eapply ok_plain; [done.. | by right; right |].
  eapply locked_same; [by apply ok_locked | done | by destruct Hp].
Qed.

(** What an action changes. *)
Lemma acts_facts p a p' :
  acts p a p' →
  pc_role p' = pc_role p ∧ inside_region p' = inside_region p ∧ ended p = false ∧
  p' ≠ WAsleep ∧ (raising p = true → raising p' = true).
Proof. intros Hp; destruct Hp; cbn; naive_solver. Qed.

Lemma act_idle s p a p' s' :
  acts p a p' → act greeter handler queue_size workers s a s' → idle s → raising p' = true ∨ idle s'.
Proof. unfold idle. intros Hp Ha [Hq Hs]. destruct Hp; inversion Ha; subst; cbn; naive_solver congruence. Qed.

Lemma act_held s l t p a p' s' :
  owned s → held s ≡ₚ omap serving l → l !! t = Some p → acts p a p' →
  act greeter handler queue_size workers s a s' → held s' ≡ₚ omap serving (<[t := p']> l).
Proof.
  intros Ho Hh Ht Hp Ha. destruct Hp; inversion Ha; subst; cbn;
    try (by rewrite (omap_insert_same serving _ _ _ _ Ht) by done).
  - by rewrite (omap_insert_new serving _ _ _ _ n Ht), Hh by done.
  - apply (Permutation_cons_inv (a := n)).
    by rewrite <- owned_held, Hh, <- (omap_insert_gone serving _ _ _ _ n Ht) by done.
  - apply (Permutation_cons_inv (a := n)).
    by rewrite <- owned_held, Hh, <- (omap_insert_gone serving _ _ _ _ n Ht) by done.
Qed.

Lemma act_handled s l t p a p' s' :
  owned s → handled s ≡ₚ omap returning l → l !! t = Some p → acts p a p' →
  act greeter handler queue_size workers s a s' → handled s' ≡ₚ omap returning (<[t := p']> l).
Proof.
  intros Ho Hh Ht Hp Ha. destruct Hp; inversion Ha; subst; cbn;
    try (by rewrite (omap_insert_same returning _ _ _ _ Ht) by done).
  - by rewrite (omap_insert_new returning _ _ _ _ n Ht), Hh by done.
  - apply (Permutation_cons_inv (a := n)).
    by rewrite <- owned_handled, Hh, <- (omap_insert_gone returning _ _ _ _ n Ht) by done.
Qed.

Lemma act_flag s a s' :
  act greeter handler queue_size workers s a s' → a ≠ Start → a ≠ Stop → is_stopped s' = is_stopped s.
Proof. intros Ha; destruct Ha; done. Qed.

Lemma act_control s l t p a p' s' :
  control s l → in_roles l → l !! t = Some p → acts p a p' →
  act greeter handler queue_size workers s a s' → control s' (<[t := p']> l).
Proof.
  intros Hc Hr Ht Hp Ha. destruct (acts_facts _ _ _ Hp) as (_ & _ & He & _).
  pose proof (Hr _ _ Ht) as Hrole. destruct (decide (t = 1)) as [-> | Hne].
  - unfold control in *. rewrite Ht in Hc. rewrite list_lookup_insert_eq by by eapply lookup_lt_Some.
    destruct Hp; try discriminate Hrole; inversion Ha; subst; cbn; [| done].
    split; [done |]. by apply quiet_insert, Hc.
  - eapply control_other; [done.. |]. eapply act_flag; [done | |]; intros ->;
      inversion Hp; subst; by destruct t as [| [|]].
Qed.

Lemma act_arrival s l t p a p' s' :
  arrival s l → in_roles l → l !! t = Some p → acts p a p' →
  act greeter handler queue_size workers s a s' → arrival s' (<[t := p']> l).
Proof.
  unfold arrival. intros Har Hr Ht Hp Ha. pose proof (Hr _ _ Ht) as Hrole.
  destruct (decide (t = 0)) as [-> | Hne].
  - rewrite Ht in Har. rewrite list_lookup_insert_eq by by eapply lookup_lt_Some.
    destruct Hp; try discriminate Hrole; inversion Ha; subst; cbn; try done.
    + by destruct Har.
    + by destruct Har.
    + by destruct Har as [-> _].
    + by destruct Har.
    + destruct Har as [Hl ?]. match goal with E : incoming _ = _ |- _ => rewrite E in Hl end.
      split; [| done]. match goal with |- ?l = [] => by destruct l end.
  - rewrite list_lookup_insert_ne by done.
    assert (incoming s' = incoming s ∧ admitted s' = admitted s) as [-> ->]; [| done].
    destruct Hp; (try by destruct t as [| [|]]); inversion Ha; done.
Qed.

Lemma act_visiting s l t p a p' s' :
  visiting s l → in_roles l → l !! t = Some p → acts p a p' →
  act greeter handler queue_size workers s a s' → visiting s' (<[t := p']> l).
Proof.
  intros Hv Hr Ht Hp Ha m Hm. pose proof (Hr _ _ Ht) as Hrole. destruct (decide (t = 0)) as [-> | Hne].
  - rewrite list_lookup_insert_eq in Hm by by eapply lookup_lt_Some. injection Hm as ->.
    inversion Hp; subst. inversion Ha; subst. cbn.
    destruct (Hv _ Ht) as [[Hn Hnd]%NoDup_cons Hin]. split; [done |]. intros k Hk.
    apply elem_of_remove. split; [by intros -> | apply Hin; by right].
  - rewrite list_lookup_insert_ne in Hm by done. destruct (Hv m Hm) as [Hnd Hin]. split; [done |].
    intros k Hk%Hin. destruct Hp; (try by destruct t as [| [|]]); inversion Ha; subst; cbn; try done.
    apply elem_of_app. by left.
Qed.

Lemma act_joins s l t p a p' s' j :
  joins workers s l j → in_roles l → l !! t = Some p → acts p a p' →
  act greeter handler queue_size workers s a s' → joins workers s' (<[t := p']> l) j.
Proof.
  intros Hj Hr Ht Hp Ha. pose proof (Hr _ _ Ht) as Hrole. destruct (decide (t = 1)) as [-> | Hne].
  - unfold joins in *. rewrite Ht in Hj. rewrite list_lookup_insert_eq by by eapply lookup_lt_Some.
    destruct Hp; try discriminate Hrole; inversion Ha; subst; [by apply Hj | apply Hj].
  - apply joins_other with s; [done.. |]. eapply act_flag; [done | |]; intros ->;
      inversion Hp; subst; by destruct t as [| [|]].
Qed.

Lemma ok_act ts t p a p' s :
  ok ts → pcs ts !! t = Some p → acts p a p' → act greeter handler queue_size workers (srv ts) a s →
  ok (Threads (lk ts) s (<[t := p']> (pcs ts)) (joinable ts) None).
Proof.
  intros [Ho Hr Hk Hw Hh Hd Hc Hv Hx Hz Hj] Ht Hp Ha.
  destruct (acts_facts _ _ _ Hp) as (F1 & F2 & F3 & F4 & F5). split; cbn [lk srv pcs joinable].
  - by eapply owned_act.
  - by eapply in_roles_insert.
  - by eapply locked_same.
  - eapply woken_insert; [done.. |]. by eapply act_idle.
  - by eapply act_held.
  - by eapply act_handled.
  - by eapply act_control.
  - by eapply act_arrival.
  - by eapply act_visiting.
  - by rewrite length_insert.
  - by eapply act_joins.
Qed.

(** Waking the sleepers. *)
Lemma wake_keeps l t p : l !! t = Some p → wake p = p → (wake <$> l) !! t = Some p.
Proof. intros Hl Hp. by rewrite list_lookup_fmap, Hl; cbn; rewrite Hp. Qed.

Lemma wake_back l t p : pc_role p ≠ Worker → (wake <$> l) !! t = Some p → l !! t = Some p.
Proof. intros Hp (q & Hq & ->)%wake_lookup. by destruct q. Qed.

Lemma ended_wake p : ended (wake p) = ended p.
Proof. by destruct p. Qed.

Lemma quiet_wake l : quiet l → quiet (wake <$> l).
Proof. intros Hq t p Ht (q & Hl & ->)%wake_lookup. rewrite ended_wake. by eapply Hq. Qed.

Lemma control_wake s l : in_roles l → control s l → control s (wake <$> l).
Proof.
  unfold control. intros Hr Hc. destruct (l !! 1) as [p |] eqn:E; [| done].
  pose proof (Hr _ _ E) as Hp. rewrite (wake_keeps l 1 p E) by by destruct p.
  destruct p; try discriminate Hp; try done; try (intros Hs; by apply quiet_wake, Hc).
  - split; [| apply quiet_wake]; apply Hc.
  - destruct Hc as [Hs Hc]. split; [done |]. intros t p Ht (q & Hl & ->)%wake_lookup.
    rewrite ended_wake. by eapply Hc.
  - destruct Hc as [Hs Hc]. split; [done |]. intros t p Ht (q & Hl & ->)%wake_lookup.
    rewrite ended_wake. by eapply Hc.
Qed.

Lemma listener_wake l : in_roles l → (wake <$> l) !! 0 = l !! 0.
Proof.
  intros Hr. rewrite list_lookup_fmap. destruct (l !! 0) as [p |] eqn:E; [| done].
  pose proof (Hr _ _ E). by destruct p.
Qed.

Lemma joins_wake w s l j : in_roles l → joins w s l j → joins w s (wake <$> l) j.
Proof.
  unfold joins. intros Hr Hj. destruct (l !! 1) as [p |] eqn:E; [| done].
  pose proof (Hr _ _ E) as Hp. rewrite (wake_keeps l 1 p E) by by destruct p. done.
Qed.

Lemma ok_wake ts : ok ts → ok (Threads (lk ts) (srv ts) (wake <$> pcs ts) (joinable ts) None).
Proof.
  intros [Ho Hr Hk Hw Hh Hd Hc Ha Hv Hz Hj]. split; cbn [lk srv pcs joinable]; try done.
  - by apply in_roles_wake.
  - by apply locked_wake.
  - intros Hin. exfalso. apply list_elem_of_fmap in Hin as (q & Hq & _). by destruct q.
  - by rewrite omap_wake.
  - by rewrite omap_wake.
  - by apply control_wake.
  - unfold arrival in *. by rewrite listener_wake.
  - unfold visiting in *. by rewrite listener_wake.
  - by rewrite length_fmap.
  - by apply joins_wake.
Qed.

Lemma ok_raise ts t p p' :
  ok ts → pcs ts !! t = Some p → raises p p' →
  ok (Threads (lk ts) (srv ts) (<[t := p']> (wake <$> pcs ts)) (joinable ts) None).
Proof.
  intros Hok Ht Hp. pose proof (ok_roles _ Hok _ _ Ht) as Hrole.
  destruct (ok_wake ts Hok) as [Ho Hr Hk Hw Hh Hd Hc Ha Hv Hz Hj]. cbn [lk srv pcs joinable] in *.
  apply (wake_keeps _ _ p) in Ht; [| by destruct Hp].
  split; cbn [lk srv pcs joinable]; try done.
  - eapply in_roles_insert; [done.. |]. by destruct Hp.
  - eapply locked_same; [done.. |]. by destruct Hp.
  - apply woken_wake. by destruct Hp.
  - rewrite (omap_insert_same serving _ _ _ _ Ht); [done |]. by destruct Hp.
  - rewrite (omap_insert_same returning _ _ _ _ Ht); [done |]. by destruct Hp.
  - destruct (decide (t = 1)) as [-> | Hne].
    + unfold control in *. rewrite Ht in Hc. rewrite list_lookup_insert_eq by by eapply lookup_lt_Some.
      destruct Hp; [discriminate Hrole | split; [done | lia]].
    + eapply control_other; [done.. | by destruct Hp | done].
  - unfold arrival in *. destruct (decide (t = 0)) as [-> | Hne]; [| by rewrite list_lookup_insert_ne].
    rewrite Ht in Ha. rewrite list_lookup_insert_eq by by eapply lookup_lt_Some. by destruct Hp.
  - intros m Hm. destruct (decide (t = 0)) as [-> | Hne].
    + rewrite list_lookup_insert_eq in Hm by by eapply lookup_lt_Some. by destruct Hp.
    + rewrite list_lookup_insert_ne in Hm by done. by apply Hv.
  - by rewrite length_insert.
  - destruct (decide (t = 1)) as [-> | Hne]; [| by apply joins_other with (srv ts)].
    unfold joins in *. rewrite Ht in Hj. rewrite list_lookup_insert_eq by by eapply lookup_lt_Some.
    destruct Hp; [| exact Hj]. discriminate Hrole.
Qed.

(** [start] starts a thread that has ended. *)
Lemma ok_restart ts t p p' :
  ok ts → pcs ts !! t = Some p → ended p = true →
  (∃ k, p' = LListen k) ∧ t = 0 ∨ p' = WTop ∧ 2 ≤ t →
  in_roles (<[t := p']> (pcs ts)) ∧ locked inside_region (lk ts) (<[t := p']> (pcs ts)) ∧
  woken (srv ts) (<[t := p']> (pcs ts)) ∧ held (srv ts) ≡ₚ omap serving (<[t := p']> (pcs ts)) ∧
  handled (srv ts) ≡ₚ omap returning (<[t := p']> (pcs ts)) ∧
  arrival (srv ts) (<[t := p']> (pcs ts)) ∧ visiting (srv ts) (<[t := p']> (pcs ts)).
Proof.
  intros [Ho Hr Hk Hw Hh Hd Hc Ha Hv Hz Hj] Ht He Hp.
  pose proof (Hr _ _ Ht) as Hrole.
  assert (pc_role p' = pc_role p) as Hr'.
  { rewrite Hrole. destruct Hp as [[[k ->] ->] | [-> ?]]; [done |]. by destruct t as [| [|]]; try lia. }
  assert (serving p = None ∧ returning p = None ∧ inside_region p = false ∧ raising p = false)
    as (E1 & E2 & E3 & E4) by by destruct p.
  assert (serving p' = None ∧ returning p' = None ∧ inside_region p' = false ∧ p' ≠ WAsleep)
    as (E1' & E2' & E3' & E4') by by destruct Hp as [[[k ->] _] | [-> _]].
  split_and!.
  - by eapply in_roles_insert.
  - eapply locked_same; [done.. | congruence].
  - eapply woken_insert; [done.. | congruence | done | auto].
  - rewrite (omap_insert_same serving _ _ _ _ Ht); [done | congruence].
  - rewrite (omap_insert_same returning _ _ _ _ Ht); [done | congruence].
  - unfold arrival in *. destruct Hp as [[[k ->] ->] | [-> ?]]; [| by rewrite list_lookup_insert_ne by lia].
    rewrite Ht in Ha. rewrite list_lookup_insert_eq by by eapply lookup_lt_Some. by destruct p.
  - intros m Hm. destruct Hp as [[[k ->] ->] | [-> ?]].
    + by rewrite list_lookup_insert_eq in Hm by by eapply lookup_lt_Some.
    + rewrite list_lookup_insert_ne in Hm by lia. by apply Hv.
Qed.

(** The caller of [start] and [stop] goes on. *)
Lemma ok_controller m s l p p' j :
  owned s → in_roles l → locked inside_region m l → woken s l → held s ≡ₚ omap serving l →
  handled s ≡ₚ omap returning l → arrival s l → visiting s l →
  l !! 1 = Some p → p' = CIdle ∨ (∃ k, p' = CBind k) ∨ (∃ k, p' = CJoin k) → pc_role p = Controller →
  raising p = false → inside_region p = false →
  length l = 2 + workers ∧ length j = 2 + workers →
  control s (<[1 := p']> l) → joins workers s (<[1 := p']> l) j → ok (Threads m s (<[1 := p']> l) j None).
Proof.
  intros Ho Hr Hk Hw Hh Hd Ha Hv Hl Hp' Hp Hra Hin Hz Hc Hj.
  assert (pc_role p' = Controller ∧ serving p' = None ∧ returning p' = None ∧
    inside_region p' = false ∧ p' ≠ WAsleep) as (F1 & F2 & F3 & F4 & F5)
    by by destruct Hp' as [-> | [[k ->] | [k ->]]].
  assert (serving p = None ∧ returning p = None) as (G1 & G2) by by destruct p.
  split; cbn [lk srv pcs]; try done.
  - eapply in_roles_insert; [done.. | congruence].
  - eapply locked_same; [done.. | congruence].
  - eapply woken_insert; [done.. | congruence | done | auto].
  - rewrite (omap_insert_same serving _ _ _ _ Hl); [done | congruence].
  - rewrite (omap_insert_same returning _ _ _ _ Hl); [done | congruence].
  - unfold arrival. by rewrite list_lookup_insert_ne.
  - intros n Hn. rewrite list_lookup_insert_ne in Hn by done. by apply Hv.
  - by rewrite length_insert.
Qed.

Lemma ok_spawn ts k :
  ok ts → pcs ts !! 1 = Some (CBind k) → k < workers →
  ok (Threads (lk ts) (srv ts) (<[1 := CBind (Datatypes.S k)]> (<[2 + k := WTop]> (pcs ts)))
    (<[2 + k := true]> (joinable ts)) None).
Proof.
  intros Hok Hc Hlt. destruct (ok_size _ Hok) as [Hz1 Hz2].
  destruct (lookup_lt_is_Some_2 (pcs ts) (2 + k)) as [p Hp]; [lia |].
  pose proof (ok_control _ Hok) as Hct. unfold control in Hct. rewrite Hc in Hct.
  pose proof (ok_joins _ Hok) as Hj. unfold joins in Hj. rewrite Hc in Hj. destruct Hj as [Hj0 Hj].
  destruct Hct as [Hs Hq]. assert (ended p = true) as He by (apply (Hq (2 + k)); [lia | done]).
  destruct (ok_restart ts (2 + k) p WTop Hok Hp He) as (R1 & R2 & R3 & R4 & R5 & R6 & R7);
    [right; split; [done | lia] |].
  assert (<[2 + k := WTop]> (pcs ts) !! 1 = Some (CBind k)) as Hl by (rewrite list_lookup_insert_ne; [done | lia]).
  eapply (ok_controller _ _ _ (CBind k)); try done; [by apply ok_owned | by right; left; eexists | | |].
  - by rewrite !length_insert.
  - unfold control. rewrite list_lookup_insert_eq by by eapply lookup_lt_Some. split; [done |].
    intros u q Hu Hlk. rewrite !list_lookup_insert_ne in Hlk by lia. apply (Hq u); [lia | done].
  - unfold joins. rewrite list_lookup_insert_eq by by eapply lookup_lt_Some.
    rewrite list_lookup_insert_ne by lia. split; [done |]. intros i Hi.
    destruct (decide (i = k)) as [-> | Hne]; [apply list_lookup_insert_eq; lia |].
    rewrite list_lookup_insert_ne by lia. apply Hj. lia.
Qed.

Lemma ok_listen ts :
  ok ts → pcs ts !! 1 = Some (CBind workers) →
  ok (Threads (lk ts) (srv ts) (<[1 := CIdle]> (<[0 := LListen listeners]> (pcs ts)))
    (<[0 := true]> (joinable ts)) None).
Proof.
  intros Hok Hc. destruct (ok_size _ Hok) as [Hz1 Hz2].
  destruct (lookup_lt_is_Some_2 (pcs ts) 0) as [p Hp]; [lia |].
  pose proof (ok_control _ Hok) as Hct. unfold control in Hct. rewrite Hc in Hct.
  pose proof (ok_joins _ Hok) as Hj. unfold joins in Hj. rewrite Hc in Hj. destruct Hj as [Hj0 Hj].
  destruct Hct as [Hs Hq]. assert (ended p = true) as He by (apply (Hq 0); [lia | done]).
  destruct (ok_restart ts 0 p (LListen listeners) Hok Hp He) as (R1 & R2 & R3 & R4 & R5 & R6 & R7);
    [by left; split; [eexists |] |].
  assert (<[0 := LListen listeners]> (pcs ts) !! 1 = Some (CBind workers)) as Hl
    by (rewrite list_lookup_insert_ne; [done | lia]).
  eapply (ok_controller _ _ _ (CBind workers)); try done; [by apply ok_owned | by left | | |].
  - by rewrite !length_insert.
  - unfold control. rewrite list_lookup_insert_eq by by eapply lookup_lt_Some. congruence.
  - unfold joins. rewrite list_lookup_insert_eq by by eapply lookup_lt_Some. split; [congruence |].
    intros _ i Hi. rewrite list_lookup_insert_ne by lia. by apply Hj.
Qed.

(** One thread more has been waited for. *)
Lemma ok_join ts j p :
  ok ts → pcs ts !! 1 = Some (CJoin j) → joinable ts !! join_thread j = Some true →
  pcs ts !! join_thread j = Some p → ended p = true →
  ok (Threads (lk ts) (srv ts) (<[1 := CJoin (Datatypes.S j)]> (pcs ts))
    (<[join_thread j := false]> (joinable ts)) None).
Proof.
  intros [Ho Hr Hk Hw Hh Hd Hc Ha Hv Hz Hj] Hp1 Hjn Hpj He.
  eapply (ok_controller _ _ _ (CJoin j)); try done; [by right; right; eexists | by rewrite length_insert | |].
  - unfold control in *. rewrite Hp1 in Hc. rewrite list_lookup_insert_eq by by eapply lookup_lt_Some.
    destruct Hc as [Hs Hc]. split; [done |]. intros i q Hi Hq.
    rewrite list_lookup_insert_ne in Hq by by destruct i.
    destruct (decide (i = j)) as [-> | Hne]; [congruence |]. apply (Hc i); [lia | done].
  - unfold joins in *. rewrite Hp1 in Hj. rewrite list_lookup_insert_eq by by eapply lookup_lt_Some.
    destruct j as [| j]; cbn [join_thread] in *.
    + split_and!; [lia | apply list_lookup_insert_eq; lia |]. intros i Hi. rewrite list_lookup_insert_ne by lia.
      apply (Hj Hjn). lia.
    + destruct Hj as (Hle & Hj0 & Hj). rewrite list_lookup_insert_ne by lia.
      apply lookup_lt_Some in Hpj. split_and!; [lia | done |]. intros i Hi.
      rewrite list_lookup_insert_ne by lia. apply Hj. lia.
Qed.

(** All of them have: nothing runs. *)
Lemma all_joined ts :
  ok ts → pcs ts !! 1 = Some (CJoin (Datatypes.S workers)) → quiet (pcs ts).
Proof.
  intros Hok Hc t p Ht Hp. pose proof (ok_control _ Hok) as Hct. unfold control in Hct. rewrite Hc in Hct.
  destruct Hct as [_ Hct]. apply lookup_lt_Some in Hp as Hlt. destruct (ok_size _ Hok) as [Hz _].
  destruct t as [| [| t]]; [| done |].
  - apply (Hct 0); [lia | done].
  - apply (Hct (Datatypes.S t)); [lia | done].
Qed.

Lemma ok_joined ts :
  ok ts → pcs ts !! 1 = Some (CJoin (Datatypes.S workers)) →
  ok (Threads (lk ts) (srv ts) (<[1 := CIdle]> (pcs ts)) (joinable ts) None).
Proof.
  intros Hok Hc. pose proof (all_joined ts Hok Hc) as Hq.
  destruct Hok as [Ho Hr Hk Hw Hh Hd Hct Ha Hv Hz Hj].
  eapply (ok_controller _ _ _ (CJoin (Datatypes.S workers))); try done; [by left | |].
  - unfold control. rewrite list_lookup_insert_eq by by eapply lookup_lt_Some.
    intros _. by apply quiet_insert.
  - unfold joins in *. rewrite Hc in Hj. rewrite list_lookup_insert_eq by by eapply lookup_lt_Some.
    destruct Hj as (_ & Hj & _). split; [done |]. congruence.
Qed.

Lemma ok_ends ts f : ok ts → ok (Threads (lk ts) (srv ts) (pcs ts) (joinable ts) f).
Proof. by intros []. Qed.

Lemma ok_step : preserved (tstep greeter handler queue_size workers listeners) ok.
Proof.
  intros ts ts' Hs Hok.
  destruct Hs; eauto using ok_enter, ok_leave, ok_act, ok_raise, ok_move, ok_spawn, ok_listen, ok_join, ok_joined, ok_ends.
Qed.

Lemma ok_new m st : owner m = None → ok (threads_new workers m st).
Proof.
  intros Hm. assert (∀ t p, pcs (threads_new workers m st) !! t = Some p →
    p = LExit ∧ t = 0 ∨ p = CIdle ∧ t = 1 ∨ p = WExit ∧ 2 ≤ t) as Hl.
  { intros [| [| t]] p Ht; cbn in Ht; [naive_solver.. |].
    apply lookup_replicate in Ht as [-> _]. right; right. split; [done | lia]. }
  assert (∀ f : pc → option nat, f LExit = None → f CIdle = None → f WExit = None →
    omap f (pcs (threads_new workers m st)) = []) as Hf.
  { intros f F1 F2 F3. cbn. rewrite F1, F2. clear Hl. induction workers as [| w IH]; [done |]. cbn. by rewrite F3. }
  split; cbn [lk srv joinable].
  - apply owned_new.
  - intros t p Ht. destruct (Hl t p Ht) as [[-> ->] | [[-> ->] | [-> ?]]]; [done.. |].
    by destruct t as [| [|]]; try lia.
  - intros t. cbn [lk threads_new]. rewrite Hm. split; [done |].
    destruct (pcs _ !! t) as [p |] eqn:E; [| done]. by destruct (Hl t p E) as [[-> _] | [[-> _] | [-> _]]].
  - intros (t & Ht)%list_elem_of_lookup. exfalso. by destruct (Hl t _ Ht) as [[? _] | [[? _] | [? _]]].
  - by rewrite Hf.
  - by rewrite Hf.
  - cbn. intros _ t p Hne Ht. by destruct (Hl t p Ht) as [[-> _] | [[_ ?] | [-> _]]].
  - done.
  - intros l. by cbn.
  - cbn. by rewrite !length_replicate.
  - by cbn.
Qed.
End preservation.

(** ** Stopping: how many steps the threads have left *)
Section stopping.
Context {room : Stack} `{DefaultMutex} {S : Type}.
Context (greeter : option (S → Z → stream → stream → S * outcome unit * stream * stream)).
Context (handler : option (S → Z → stream → stream → S * outcome bool * stream * stream)).
Context (queue_size workers listeners : nat).
Implicit Types (s : server (S := S)) (ts : threads (S := S)) (l : list pc).





















End stopping.

(** ** No deadlock while stopping *)
Section progress.
Context {room : Stack} `{DefaultMutex} {S : Type}.
Context (greeter : option (S → Z → stream → stream → S * outcome unit * stream * stream)).
Context (handler : option (S → Z → stream → stream → S * outcome bool * stream * stream)).
Context (queue_size workers listeners : nat).
Implicit Types (s : server (S := S)) (ts : threads (S := S)) (l : list pc).

Abbreviation next_step ts := (∃ ts', tstep greeter handler queue_size workers listeners ts ts').





#[local] Hint Constructors enters leaves acts moves raises : core.



(** The numbers of connections the workers have are bounded by the workers: the one that tests the
    queue has none. *)
Definition is_test (p : pc) : nat := match p with WTest => 1 | _ => 0 end.

Definition is_worker (p : pc) : nat := match pc_role p with Worker => 1 | _ => 0 end.

Lemma worker_loads l :
  length (omap serving l) + length (omap returning l) + sum_list_with is_test l ≤ sum_list_with is_worker l.
Proof. induction l as [| p l IH]; [done |]. destruct p; cbn in *; lia. Qed.

Lemma worker_count l : sum_list_with is_worker l ≤ length l.
Proof. induction l as [| p l IH]; [done |]. destruct p; cbn in *; lia. Qed.

Lemma in_roles_workers l : in_roles l → sum_list_with is_worker l ≤ length l - 2.
Proof.
  intros Hr. destruct l as [| p0 [| p1 l]]; [done | |]; cbn [sum_list_with]; unfold is_worker at 1.
  - by rewrite (Hr 0 p0).
  - rewrite (Hr 0 p0) by done. cbn [role_of sum_list_with]. unfold is_worker at 1. rewrite (Hr 1 p1) by done.
    cbn. pose proof (worker_count l). lia.
Qed.

Lemma tests_some l t : l !! t = Some WTest → 0 < sum_list_with is_test l.
Proof.
  revert t. induction l as [| p l IH]; intros [| t] Ht; try done; cbn in *.
  - injection Ht as ->. cbn. lia.
  - specialize (IH t Ht). lia.
Qed.

(** So a worker that finds a connection in the queue takes it. *)
Lemma worker_takes ts t n q :
  ok workers ts → fate ts = None → pcs ts !! t = Some WTest → reqs (srv ts) = n :: q →
  is_stopped (srv ts) = false → ∃ s, act greeter handler queue_size workers (srv ts) (Take n) s.
Proof.
  intros Hok Hf Ht Hq Hs. eexists. eapply act_take; [done.. |].
  rewrite (Permutation_length (ok_held _ _ Hok)), (Permutation_length (ok_handled _ _ Hok)).
  pose proof (worker_loads (pcs ts)) as Hl. pose proof (in_roles_workers _ (ok_roles _ _ Hok)) as Hw.
  destruct (ok_size _ _ Hok) as [Hz _]. pose proof (tests_some _ _ Ht). lia.
Qed.


End progress.

(** ** Properties *)
Section properties.
Context {room : Stack} `{DefaultMutex} {S : Type}.
Context (greeter : option (S → Z → stream → stream → S * outcome unit * stream * stream)).
Context (handler : option (S → Z → stream → stream → S * outcome bool * stream * stream)).
Context (queue_size workers listeners : nat).
Implicit Types ts : threads (S := S).

(** The executions of a server whose mutex is free at first. *)
Definition threads_reachable (m : mutex_t) (st : S) ts : Prop :=
  rtc (tstep greeter handler queue_size workers listeners) (threads_new workers m st) ts.

Lemma reachable_ok m st ts : owner m = None → threads_reachable m st ts → ok workers ts.
Proof. intros Hm Hr. eapply preserved_rtc; [apply ok_step | exact Hr | by apply ok_new]. Qed.

Lemma threads_refinement :
  refinement (tstep greeter handler queue_size workers listeners) (ok workers)
    (step greeter handler queue_size workers) srv.
Proof.
  split; [apply ok_step |]. intros ts ts' _ Hs. destruct Hs; cbn; try (by left).
  right. by eexists.
Qed.

Lemma connection_live ts n :
  ok workers ts → n ∈ omap serving (pcs ts) ++ omap returning (pcs ts) → is_Some (heap (srv ts) !! n).
Proof.
  intros Hok Hn. destruct (owned_lookup (srv ts) n (ok_owned _ _ Hok)) as [rq ->]; [| done].
  rewrite elem_of_app, <- (ok_held _ _ Hok), <- (ok_handled _ _ Hok) in Hn. unfold live. set_solver.
Qed.


End properties.

(** C27. Whatever the interleaving of the listening thread, the workers and the caller of
    [start] and [stop], at most one thread is inside a region of [_lock]; no two workers have
    the same connection, and the connection a worker has is not deleted under it. *)
Theorem tcp_threads_exclusive {room : Stack} `{DefaultMutex} {S} greeter handler queue_size workers listeners m (st : S)
    (ts : threads (S := S)) :
  owner m = None → threads_reachable greeter handler queue_size workers listeners m st ts →
  (∀ t u p q, pcs ts !! t = Some p → pcs ts !! u = Some q →
     inside_region p = true → inside_region q = true → t = u) ∧
  NoDup (omap serving (pcs ts) ++ omap returning (pcs ts)) ∧
  ∀ n, n ∈ omap serving (pcs ts) ++ omap returning (pcs ts) → is_Some (heap (srv ts) !! n).
Proof.
  intros Hm Hr. pose proof (reachable_ok _ _ _ _ _ _ _ _ Hm Hr) as Hok. split_and!.
  - intros t u p q. apply (locked_exclusive _ _ _ _ _ _ _ (ok_locked _ _ Hok)).
  - rewrite <- (ok_held _ _ Hok), <- (ok_handled _ _ Hok).
    pose proof (owned_NoDup _ (ok_owned _ _ Hok)) as Hnd. unfold live in Hnd.
    rewrite !NoDup_app in Hnd. rewrite NoDup_app. tauto.
  - intros n Hn. by eapply connection_live.
Qed.

(** C4. No wakeup is lost: while a worker sleeps in [_event.wait], either the queue is empty
    and the server runs, or a thread is about to call [raise], after which no worker sleeps.
    So a request that is queued, and the order to stop, are always noticed. *)
Theorem tcp_no_lost_wakeup {room : Stack} `{DefaultMutex} {S} greeter handler queue_size workers listeners m (st : S)
    (ts : threads (S := S)) :
  owner m = None → threads_reachable greeter handler queue_size workers listeners m st ts →
  WAsleep ∈ pcs ts →
  reqs (srv ts) = [] ∧ is_stopped (srv ts) = false ∨
  ∃ p, p ∈ pcs ts ∧ raising p = true ∧
    ∀ t p', raises p p' → WAsleep ∉ <[t := p']> (wake <$> pcs ts).
Proof.
  intros Hm Hr Ha. pose proof (reachable_ok _ _ _ _ _ _ _ _ Hm Hr) as Hok.
  destruct (ok_woken _ _ Hok Ha) as [(p & Hp & Hpr) | Hi]; [right | by left].
  exists p. split_and!; [done.. |]. intros t p' Hp' (j & Hj)%list_elem_of_lookup.
  destruct (decide (t = j)) as [<- | Hne].
  - apply list_lookup_insert_Some in Hj as [(_ & E & _) | [? _]]; [| done]. subst. by inversion Hp'.
  - rewrite list_lookup_insert_ne in Hj by done. apply wake_lookup in Hj as (q & _ & Hq). by destruct q.
Qed.


(** C5. The threads with their mutex and event implement the life of connections: every
    interleaving is, seen through the server's lists, a run of the server's actions, and
    through its connections a run of the specification. *)
Theorem tcp_threads_refine {room : Stack} `{DefaultMutex} {S} greeter handler queue_size workers listeners m (st : S)
    (ts : threads (S := S)) :
  owner m = None → threads_reachable greeter handler queue_size workers listeners m st ts →
  reachable greeter handler queue_size workers st (srv ts) ∧
  rtc life_step (Lifecycle ∅ []) (life_of (srv ts)).
Proof.
  intros Hm Hr. pose proof (ok_new workers m st Hm) as Hok. split.
  - unfold reachable. change (server_new st) with (srv (threads_new workers m st)).
    eapply refinement_rtc; [apply threads_refinement | exact Hok | exact Hr].
  - eapply (refinement_rtc _ (ok workers) life_step (life_of ∘ srv) (threads_new workers m st) ts);
      [| exact Hok | exact Hr].
    eapply refinement_trans; [apply threads_refinement | apply server_refinement |].
    intros c Hc. by apply (ok_owned workers).
Qed.

(** ** Witnesses: one worker, which falls asleep; then [stop] is called *)
#[local] Existing Instance eight_megabytes.

Definition opened : server (S := unit) := set_stopped false (server_new ()).

Definition stopped : server (S := unit) := set_stopped true opened.

Abbreviation run := (tstep (H := owned_locks) (S := unit) None (Some echo) 4 1 0).

(** [j]: which threads can be joined. *)
Definition at_rest (s : server (S := unit)) (l : list pc) (j : list bool) : threads :=
  @Threads unit owned_locks None s l j None.


Definition sleeping : threads := at_rest opened [LTop; CIdle; WAsleep] [true; false; true].

Definition raise_due : threads := at_rest stopped [LTop; CRaise; WAsleep] [true; false; true].


Lemma sleeping_reachable :
  threads_reachable (H := owned_locks) None (Some echo) 4 1 0 None () sleeping.
Proof.
  eapply rtc_l; [by eapply (t_move _ _ _ _ _ _ 1); [| | apply moves_call_start] |].
  eapply rtc_l; [by eapply (t_enter _ _ _ _ _ _ 1); [| | apply enters_start |] |].
  eapply rtc_l; [by eapply (t_act _ _ _ _ _ _ 1); [| | apply acts_start | apply act_start] |].
  eapply rtc_l; [by eapply (t_leave _ _ _ _ _ _ 1); [| | apply leaves_started |] |].
  eapply rtc_l; [eapply t_spawn; [done | done | cbn; lia] |].
  eapply rtc_l; [by eapply t_listen |].
  eapply rtc_l; [by eapply (t_move _ _ _ _ _ _ 0); [| | apply moves_listening] |].
  eapply rtc_l; [by eapply (t_enter _ _ _ _ _ _ 2); [| | apply enters_test |] |].
  eapply rtc_l; [by eapply (t_leave _ _ _ _ _ _ 2); [| | apply leaves_wait |] |].
  apply rtc_refl.
Qed.

Lemma raise_due_reachable :
  threads_reachable (H := owned_locks) None (Some echo) 4 1 0 None () raise_due.
Proof.
  eapply rtc_trans; [exact sleeping_reachable |].
  eapply rtc_l; [by eapply (t_move _ _ _ _ _ _ 1); [| | apply moves_call_stop] |].
  eapply rtc_l; [by eapply (t_enter _ _ _ _ _ _ 1); [| | apply enters_stop |] |].
  eapply rtc_l; [by eapply (t_act _ _ _ _ _ _ 1); [| | apply acts_stop | apply act_stop] |].
  eapply rtc_l; [by eapply (t_leave _ _ _ _ _ _ 1); [| | apply leaves_flagged |] |].
  apply rtc_refl.
Qed.




(** A [start] that throws in [bind] leaves the server marked as running with no thread: the next
    [stop] joins a thread that does not exist. *)
Lemma start_threw_reachable :
  threads_reachable (H := owned_locks) None (Some echo) 4 1 0 None ()
    (at_rest opened [LExit; CIdle; WExit] [false; false; false]).
Proof.
  eapply rtc_l; [by eapply (t_move _ _ _ _ _ _ 1); [| | apply moves_call_start] |].
  eapply rtc_l; [by eapply (t_enter _ _ _ _ _ _ 1); [| | apply enters_start |] |].
  eapply rtc_l; [by eapply (t_act _ _ _ _ _ _ 1); [| | apply acts_start | apply act_start] |].
  eapply rtc_l; [by eapply (t_leave _ _ _ _ _ _ 1); [| | apply leaves_started |] |].
  eapply rtc_l; [by eapply (t_move _ _ _ _ _ _ 1); [| | apply moves_start_throw] |].
  apply rtc_refl.
Qed.

Example start_threw_stop_undefined :
  ∃ ts, threads_reachable (H := owned_locks) None (Some echo) 4 1 0 None () ts ∧ fate ts = Some JoinUndefined.
Proof.
  exists (@Threads unit owned_locks None stopped [LExit; CJoin 0; WExit] [false; false; false] (Some JoinUndefined)).
  split; [| done]. eapply rtc_trans; [exact start_threw_reachable |].
  eapply rtc_l; [by eapply (t_move _ _ _ _ _ _ 1); [| | apply moves_call_stop] |].
  eapply rtc_l; [by eapply (t_enter _ _ _ _ _ _ 1); [| | apply enters_stop |] |].
  eapply rtc_l; [by eapply (t_act _ _ _ _ _ _ 1); [| | apply acts_stop | apply act_stop] |].
  eapply rtc_l; [by eapply (t_leave _ _ _ _ _ _ 1); [| | apply leaves_flagged |] |].
  eapply rtc_l; [by eapply (t_raise _ _ _ _ _ _ 1); [| | apply raises_stop] |].
  eapply rtc_l; [by eapply (t_join_undefined _ _ _ _ _ _ 0) |].
  apply rtc_refl.
Qed.

Lemma tcp_threads_exclusive_witness :
  NoDup (omap serving (pcs sleeping) ++ omap returning (pcs sleeping)).
Proof.
  exact (proj1 (proj2 (tcp_threads_exclusive None (Some echo) 4 1 0 None () sleeping eq_refl
    sleeping_reachable))).
Defined.

Lemma tcp_no_lost_wakeup_witness :
  reqs (srv raise_due) = [] ∧ is_stopped (srv raise_due) = false ∨
  ∃ p, p ∈ pcs raise_due ∧ raising p = true ∧
    ∀ t p', raises p p' → WAsleep ∉ <[t := p']> (wake <$> pcs raise_due).
Proof.
  exact (tcp_no_lost_wakeup None (Some echo) 4 1 0 None () raise_due eq_refl raise_due_reachable
    ltac:(by right; right; left)).
Defined.


Lemma tcp_threads_refine_witness :
  reachable None (Some echo) 4 1 () (srv raise_due).
Proof.
  exact (proj1 (tcp_threads_refine None (Some echo) 4 1 0 None () raise_due eq_refl
    raise_due_reachable)).
Defined.
