(* ===== verification/Pool.v ===== *)
(** * [src/include/dcl/pool.h]: the object pool.

    Objects are numbered in the order of their creation.  Threads interleave at the two
    synchronised regions of each operation: the size policy (a semaphore when the pool is
    limited) and the critical section.  A thread that has passed the policy but not yet the
    critical section is in [entering] or [leaving]. *)
From S2P Require Export CxxString Steps.

Record pool := Pool {
  free : gmap str (list nat);
  all : list nat;
  policy : option nat;
  entering : list str;
  held : list (nat * str);
  leaving : list (nat * str) }.

(** [pool()] and [pool(ps)]: [policy] is the limited policy's free places, [None] the
    unlimited policy. *)
Definition pool_new (limit : option nat) : pool := Pool ∅ [] limit [] [] [].

(** ** Size policies: [None] blocks *)
Definition policy_lock (p : option nat) : option (option nat) :=
  match p with
  | None => Some None
  | Some (S n) => Some (Some n)
  | Some O => None
  end.

Definition policy_unlock (p : option nat) : option nat := S <$> p.

(** ** The critical sections *)

(** [acquire_item] under [cs]: the front of the key's queue, or a new object. *)
Definition acquire_item (key : str) (p : pool) : nat * pool :=
  let q := default [] (free p !! key) in
  match q with
  | [] =>
      let item := length (all p) in
      (item, Pool (<[key := []]> (free p)) (all p ++ [item]) (policy p) (entering p) (held p) (leaving p))
  | item :: q' =>
      (item, Pool (<[key := q']> (free p)) (all p) (policy p) (entering p) (held p) (leaving p))
  end.

(** [release_item] under [cs]. *)
Definition release_item (item : nat) (key : str) (p : pool) : pool :=
  Pool (<[key := default [] (free p !! key) ++ [item]]> (free p)) (all p) (policy p)
    (entering p) (held p) (leaving p).

Definition size (p : pool) : nat := length (all p).

(** The cached objects, queue by queue. *)
Definition cached (f : gmap str (list nat)) : list nat := concat (map_to_list f).*2.

Definition in_use (p : pool) : Z := Z.of_nat (length (all p)) - Z.of_nat (length (cached (free p))).

(** ** Threads *)
Inductive step (p : pool) : pool → Prop :=
  | step_lock key pol :
      policy_lock (policy p) = Some pol →
      step p (Pool (free p) (all p) pol (key :: entering p) (held p) (leaving p))
  | step_acquire l1 key l2 item p' :
      entering p = l1 ++ key :: l2 → acquire_item key p = (item, p') →
      step p (Pool (free p') (all p') (policy p') (l1 ++ l2) ((item, key) :: held p') (leaving p'))
  | step_unlock l1 item key l2 :
      held p = l1 ++ (item, key) :: l2 →
      step p (Pool (free p) (all p) (policy_unlock (policy p)) (entering p) (l1 ++ l2)
                ((item, key) :: leaving p))
  | step_release l1 item key l2 :
      leaving p = l1 ++ (item, key) :: l2 →
      step p (let p' := release_item item key p in
              Pool (free p') (all p') (policy p') (entering p') (held p') (l1 ++ l2)).

Definition reachable (limit : option nat) (p : pool) : Prop := rtc step (pool_new limit) p.

(** ** Smart pointers *)

(** [_item] and [_key] of a [pool_ptr] whose pool is not null. *)
Definition pool_ptr : Type := option (nat * str).

(** The copy constructor: the new pointer, and the source emptied. *)
Definition ptr_copy (src : pool_ptr) : pool_ptr * pool_ptr := (src, None).

(** The destructor: what is released. *)
Definition ptr_destroy (p : pool_ptr) : list (nat * str) :=
  match p with Some h => [h] | None => [] end.

(** Assignment: what is released, the target and the emptied source. *)
Definition ptr_assign (p src : pool_ptr) : list (nat * str) * pool_ptr * pool_ptr :=
  (ptr_destroy p, src, None).

(** ** Lemmas: the cache *)
Lemma cached_insert k q f :
  cached (<[k := q]> f) ++ default [] (f !! k) ≡ₚ q ++ cached f.
Proof.
  unfold cached.
  assert (∀ (g : gmap str (list nat)) q', g !! k = None →
    concat (map_to_list (<[k := q']> g)).*2 ≡ₚ q' ++ concat (map_to_list g).*2) as Hins.
  { intros g q' Hg. by rewrite map_to_list_insert. }
  rewrite <- insert_delete_eq, Hins by apply lookup_delete_eq.
  destruct (f !! k) as [q0 |] eqn:Ek; cbn [default].
  - rewrite <- (insert_delete_id f k q0 Ek) at 2. rewrite Hins by apply lookup_delete_eq.
    solve_Permutation.
  - rewrite delete_id by done. by rewrite app_nil_r.
Qed.

(** ** Invariants *)

(** Every object ever created is held by one pointer, on its way back, or cached. *)
Definition conserved (p : pool) : Prop :=
  (held p).*1 ++ (leaving p).*1 ++ cached (free p) ≡ₚ all p ∧ all p = seq 0 (length (all p)).

Definition limited (limit : option nat) (p : pool) : Prop :=
  match limit, policy p with
  | None, None => True
  | Some n, Some k => k + length (entering p) + length (held p) = n
  | _, _ => False
  end.

Lemma acquire_conserved key p item p' :
  acquire_item key p = (item, p') → conserved p →
  (item :: (held p).*1) ++ (leaving p).*1 ++ cached (free p') ≡ₚ all p' ∧
  all p' = seq 0 (length (all p')) ∧
  policy p' = policy p ∧ entering p' = entering p ∧ held p' = held p ∧ leaving p' = leaving p.
Proof.
  unfold acquire_item. intros Ha [Hc Hseq].
  pose proof (λ q, cached_insert key q (free p)) as Hins.
  destruct (default [] (free p !! key)) as [| i q] eqn:Eq; injection Ha as <- <-;
    cbn [free all policy entering held leaving].
  - specialize (Hins []). rewrite app_nil_r in Hins. cbn [app] in Hins. rewrite Hins.
    repeat split.
    + rewrite <- Hc at 2. solve_Permutation.
    + rewrite length_app. cbn [length]. rewrite seq_app. cbn. by rewrite <- Hseq.
  - repeat split; [| done]. rewrite <- Hc. specialize (Hins q).
    assert (cached (free p) ≡ₚ i :: cached (<[key := q]> (free p))) as ->; [| solve_Permutation].
    apply (Permutation_app_inv_l q). rewrite <- Hins. solve_Permutation.
Qed.

Lemma release_conserved item key p :
  cached (free (release_item item key p)) ≡ₚ item :: cached (free p).
Proof.
  unfold release_item. cbn [free].
  pose proof (cached_insert key (default [] (free p !! key) ++ [item]) (free p)) as Hins.
  apply (Permutation_app_inv_r (default [] (free p !! key))). rewrite Hins. solve_Permutation.
Qed.

Lemma step_conserved p p' : step p p' → conserved p → conserved p'.
Proof.
  intros Hs Hc. destruct Hs as [key pol Hp | l1 key l2 item q He Ha | l1 item key l2 Hh | l1 item key l2 Hl].
  - exact Hc.
  - destruct (acquire_conserved _ _ _ _ Ha Hc) as (Hp & Hseq & _ & _ & Hh & Hl).
    split; [| exact Hseq]. cbn. by rewrite Hh, Hl.
  - destruct Hc as [Hp Hseq]. split; [| exact Hseq]. cbn. rewrite <- Hp, Hh, !fmap_app. cbn.
    solve_Permutation.
  - destruct Hc as [Hp Hseq]. split; [| exact Hseq]. cbn. 
    pose proof (release_conserved item key p) as Hr. cbn [free release_item] in Hr. rewrite Hr.
    rewrite <- Hp, Hl, !fmap_app. cbn. solve_Permutation.
Qed.

Lemma step_limited limit p p' : step p p' → limited limit p → limited limit p'.
Proof.
  intros Hs. unfold limited. destruct Hs as [key pol Hp | l1 key l2 item q He Ha | l1 item key l2 Hh | l1 item key l2 Hl];
    cbn [policy entering held].
  - unfold policy_lock in Hp. destruct limit, (policy p) as [[| k] |]; simplify_eq; cbn; try done; lia.
  - assert (policy q = policy p ∧ held q = held p) as [-> ->].
    { unfold acquire_item in Ha. case_match; by simplify_eq. }
    rewrite He. destruct limit, (policy p); try done. rewrite !length_app. cbn. lia.
  - rewrite Hh. unfold policy_unlock. destruct limit, (policy p); try done. cbn.
    rewrite !length_app. cbn. lia.
  - done.
Qed.

Lemma reachable_inv limit p : reachable limit p → conserved p ∧ limited limit p.
Proof.
  unfold reachable. intros H. remember (pool_new limit) as p0 eqn:E.
  assert (conserved p0 ∧ limited limit p0) as H0.
  { subst. split; [split; done |]. unfold limited. cbn. destruct limit; cbn; [lia | done]. }
  clear E. induction H as [| p1 p2 p3 Hs _ IH]; [done |]. destruct H0.
  apply IH. split; [by eapply step_conserved | by eapply step_limited].
Qed.

(** ** Specification: an allocator of keyed objects

    An object is handed out under its key, given back, and handed out again under the same key
    only; a new one is made only when none of the key is there. *)
Inductive object_status := Held (key : str) | Cached (key : str).

Inductive alloc_step (m : gmap nat object_status) : gmap nat object_status → Prop :=
  | alloc_create i key :
      m !! i = None → (∀ j, m !! j ≠ Some (Cached key)) → alloc_step m (<[i := Held key]> m)
  | alloc_reuse i key : m !! i = Some (Cached key) → alloc_step m (<[i := Held key]> m)
  | alloc_return i key : m !! i = Some (Held key) → alloc_step m (<[i := Cached key]> m).

(** The objects of a pool with their status. *)
Definition cached_as (key : str) (q : list nat) : list (nat * object_status) :=
  (λ i, (i, Cached key)) <$> q.

Definition entries (f : gmap str (list nat)) : list (nat * object_status) :=
  concat (uncurry cached_as <$> map_to_list f).

Definition handed (l : list (nat * str)) : list (nat * object_status) :=
  (λ e, (e.1, Held e.2)) <$> l.

Definition objects (p : pool) : list (nat * object_status) :=
  handed (held p) ++ handed (leaving p) ++ entries (free p).

Definition alloc_of (p : pool) : gmap nat object_status := list_to_map (objects p).

Lemma entries_insert k q f :
  entries (<[k := q]> f) ++ cached_as k (default [] (f !! k)) ≡ₚ cached_as k q ++ entries f.
Proof.
  unfold entries.
  assert (∀ (g : gmap str (list nat)) q', g !! k = None →
    concat (uncurry cached_as <$> map_to_list (<[k := q']> g))
    ≡ₚ cached_as k q' ++ concat (uncurry cached_as <$> map_to_list g)) as Hins.
  { intros g q' Hg. by rewrite map_to_list_insert. }
  rewrite <- insert_delete_eq, Hins by apply lookup_delete_eq.
  destruct (f !! k) as [q0 |] eqn:Ek; cbn [default].
  - rewrite <- (insert_delete_id f k q0 Ek) at 2. rewrite Hins by apply lookup_delete_eq.
    unfold id. solve_Permutation.
  - rewrite delete_id by done. by rewrite app_nil_r.
Qed.

Lemma handed_fst l : (handed l).*1 = l.*1.
Proof. unfold handed. induction l as [| e l IH]; cbn; by f_equal. Qed.

Lemma entries_fst f : (entries f).*1 = cached f.
Proof.
  unfold entries, cached. induction (map_to_list f) as [| [k q] l IH]; [done |].
  cbn. rewrite fmap_app, IH. f_equal. clear. induction q as [| i q IH]; cbn; by f_equal.
Qed.

Lemma objects_fst p : (objects p).*1 = (held p).*1 ++ (leaving p).*1 ++ cached (free p).
Proof. unfold objects. by rewrite !fmap_app, !handed_fst, entries_fst. Qed.

Lemma objects_NoDup p : conserved p → NoDup (objects p).*1.
Proof. intros [Hp Hs]. rewrite objects_fst, Hp, Hs. apply NoDup_seq. Qed.

(** What is cached under a key is in its queue. *)
Lemma entries_elem f i key : (i, Cached key) ∈ entries f → i ∈ default [] (f !! key).
Proof.
  unfold entries. rewrite list_elem_of_In, in_concat. intros (l & Hl & Hi).
  apply list_elem_of_In, list_elem_of_fmap in Hl as ([k q] & -> & Hkq).
  apply list_elem_of_In, list_elem_of_fmap in Hi as (j & Hj & Hin). injection Hj as -> ->.
  apply elem_of_map_to_list in Hkq. by rewrite Hkq.
Qed.

Lemma objects_cached p i key : (i, Cached key) ∈ objects p → i ∈ default [] (free p !! key).
Proof.
  unfold objects, handed. rewrite !elem_of_app, !list_elem_of_fmap.
  intros [([? ?] & [=] & _) | [([? ?] & [=] & _) | Hi]]. by apply entries_elem.
Qed.

Lemma acquire_refines p l1 key l2 item p' :
  conserved p → entering p = l1 ++ key :: l2 → acquire_item key p = (item, p') →
  alloc_step (alloc_of p)
    (alloc_of (Pool (free p') (all p') (policy p') (l1 ++ l2) ((item, key) :: held p') (leaving p'))).
Proof.
  intros Hc He Ha. pose proof (step_conserved _ _ (step_acquire p l1 key l2 item p' He Ha) Hc) as Hc'.
  unfold acquire_item in Ha. destruct (default [] (free p !! key)) as [| i q] eqn:Eq;
    injection Ha as <- <-; cbn [free all policy entering held leaving] in *.
  - pose proof (entries_insert key [] (free p)) as Hi. rewrite Eq, app_nil_r in Hi. cbn in Hi.
    destruct (placed (objects p) _ (length (all p)) (Held key) (objects_NoDup _ Hc')) as [E Hn].
    { unfold objects. cbn [free held leaving handed fmap list_fmap fst snd]. by rewrite Hi. }
    unfold alloc_of. rewrite E. apply alloc_create; [done |]. intros j Hj.
    apply elem_of_list_to_map_2, objects_cached in Hj. rewrite Eq in Hj. by apply not_elem_of_nil in Hj.
  - pose proof (entries_insert key q (free p)) as Hi. rewrite Eq in Hi.
    assert (entries (free p) ≡ₚ (i, Cached key) :: entries (<[key := q]> (free p))) as Hp.
    { apply (Permutation_app_inv_l (cached_as key q)). rewrite <- Hi. cbn. solve_Permutation. }
    destruct (moved (objects p)
      (objects (Pool (<[key := q]> (free p)) (all p) (policy p) (l1 ++ l2) ((i, key) :: held p) (leaving p)))
      (handed (held p) ++ handed (leaving p) ++ entries (<[key := q]> (free p)))
      i (Cached key) (Held key) (objects_NoDup p Hc)) as [E Hl].
    + unfold objects. rewrite Hp. solve_Permutation.
    + done.
    + unfold alloc_of. rewrite E. by apply alloc_reuse.
Qed.

Lemma release_refines p l1 item key l2 :
  conserved p → leaving p = l1 ++ (item, key) :: l2 →
  alloc_step (alloc_of p)
    (alloc_of (let p' := release_item item key p in
               Pool (free p') (all p') (policy p') (entering p') (held p') (l1 ++ l2))).
Proof.
  intros Hc Hl. pose proof (step_conserved _ _ (step_release p l1 item key l2 Hl) Hc) as Hc'.
  cbv zeta in *. cbn [release_item free all policy entering held leaving] in *.
  destruct (moved (objects p)
    (objects (Pool (<[key := default [] (free p !! key) ++ [item]]> (free p)) (all p) (policy p)
      (entering p) (held p) (l1 ++ l2)))
    (handed (held p) ++ handed (l1 ++ l2) ++ entries (free p))
    item (Held key) (Cached key) (objects_NoDup p Hc)) as [E Hs].
  - unfold objects. rewrite Hl. unfold handed. rewrite !fmap_app. cbn. solve_Permutation.
  - pose proof (entries_insert key (default [] (free p !! key) ++ [item]) (free p)) as Hi.
    assert (entries (<[key := default [] (free p !! key) ++ [item]]> (free p))
      ≡ₚ (item, Cached key) :: entries (free p)) as Hp.
    { apply (Permutation_app_inv_r (cached_as key (default [] (free p !! key)))). rewrite Hi.
      unfold cached_as. rewrite fmap_app. cbn. solve_Permutation. }
    unfold objects. cbn [free held leaving]. rewrite Hp. solve_Permutation.
  - unfold alloc_of. rewrite E. by apply alloc_return.
Qed.

(** The pool implements the allocator; the size policy is not visible in it. *)
Lemma pool_refinement : refinement step conserved alloc_step alloc_of.
Proof.
  split; [intros p p'; apply step_conserved |]. intros p p' Hc Hs.
  destruct Hs as [key pol Hp | l1 key l2 item q He Ha | l1 item key l2 Hh | l1 item key l2 Hl].
  - by left.
  - right. by apply acquire_refines.
  - left. apply unmoved; [by apply objects_NoDup |]. unfold objects. cbn [free held leaving].
    rewrite Hh. unfold handed. rewrite !fmap_app. cbn. solve_Permutation.
  - right. by apply release_refines.
Qed.

(** An object of the allocator keeps its key. *)
Definition key_of (s : object_status) : str := match s with Held k | Cached k => k end.

Lemma alloc_keys m m' i s :
  rtc alloc_step m m' → m !! i = Some s → ∃ s', m' !! i = Some s' ∧ key_of s' = key_of s.
Proof.
  intros Hr. revert s. induction Hr as [m | m1 m2 m3 Hs _ IH]; intros s Hi; [by eexists |].
  assert (∃ s', m2 !! i = Some s' ∧ key_of s' = key_of s) as (s' & Hs' & <-); [| by apply IH].
  destruct Hs as [j k Hj _ | j k Hj | j k Hj]; (destruct (decide (j = i)) as [-> | Hne];
    [rewrite lookup_insert_eq | rewrite lookup_insert_ne by done]); simplify_eq; eauto.
Qed.

(** ** Properties *)

(** C14. However acquisitions and releases interleave, no object is handed to two holders, none
    is lost, at most [limit] are held at a time, and [in_use] counts the held ones and those
    on their way back. *)
Theorem pool_safe limit p :
  reachable limit p →
  NoDup ((held p).*1 ++ (leaving p).*1 ++ cached (free p)) ∧
  (∀ i, i < size p ↔ i ∈ (held p).*1 ++ (leaving p).*1 ++ cached (free p)) ∧
  in_use p = Z.of_nat (length (held p) + length (leaving p)) ∧
  (∀ n, limit = Some n → length (held p) ≤ n).
Proof.
  intros [[Hp Hseq] Hlim]%reachable_inv. split; [| split; [| split]].
  - rewrite Hp, Hseq. apply NoDup_seq.
  - intros i. rewrite Hp, Hseq, elem_of_seq. unfold size. lia.
  - unfold in_use. rewrite <- Hp, !length_app, !length_fmap. lia.
  - intros n ->. unfold limited in Hlim. destruct (policy p); [lia | done].
Qed.

(** C28. Through its locks and queues the pool implements an allocator: every interleaving of
    acquisitions and releases, from a new pool, is a run in which an object is created only
    when none is cached under the key, handed out when it is cached, and given back under the
    key it was made for. *)
Theorem pool_refines_allocator limit p p' :
  reachable limit p → rtc step p p' →
  rtc alloc_step ∅ (alloc_of p) ∧ rtc alloc_step (alloc_of p) (alloc_of p') ∧
  (∀ i s, alloc_of p !! i = Some s → ∃ s', alloc_of p' !! i = Some s' ∧ key_of s' = key_of s).
Proof.
  intros Hr Hs. assert (conserved p) as Hc by by apply reachable_inv in Hr as [? _].
  assert (rtc alloc_step (alloc_of p) (alloc_of p')) as Ha by (by eapply refinement_rtc; [apply pool_refinement | |]).
  split; [| split; [done |]].
  - change (∅ : gmap nat object_status) with (alloc_of (pool_new limit)).
    eapply refinement_rtc; [apply pool_refinement | by split | done].
  - intros i s Hi. by eapply alloc_keys.
Qed.

(** The limit bounds the objects held, not the pool: [release_item] gives its place back
    before it queues the object, so another thread can create one in between, and a second
    key never reuses the first key's objects. *)
Theorem pool_limit_exceeded :
  (∃ p, reachable (Some 1) p ∧ size p = 2 ∧ length (held p) = 1 ∧ length (leaving p) = 1) ∧
  (∃ p, reachable (Some 1) p ∧ size p = 2 ∧ leaving p = [] ∧ held p = [(1, lit "b")]).
Proof.
  assert (∀ k, step (pool_new (Some 1)) (Pool ∅ [] (Some 0) [k] [] [])) as H1.
  { intros k. by apply (step_lock (pool_new (Some 1)) k). }
  set (a := lit "a"). set (b := lit "b").
  set (p2 := Pool (<[a := []]> ∅) [0] (Some 0) [] [(0, a)] []).
  assert (step (Pool ∅ [] (Some 0) [a] [] []) p2) as H2.
  { exact (step_acquire (Pool ∅ [] (Some 0) [a] [] []) [] a [] 0
      (Pool (<[a := []]> ∅) [0] (Some 0) [a] [] []) eq_refl eq_refl). }
  set (p3 := Pool (<[a := []]> ∅) [0] (Some 1) [] [] [(0, a)]).
  assert (step p2 p3) as H3 by by apply (step_unlock p2 [] 0 a []).
  assert (rtc step (pool_new (Some 1)) p3) as Hr3.
  { eapply rtc_l; [apply (H1 a) |]. eapply rtc_l; [exact H2 |]. by apply rtc_once. }
  split.
  - set (p4 := Pool (<[a := []]> ∅) [0] (Some 0) [a] [] [(0, a)]).
    assert (step p3 p4) as H4 by by apply (step_lock p3 a).
    eexists (Pool (<[a := []]> (<[a := []]> ∅)) [0; 1] (Some 0) [] [(1, a)] [(0, a)]).
    split; [| done]. unfold reachable. etrans; [exact Hr3 |].
    eapply rtc_l; [exact H4 |]. apply rtc_once.
    exact (step_acquire p4 [] a [] 1
      (Pool (<[a := []]> (<[a := []]> ∅)) [0; 1] (Some 0) [a] [] [(0, a)]) eq_refl eq_refl).
  - set (p4 := Pool (<[a := [0]]> (<[a := []]> ∅)) [0] (Some 1) [] [] []).
    assert (step p3 p4) as H4 by by apply (step_release p3 [] 0 a []).
    set (p5 := Pool (free p4) [0] (Some 0) [b] [] []).
    assert (step p4 p5) as H5 by by apply (step_lock p4 b).
    eexists (Pool (<[b := []]> (free p4)) [0; 1] (Some 0) [] [(1, b)] []).
    split; [| done]. unfold reachable. etrans; [exact Hr3 |].
    eapply rtc_l; [exact H4 |]. eapply rtc_l; [exact H5 |]. apply rtc_once.
    exact (step_acquire p5 [] b [] 1 (Pool (<[b := []]> (free p4)) [0; 1] (Some 0) [b] [] [])
      eq_refl eq_refl).
Qed.

(** ** Witnesses *)

(** Acquire under "a", release, and acquire again. *)
Definition sample_key : str := lit "a".

Definition sample_held : pool := Pool (<[sample_key := []]> ∅) [0] (Some 1) [] [(0, sample_key)] [].

Definition sample_back : pool := Pool (<[sample_key := [0]]> (<[sample_key := []]> ∅)) [0] (Some 2) [] [] [].

Lemma sample_reachable : reachable (Some 2) sample_held ∧ rtc step sample_held sample_back.
Proof.
  split.
  - eapply rtc_l; [exact (step_lock (pool_new (Some 2)) sample_key (Some 1) eq_refl) |].
    apply rtc_once.
    exact (step_acquire (Pool ∅ [] (Some 1) [sample_key] [] []) [] sample_key [] 0
      (Pool (<[sample_key := []]> ∅) [0] (Some 1) [sample_key] [] []) eq_refl eq_refl).
  - eapply rtc_l; [exact (step_unlock sample_held [] 0 sample_key [] eq_refl) |]. apply rtc_once.
    exact (step_release (Pool (<[sample_key := []]> ∅) [0] (Some 2) [] [] [(0, sample_key)]) [] 0
      sample_key [] eq_refl).
Qed.

Lemma pool_safe_witness :
  reachable (Some 2) sample_held ∧ length (held sample_held) = 1 ∧
  in_use sample_held = 1%Z ∧ length (held sample_held) ≤ 2.
Proof.
  destruct (pool_safe _ _ (proj1 sample_reachable)) as (_ & _ & Hu & Hl).
  split; [exact (proj1 sample_reachable) |]. split; [reflexivity |].
  split; [exact Hu | exact (Hl 2 eq_refl)].
Defined.

Lemma pool_refines_allocator_witness :
  alloc_of sample_held !! 0 = Some (Held sample_key) ∧
  ∃ s', alloc_of sample_back !! 0 = Some s' ∧ key_of s' = sample_key.
Proof.
  destruct (pool_refines_allocator _ _ _ (proj1 sample_reachable) (proj2 sample_reachable)) as (_ & _ & H).
  split; [reflexivity |]. exact (H 0 (Held sample_key) eq_refl).
Defined.
