(* ===== verification/Filesys.v ===== *)
(** * [filesystem.h], [filefs.cpp] and [posix/filefs_impl.cpp]: files and directories.

    The kernel and the C library are the class [Posix]: [chdir], [glob] and reading a file, each
    relative to the current directory, which is explicit.  [search_loop] is the loop the
    sources write over the search iterator. *)
From S2P Require Export Streams.

Class Posix := {
  chdir : str → str → str;
  glob : str → str → option (list str);
  open_file : str → str → option str }.

(** [chdir dir name] is the directory the process is in afterwards: [dir] when it fails.
    [directory] holds of the absolute names of the directories that exist. *)
Class PosixLaws `{Posix} (directory : str → Prop) : Prop := {
  chdir_directory : ∀ dir dir', directory dir' → chdir dir dir' = dir';
  chdir_result : ∀ dir name, directory dir → directory (chdir dir name) }.

(** ** [filefs_impl] *)
Definition path_delimiter : str := lit "/".

Definition temp_dir : str := lit "/tmp".

Definition home_dir : str := lit "~".

(** [_getcwd]: the buffer is doubled while the system says that it is too small; the answers of
    [getcwd] for each size are an argument. *)
Inductive getcwd_answer := Cwd (s : str) | ERANGE | CwdFails.

Fixpoint getcwd_loop (getcwd : nat → getcwd_answer) (fuel size : nat) : option (option str) :=
  match fuel with
  | O => None
  | S f =>
      match getcwd size with
      | Cwd s => Some (Some s)
      | CwdFails => Some None
      | ERANGE => getcwd_loop getcwd f (size * 2)
      end
  end.

Definition get_current_dir (getcwd : nat → getcwd_answer) (fuel : nat) : option str :=
  default [] <$> getcwd_loop getcwd fuel 100.

(** The last [glob] result, when there is one to free, and the index of the next name. *)
Record filefs_impl := FilefsImpl { matches : option (list str); cur : nat }.

Definition filefs_new : filefs_impl := FilefsImpl None 0.

Definition find_next_file (fs : filefs_impl) : option str * filefs_impl :=
  match default [] (matches fs) !! cur fs with
  | Some name => (Some name, FilefsImpl (matches fs) (S (cur fs)))
  | None => (None, fs)
  end.

Definition find_first_file `{Posix} (dir pattern : str) (fs : filefs_impl)
    : option str * filefs_impl :=
  match glob dir pattern with
  | Some names => find_next_file (FilefsImpl (Some names) 0)
  | None => (None, FilefsImpl None 0)
  end.

(** ** [filesystem::const_iterator] *)
Record const_iterator := Iter { rownum : nat; filename : str }.

Definition iter_end : const_iterator := Iter 0 [].

Definition iter_eq (a b : const_iterator) : bool := rownum a =? rownum b.

(** [find(pattern)] *)
Definition find `{Posix} (dir pattern : str) (fs : filefs_impl) : const_iterator * filefs_impl :=
  match find_first_file dir pattern fs with
  | (Some name, fs') => (Iter 1 name, fs')
  | (None, fs') => (Iter 0 [], fs')
  end.

(** [operator++] *)
Definition iter_next (i : const_iterator) (fs : filefs_impl) : const_iterator * filefs_impl :=
  match find_next_file fs with
  | (Some name, fs') => (Iter (S (rownum i)) name, fs')
  | (None, fs') => (Iter 0 [], fs')
  end.

(** [for (i = fs.find(pattern); i != fs.end(); ++i)]: the names visited. *)
Fixpoint search_loop (fuel : nat) (i : const_iterator) (fs : filefs_impl) : option (list str) :=
  match fuel with
  | O => None
  | S f =>
      if iter_eq i iter_end then Some []
      else let '(i', fs') := iter_next i fs in cons (filename i) <$> search_loop f i' fs'
  end.

Definition find_all `{Posix} (dir pattern : str) : option (list str) :=
  let '(i, fs) := find dir pattern filefs_new in
  search_loop (S (length (default [] (matches fs)))) i fs.

(** ** Lemmas *)
Lemma search_loop_spec names n k f x :
  length names < n + f → names !! n = Some x →
  search_loop f (Iter (S k) x) (FilefsImpl (Some names) (S n)) = Some (drop n names).
Proof.
  revert n k x. induction f as [| f IH]; intros n k x Hf Hx; apply lookup_lt_Some in Hx as Hlt;
    [lia |].
  cbn [search_loop iter_eq rownum iter_end Nat.eqb]. unfold iter_next, find_next_file.
  cbn [matches default cur filename rownum]. rewrite (drop_S names x n) by done.
  cbn [id]. destruct (names !! S n) as [y |] eqn:Ey.
  - by rewrite (IH (S n) (S k) y) by (done || lia).
  - apply lookup_ge_None in Ey. rewrite drop_ge by lia.
    destruct f as [| f]; [lia | done].
Qed.

(** The loop ends for every directory the system can name, with its name. *)
Lemma getcwd_loop_ends getcwd dir fuel size :
  (∀ n, getcwd n = if length dir <? n then Cwd dir else ERANGE) → 0 < size → length dir + 1 < size + fuel →
  0 < fuel → getcwd_loop getcwd fuel size = Some (Some dir).
Proof.
  intros Hg. revert size. induction fuel as [| fuel IH]; intros size Hs Hl Hf; [lia |]. cbn [getcwd_loop].
  rewrite Hg. destruct (Nat.ltb_spec (length dir) size); [done |]. apply IH; lia.
Qed.

Lemma get_current_dir_spec getcwd dir :
  (∀ n, getcwd n = if length dir <? n then Cwd dir else ERANGE) →
  get_current_dir getcwd (S (length dir)) = Some dir.
Proof. intros Hg. unfold get_current_dir. by rewrite (getcwd_loop_ends _ dir) by (done || lia). Qed.

(** The loop visits the names [glob] finds, in order, and ends. *)
Lemma find_all_glob `{Posix} dir pattern :
  find_all dir pattern = Some (default [] (glob dir pattern)).
Proof.
  unfold find_all, find, find_first_file. destruct (glob dir pattern) as [names |]; [| done].
  unfold find_next_file. cbn [matches default cur]. destruct names as [| x names]; [done |].
  apply (search_loop_spec (x :: names) 0 0); [cbn; lia | done].
Qed.
