(* ===== verification/Config.v ===== *)
(** * [app_config.cpp] and [mimetype.cpp]: configuration files and the MIME type table.

    Both read a text file line by line.  [do_load] keeps the parameters in nested [std::map]s
    and follows "@include" lines through the file system, changing the current directory on
    the way; its recursion is bounded by a fuel, as a file may include itself. *)
From S2P Require Export StdMap Filesys StrUtils Strtod.

Abbreviation strindex := (list (str * str)).

Abbreviation sections := (list (str * strindex)).

(** ** Lines *)
Inductive config_line :=
  | Blank
  | Section_line (name : str)
  | Param (key value : str)
  | Include (pattern : str)
  | Other.

(** [line.substr(1, line.find(']') - 1)] *)
Definition section_name (line : str) : str :=
  match find_char "]"%char line with
  | Some pos => trim (substr 1 (pos - 1) line)
  | None => trim (drop 1 line)
  end.

(** What the loop makes of a trimmed line. *)
Definition classify (line : str) : config_line :=
  match line with
  | [] => Blank
  | ("#" | ";")%char :: _ => Blank
  | "["%char :: _ => Section_line (section_name line)
  | _ =>
      match find_first_of (lit "=") line 1 with
      | None => Other
      | Some pos =>
          let key := trim (substr 0 pos line) in
          let v := trim (drop (pos + 1) line) in
          if str_eqb key (lit "@include") then Include v else Param key v
      end
  end.

(** [options[section][key] = value] *)
Definition set_option (section key value : str) (o : sections) : sections :=
  map_set str_less section
    (map_set str_less key value (default [] (map_find str_less section o))) o.

(** ** Loading *)
Record config_state := Config {
  options : sections;
  cwd : str }.

Section load.
Context `{Posix}.

Definition not_found : exn :=
  Exn app_config_exception (lit "configuration file not found; default values will be used").

(** Loading the files of an "@include" line, one after the other. *)
Fixpoint load_files (load : str → config_state → option (outcome unit * config_state))
    (names : list str) (s : config_state) : option (outcome unit * config_state) :=
  match names with
  | [] => Some (Ret (), s)
  | n :: ns =>
      match load n s with
      | Some (Ret _, s') => load_files load ns s'
      | r => r
      end
  end.

(** The include: to the directory of the including file, load, and back.  An exception leaves
    the directory as it is. *)
Definition include (load : str → config_state → option (outcome unit * config_state))
    (name pattern : str) (s : config_state) : option (outcome unit * config_state) :=
  let tmp := cwd s in
  let '(path, f_name) := tokenize_pair name [] [] true (lit "/\") in
  let s1 := match path with [] => s | _ => Config (options s) (chdir (cwd s) path) end in
  match find_all (cwd s1) pattern with
  | None => None
  | Some names =>
      match load_files load names s1 with
      | Some (Ret _, s2) => Some (Ret (), Config (options s2) (chdir (cwd s2) tmp))
      | r => r
      end
  end.

(** The loop over the lines, [section] being the current one. *)
Fixpoint load_lines (load : str → config_state → option (outcome unit * config_state))
    (name : str) (lines : list str) (section : str) (s : config_state)
    : option (outcome unit * config_state) :=
  match lines with
  | [] => Some (Ret (), s)
  | l :: ls =>
      match classify (trim l) with
      | Blank | Other => load_lines load name ls section s
      | Section_line sec => load_lines load name ls sec s
      | Param k v =>
          load_lines load name ls section (Config (set_option section k v (options s)) (cwd s))
      | Include pattern =>
          match include load name pattern s with
          | Some (Ret _, s') => load_lines load name ls section s'
          | r => r
          end
      end
  end.

(** [do_load(name)]; [depth] bounds the nesting of includes. *)
Fixpoint do_load (depth : nat) (name : str) (s : config_state)
    : option (outcome unit * config_state) :=
  match depth with
  | O => None
  | S d =>
      match open_file (cwd s) (c_str name) with
      | None => Some (Throw not_found, s)
      | Some text =>
          match read_lines (length text + 2) (of_string text) with
          | Some lines => load_lines (do_load d) name lines [] s
          | None => None
          end
      end
  end.

Definition clear (s : config_state) : config_state := Config [] (cwd s).

Definition load_from_file (depth : nat) (name : str) (s : config_state)
    : option (outcome unit * config_state) := do_load depth name (clear s).
End load.

(** ** Values *)
Definition value_string (section name def_value : str) (o : sections) : str :=
  match map_find str_less section o with
  | None => def_value
  | Some i => default def_value (map_find str_less name i)
  end.

Definition value_int (section name : str) (def_value : Z) (o : sections) : Z :=
  from_string_int (value_string section name (to_string_int def_value) o).

Definition value_double (section name : str) (def_value : double) (o : sections) : outcome double :=
  from_string_double (value_string section name (to_string_double def_value) o).

(** [to_string<bool>] prints 1 or 0. *)
Definition value_bool (section name : str) (def_value : bool) (o : sections) : bool :=
  let s := value_string section name (if def_value then lit "1" else lit "0") o in
  compare s (lit "YES") || compare s (lit "ON") || compare s (lit "TRUE") || compare s (lit "1").

Definition get_section (name : str) (o : sections) : strindex :=
  default [] (map_find str_less name o).

(** ** [mimetype] *)
Record mimetype := Mimetype { mime : strindex; default_type : str }.

Fixpoint add_extensions (exts : list str) (m_type : str) (m : strindex) : strindex :=
  match exts with
  | [] => m
  | e :: es =>
      add_extensions es m_type (match e with [] => m | _ => map_set str_less e m_type m end)
  end.

Definition mime_line (l : str) (m : strindex) : strindex :=
  let line := trim l in
  match line with
  | [] => m
  | ("#" | ";")%char :: _ => m
  | _ =>
      match find_first_of [" "%char; chr 9] line 1 with
      | None => m
      | Some pos =>
          add_extensions (tokenize (trim (drop (pos + 1) line)) [" "%char; chr 9])
            (substr 0 pos line) m
      end
  end.

(** [load_from_file]: a file that cannot be opened has no line. *)
Definition mime_load `{Posix} (dir name : str) (m : mimetype) : option mimetype :=
  match open_file dir (c_str name) with
  | None => Some m
  | Some text =>
      match read_lines (length text + 2) (of_string text) with
      | Some lines => Some (Mimetype (foldl (λ a l, mime_line l a) (mime m) lines) (default_type m))
      | None => None
      end
  end.

(** [mimetype()], [sysconf] being the system configuration directory. *)
Definition mimetype_new `{Posix} (dir sysconf : str) : option mimetype :=
  m ← mime_load dir (sysconf ++ path_delimiter ++ lit "mime.types")
        (Mimetype [] (lit "text/plain"));
  mime_load dir (home_dir ++ path_delimiter ++ lit ".mime.types") m.

Definition register_type (ext mime_type : str) (m : mimetype) : mimetype :=
  Mimetype (map_set str_less ext mime_type (mime m)) (default_type m).

Definition mimetype_of (m : mimetype) (filename : str) : str :=
  let '(name, ext) := tokenize_pair filename [] [] true (lit ".") in
  default (default_type m) (map_find str_less ext (mime m)).

(** ** Lemmas: lines *)
Definition comment_start : str := lit "#;[".

(** A section or parameter that survives being printed and read. *)
Definition name_ok (n : str) : Prop :=
  trimmed n ∧ free (lit "]") n ∧ newline ∉ n.

Definition param_ok (e : str * str) : Prop :=
  e.1 ≠ [] ∧ trimmed e.1 ∧ free (lit "=") e.1 ∧ (newline ∉ e.1) ∧ e.1 ≠ lit "@include" ∧
  match e.1 with c :: _ => in_set comment_start c = false | [] => True end ∧
  trimmed e.2 ∧ newline ∉ e.2.

Definition section_line (n : str) : str := "["%char :: n ++ ["]"%char].

Definition param_line (e : str * str) : str := e.1 ++ lit "=" ++ e.2.

Lemma classify_section n :
  name_ok n → classify (trim (section_line n)) = Section_line n.
Proof.
  intros (Ht & Hf & _). rewrite trim_id by by apply trimmed_ends. unfold section_line, classify, section_name.
  change ("["%char :: n ++ ["]"%char]) with (("["%char :: n) ++ "]"%char :: []).
  unfold find_char. rewrite find_index_app_l; [| | done].
  - unfold substr. cbn [app drop length]. rewrite Nat.sub_succ, Nat.sub_0_r.
    rewrite drop_0, take_app_length. by rewrite trim_id.
  - constructor; [done |]. eapply Forall_impl; [exact Hf |]. cbn. intros c Hc%in_set_false.
    apply bool_decide_eq_false. intros <-. apply Hc. by left.
Qed.

Lemma classify_param e :
  param_ok e → classify (trim (param_line e)) = Param e.1 e.2.
Proof.
  destruct e as [k v]. intros (Hne & Hk & Hf & _ & Hinc & Hc & Hv & _). cbn [fst snd] in *.
  unfold param_line. cbn [fst snd]. rewrite trim_id by by apply trimmed_key_value.
  assert (find_first_of (lit "=") (k ++ lit "=" ++ v) 1 = Some (length k)) as Hpos.
  { destruct k as [| a k]; [done |]. inv Hf. unfold find_first_of.
    change (drop 1 ((a :: k) ++ lit "=" ++ v)) with (k ++ "="%char :: v).
    by rewrite find_index_app_l. }
  assert (trim (substr 0 (length k) (k ++ lit "=" ++ v)) = k) as Hsub.
  { unfold substr. rewrite drop_0, take_app_length. by apply trim_id. }
  assert (trim (drop (length k + 1) (k ++ lit "=" ++ v)) = v) as Hdrop.
  { rewrite <- drop_drop, drop_app_length. change (drop 1 (lit "=" ++ v)) with v. by apply trim_id. }
  assert (classify (k ++ lit "=" ++ v) =
    match find_first_of (lit "=") (k ++ lit "=" ++ v) 1 with
    | None => Other
    | Some pos =>
        let key := trim (substr 0 pos (k ++ lit "=" ++ v)) in
        let v' := trim (drop (pos + 1) (k ++ lit "=" ++ v)) in
        if str_eqb key (lit "@include") then Include v' else Param key v'
    end) as ->.
  { destruct k as [| c k]; [done |]. cbn [app]. unfold classify.
    assert (c ≠ "#"%char ∧ c ≠ ";"%char ∧ c ≠ "["%char) as (H1 & H2 & H3).
    { repeat split; intros ->; by vm_compute in Hc. }
    clear -H1 H2 H3. destruct c as [[] [] [] [] [] [] [] []]; first [done | by destruct H1 | by destruct H2 | by destruct H3]. }
  rewrite Hpos. cbv zeta. rewrite Hsub, Hdrop. unfold str_eqb. by rewrite bool_decide_false.
Qed.

(** ** Lemmas: filling the options *)
Lemma find_last n (x : strindex) (o : sections) :
  Forall (λ e, str_less e.1 n = true) o → map_find str_less n (o ++ [(n, x)]) = Some x.
Proof.
  induction 1 as [| [k v] o Hk _ IH]; cbn in *; [by rewrite less_irrefl |]. by rewrite Hk.
Qed.

Lemma find_absent n (o : sections) :
  Forall (λ e, str_less e.1 n = true) o → map_find str_less n o = None.
Proof. induction 1 as [| [k v] o Hk _ IH]; cbn in *; [done |]. by rewrite Hk. Qed.

Lemma set_replace n (x y : strindex) (o : sections) :
  Forall (λ e, str_less e.1 n = true) o → map_set str_less n y (o ++ [(n, x)]) = o ++ [(n, y)].
Proof.
  induction 1 as [| [k v] o Hk _ IH]; cbn in *; [by rewrite less_irrefl |]. by rewrite Hk, IH.
Qed.

Lemma fill_section n (opts done_ : strindex) (o : sections) :
  Forall (λ e, str_less e.1 n = true) o → map_sorted str_less (done_ ++ opts) → done_ ≠ [] →
  foldl (λ a e, set_option n e.1 e.2 a) (o ++ [(n, done_)]) opts = o ++ [(n, done_ ++ opts)].
Proof.
  intros Ho. revert done_. induction opts as [| [k v] opts IH]; intros done_ Hs Hne; cbn [foldl].
  - by rewrite app_nil_r.
  - unfold set_option at 2. cbn [fst snd]. rewrite find_last by done. cbn [default]. unfold id.
    rewrite set_replace by done.
    assert (map_set str_less k v done_ = done_ ++ [(k, v)]) as ->.
    { apply map_set_last. clear IH Hne. induction done_ as [| e d IHd]; [constructor |].
      cbn in Hs. inv Hs. constructor; [| by apply IHd]. rewrite Forall_app, Forall_cons in *. tauto. }
    rewrite IH; [by rewrite <- app_assoc | by rewrite <- app_assoc | by destruct done_].
Qed.

Lemma fill_new_section n (opts : strindex) (o : sections) :
  Forall (λ e, str_less e.1 n = true) o → map_sorted str_less opts → opts ≠ [] →
  foldl (λ a e, set_option n e.1 e.2 a) o opts = o ++ [(n, opts)].
Proof.
  intros Ho Hs Hne. destruct opts as [| [k v] opts]; [done |]. cbn [foldl].
  unfold set_option at 2. cbn [fst snd]. rewrite find_absent by done. cbn [default map_set].
  rewrite map_set_last by done. by apply (fill_section n opts [(k, v)]).
Qed.

(** ** Lemmas: a printed configuration *)
Definition section_lines (e : str * strindex) : list str :=
  section_line e.1 :: (param_line <$> e.2).

Definition config_lines (o : sections) : list str := concat (section_lines <$> o).

Definition config_text (o : sections) : str := unlines (config_lines o).

Definition config_ok (o : sections) : Prop :=
  map_sorted str_less o ∧
  Forall (λ e, name_ok e.1 ∧ e.2 ≠ [] ∧ map_sorted str_less e.2 ∧ Forall param_ok e.2) o.

Section printed.
Context `{Posix} (load : str → config_state → option (outcome unit * config_state)) (name : str).

Lemma load_params ps ls sec o dir :
  Forall param_ok ps →
  load_lines load name ((param_line <$> ps) ++ ls) sec (Config o dir)
  = load_lines load name ls sec (Config (foldl (λ a e, set_option sec e.1 e.2 a) o ps) dir).
Proof.
  intros Hps. revert o. induction Hps as [| e ps He _ IH]; intros o; [done |].
  cbn [fmap list_fmap app load_lines]. rewrite classify_param by done. apply IH.
Qed.

Lemma load_sections o acc sec dir :
  map_sorted str_less (acc ++ o) →
  Forall (λ e, name_ok e.1 ∧ e.2 ≠ [] ∧ map_sorted str_less e.2 ∧ Forall param_ok e.2) o →
  load_lines load name (config_lines o) sec (Config acc dir) = Some (Ret (), Config (acc ++ o) dir).
Proof.
  intros Hs Ho. revert acc sec Hs. induction Ho as [| [n ps] o (Hn & Hne & Hsp & Hps) _ IH];
    intros acc sec Hs; [by rewrite app_nil_r |].
  cbn [fst snd] in *. unfold config_lines. cbn [fmap list_fmap concat section_lines fst snd app load_lines].
  rewrite classify_section by done. rewrite load_params by done. fold (config_lines o).
  rewrite fill_new_section; [| | done | done].
  - rewrite IH by by rewrite <- app_assoc. by rewrite <- app_assoc.
  - clear -Hs. induction acc as [| e acc IHa]; [constructor |]. cbn in Hs. inv Hs.
    constructor; [| by apply IHa]. rewrite Forall_app, Forall_cons in *. by destruct H2 as (_ & ? & _).
Qed.
End printed.

Lemma config_lines_newline o :
  config_ok o → Forall (λ l, newline ∉ l) (config_lines o).
Proof.
  intros [_ Ho]. unfold config_lines. apply Forall_concat, Forall_fmap.
  eapply Forall_impl; [exact Ho |]. intros [n ps] ((_ & _ & Hn) & _ & _ & Hps). cbn [fst snd compose] in *.
  constructor.
  - unfold section_line. rewrite not_elem_of_cons, elem_of_app, list_elem_of_singleton.
    split; [done |]. by intros [? | ?].
  - apply Forall_fmap. eapply Forall_impl; [exact Hps |]. intros e (_ & _ & _ & Hk & _ & _ & _ & Hv).
    cbn. unfold param_line. change (lit "=" ++ e.2) with ("="%char :: e.2).
    rewrite elem_of_app, elem_of_cons. by intros [? | [? | ?]].
Qed.

(** ** Lemmas: the current directory *)
Section directory.
Context `{Posix} (directory : str → Prop) `{!PosixLaws directory}.

(** Loads that come back without an exception come back to the directory they started in. *)
Definition keeps_cwd (load : str → config_state → option (outcome unit * config_state)) : Prop :=
  ∀ name s u s', directory (cwd s) → load name s = Some (Ret u, s') → cwd s' = cwd s.

Lemma load_files_cwd load names s u s' :
  keeps_cwd load → directory (cwd s) →
  load_files load names s = Some (Ret u, s') → cwd s' = cwd s.
Proof.
  intros Hl. revert s. induction names as [| n ns IH]; intros s Hd; cbn [load_files]; [by intros [= <- <-] |].
  destruct (load n s) as [[[?|?|] s1] |] eqn:E; [| done..]. intros Hr.
  apply Hl in E as E'; [| done]. rewrite <- E'. apply (IH s1); [by rewrite E' | done].
Qed.

Lemma include_cwd load name pattern s u s' :
  keeps_cwd load → directory (cwd s) →
  include load name pattern s = Some (Ret u, s') → cwd s' = cwd s.
Proof.
  intros Hl Hd. unfold include. destruct (tokenize_pair _ _ _ _ _) as [path f_name]. cbv zeta.
  destruct (find_all _ _); [| done]. destruct (load_files _ _ _) as [[[?|?|] s2] |]; [| done..].
  intros [= <- <-]. cbn [cwd]. by rewrite chdir_directory.
Qed.

Lemma load_lines_cwd load name lines sec s u s' :
  keeps_cwd load → directory (cwd s) →
  load_lines load name lines sec s = Some (Ret u, s') → cwd s' = cwd s.
Proof.
  intros Hl. revert sec s. induction lines as [| l ls IH]; intros sec s Hd; cbn [load_lines];
    [by intros [= <- <-] |].
  destruct (classify (trim l)) as [| ? | k v | pattern |];
    [by apply IH | by apply IH | by intros Hr; apply IH in Hr | | by apply IH].
  destruct (include _ _ _ _) as [[[?|?|] s1] |] eqn:E; [| done..]. intros Hr.
  apply include_cwd in E as E'; [| done..]. rewrite <- E'. apply (IH sec); [by rewrite E' | done].
Qed.

Lemma do_load_cwd depth : keeps_cwd (do_load depth).
Proof.
  induction depth as [| d IH]; intros name s u s' Hd; cbn [do_load]; [done |].
  destruct (open_file _ _); [| done]. destruct (read_lines _ _); [| done]. by apply load_lines_cwd.
Qed.
End directory.

(** ** Properties *)

(** C15. A configuration file that prints, in the order of the keys, every section as "[name]"
    and every parameter as "key=value" loads as exactly these options, whatever was there
    before, and leaves the directory alone. *)
Theorem config_roundtrip `{Posix} o depth name s :
  config_ok o → open_file (cwd s) (c_str name) = Some (config_text o) →
  load_from_file (S depth) name s = Some (Ret (), Config o (cwd s)).
Proof.
  intros Ho Hf. unfold load_from_file, clear. cbn [do_load cwd]. rewrite Hf.
  rewrite read_lines_text by (done || cbn; lia).
  change (rest (of_string (config_text o))) with (config_text o). unfold config_text.
  rewrite text_lines_unlines by by apply config_lines_newline.
  destruct Ho. by apply load_sections.
Qed.

(** A load that ends without an exception ends in the directory it started in, however
    many files it included from whichever directories. *)
Theorem config_keeps_cwd `{Posix} (directory : str → Prop) `{!PosixLaws directory} depth name s s' :
  directory (cwd s) → load_from_file depth name s = Some (Ret (), s') → cwd s' = cwd s.
Proof. intros Hd Hl. by apply (do_load_cwd directory depth) in Hl. Qed.

(** ** Witnesses *)

(** A file system with the files of [files], named absolutely, and the directories "/" and
    "/etc"; only the pattern "sub/x.conf" matches a file. *)
Definition toy_files : list (str * str) :=
  [(lit "/etc/main.conf", lit "@include=sub/x.conf");
   (lit "/sub.conf", lit "[net]
port=80
")].

Definition toy_posix : Posix := {|
  chdir dir name := if str_eqb name (lit "/") then name
                    else if str_eqb name (lit "/etc") then name else dir;
  glob dir pattern := if str_eqb pattern (lit "sub/x.conf") then Some [lit "/sub.conf"] else None;
  open_file dir name := snd <$> List.find (λ e, str_eqb e.1 name) toy_files |}.

Definition toy_directory (d : str) : Prop := d = lit "/" ∨ d = lit "/etc".

Lemma toy_laws : @PosixLaws toy_posix toy_directory.
Proof.
  split.
  - intros dir dir' [-> | ->]; reflexivity.
  - intros dir name Hd. cbn [chdir toy_posix].
    destruct (str_eqb name (lit "/")) eqn:E1; [left; by apply bool_decide_eq_true in E1 |].
    destruct (str_eqb name (lit "/etc")) eqn:E2; [right; by apply bool_decide_eq_true in E2 | done].
Qed.

Definition net_options : sections := [(lit "net", [(lit "port", lit "80")])].

Lemma net_options_ok : config_ok net_options.
Proof.
  assert (∀ s, trim s = s → trimmed s) as Ht by (intros s <-; apply trim_trimmed).
  assert (∀ c s, in_set s c = false → c ∉ s) as Hn by (intros c s; apply in_set_false).
  split; [repeat constructor |]. apply List.Forall_cons; [| constructor].
  split; [split_and!; [by apply Ht | by repeat constructor | by apply Hn] |].
  split; [done |]. split; [repeat constructor |]. apply List.Forall_cons; [| constructor].
  repeat split; [done | by apply Ht | by repeat constructor | by apply Hn | done.. | by apply Ht |
    by apply Hn].
Qed.

Lemma config_roundtrip_witness :
  @load_from_file toy_posix 1 (lit "/sub.conf") (Config [] (lit "/"))
  = Some (Ret (), Config net_options (lit "/")).
Proof.
  exact (@config_roundtrip toy_posix net_options 0 (lit "/sub.conf") (Config [] (lit "/"))
    net_options_ok ltac:(vm_compute; reflexivity)).
Defined.

Lemma config_keeps_cwd_witness :
  @load_from_file toy_posix 2 (lit "/etc/main.conf") (Config [] (lit "/"))
  = Some (Ret (), Config net_options (lit "/")) ∧
  cwd (Config net_options (lit "/")) = cwd (Config [] (lit "/")).
Proof.
  assert (@load_from_file toy_posix 2 (lit "/etc/main.conf") (Config [] (lit "/"))
    = Some (Ret (), Config net_options (lit "/"))) as Hl by (vm_compute; reflexivity).
  split; [exact Hl |].
  apply (@config_keeps_cwd toy_posix toy_directory toy_laws 2 (lit "/etc/main.conf") _ _);
    [by left | exact Hl].
Defined.
