(* ===== verification/Connection.v ===== *)
(** * [connection.cpp]: ODBC connections

    The ODBC driver manager is the class [Odbc]: the calls the sources make, as functions on a
    state of the driver that holds the environment, one connection and one statement.
    [OdbcConnLaws] states the documented effect of the calls on the connection. *)
From S2P Require Export StrUtils.

Inductive SQLRETURN : Set :=
  | SQL_SUCCESS
  | SQL_SUCCESS_WITH_INFO
  | SQL_NO_DATA
  | SQL_ERROR
  | SQL_INVALID_HANDLE
  | SQL_NEED_DATA
  | SQL_STILL_EXECUTING.

#[global] Instance SQLRETURN_eq_dec : EqDecision SQLRETURN.
Proof. solve_decision. Defined.

(** The values of the attributes the sources set. *)
Inductive txn_isolation : Set :=
  | SQL_TXN_READ_UNCOMMITTED
  | SQL_TXN_READ_COMMITTED
  | SQL_TXN_REPEATABLE_READ
  | SQL_TXN_SERIALIZABLE.

Inductive connect_attr : Set :=
  | SQL_ATTR_TXN_ISOLATION (level : txn_isolation)
  | SQL_ATTR_AUTOCOMMIT (on : bool).

Inductive env_attr : Set :=
  | SQL_ATTR_CONNECTION_POOLING
  | SQL_ATTR_ODBC_VERSION.

Inductive handle_type : Set :=
  | SQL_HANDLE_ENV
  | SQL_HANDLE_DBC
  | SQL_HANDLE_STMT.

(** The calls.  [SQLGetDiagRec] gives what is in the state and text buffers after the call for
    the first diagnostic record of a handle; [SQLGetData column size] the contents of the buffer of [size] bytes and the
    length or indicator after the call. *)
Class Odbc (driver : Type) := {
  SQLSetEnvAttr : env_attr → driver → SQLRETURN * driver;
  SQLAllocHandle : handle_type → driver → SQLRETURN * driver;
  SQLFreeHandle : handle_type → driver → driver;
  SQLGetDiagRec : handle_type → driver → SQLRETURN * str * str;
  SQLConnect : str → str → str → driver → SQLRETURN * driver;
  SQLDriverConnect : str → driver → SQLRETURN * driver;
  SQLDisconnect : driver → SQLRETURN * driver;
  SQLSetConnectAttr : connect_attr → driver → SQLRETURN * driver;
  SQLEndTran : bool → driver → SQLRETURN * driver;
  SQLPrepare : str → driver → SQLRETURN * driver;
  SQLBindParameter : Z → option str → driver → SQLRETURN * driver;
  SQLExecute : driver → SQLRETURN * driver;
  SQLExecDirect : str → driver → SQLRETURN * driver;
  SQLCloseCursor : driver → driver;
  SQLNumResultCols : driver → SQLRETURN * Z * driver;
  SQLDescribeCol : Z → driver → SQLRETURN * str * driver;
  SQLFetch : driver → SQLRETURN * driver;
  SQLGetData : Z → Z → driver → SQLRETURN * str * Z * driver }.

(** [(r == SQL_SUCCESS) || (r == SQL_SUCCESS_WITH_INFO)] *)
Definition succeeded (r : SQLRETURN) : bool :=
  match r with SQL_SUCCESS | SQL_SUCCESS_WITH_INFO => true | _ => false end.

(** [get_error] of a connection and of a query. *)
Definition get_error `{Odbc driver} (h : handle_type) (d : driver) : str :=
  match SQLGetDiagRec h d with
  | (SQL_SUCCESS, odbc_error, message) => lit "[" ++ odbc_error ++ lit "]" ++ message
  | _ => []
  end.

(** ** [connection] *)
Record connection (driver : Type) := Connection {
  hdbc : bool;
  _is_open : bool;
  conn_driver : driver }.
Arguments Connection {driver} hdbc _is_open conn_driver.
Arguments hdbc {driver}.
Arguments _is_open {driver}.
Arguments conn_driver {driver}.

Section connection.
Context `{Odbc driver}.
Implicit Types c : connection driver.

Definition with_driver c (d : driver) : connection driver := Connection (hdbc c) (_is_open c) d.

Definition conn_call (f : driver → SQLRETURN * driver) : stm (connection driver) SQLRETURN :=
  λ c, let '(r, d) := f (conn_driver c) in (Ret r, with_driver c d).

Definition set_open (b : bool) : stm (connection driver) unit :=
  λ c, (Ret (), Connection (hdbc c) b (conn_driver c)).

(** [throw connection_exception((format(msg) % args % get_error()).str())] *)
Definition throw_error (msg : str) (args : list str) : stm (connection driver) unit :=
  λ c, (m ← format_str (Format msg (args ++ [get_error SQL_HANDLE_DBC (conn_driver c)]));
        Throw (Exn connection_exception m), c).

(** The statement [if ((r != SQL_SUCCESS) && (r != SQL_SUCCESS_WITH_INFO)) throw ...]. *)
Definition check_call (r : SQLRETURN) (msg : str) (args : list str) : stm (connection driver) unit :=
  if succeeded r then mret () else throw_error msg args.

(** [environment::environment]: the driver afterwards, or the exception. *)
Definition environment_new (d : driver) : outcome unit * driver :=
  let '(r, d1) := SQLSetEnvAttr SQL_ATTR_CONNECTION_POOLING d in
  if negb (succeeded r) then (Throw (Exn connection_exception (lit "Can't initialize ODBC environment")), d1) else
  let '(r, d2) := SQLAllocHandle SQL_HANDLE_ENV d1 in
  if negb (succeeded r) then (Throw (Exn connection_exception (lit "Can't allocate ODBC environment handle")), d2) else
  let '(r, d3) := SQLSetEnvAttr SQL_ATTR_ODBC_VERSION d2 in
  if negb (succeeded r) then (Throw (Exn connection_exception (lit "Can't setup ODBC environment version")), d3) else
  (Ret (), d3).

(** [connection::connection], the environment being there. *)
Definition connection_new (d : driver) : outcome (connection driver) * driver :=
  let '(r, d1) := SQLAllocHandle SQL_HANDLE_DBC d in
  if succeeded r then (Ret (Connection true false d1), d1)
  else (Throw (Exn connection_exception (lit "Can't allocate ODBC connection handle")), d1).

Definition conn_close : stm (connection driver) unit := λ c,
  (if _is_open c then _ ← conn_call SQLDisconnect; set_open false else set_open false) c.

(** [connection::~connection] *)
Definition conn_destroy c : driver :=
  let d := conn_driver (snd (conn_close c)) in
  if hdbc c then SQLFreeHandle SQL_HANDLE_DBC d else d.

Definition open_dsn (dsn user_name password : str) : stm (connection driver) unit :=
  _ ← conn_close;
  r ← conn_call (SQLConnect (c_str dsn) (c_str user_name) (c_str password));
  _ ← check_call r (lit "Can't open the database {0}: {1}") [dsn];
  set_open true.

Definition open_string (connect_string : str) : stm (connection driver) unit :=
  _ ← conn_close;
  r ← conn_call (SQLDriverConnect connect_string);
  _ ← check_call r (lit "Can't open the database: {0}") [];
  set_open true.

Inductive transaction_isolation : Set :=
  | READ_UNCOMMITTED
  | READ_COMMITTED
  | REPEATABLE_READ
  | SERIALIZABLE.

Definition isolation_level (level : transaction_isolation) : txn_isolation :=
  match level with
  | READ_UNCOMMITTED => SQL_TXN_READ_UNCOMMITTED
  | READ_COMMITTED => SQL_TXN_READ_COMMITTED
  | REPEATABLE_READ => SQL_TXN_REPEATABLE_READ
  | SERIALIZABLE => SQL_TXN_SERIALIZABLE
  end.

Definition begin_transaction (level : transaction_isolation) : stm (connection driver) unit :=
  r ← conn_call (SQLSetConnectAttr (SQL_ATTR_TXN_ISOLATION (isolation_level level)));
  _ ← check_call r (lit "Can't setup the transaction isolation level: {0}") [];
  r ← conn_call (SQLSetConnectAttr (SQL_ATTR_AUTOCOMMIT false));
  check_call r (lit "Can't turn off autocommit mode: {0}") [].

Definition commit : stm (connection driver) unit :=
  r ← conn_call (SQLEndTran true);
  _ ← check_call r (lit "Transaction commit failed: {0}") [];
  r ← conn_call (SQLSetConnectAttr (SQL_ATTR_AUTOCOMMIT true));
  check_call r (lit "Can't turn on autocommit mode: {0}") [].

Definition rollback : stm (connection driver) unit :=
  r ← conn_call (SQLEndTran false);
  _ ← check_call r (lit "Transaction rollback failed: {0}") [];
  r ← conn_call (SQLSetConnectAttr (SQL_ATTR_AUTOCOMMIT true));
  check_call r (lit "Can't turn on autocommit mode: {0}") [].

(** A client's calls, one after the other: an exception is caught before the next one. *)
Inductive conn_op : Set :=
  | Op_open (dsn user_name password : str)
  | Op_open_string (connect_string : str)
  | Op_close
  | Op_begin (level : transaction_isolation)
  | Op_commit
  | Op_rollback.

Definition conn_op_run (o : conn_op) : stm (connection driver) unit :=
  match o with
  | Op_open a b p => open_dsn a b p
  | Op_open_string s => open_string s
  | Op_close => conn_close
  | Op_begin l => begin_transaction l
  | Op_commit => commit
  | Op_rollback => rollback
  end.

Definition conn_run (ops : list conn_op) c : connection driver :=
  foldl (λ c o, snd (conn_op_run o c)) c ops.
End connection.

(** ** The documented effect of the calls on a connection *)
Class OdbcConnLaws (driver : Type) `{Odbc driver} := {
  connected : driver → bool;
  autocommit : driver → bool;
  connect_law : ∀ a b p d, let '(r, d') := SQLConnect a b p d in
    connected d' = if succeeded r then true else connected d;
  driver_connect_law : ∀ s d, let '(r, d') := SQLDriverConnect s d in
    connected d' = if succeeded r then true else connected d;
  disconnect_law : ∀ d, let '(r, d') := SQLDisconnect d in
    connected d' = if succeeded r then false else connected d;
  set_attr_law : ∀ a d, let '(r, d') := SQLSetConnectAttr a d in
    connected d' = connected d ∧
    autocommit d' = match a with
                    | SQL_ATTR_AUTOCOMMIT b => if succeeded r then b else autocommit d
                    | _ => autocommit d
                    end;
  end_tran_law : ∀ b d, let '(r, d') := SQLEndTran b d in
    connected d' = connected d ∧ autocommit d' = autocommit d }.

Section laws.
Context `{OdbcConnLaws driver}.
Implicit Types c : connection driver.

(** ** Lemmas *)
Lemma check_call_spec r msg args c :
  (succeeded r = true ∧ check_call r msg args c = (Ret (), c)) ∨
  (succeeded r = false ∧ (∃ o, check_call r msg args c = (o, c) ∧ o ≠ Ret ())).
Proof.
  unfold check_call. destruct (succeeded r); [by left |]. right. split; [done |].
  eexists. split; [reflexivity |]. by destruct (format_str _).
Qed.

Lemma conn_close_eq c :
  conn_close c = (Ret (), Connection (hdbc c) false
    (if _is_open c then snd (SQLDisconnect (conn_driver c)) else conn_driver c)).
Proof.
  unfold conn_close. destruct (_is_open c); [| done]. unfold mbind, stm_bind, conn_call.
  by destruct (SQLDisconnect _).
Qed.

Lemma disconnect_connected d :
  connected (snd (SQLDisconnect d))
  = if succeeded (fst (SQLDisconnect d)) then false else connected d.
Proof. pose proof (disconnect_law d). by destruct (SQLDisconnect d). Qed.

Lemma closed_driver c :
  (∀ d, succeeded (fst (SQLDisconnect d)) = true) → _is_open c = connected (conn_driver c) →
  connected (conn_driver (snd (conn_close c))) = false.
Proof.
  intros Hd He. rewrite conn_close_eq. cbn. destruct (_is_open c); [| done].
  by rewrite disconnect_connected, Hd.
Qed.

Definition open_sound c : Prop := _is_open c = true → connected (conn_driver c) = true.

Definition open_exact c : Prop := _is_open c = connected (conn_driver c).

(** Both ways to open: close, then one call that connects on success only. *)
Lemma open_with f msg args c :
  (∀ d, let '(r, d') := f d in connected d' = if succeeded r then true else connected d) →
  let c' := snd ((_ ← conn_close; r ← conn_call f; _ ← check_call r msg args; set_open true) c) in
  open_sound c' ∧
  ((∀ d, succeeded (fst (SQLDisconnect d)) = true) → open_exact c → open_exact c').
Proof.
  intros Hf. pose proof (closed_driver c) as Hc. revert Hc. unfold mbind, stm_bind.
  rewrite conn_close_eq. cbn [snd conn_driver]. generalize (if _is_open c then snd (SQLDisconnect (conn_driver c)) else conn_driver c) as d0.
  intros d0 Hc. unfold conn_call. cbn [conn_driver]. specialize (Hf d0). destruct (f d0) as [r d].
  unfold open_sound, open_exact.
  edestruct (check_call_spec r msg args) as [[Hr ->] | (Hr & o & -> & Ho)]; rewrite Hr in Hf.
  - cbn. by rewrite Hf.
  - destruct o as [[] | |]; cbn; rewrite Hf; (split; [done |]); intros Hd He; by rewrite Hc.
Qed.

(** A call that keeps [connected], and then one that sets the autocommit mode. *)
Lemma attr_with f b msg1 msg2 c :
  (∀ d, let '(r, d') := f d in connected d' = connected d ∧ autocommit d' = autocommit d) →
  let '(o, c') := (r ← conn_call f; _ ← check_call r msg1 [];
     r ← conn_call (SQLSetConnectAttr (SQL_ATTR_AUTOCOMMIT b)); check_call r msg2 []) c in
  _is_open c' = _is_open c ∧ connected (conn_driver c') = connected (conn_driver c) ∧
  autocommit (conn_driver c') =
    match o with Ret _ => b | _ => autocommit (conn_driver c) end.
Proof.
  intros Hf. unfold mbind, stm_bind, conn_call at 1. specialize (Hf (conn_driver c)).
  destruct (f _) as [r d]. destruct Hf as [Hf1 Hf2].
  destruct (check_call_spec r msg1 [] (with_driver c d)) as [[_ ->] | (_ & o & -> & Ho)].
  - unfold conn_call. cbn [with_driver conn_driver]. pose proof (set_attr_law (SQL_ATTR_AUTOCOMMIT b) d) as Hs.
    destruct (SQLSetConnectAttr _ d) as [r' d']. destruct Hs as [Hs1 Hs2].
    edestruct (check_call_spec r' msg2 []) as [[Hr ->] | (Hr & o & -> & Ho)]; rewrite Hr in Hs2; cbn;
      rewrite Hs1, Hs2; [done |].
    by destruct o as [[] | |].
  - destruct o as [[] | |]; cbn; by rewrite ?Hf1, ?Hf2.
Qed.

Lemma op_open o c :
  (open_sound c → open_sound (snd (conn_op_run o c))) ∧
  ((∀ d, succeeded (fst (SQLDisconnect d)) = true) →
   open_exact c → open_exact (snd (conn_op_run o c))).
Proof.
  assert (∀ b (p : outcome unit * connection driver), (let '(o, c') := p in
    _is_open c' = _is_open c ∧ connected (conn_driver c') = connected (conn_driver c) ∧
    autocommit (conn_driver c') = match o with Ret _ => b | _ => autocommit (conn_driver c) end) →
    (open_sound c → open_sound (snd p)) ∧
    ((∀ d, succeeded (fst (SQLDisconnect d)) = true) → open_exact c → open_exact (snd p))) as Hk.
  { intros b [o' c'] (H1 & H2 & _). unfold open_sound, open_exact. cbn. by rewrite H1, H2. }
  destruct o as [a b p | s | | l | |]; cbn [conn_op_run].
  - edestruct (open_with (SQLConnect (c_str a) (c_str b) (c_str p))); [apply connect_law | eauto].
  - edestruct (open_with (SQLDriverConnect s)); [apply driver_connect_law | eauto].
  - split; [unfold open_sound; by rewrite conn_close_eq |]. intros Hd He. unfold open_exact.
    rewrite closed_driver by done. by rewrite conn_close_eq.
  - eapply (Hk false), attr_with, (set_attr_law (SQL_ATTR_TXN_ISOLATION (isolation_level l))).
  - eapply (Hk true), attr_with, end_tran_law.
  - eapply (Hk true), attr_with, end_tran_law.
Qed.

(** ** Properties *)

(** After any calls on a connection, whichever of them failed, [is_open()] implies that the
    driver is connected; and the two agree whenever the driver never refuses to disconnect. *)
Theorem connection_open_tracks ops c :
  open_exact c →
  open_sound (conn_run ops c) ∧
  ((∀ d, succeeded (fst (SQLDisconnect d)) = true) → open_exact (conn_run ops c)).
Proof.
  intros Hc. assert (open_sound c) as Hs by (unfold open_exact, open_sound in *; by rewrite Hc).
  revert c Hc Hs. unfold conn_run.
  induction ops as [| o ops IH] using rev_ind; intros c Hc Hs; [by split |].
  rewrite foldl_app. cbn [foldl]. destruct (op_open o (foldl (λ c o, snd (conn_op_run o c)) c ops)) as [H1 H2].
  destruct (IH c Hc Hs). auto.
Qed.

(** A transaction call that returns leaves autocommit off ([begin_transaction]) or on
    ([commit], [rollback]); one that throws leaves it as it was, so that the transaction of a
    failed commit is still open.  None opens or closes the connection. *)
Theorem connection_transaction c o b :
  (match o with Op_begin _ => b = false | Op_commit | Op_rollback => b = true | _ => False end) →
  let '(r, c') := conn_op_run o c in
  _is_open c' = _is_open c ∧ connected (conn_driver c') = connected (conn_driver c) ∧
  autocommit (conn_driver c') = match r with Ret _ => b | _ => autocommit (conn_driver c) end.
Proof.
  destruct o as [| | | l | |]; intros Hb; try done; subst b; cbn [conn_op_run].
  - eapply attr_with, (set_attr_law (SQL_ATTR_TXN_ISOLATION (isolation_level l))).
  - eapply attr_with, end_tran_law.
  - eapply attr_with, end_tran_law.
Qed.
End laws.

(** ** A driver

    A data source with one table.  As the documentation has it, [SQLDisconnect] fails while a
    transaction is in progress, and [SQLGetData] hands a long column over in pieces of the
    buffer's size. *)
Record sim := Sim {
  sim_connected : bool;
  sim_autocommit : bool;
  sim_bound : gmap Z (option str);
  sim_executed : list (gmap Z (option str));
  sim_columns : list (str * str) }.

Definition sim_if (b : bool) (d' d : sim) : SQLRETURN * sim :=
  if b then (SQL_SUCCESS, d') else (SQL_ERROR, d).

Definition sim_link (up : bool) (d : sim) : sim :=
  Sim up (sim_autocommit d) (sim_bound d) (sim_executed d) (sim_columns d).

Definition sim_commit_mode (on : bool) (d : sim) : sim :=
  Sim (sim_connected d) on (sim_bound d) (sim_executed d) (sim_columns d).

Definition sim_bind (n : Z) (v : option str) (d : sim) : sim :=
  Sim (sim_connected d) (sim_autocommit d) (<[n := v]> (sim_bound d)) (sim_executed d) (sim_columns d).

Definition sim_execute (d : sim) : sim :=
  Sim (sim_connected d) (sim_autocommit d) (sim_bound d) (sim_executed d ++ [sim_bound d])
    (sim_columns d).

Definition sim_get (col size : Z) (d : sim) : SQLRETURN * str * Z * sim :=
  match sim_columns d !! Z.to_nat (col - 1) with
  | None => (SQL_ERROR, [], 0%Z, d)
  | Some (n, data) =>
      let d' := Sim (sim_connected d) (sim_autocommit d) (sim_bound d) (sim_executed d)
        (<[Z.to_nat (col - 1) := (n, drop (Z.to_nat size - 1) data)]> (sim_columns d)) in
      (if Z.of_nat (length data) <? size then SQL_SUCCESS else SQL_SUCCESS_WITH_INFO,
       take (Z.to_nat size - 1) data ++ [nul], Z.of_nat (length data), d')%Z
  end.

#[export] Instance sim_odbc : Odbc sim := {
  SQLSetEnvAttr _ d := (SQL_SUCCESS, d);
  SQLAllocHandle _ d := (SQL_SUCCESS, d);
  SQLFreeHandle _ d := d;
  SQLGetDiagRec _ d := (SQL_SUCCESS, lit "HY000", lit "failed");
  SQLConnect _ _ _ d := sim_if (negb (sim_connected d)) (sim_link true d) d;
  SQLDriverConnect _ d := sim_if (negb (sim_connected d)) (sim_link true d) d;
  SQLDisconnect d := sim_if (sim_connected d && sim_autocommit d) (sim_link false d) d;
  SQLSetConnectAttr a d :=
    match a with
    | SQL_ATTR_AUTOCOMMIT b => (SQL_SUCCESS, sim_commit_mode b d)
    | _ => (SQL_SUCCESS, d)
    end;
  SQLEndTran _ d := sim_if (sim_connected d) d d;
  SQLPrepare _ d := (SQL_SUCCESS, d);
  SQLBindParameter n v d := (SQL_SUCCESS, sim_bind n v d);
  SQLExecute d := (SQL_SUCCESS, sim_execute d);
  SQLExecDirect _ d := (SQL_SUCCESS, d);
  SQLCloseCursor d := d;
  SQLNumResultCols d := (SQL_SUCCESS, Z.of_nat (length (sim_columns d)), d);
  SQLDescribeCol i d :=
    match sim_columns d !! Z.to_nat (i - 1) with
    | Some (n, _) => (SQL_SUCCESS, n, d)
    | None => (SQL_ERROR, [], d)
    end;
  SQLFetch d := (SQL_SUCCESS, d);
  SQLGetData := sim_get }.

#[export] Instance sim_conn_laws : OdbcConnLaws sim.
Proof.
  refine {| connected := sim_connected; autocommit := sim_autocommit |}.
  - intros ??? d. cbn. by destruct d as [[] ? ? ? ?].
  - intros ? d. cbn. by destruct d as [[] ? ? ? ?].
  - intros d. cbn. by destruct d as [[] [] ? ? ?].
  - intros [] d; done.
  - intros ? d. cbn. by destruct d as [[] ? ? ? ?].
Defined.

Definition sim_start : sim := Sim false true ∅ [] [].

(** [close()] ignores the refusal: the object is closed and the driver is not. *)
Example close_in_transaction :
  let c := conn_run [Op_open (lit "db") [] []; Op_begin READ_COMMITTED; Op_close]
             (Connection true false sim_start) in
  _is_open c = false ∧ connected (conn_driver c) = true.
Proof. by vm_compute. Qed.

(** ** Witnesses *)
Lemma connection_open_tracks_witness :
  open_sound (conn_run [Op_open (lit "db") [] []; Op_begin READ_COMMITTED; Op_close]
                (Connection true false sim_start)).
Proof. exact (proj1 (connection_open_tracks _ (Connection true false sim_start) eq_refl)). Defined.

Lemma connection_transaction_witness :
  let c := conn_run [Op_open (lit "db") [] []] (Connection true false sim_start) in
  fst (conn_op_run (Op_begin SERIALIZABLE) c) = Ret () ∧
  autocommit (conn_driver (snd (conn_op_run (Op_begin SERIALIZABLE) c))) = false.
Proof.
  split; [by vm_compute |].
  exact (proj2 (proj2 (connection_transaction
    (conn_run [Op_open (lit "db") [] []] (Connection true false sim_start))
    (Op_begin SERIALIZABLE) false eq_refl))).
Defined.
