(* ===== verification/Query.v ===== *)
(** * [query.cpp]: ODBC statements

    [parse] rewrites a statement with named parameters; the other operations work on a state
    holding the parameters, the fields, the two stream counters and the driver of
    [Connection.v].  [OdbcStmtLaws] and [OdbcDataLaws] state the documented effect of the calls
    on a statement. *)
From S2P Require Export Connection Strtod.

(** ** Statements and parameters *)
Record parameter := Parameter_ { name : str; value : str }.

Definition ident_char (c : ascii) : bool := isalnum c || bool_decide (c = "_"%char).

(** The loop of [parse]: the rest of the statement, the two quote flags, the text and the
    parameters so far. *)
Fixpoint parse_loop (fuel : nat) (s : str) (ssq dsq : bool) (q : str) (ps : list parameter)
    : option (str * list parameter) :=
  match fuel with
  | O => None
  | S f =>
      match s with
      | [] => Some (q, ps)
      | c :: s' =>
          if bool_decide (c = "'"%char) then parse_loop f s' (negb ssq) dsq (q ++ [c]) ps
          else if bool_decide (c = chr 34) then parse_loop f s' ssq (negb dsq) (q ++ [c]) ps
          else if bool_decide (c = "?"%char) then
            parse_loop f s' ssq dsq (q ++ [c])
              (if negb ssq && negb dsq then ps ++ [Parameter_ [] []] else ps)
          else if bool_decide (c = ":"%char) then
            if negb ssq && negb dsq then
              let n := find_index (λ x, negb (ident_char x)) s' in
              let len := default (length s') n in
              parse_loop f (drop len s') ssq dsq (q ++ lit "?")
                (ps ++ [Parameter_ (take len s') []])
            else parse_loop f s' ssq dsq (q ++ [c]) ps
          else parse_loop f s' ssq dsq (q ++ [c]) ps
      end
  end.

Definition parse (statement : str) : option (str * list parameter) :=
  parse_loop (S (length statement)) statement false false [] [].

(** ** [query] *)
Record field := Field { number : Z; field_name : str }.

Record query (driver : Type) := Query {
  _prmcnt : Z;
  _fldcnt : Z;
  _parameters : list parameter;
  _fields : list field;
  stmt : driver }.
Arguments Query {driver} _prmcnt _fldcnt _parameters _fields stmt.
Arguments _prmcnt {driver}.
Arguments _fldcnt {driver}.
Arguments _parameters {driver}.
Arguments _fields {driver}.
Arguments stmt {driver}.

(** What [operator<<] is given. *)
Inductive argument :=
  | Arg_int (n : Z)
  | Arg_double (d : double)
  | Arg_string (s : str).

(** The type of the variable [operator>>] reads into. *)
Inductive field_kind :=
  | Int_field
  | Double_field
  | String_field.

Section query.
Context `{Odbc driver}.
Implicit Types s : query driver.

Definition set_params (ps : list parameter) s : query driver :=
  Query (_prmcnt s) (_fldcnt s) ps (_fields s) (stmt s).

Definition set_stmt (d : driver) s : query driver :=
  Query (_prmcnt s) (_fldcnt s) (_parameters s) (_fields s) d.

Definition set_prmcnt (n : Z) s : query driver :=
  Query n (_fldcnt s) (_parameters s) (_fields s) (stmt s).

Definition set_fldcnt (n : Z) s : query driver :=
  Query (_prmcnt s) n (_parameters s) (_fields s) (stmt s).

Definition push_field (f : field) s : query driver :=
  Query (_prmcnt s) (_fldcnt s) (_parameters s) (_fields s ++ [f]) (stmt s).

Definition modify (f : query driver → query driver) : stm (query driver) unit := λ s, (Ret (), f s).

Definition fields_of : stm (query driver) (list field) := λ s, (Ret (_fields s), s).

Definition query_call (f : driver → SQLRETURN * driver) : stm (query driver) SQLRETURN :=
  λ s, let '(r, d) := f (stmt s) in (Ret r, set_stmt d s).

(** [throw query_exception((format(msg) % get_error()).str())] *)
Definition query_error (msg : str) : stm (query driver) unit :=
  λ s, (m ← format_str (Format msg [get_error SQL_HANDLE_STMT (stmt s)]);
        Throw (Exn query_exception m), s).

Definition query_check (ok : bool) (msg : str) : stm (query driver) unit :=
  if ok then mret () else query_error msg.

Definition query_new (d : driver) : outcome (query driver) * driver :=
  let '(r, d') := SQLAllocHandle SQL_HANDLE_STMT d in
  if succeeded r then (Ret (Query 0 0 [] [] d'), d')
  else (Throw (Exn query_exception (lit "Can't allocate ODBC statement handle")), d').

Definition query_destroy s : driver := SQLFreeHandle SQL_HANDLE_STMT (stmt s).

(** [prepare(statement)]; the counters stay as they are.  [parse] always gives a result. *)
Definition prepare (statement : str) : stm (query driver) (list parameter) :=
  match parse statement with
  | None => lift Undef
  | Some (q, ps) =>
      _ ← modify (set_params ps);
      r ← query_call (SQLPrepare (c_str q));
      _ ← query_check (succeeded r) (lit "Can't prepare SQL statement: {0}");
      mret ps
  end.

(** The columns [i .. i + n - 1]. *)
Fixpoint describe_columns (n : nat) (i : Z) : stm (query driver) unit :=
  match n with
  | O => mret ()
  | S n' => λ s,
      let '(r, col_name, d) := SQLDescribeCol i (stmt s) in
      (_ ← query_check (succeeded r) (lit "Can't obtain column metadata: {0}");
       _ ← modify (push_field (Field (i - 1) (c_str col_name)));
       describe_columns n' (i + 1)) (set_stmt d s)
  end.

(** [_fields] is added to, and never cleared. *)
Definition retrieve_metadata : stm (query driver) unit := λ s,
  let '(r, cnt, d) := SQLNumResultCols (stmt s) in
  (_ ← query_check (succeeded r) (lit "Can't obtain a columns count: {0}");
   describe_columns (Z.to_nat cnt) 1) (set_stmt d s).

(** What is bound for a parameter: an empty value is bound as SQL NULL. *)
Definition bound_value (p : parameter) : option str :=
  match value p with [] => None | v => Some (c_str v) end.

Fixpoint bind_parameters (num : Z) (ps : list parameter) : stm (query driver) unit :=
  match ps with
  | [] => mret ()
  | p :: ps' =>
      r ← query_call (SQLBindParameter num (bound_value p));
      _ ← query_check (succeeded r) (lit "Can't assign SQL parameter: {0}");
      bind_parameters (num + 1) ps'
  end.

(** [(r == SQL_SUCCESS) || (r == SQL_SUCCESS_WITH_INFO) || (r == SQL_NO_DATA)] *)
Definition executed_ok (r : SQLRETURN) : bool :=
  succeeded r || bool_decide (r = SQL_NO_DATA).

(** [execute()] of the prepared statement. *)
Definition execute : stm (query driver) (list field) := λ s,
  (_ ← modify (λ s, set_stmt (SQLCloseCursor (stmt s)) s);
   _ ← bind_parameters 1 (_parameters s);
   r ← query_call SQLExecute;
   _ ← query_check (executed_ok r) (lit "Can't execute SQL statement: {0}");
   _ ← retrieve_metadata;
   fields_of) s.

(** [execute(statement)] *)
Definition execute_direct (statement : str) : stm (query driver) (list field) :=
  _ ← modify (λ s, set_stmt (SQLCloseCursor (stmt s)) s);
  r ← query_call (SQLExecDirect (c_str statement));
  _ ← query_check (executed_ok r) (lit "Can't execute SQL statement: {0}");
  _ ← retrieve_metadata;
  fields_of.

(** [_parameters.at(num).value = value] *)
Definition set_parameter (num : Z) (v : str) : stm (query driver) unit := λ s,
  match (if (num <? 0)%Z then None else _parameters s !! Z.to_nat num) with
  | Some p => (Ret (), set_params (<[Z.to_nat num := Parameter_ (name p) v]> (_parameters s)) s)
  | None => (Throw (Exn out_of_range []), s)
  end.

Definition argument_text (a : argument) : str :=
  match a with Arg_int n => to_string_int n | Arg_double d => to_string_double d | Arg_string x => x end.

(** [operator<<] of a value, and of [flush()]. *)
Definition stream_in (a : argument) : stm (query driver) unit := λ s,
  (_ ← set_parameter (_prmcnt s) (argument_text a);
   modify (λ s, set_prmcnt (_prmcnt s + 1) s)) s.


(** [next()]: what follows a fetch that gave neither a row nor the end. *)
Definition next_failed (r : SQLRETURN) : stm (query driver) bool := λ s,
  if bool_decide (r = SQL_ERROR) &&
     bool_decide (snd (fst (SQLGetDiagRec SQL_HANDLE_STMT (stmt s))) = lit "24000")
  then (Ret false, s)
  else (_ ← query_error (lit "Can't fetch the data row: {0}"); mret false) s.

Definition next : stm (query driver) bool :=
  _ ← modify (set_fldcnt 0);
  r ← query_call SQLFetch;
  match r with
  | SQL_SUCCESS => mret true
  | SQL_NO_DATA => mret false
  | _ => next_failed r
  end.

Definition SQL_NO_TOTAL : Z := -4.

Definition SQL_NULL_DATA : Z := -1.

Definition buf_size : Z := 255.

(** [s.write(buffer, n)]: nothing for a negative count; past the buffer is undefined. *)
Definition buffer_write (buffer : str) (n : Z) : outcome str :=
  if (n <=? 0)%Z then Ret []
  else if (n <=? Z.of_nat (length buffer))%Z then Ret (take (Z.to_nat n) buffer) else Undef.

(** [get_field(num, string &)]; [acc] is the text so far. *)
Fixpoint get_field_loop (fuel : nat) (num : Z) (acc : str) (s : query driver)
    : option (outcome str * query driver) :=
  match fuel with
  | O => None
  | S f =>
      let '(r, buffer, size, d) := SQLGetData (num + 1) (buf_size + 1) (stmt s) in
      let s' := set_stmt d s in
      match r with
      | SQL_NO_DATA => Some (Ret acc, s')
      | SQL_ERROR => Some ((_ ← query_error (lit "Can't retrieve data for column: {0}"); mret acc) s')
      | SQL_SUCCESS => Some ((x ← lift (buffer_write buffer size); mret (acc ++ x)) s')
      | _ =>
          let num_bytes :=
            if ((size >? buf_size) || (size =? SQL_NO_TOTAL))%Z then buf_size else size in
          match buffer_write buffer num_bytes with
          | Ret x => get_field_loop f num (acc ++ x) s'
          | Throw e => Some (Throw e, s')
          | Undef => Some (Undef, s')
          end
      end
  end.

Definition get_field (fuel : nat) (num : Z) (s : query driver) := get_field_loop fuel num [] s.

(** The three overloads of [get_field]: the text as it is, or converted. *)
Definition convert_field (k : field_kind) (x : str) : outcome argument :=
  match k with
  | Int_field => Ret (Arg_int (from_string_int x))
  | Double_field => Arg_double <$> from_string_double x
  | String_field => Ret (Arg_string x)
  end.

Definition get_field_value (fuel : nat) (num : Z) (k : field_kind) (s : query driver)
    : option (outcome argument * query driver) :=
  match get_field fuel num s with
  | Some (o, s') => Some (o ≫= convert_field k, s')
  | None => None
  end.

(** [operator>>]: the counter moves on when the field was read. *)
Definition stream_out (fuel : nat) (k : field_kind) (s : query driver)
    : option (outcome argument * query driver) :=
  match get_field_value fuel (_fldcnt s) k s with
  | Some (Ret x, s') => Some (Ret x, set_fldcnt (_fldcnt s' + 1) s')
  | r => r
  end.

(** [q >> x_1 >> ... >> x_n]. *)
Fixpoint stream_row (fuel : nat) (ks : list field_kind) (s : query driver)
    : option (outcome (list argument) * query driver) :=
  match ks with
  | [] => Some (Ret [], s)
  | k :: ks' =>
      match stream_out fuel k s with
      | Some (Ret x, s1) =>
          match stream_row fuel ks' s1 with
          | Some (o, s2) => Some (cons x <$> o, s2)
          | None => None
          end
      | Some (Throw e, s1) => Some (Throw e, s1)
      | Some (Undef, s1) => Some (Undef, s1)
      | None => None
      end
  end.
End query.

(** ** Statements as tokens

    [print_sql] writes a statement down; [rewritten] puts a mark for each named parameter. *)
Inductive sql_token :=
  | Sql (s : str)
  | Quoted (s : str)
  | Dquoted (s : str)
  | Mark
  | Named (n : str).

Definition print_token (t : sql_token) : str :=
  match t with
  | Sql s => s
  | Quoted s => lit "'" ++ s ++ lit "'"
  | Dquoted s => chr 34 :: s ++ [chr 34]
  | Mark => lit "?"
  | Named n => lit ":" ++ n
  end.

Definition print_sql (ts : list sql_token) : str := concat (print_token <$> ts).

Definition rewritten (ts : list sql_token) : list sql_token :=
  (λ t, match t with Named _ => Mark | _ => t end) <$> ts.

Definition sql_params (ts : list sql_token) : list parameter :=
  omap (λ t, match t with
             | Mark => Some (Parameter_ [] [])
             | Named n => Some (Parameter_ n [])
             | _ => None
             end) ts.

Definition quote_char (c : ascii) : bool := bool_decide (c = "'"%char) || bool_decide (c = chr 34).

Definition param_char (c : ascii) : bool := bool_decide (c = "?"%char) || bool_decide (c = ":"%char).

Fixpoint sql_ok (ts : list sql_token) : Prop :=
  match ts with
  | [] => True
  | t :: ts' =>
      match t with
      | Sql s => Forall (λ c, quote_char c = false ∧ param_char c = false) s
      | Quoted s | Dquoted s => Forall (λ c, quote_char c = false) s
      | Mark => True
      | Named n =>
          Forall (λ c, ident_char c = true) n ∧
          match print_sql ts' with c :: _ => ident_char c = false | [] => True end
      end ∧ sql_ok ts'
  end.

Lemma parse_plain s r f ssq dsq q ps :
  Forall (λ c, quote_char c = false ∧ (ssq || dsq = true ∨ param_char c = false)) s →
  length (s ++ r) < f →
  ∃ f', length r < f' ∧ parse_loop f (s ++ r) ssq dsq q ps = parse_loop f' r ssq dsq (q ++ s) ps.
Proof.
  intros Hs. revert f q. induction Hs as [| c s [Hq Hp] _ IH]; intros f q Hf.
  - exists f. by rewrite app_nil_r.
  - destruct f as [| f]; [by cbn in Hf; lia |]. cbn [app parse_loop].
    apply orb_false_iff in Hq as [-> ->].
    destruct (IH f (q ++ [c])) as (f' & Hf' & E); [cbn in Hf |- *; lia |].
    exists f'. split; [done |]. rewrite <- app_assoc in E. cbn [app] in E. rewrite <- E.
    destruct Hp as [Hp | Hp].
    + assert (negb ssq && negb dsq = false) as -> by (by destruct ssq, dsq).
      by destruct (bool_decide (c = "?"%char)), (bool_decide (c = ":"%char)).
    + by apply orb_false_iff in Hp as [-> ->].
Qed.

Lemma ident_span n r :
  Forall (λ c, ident_char c = true) n →
  match r with c :: _ => ident_char c = false | [] => True end →
  default (length (n ++ r)) (find_index (λ x, negb (ident_char x)) (n ++ r)) = length n.
Proof.
  intros Hn Hr.
  assert (Forall (λ x, negb (ident_char x) = false) n) as Hn' by
    (eapply Forall_impl; [exact Hn | by intros c ->]).
  destruct r as [| c r].
  - rewrite app_nil_r. by rewrite (proj2 (find_index_None _ _) Hn').
  - rewrite find_index_app_l; [done | done | by rewrite Hr].
Qed.

Lemma parse_tokens ts f q ps :
  sql_ok ts → length (print_sql ts) < f →
  parse_loop f (print_sql ts) false false q ps
  = Some (q ++ print_sql (rewritten ts), ps ++ sql_params ts).
Proof.
  revert f q ps. induction ts as [| t ts IH]; intros f q ps Ht Hf.
  { destruct f; [by cbn in Hf; lia |]. cbn. by rewrite !app_nil_r. }
  destruct Ht as [Ht Hts].
  change (print_sql (t :: ts)) with (print_token t ++ print_sql ts) in *.
  change (print_sql (rewritten (t :: ts)))
    with (print_token (match t with Named _ => Mark | _ => t end) ++ print_sql (rewritten ts)).
  destruct t as [s | s | s | | n]; cbn [print_token] in *.
  - destruct (parse_plain s (print_sql ts) f false false q ps) as (f' & Hf' & ->);
      [eapply Forall_impl; [exact Ht |]; naive_solver | done |].
    rewrite IH by done. by rewrite <- app_assoc.
  - destruct f as [| f]; [by cbn in Hf; lia |]. rewrite <- !app_assoc in *.
    change (lit "'" ++ s ++ lit "'" ++ print_sql ts) with ("'"%char :: s ++ "'"%char :: print_sql ts) in *.
    cbn [parse_loop]. cbn [length] in Hf. change (negb false) with true.
    rewrite bool_decide_true by done.
    destruct (parse_plain s ("'"%char :: print_sql ts) f true false (q ++ lit "'") ps)
      as (f' & Hf' & E); [eapply Forall_impl; [exact Ht |]; naive_solver | lia |].
    change (q ++ ["'"%char]) with (q ++ lit "'"). rewrite E.
    destruct f' as [| f']; [lia |]. cbn [parse_loop length] in *. rewrite bool_decide_true by done.
    cbn [negb]. rewrite IH by (done || lia). change ["'"%char] with (lit "'"). by rewrite <- !app_assoc.
  - destruct f as [| f]; [by cbn in Hf; lia |]. cbn [app] in *. rewrite <- !app_assoc in *. cbn [app] in *.
    cbn [parse_loop]. cbn [length] in Hf. rewrite bool_decide_false by done. rewrite bool_decide_true by done.
    change (negb false) with true.
    destruct (parse_plain s (chr 34 :: print_sql ts) f false true (q ++ [chr 34]) ps)
      as (f' & Hf' & E); [eapply Forall_impl; [exact Ht |]; naive_solver | lia |]. rewrite E.
    destruct f' as [| f']; [lia |]. cbn [parse_loop length] in *.
    rewrite bool_decide_false by done. rewrite bool_decide_true by done.
    cbn [negb]. rewrite IH by (done || lia). by rewrite <- !app_assoc.
  - destruct f as [| f]; [by cbn in Hf; lia |]. change (lit "?" ++ print_sql ts) with ("?"%char :: print_sql ts) in *.
    cbn [length] in Hf. cbn. rewrite IH by (done || lia). by rewrite <- !app_assoc.
  - destruct f as [| f]; [by cbn in Hf; lia |]. destruct Ht as [Hn Hr]. rewrite <- app_assoc in *.
    change (lit ":" ++ n ++ print_sql ts) with (":"%char :: n ++ print_sql ts) in *.
    cbn [length] in Hf. cbn [parse_loop]. do 3 rewrite bool_decide_false by done. rewrite bool_decide_true by done.
    cbn [negb andb]. rewrite ident_span by done. cbv zeta. rewrite drop_app_length, take_app_length.
    rewrite IH; [| done | rewrite length_app in Hf; lia]. by rewrite <- !app_assoc.
Qed.

Lemma parse_loop_total f s ssq dsq :
  length s < f →
  ∃ out new,
    (∀ q ps, parse_loop f s ssq dsq q ps = Some (q ++ out, ps ++ new)) ∧
    (∀ f' q ps, length out < f' →
       parse_loop f' out ssq dsq q ps
       = Some (q ++ out, ps ++ replicate (length new) (Parameter_ [] []))).
Proof.
  revert s ssq dsq. induction f as [| f IH]; intros s ssq dsq Hf; [lia |].
  destruct s as [| c s].
  { exists [], []. cbn. split; intros; [by rewrite !app_nil_r |].
    destruct f'; [lia |]. cbn. by rewrite !app_nil_r. }
  cbn [length] in Hf. cbn [parse_loop].
  assert (∀ ssq' dsq' new1,
    (∀ f' q ps out, parse_loop (S f') (c :: out) ssq dsq q ps
       = parse_loop f' out ssq' dsq' (q ++ [c]) (ps ++ new1)) →
    Forall (λ p, p = Parameter_ [] []) new1 →
    ∃ out new, (∀ q ps, parse_loop f s ssq' dsq' (q ++ [c]) (ps ++ new1) = Some (q ++ out, ps ++ new)) ∧
      (∀ f' q ps, length out < f' → parse_loop f' out ssq dsq q ps
         = Some (q ++ out, ps ++ replicate (length new) (Parameter_ [] [])))) as Hc.
  { intros ssq' dsq' new1 Hstep Hnew. destruct (IH s ssq' dsq') as (out & new & H1 & H2); [lia |].
    exists (c :: out), (new1 ++ new). split; intros.
    - by rewrite H1, <- !app_assoc.
    - destruct f' as [| f']; [lia |]. cbn [length] in *. rewrite Hstep, H2 by lia.
      rewrite <- !app_assoc, length_app, replicate_add. do 3 f_equal.
      symmetry. f_equal. clear -Hnew. induction Hnew as [| p l -> _ IHl]; [done |]. cbn. by f_equal. }
  pose proof (λ ssq' dsq' H, Hc ssq' dsq' [] H (Forall_nil_2 _)) as Hplain.
  setoid_rewrite app_nil_r in Hplain.
  destruct (bool_decide (c = "'"%char)) eqn:E1; [apply Hplain; intros; cbn; by rewrite E1 |].
  destruct (bool_decide (c = chr 34)) eqn:E2; [apply Hplain; intros; cbn; by rewrite E1, E2 |].
  destruct (bool_decide (c = "?"%char)) eqn:E3.
  - destruct (negb ssq && negb dsq) eqn:En.
    + apply Hc; [| by repeat constructor]. intros. cbn. by rewrite E1, E2, E3, En.
    + apply Hplain. intros. cbn. by rewrite E1, E2, E3, En.
  - destruct (bool_decide (c = ":"%char)) eqn:E4;
      [| apply Hplain; intros; cbn; by rewrite E1, E2, E3, E4].
    destruct (negb ssq && negb dsq) eqn:En;
      [| apply Hplain; intros; cbn; by rewrite E1, E2, E3, E4, En].
    cbv zeta. set (len := default _ _).
    destruct (IH (drop len s) ssq dsq) as (out & new & H1 & H2); [rewrite length_drop; lia |].
    exists ("?"%char :: out), (Parameter_ (take len s) [] :: new). split; intros.
    + by rewrite H1, <- !app_assoc.
    + destruct f' as [| f']; [lia |]. cbn [length] in *. cbn. rewrite En, H2 by lia.
      by rewrite <- !app_assoc.
Qed.

(** ** The documented effect of the calls on a statement

    [bound] is what is bound to the parameters and [executed] the parameters each execution
    was made with. *)
Class OdbcStmtLaws (driver : Type) `{Odbc driver} := {
  bound : driver → gmap Z (option str);
  executed : driver → list (gmap Z (option str));
  close_cursor_law : ∀ d,
    bound (SQLCloseCursor d) = bound d ∧ executed (SQLCloseCursor d) = executed d;
  bind_law : ∀ n v d, let '(r, d') := SQLBindParameter n v d in
    executed d' = executed d ∧ (succeeded r = true → bound d' = <[n := v]> (bound d));
  execute_law : ∀ d, let '(r, d') := SQLExecute d in
    bound d' = bound d ∧
    executed d' = if executed_ok r then executed d ++ [bound d] else executed d;
  num_cols_law : ∀ d, let '(_, _, d') := SQLNumResultCols d in
    bound d' = bound d ∧ executed d' = executed d;
  describe_law : ∀ i d, let '(_, _, d') := SQLDescribeCol i d in
    bound d' = bound d ∧ executed d' = executed d }.

(** [column n d] is the text of a column that [SQLGetData] has not handed over. *)
Class OdbcDataLaws (driver : Type) `{Odbc driver} := {
  column : Z → driver → option str;
  get_data_last : ∀ n size d x,
    column n d = Some x → (Z.of_nat (length x) < size)%Z →
    ∃ buf d', SQLGetData n size d = (SQL_SUCCESS, x ++ buf, Z.of_nat (length x), d') ∧
      (∀ m, (n < m)%Z → column m d' = column m d);
  get_data_more : ∀ n size d x,
    column n d = Some x → (0 < size ≤ Z.of_nat (length x))%Z →
    ∃ buf total d',
      SQLGetData n size d
      = (SQL_SUCCESS_WITH_INFO, take (Z.to_nat size - 1) x ++ buf, total, d') ∧
      (total = Z.of_nat (length x) ∨ total = SQL_NO_TOTAL) ∧
      column n d' = Some (drop (Z.to_nat size - 1) x) ∧
      (∀ m, (n < m)%Z → column m d' = column m d) }.


Section data.
Context `{OdbcDataLaws driver}.
Implicit Types s : query driver.

Lemma get_field_loop_spec fuel num acc x s :
  column (num + 1) (stmt s) = Some x → length x < 255 * fuel →
  ∃ d', get_field_loop fuel num acc s = Some (Ret (acc ++ x), set_stmt d' s) ∧
    ∀ m, (num + 1 < m)%Z → column m d' = column m (stmt s).
Proof.
  revert acc x s. induction fuel as [| f IH]; intros acc x s Hx Hf; [lia |]. cbn [get_field_loop].
  destruct (Z.lt_ge_cases (Z.of_nat (length x)) (buf_size + 1)) as [Hlt | Hge].
  - destruct (get_data_last _ _ _ _ Hx Hlt) as (buf & d' & -> & Hd'). exists d'. split; [| done].
    unfold buffer_write, lift. destruct (Z.leb_spec (Z.of_nat (length x)) 0) as [Hz | Hz].
    + by destruct x; [| cbn in Hz; lia].
    + rewrite length_app. destruct (Z.leb_spec (Z.of_nat (length x)) (Z.of_nat (length x + length buf))); [| lia].
      rewrite Nat2Z.id, take_app_length. done.
  - destruct (get_data_more _ (buf_size + 1) _ _ Hx) as (buf & total & d' & -> & Ht & Hd & Hfr); [unfold buf_size in *; lia |].
    assert (((total >? buf_size) || (total =? SQL_NO_TOTAL))%Z = true) as ->.
    { apply orb_true_iff. destruct Ht as [-> | ->]; [left | by right].
      apply Z.gtb_lt. lia. }
    change (Z.to_nat (buf_size + 1) - 1) with 255 in *. unfold buf_size in Hge.
    assert (length (take 255 x) = 255) as Hl by (rewrite length_take; lia).
    unfold buffer_write. change (buf_size <=? 0)%Z with false.
    destruct (Z.leb_spec buf_size (Z.of_nat (length (take 255 x ++ buf)))) as [_ | Hb];
      [| rewrite length_app, Hl in Hb; unfold buf_size in Hb; lia].
    change (Z.to_nat buf_size) with 255. rewrite (take_app_length' (take 255 x)) by done.
    destruct (IH (acc ++ take 255 x) (drop 255 x) (set_stmt d' s)) as (d'' & -> & Hfr');
      [done | rewrite length_drop; lia |].
    exists d''. rewrite <- app_assoc, take_drop. split; [done |].
    intros m Hm. by rewrite Hfr', <- Hfr.
Qed.

(** The kind of variable a value of this kind is read into, and the values that survive being
    text. *)
Definition kind_of (a : argument) : field_kind :=
  match a with Arg_int _ => Int_field | Arg_double _ => Double_field | Arg_string _ => String_field end.

Definition argument_ok (a : argument) : Prop :=
  match a with
  | Arg_int n => (INT_MIN ≤ n ≤ INT_MAX)%Z
  | Arg_double d => ∃ z, (- 10 ^ 6 < z < 10 ^ 6)%Z ∧ d = of_int z
  | Arg_string _ => True
  end.

Lemma convert_argument a : argument_ok a → convert_field (kind_of a) (argument_text a) = Ret a.
Proof.
  destruct a as [n | d | x]; cbn; [| | done].
  - intros Hn. by rewrite to_string_int_print, from_string_int_print by done.
  - intros (z & Hz & ->). destruct (double_text z Hz) as [-> ->]. done.
Qed.

(** The columns from [i] on hold these texts. *)
Definition row_from (i : Z) (texts : list str) (d : driver) : Prop :=
  ∀ j t, texts !! j = Some t → column (i + Z.of_nat j + 1) d = Some t.

Lemma row_from_cons i t texts d :
  row_from i (t :: texts) d → column (i + 1) d = Some t ∧ row_from (i + 1) texts d.
Proof.
  intros Hr. split; [rewrite <- (Z.add_0_r i); by apply (Hr 0) |].
  intros j u Hj. rewrite <- (Hr (S j) u Hj). f_equal. lia.
Qed.

Lemma stream_row_spec fuel args s :
  row_from (_fldcnt s) (argument_text <$> args) (stmt s) → Forall argument_ok args →
  Forall (λ a, length (argument_text a) < 255 * fuel) args →
  ∃ s', stream_row fuel (kind_of <$> args) s = Some (Ret args, s') ∧
    _fldcnt s' = (_fldcnt s + Z.of_nat (length args))%Z.
Proof.
  revert s. induction args as [| a args IH]; intros s Hr Hok Hl.
  { exists s. split; [done | cbn; lia]. }
  inversion_clear Hok as [| ? ? Ha Hok']. inversion_clear Hl as [| ? ? Hla Hl'].
  rewrite !fmap_cons. change (argument_text <$> a :: args) with (argument_text a :: (argument_text <$> args)) in Hr.
  apply row_from_cons in Hr as [Hc Hr].
  destruct (get_field_loop_spec fuel (_fldcnt s) [] _ s Hc Hla) as (d' & Hg & Hfr).
  cbn [stream_row]. unfold stream_out, get_field_value, get_field. rewrite Hg, app_nil_l.
  change (Ret (argument_text a) ≫= convert_field (kind_of a))
    with (convert_field (kind_of a) (argument_text a)).
  rewrite convert_argument by done.
  destruct (IH (set_fldcnt (_fldcnt s + 1) (set_stmt d' s))) as (s' & Hrow & Hcnt); [| done.. |].
  - intros j t Hj. cbn. rewrite Hfr by lia. by apply Hr.
  - exists s'. cbn [_fldcnt set_stmt]. rewrite Hrow. split; [done |]. rewrite Hcnt. cbn. lia.
Qed.
End data.

Section statement.
Context `{OdbcStmtLaws driver}.
Implicit Types s : query driver.





















End statement.

(** ** Properties *)

(** C37. On a statement whose literals hold no quote of either kind, [parse] replaces the named
    parameters by "?" outside the literals and returns the parameters in order, whatever else
    the literals hold.  With a quote of the other kind in a literal it does not:
    [parse_mixed_quotes]. *)
Theorem query_parse_tokens ts :
  sql_ok ts → parse (print_sql ts) = Some (print_sql (rewritten ts), sql_params ts).
Proof. intros Ht. unfold parse. by rewrite parse_tokens by (done || lia). Qed.

(** [parse] ends on every text, and its statement has one mark per parameter: parsed again
    it is unchanged, with as many nameless parameters. *)
Theorem query_parse_stable statement :
  ∃ q ps, parse statement = Some (q, ps) ∧
    parse q = Some (q, replicate (length ps) (Parameter_ [] [])).
Proof.
  unfold parse. destruct (parse_loop_total (S (length statement)) statement false false) as (q & ps & H1 & H2);
    [lia |].
  exists q, ps. rewrite H1, H2 by lia. done.
Qed.

(** Reading a row with "q >> x_1 >> ... >> x_n" gives back the values whose texts the columns
    hold - ints, strings of any length and, as doubles, integers of up to six digits - each in
    a variable of its kind; every column is read to its end, in pieces of 255 bytes, the
    columns are read from left to right, and the counter moves on by their number. *)
Theorem query_row_roundtrip `{OdbcDataLaws driver} fuel args (s : query driver) :
  row_from (_fldcnt s) (argument_text <$> args) (stmt s) → Forall argument_ok args →
  Forall (λ a, length (argument_text a) < 255 * fuel) args →
  ∃ s', stream_row fuel (kind_of <$> args) s = Some (Ret args, s') ∧
    _fldcnt s' = (_fldcnt s + Z.of_nat (length args))%Z.
Proof. apply stream_row_spec. Qed.


(** ** Further behaviour *)

(** A quote of the other kind inside a literal hides the parameters that follow it. *)
Example parse_mixed_quotes :
  parse (print_sql [Quoted [chr 34]; Sql (lit " = "); Mark])
  = Some (print_sql [Quoted [chr 34]; Sql (lit " = "); Mark], []).
Proof. by vm_compute. Qed.

(** [prepare] leaves the counter of the statement before: the first value is refused. *)
Example prepare_keeps_counter :
  let s0 := Query 0 0 [] [] sim_start in
  let s1 := snd ((_ ← prepare (lit "a = ?"); stream_in (Arg_int 1)) s0) in
  fst ((_ ← prepare (lit "b = ?"); stream_in (Arg_int 2)) s1) = Throw (Exn out_of_range []).
Proof. by vm_compute. Qed.

(** The fields of a second execution are added to those of the first. *)
Example execute_accumulates :
  let s0 := Query 0 0 [] [] (Sim true true ∅ [] [(lit "id", [])]) in
  length <$> fst ((_ ← execute; execute) s0) = Ret 2.
Proof. by vm_compute. Qed.

(** ** Witnesses *)
#[export] Instance sim_stmt_laws : OdbcStmtLaws sim.
Proof. refine {| bound := sim_bound; executed := sim_executed |}; try done. intros i d. cbn. by destruct (_ !! _) as [[] |]. Defined.

Definition sim_column (n : Z) (d : sim) : option str :=
  if (n <? 1)%Z then None else snd <$> sim_columns d !! Z.to_nat (n - 1).

Lemma sim_get_column n size d x :
  sim_column n d = Some x →
  ∃ d', sim_get n size d
    = (if Z.of_nat (length x) <? size then SQL_SUCCESS else SQL_SUCCESS_WITH_INFO,
       take (Z.to_nat size - 1) x ++ [nul], Z.of_nat (length x), d')%Z ∧
    sim_column n d' = Some (drop (Z.to_nat size - 1) x) ∧
    ∀ m, (n < m)%Z → sim_column m d' = sim_column m d.
Proof.
  unfold sim_column, sim_get. destruct (Z.ltb_spec n 1); [done |].
  destruct (_ !! _) as [[nm y] |] eqn:E; [| done]. intros [= ->]. eexists. split; [done |]. cbn. split.
  - by rewrite list_lookup_insert_eq by by eapply lookup_lt_Some.
  - intros m Hm. by rewrite list_lookup_insert_ne by lia.
Qed.

#[export] Instance sim_data_laws : OdbcDataLaws sim.
Proof.
  refine {| column := sim_column |}.
  - intros n size d x Hx Hl. cbn. destruct (sim_get_column n size d x Hx) as (d' & -> & _ & Hd).
    destruct (Z.ltb_spec (Z.of_nat (length x)) size); [| lia].
    eexists _, _. by rewrite take_ge by lia.
  - intros n size d x Hx Hl. cbn. destruct (sim_get_column n size d x Hx) as (d' & -> & Hd).
    destruct (Z.ltb_spec (Z.of_nat (length x)) size); [lia |].
    eexists _, _, _. split; [done |]. split; [by left | done].
Defined.

Lemma query_parse_tokens_witness :
  parse (lit "select ':x' where a = :id and b = ?")
  = Some (lit "select ':x' where a = ? and b = ?", [Parameter_ (lit "id") []; Parameter_ [] []]).
Proof.
  exact (query_parse_tokens [Sql (lit "select "); Quoted (lit ":x"); Sql (lit " where a = ");
    Named (lit "id"); Sql (lit " and b = "); Mark] ltac:(repeat constructor)).
Defined.

Definition row_values : list argument :=
  [Arg_int (-7); Arg_string (replicate 600 "a"%char); Arg_double (of_int 48)].

Definition row_start : query sim :=
  Query 0 0 [] [] (Sim true true ∅ [] ((λ a, (lit "c", argument_text a)) <$> row_values)).

Lemma query_row_roundtrip_witness :
  ∃ s', stream_row 3 (kind_of <$> row_values) row_start = Some (Ret row_values, s') ∧
    _fldcnt s' = (_fldcnt row_start + Z.of_nat (length row_values))%Z.
Proof.
  apply (query_row_roundtrip 3 row_values row_start).
  - intros [| [| [| j]]] t Hj; [vm_compute in Hj |- *; by injection Hj as <-.. | done].
  - constructor; [unfold argument_ok, INT_MIN, INT_MAX; lia |]. constructor; [exact I |].
    constructor; [by exists 48%Z | constructor].
  - apply (bool_decide_unpack _). vm_compute. exact I.
Defined.

