(* ===== verification/Application.v ===== *)
(** * [cmdline_parameters.cpp] and [application.cpp]: command line and console application

    [getopt_long] is the class [Getopt], a step on a state that holds its own copy of argv (it
    permutes it) and [optind], [optopt] and [optarg].  An application's state has the
    parameters and handlers it registered, what it printed, and the world of its handlers. *)
From S2P Require Export StdMap StrUtils DateTime.

(** ** Parameters *)
Inductive parameter_type : Set := OPTION | OPTION_WITH_VALUE | COMMAND | FILENAME.

#[global] Instance parameter_type_eq_dec : EqDecision parameter_type.
Proof. solve_decision. Defined.

Record cmdline_parameter := Cmdline_parameter {
  short_name : ascii;
  long_name : str;
  value_name : str;
  value : str;
  description : str;
  type : parameter_type }.

Definition param_default : cmdline_parameter := Cmdline_parameter nul [] [] [] [] FILENAME.

Definition param_option (short : ascii) (long descr vname : str) (t : parameter_type)
    : cmdline_parameter := Cmdline_parameter short long vname [] descr t.

Definition param_typed (t : parameter_type) : cmdline_parameter :=
  Cmdline_parameter nul [] [] [] [] t.

Definition param_described (descr : str) (t : parameter_type) : cmdline_parameter :=
  Cmdline_parameter nul [] [] [] descr t.

Definition has_type (t : parameter_type) (p : cmdline_parameter) : bool := bool_decide (type p = t).

(** [operator==(const string &)]; [name[0]] of the empty string is the null character. *)
Definition has_name (name : str) (p : cmdline_parameter) : bool :=
  bool_decide (short_name p = default nul (head name)) || str_eqb (long_name p) name.

(** ** getopt *)

(** An element of [long_options]; [has_arg] is [None] where the source leaves it
    uninitialised. *)
Record long_option := Long_option { has_arg : option Z; lo_name : str; lo_val : ascii }.

(** Where the index of a long option that is found is stored: the source passes the address of
    [optind]. *)
Inductive longindex := Address_of_optind | Address_of_other.

Class Getopt := {
  optstate : Type;
  getopt_argv : optstate → list str;
  optind : optstate → nat;
  optopt : optstate → Z;
  optarg : optstate → option str;
  getopt_long : str → list long_option → longindex → optstate → Z * optstate }.

(** An argument that is not a long option. *)
Definition short_argument (x : str) : bool :=
  match x with "-"%char :: "-"%char :: _ :: _ => false | _ => true end.

(** Without long options no index is stored, and the elements of [long_options] are not looked at.
    [remaining] is what is left to scan: every call that finds something consumes some; argv is
    permuted at most.  Nothing is said of long options: the array the source passes has no last
    element of zeroes, as the documentation asks for, and the index overwrites [optind]. *)
Class GetoptLaws `{Getopt} := {
  remaining : optstate → nat;
  getopt_progress : ∀ o l i g, Forall (λ x, short_argument x = true) (getopt_argv g) →
    let '(r, g') := getopt_long o l i g in
    getopt_argv g' ≡ₚ getopt_argv g ∧ ((r ≠ -1)%Z → remaining g' < remaining g) }.

Definition is_option (p : cmdline_parameter) : bool := has_type OPTION p || has_type OPTION_WITH_VALUE p.

Definition optstring (params : list cmdline_parameter) : str :=
  lit ":" ++ concat ((λ p, if is_option p
                           then short_name p :: (if has_type OPTION_WITH_VALUE p then lit ":" else [])
                           else []) <$> params).

Definition long_options (params : list cmdline_parameter) : list long_option :=
  omap (λ p, if is_option p
             then Some (Long_option (if has_type OPTION_WITH_VALUE p then Some 1%Z else None)
                          (c_str (long_name p)) (short_name p))
             else None) params.

(** ** [cmdline_parameters] *)
Record cmdline_parameters `{Getopt} := Cmdline_parameters {
  pos : nat;
  params : list cmdline_parameter;
  opts : optstate }.
Arguments Cmdline_parameters {_} pos params opts.

Section cmdline.
Context `{Getopt}.

Definition add (p : cmdline_parameter) (c : cmdline_parameters) : cmdline_parameters :=
  Cmdline_parameters (pos c) (params c ++ [p]) (opts c).

(** The fields [parse] sets of its out parameter. *)
Definition set_filename (p : cmdline_parameter) (v : str) : cmdline_parameter :=
  Cmdline_parameter nul (long_name p) (value_name p) v (description p) FILENAME.

Definition set_option (p : cmdline_parameter) (short : ascii) (v : str) : cmdline_parameter :=
  Cmdline_parameter short (long_name p) (value_name p) v (description p) (type p).

Definition syntax_error (m : outcome str) : outcome bool :=
  m ← m; Throw (Exn cmdline_parameters_exception m).

(** [parse(argc, argv, param)]: the answer, the parameter and the parser afterwards. *)
Definition parse (argc : nat) (p : cmdline_parameter) (c : cmdline_parameters)
    : outcome bool * cmdline_parameter * cmdline_parameters :=
  if 0 <? pos c then
    if pos c <? argc then
      match getopt_argv (opts c) !! pos c with
      | Some v => (Ret true, set_filename p v, Cmdline_parameters (S (pos c)) (params c) (opts c))
      | None => (Undef, p, c)
      end
    else (Ret false, p, c)
  else
    let '(r, g) := getopt_long (optstring (params c)) (long_options (params c)) Address_of_optind (opts c) in
    let c' := Cmdline_parameters (pos c) (params c) g in
    if (r =? -1)%Z then
      if optind g <? argc then
        match getopt_argv g !! optind g with
        | Some v => (Ret true, set_filename p v, Cmdline_parameters (S (optind g)) (params c) g)
        | None => (Undef, p, c')
        end
      else (Ret false, p, c')
    else if (r =? ord "?")%Z then
      if (optopt g =? 0)%Z then (syntax_error (Ret (lit "option unrecognized")), p, c')
      else (syntax_error (format_str (Format (lit "invalid option '{0}'") [[chr (optopt g)]])), p, c')
    else if (r =? ord ":")%Z then
      (syntax_error (format_str (Format (lit "option '{0}' requires an argument") [[chr (optopt g)]])),
       p, c')
    else (Ret true, set_option p (chr r) (default [] (optarg g)), c').
End cmdline.

(** ** The help page *)
Class Locale := { decoded_length : str → nat }.

(** [char_length]: the characters the locale's conversion makes of a text. *)
Definition char_length `{Locale} (text : str) : nat := decoded_length text.

Definition endl : str := [chr 10].

(** [setw(n) << " "] *)
Definition pad (n : nat) : str := replicate (n - 1) " "%char ++ lit " ".

Definition option_text (p : cmdline_parameter) : str :=
  lit "-" ++ [short_name p]
  ++ (match value_name p with [] => [] | v => lit " " ++ v end)
  ++ (match long_name p with [] => [] | l => lit ", --" ++ l end)
  ++ (match value_name p with [] => [] | v => lit "=" ++ v end).

Definition max_length `{Locale} (params : list cmdline_parameter) : nat :=
  foldl (λ m p, if is_option p then m `max` char_length (option_text p) else m) 0 params.

Definition option_line `{Locale} (width : nat) (p : cmdline_parameter) : str :=
  option_text p
  ++ (match description p with
      | [] => []
      | d => pad (width + 1 - char_length (option_text p)) ++ lit " " ++ d
      end)
  ++ endl.

(** [find(begin, end, type)]: the parameters from the first one of the type on. *)
Fixpoint from_type (t : parameter_type) (params : list cmdline_parameter) : list cmdline_parameter :=
  match params with
  | [] => []
  | p :: ps => if has_type t p then params else from_type t ps
  end.

(** The loop over the commands advances by one parameter at a time, whatever its type. *)
Definition print_help `{Locale} (app_path : str) (params : list cmdline_parameter) : str :=
  let '(_, filename) := tokenize_pair app_path [] [] true (lit "/\") in
  lit "Usage: " ++ filename ++ lit " "
  ++ (if existsb is_option params then lit "[options...] " else [])
  ++ concat ((λ p, long_name p ++ lit " ") <$> from_type COMMAND params)
  ++ (match from_type FILENAME params with
      | [] => []
      | p :: _ => match description p with [] => lit "file(s)..." | d => d end
      end)
  ++ (if existsb is_option params
      then endl ++ endl ++ lit "Where available options are:" ++ endl
           ++ concat ((λ p, if is_option p then option_line (max_length params) p else []) <$> params)
      else []).

(** ** [application] *)
Section application.
Context `{Getopt} `{Locale} {world : Type}.

(** A delegate called with the parameter by reference: its answer, the parameter and the world
    afterwards. *)
Abbreviation handler := (cmdline_parameter → world → outcome bool * cmdline_parameter * world).

Inductive cmdline_handler :=
  | Help
  | Handler (f : handler).

Record application := Application {
  _app_path : str;
  _app_name : str;
  _app_description : str;
  _params : cmdline_parameters;
  _handlers : list (ascii * cmdline_handler);
  execute_handler : option (world → outcome Z * world);
  exception_handler : option (exn → world → world);
  out : str;
  err : str;
  ctx : world }.

Definition char_less (a b : ascii) : bool := (schar a <? schar b)%Z.

Definition register_cmdline_parameter (p : cmdline_parameter) (h : cmdline_handler) (a : application)
    : application :=
  Application (_app_path a) (_app_name a) (_app_description a) (add p (_params a))
    (map_set char_less (short_name p) h (_handlers a)) (execute_handler a) (exception_handler a)
    (out a) (err a) (ctx a).

Definition application_new (g : optstate) (w : world) : application :=
  register_cmdline_parameter
    (param_option "h"%char (lit "help") (lit "show this help page") [] OPTION) Help
    (Application [] [] [] (Cmdline_parameters 0 [] g) [] None None [] [] w).

Definition set_name (name : str) (a : application) : application :=
  Application (_app_path a) name (_app_description a) (_params a) (_handlers a)
    (execute_handler a) (exception_handler a) (out a) (err a) (ctx a).

Definition set_description (d : str) (a : application) : application :=
  Application (_app_path a) (_app_name a) d (_params a) (_handlers a)
    (execute_handler a) (exception_handler a) (out a) (err a) (ctx a).

Definition on_execute (h : world → outcome Z * world) (a : application) : application :=
  Application (_app_path a) (_app_name a) (_app_description a) (_params a) (_handlers a)
    (Some h) (exception_handler a) (out a) (err a) (ctx a).

Definition on_exception (h : exn → world → world) (a : application) : application :=
  Application (_app_path a) (_app_name a) (_app_description a) (_params a) (_handlers a)
    (execute_handler a) (Some h) (out a) (err a) (ctx a).

Definition set_path (p : str) (a : application) : application :=
  Application p (_app_name a) (_app_description a) (_params a) (_handlers a)
    (execute_handler a) (exception_handler a) (out a) (err a) (ctx a).

Definition set_params (c : cmdline_parameters) (a : application) : application :=
  Application (_app_path a) (_app_name a) (_app_description a) c (_handlers a)
    (execute_handler a) (exception_handler a) (out a) (err a) (ctx a).

Definition with_world (w : world) (a : application) : application :=
  Application (_app_path a) (_app_name a) (_app_description a) (_params a) (_handlers a)
    (execute_handler a) (exception_handler a) (out a) (err a) w.

Definition cout (s : str) (a : application) : application :=
  Application (_app_path a) (_app_name a) (_app_description a) (_params a) (_handlers a)
    (execute_handler a) (exception_handler a) (out a ++ s) (err a) (ctx a).

Definition cerr (s : str) (a : application) : application :=
  Application (_app_path a) (_app_name a) (_app_description a) (_params a) (_handlers a)
    (execute_handler a) (exception_handler a) (out a) (err a ++ s) (ctx a).

Definition print_cmdline_parameters_help (a : application) : application :=
  cout (print_help (_app_path a) (params (_params a))) a.

Definition cmdline_help_handler (a : application) : application :=
  print_cmdline_parameters_help
    (match _app_description a with
     | [] => a
     | d => cout (_app_name a ++ lit ": " ++ d ++ lit "." ++ endl ++ endl) a
     end).

(** The body of the loop of [init]: the handler of a parameter, if there is one. *)
Definition dispatch (p : cmdline_parameter) (a : application)
    : outcome bool * cmdline_parameter * application :=
  match map_find char_less (short_name p) (_handlers a) with
  | None => (Ret true, p, a)
  | Some Help => (Ret false, p, cmdline_help_handler a)
  | Some (Handler f) => let '(o, p', w) := f p (ctx a) in (o, p', with_world w a)
  end.

Definition syntax_message (e : exn) (a : application) : application :=
  print_cmdline_parameters_help
    (cerr (_app_name a ++ lit ": " ++ lit "syntax error" ++ lit " - " ++ exn_what e ++ endl ++ endl) a).

(** The loop of [init], in its try block. *)
Fixpoint init_loop (fuel argc : nat) (p : cmdline_parameter) (a : application)
    : option (outcome bool * application) :=
  match fuel with
  | O => None
  | S f =>
      let '(r, p1, c) := parse argc p (_params a) in
      let a1 := set_params c a in
      match r with
      | Ret false => Some (Ret true, a1)
      | Ret true =>
          let '(h, p2, a2) := dispatch p1 a1 in
          match h with
          | Ret true => init_loop f argc p2 a2
          | Ret false => Some (Ret false, a2)
          | Throw e => Some (Throw e, a2)
          | Undef => Some (Undef, a2)
          end
      | Throw e => Some (Throw e, a1)
      | Undef => Some (Undef, a1)
      end
  end.

(** [init(argc, argv)]: it catches the syntax errors only. *)
Definition init (fuel : nat) (argv : list str) (a : application)
    : option (outcome bool * application) :=
  match argv with
  | [] => Some (Undef, a)
  | path :: _ =>
      let a1 := set_path path a in
      let a2 := match _app_name a1 with
                | [] => set_name (snd (tokenize_pair path [] [] true (lit "/\"))) a1
                | _ => a1
                end in
      match init_loop fuel (length argv) param_default a2 with
      | Some (Throw e, a3) =>
          if bool_decide (exn_cls e = cmdline_parameters_exception)
          then Some (Ret false, syntax_message e a3)
          else Some (Throw e, a3)
      | r => r
      end
  end.

(** [console_logger::log] at the time [clock]. *)
Definition console_log `{TimeLib} (clock : Z) (message : str) (a : application) : outcome application :=
  text ← dt_str default_datetime_format (dt_now clock);
  Ret (cout (lit "[" ++ text ++ lit "] " ++ message ++ endl) a).

(** [run(argc, argv)] *)
Definition run_failed (e : exn) (a : application) : outcome Z * application :=
  match exception_handler a with
  | Some h => (Ret (-1)%Z, with_world (h e (ctx a)) a)
  | None =>
      (m ← format_str (Format (lit "Fatal error: {0}") [exn_what e]); Ret (-1)%Z,
       match format_str (Format (lit "Fatal error: {0}") [exn_what e]) with
       | Ret m => cout (m ++ endl) a
       | _ => a
       end)
  end.

Definition run (fuel : nat) (argv : list str) (a : application) : option (outcome Z * application) :=
  match init fuel argv a with
  | None => None
  | Some (Ret true, a1) =>
      match execute_handler a1 with
      | None => Some (Ret (-1)%Z, a1)
      | Some h =>
          let '(o, w) := h (ctx a1) in
          match o with
          | Ret z => Some (Ret z, with_world w a1)
          | Throw e => Some (run_failed e (with_world w a1))
          | Undef => Some (Undef, with_world w a1)
          end
      end
  | Some (Ret false, a1) => Some (Ret (-1)%Z, a1)
  | Some (Throw e, a1) => Some (run_failed e a1)
  | Some (Undef, a1) => Some (Undef, a1)
  end.
End application.

(** ** What a command line holds

    [found] is the sequence of getopt's answers, [run_events] what becomes of what it finds. *)
Inductive event := Option_event (c : ascii) (v : str) | File_event (v : str).

(** The parameter a handler is given: the fields of the one before, but for these. *)
Definition event_param (e : event) (p : cmdline_parameter) : cmdline_parameter :=
  match e with
  | Option_event c v => Cmdline_parameter c (long_name p) (value_name p) v (description p) (type p)
  | File_event v => Cmdline_parameter nul (long_name p) (value_name p) v (description p) FILENAME
  end.

(** The letters and long options getopt is to know. *)
Inductive declares : list cmdline_parameter → str → list long_option → Prop :=
  | declares_nil : declares [] [] []
  | declares_option p ps o l :
      type p = OPTION → declares ps o l →
      declares (p :: ps) (short_name p :: o) (Long_option None (c_str (long_name p)) (short_name p) :: l)
  | declares_value p ps o l :
      type p = OPTION_WITH_VALUE → declares ps o l →
      declares (p :: ps) (short_name p :: ":"%char :: o)
        (Long_option (Some 1%Z) (c_str (long_name p)) (short_name p) :: l)
  | declares_other p ps o l :
      type p = COMMAND ∨ type p = FILENAME → declares ps o l → declares (p :: ps) o l.

Lemma params_declared ps : ∃ o, optstring ps = ":"%char :: o ∧ declares ps o (long_options ps).
Proof.
  induction ps as [| p ps (o & Ho & Hd)]; [by exists []; split; [| constructor] |].
  unfold optstring in *. cbn [fmap list_fmap concat long_options omap list_omap]. fold (long_options ps).
  injection Ho as ->. unfold is_option, has_type. destruct (type p) eqn:E; cbn.
  - eexists. split; [done |]. by apply declares_option.
  - eexists. split; [done |]. by apply declares_value.
  - eexists. split; [done |]. apply declares_other; [by left | done].
  - eexists. split; [done |]. apply declares_other; [by right | done].
Qed.

Section found.
Context `{Getopt}.

(** What getopt finds, the state it ends in, and how: it is through with the options, or an
    option is not known or has no argument. *)
Inductive found (o : str) (l : list long_option) : optstate → list event → optstate → outcome bool → Prop :=
  | found_option g r g' es g2 last :
      getopt_long o l Address_of_optind g = (r, g') →
      (r ≠ -1)%Z → r ≠ ord "?" → r ≠ ord ":" → found o l g' es g2 last →
      found o l g (Option_event (chr r) (default [] (optarg g')) :: es) g2 last
  | found_end g g' :
      getopt_long o l Address_of_optind g = ((-1)%Z, g') → found o l g [] g' (Ret true)
  | found_unrecognized g g' :
      getopt_long o l Address_of_optind g = (ord "?", g') → optopt g' = 0%Z →
      found o l g [] g' (Throw (Exn cmdline_parameters_exception (lit "option unrecognized")))
  | found_invalid g g' :
      getopt_long o l Address_of_optind g = (ord "?", g') → optopt g' ≠ 0%Z →
      found o l g [] g' (Throw (Exn cmdline_parameters_exception
        (lit "invalid option '" ++ [chr (optopt g')] ++ lit "'")))
  | found_no_argument g g' :
      getopt_long o l Address_of_optind g = (ord ":", g') →
      found o l g [] g' (Throw (Exn cmdline_parameters_exception
        (lit "option '" ++ [chr (optopt g')] ++ lit "' requires an argument"))).

(** After the options come the arguments that are left in argv. *)
Definition left_over (g : optstate) (last : outcome bool) : list event :=
  match last with Ret _ => File_event <$> drop (optind g) (getopt_argv g) | _ => [] end.
End found.

Section scan.
Context `{Getopt}.

(** [parse] as an event. *)
Definition parse_event (argc : nat) (c : cmdline_parameters) : outcome (option event) * cmdline_parameters :=
  let '(o, p, c') := parse argc param_default c in
  match o with
  | Ret true => (Ret (Some (if 0 <? pos c' then File_event (value p) else Option_event (short_name p) (value p))), c')
  | Ret false => (Ret None, c')
  | Throw e => (Throw e, c')
  | Undef => (Undef, c')
  end.

Fixpoint scan (fuel argc : nat) (c : cmdline_parameters) : option (list event * outcome bool) :=
  match fuel with
  | O => None
  | S f =>
      match parse_event argc c with
      | (Ret None, _) => Some ([], Ret true)
      | (Ret (Some e), c') => '(es, o) ← scan f argc c'; Some (e :: es, o)
      | (Throw e, _) => Some ([], Throw e)
      | (Undef, _) => Some ([], Undef)
      end
  end.

(** [parse] sets the same fields whatever its parameter holds. *)
Lemma parse_param argc p c :
  match parse_event argc c with
  | (Ret (Some e), c') => parse argc p c = (Ret true, event_param e p, c')
  | (Ret None, c') => parse argc p c = (Ret false, p, c')
  | (Throw x, c') => parse argc p c = (Throw x, p, c')
  | (Undef, c') => parse argc p c = (Undef, p, c')
  end.
Proof.
  unfold parse_event, parse. destruct (0 <? pos c) eqn:Hpos.
  - destruct (pos c <? argc); [| done]. by destruct (_ !! _).
  - destruct (getopt_long _ _ _ _) as [r g].
    destruct (r =? -1)%Z.
    { destruct (optind g <? argc); [| done]. by destruct (_ !! _). }
    destruct (r =? ord "?")%Z; [by destruct (optopt g =? 0)%Z |].
    destruct (r =? ord ":")%Z; [done |]. cbn. by rewrite Hpos.
Qed.

Lemma parse_event_params argc c : params (snd (parse_event argc c)) = params c.
Proof.
  unfold parse_event, parse. destruct (0 <? pos c).
  - destruct (pos c <? argc); [| done]. by destruct (_ !! _).
  - destruct (getopt_long _ _ _ _) as [r g].
    destruct (r =? -1)%Z.
    { destruct (optind g <? argc); [| done]. by destruct (_ !! _). }
    destruct (r =? ord "?")%Z; [by destruct (optopt g =? 0)%Z |].
    by destruct (r =? ord ":")%Z.
Qed.

(** Once the options are through, the rest of argv follows. *)
Lemma scan_files fuel argc c :
  0 < pos c → length (getopt_argv (opts c)) = argc → argc - pos c < fuel →
  scan fuel argc c = Some (File_event <$> drop (pos c) (getopt_argv (opts c)), Ret true).
Proof.
  revert c. induction fuel as [| f IH]; intros c Hp Hl Hf; [lia |]. cbn [scan].
  unfold parse_event, parse. destruct (Nat.ltb_spec 0 (pos c)); [| lia].
  destruct (Nat.ltb_spec (pos c) argc) as [Hlt | Hge]; [| by rewrite drop_ge by lia].
  destruct (getopt_argv (opts c) !! pos c) as [v |] eqn:E; [| apply lookup_ge_None in E; lia].
  cbn [short_name value set_filename pos Nat.ltb Nat.leb].
  rewrite IH by (cbn; lia || done). cbn [pos opts mbind option_bind].
  by rewrite (drop_S _ _ _ E).
Qed.

Lemma scan_finds `{!GetoptLaws} fuel argc c :
  pos c = 0 → length (getopt_argv (opts c)) = argc →
  Forall (λ x, short_argument x = true) (getopt_argv (opts c)) → remaining (opts c) + argc + 1 < fuel →
  ∃ es g last, found (optstring (params c)) (long_options (params c)) (opts c) es g last ∧
    scan fuel argc c = Some (es ++ left_over g last, last).
Proof.
  revert c. induction fuel as [| f IH]; intros c Hp Hl Hsh Hf; [lia |]. cbn [scan].
  unfold parse_event, parse. rewrite Hp. cbn [Nat.ltb Nat.leb].
  pose proof (getopt_progress (optstring (params c)) (long_options (params c)) Address_of_optind (opts c) Hsh) as Hg.
  destruct (getopt_long _ _ _ _) as [r g] eqn:Eg. destruct Hg as [Hperm Hr].
  pose proof (Permutation_length Hperm) as Hlg.
  destruct (Z.eqb_spec r (-1)) as [-> | Hne].
  - exists [], g, (Ret true). split; [by apply found_end |]. cbn [app left_over].
    destruct (Nat.ltb_spec (optind g) argc) as [Hlt | Hge]; [| by rewrite drop_ge by lia].
    destruct (getopt_argv g !! optind g) as [v |] eqn:E; [| apply lookup_ge_None in E; lia].
    cbn [short_name value set_filename pos Nat.ltb Nat.leb].
    rewrite scan_files by (cbn; lia). cbn [mbind option_bind pos opts]. by rewrite (drop_S _ _ _ E).
  - specialize (Hr Hne). destruct (Z.eqb_spec r (ord "?")) as [-> | Hq].
    { destruct (Z.eqb_spec (optopt g) 0) as [Ho | Ho].
      - eexists [], g, _. split; [by apply found_unrecognized | done].
      - eexists [], g, _. split; [by apply found_invalid | done]. }
    destruct (Z.eqb_spec r (ord ":")) as [-> | Hcol].
    { eexists [], g, _. split; [by apply found_no_argument | done]. }
    cbn [pos short_name value set_option Nat.ltb Nat.leb].
    destruct (IH (Cmdline_parameters 0 (params c) g)) as (es & g2 & last & Hfound & ->);
      [done | by rewrite <- Hl | cbn; by rewrite Hperm | cbn; lia |].
    eexists _, g2, last. split; [by eapply found_option | done].
Qed.
End scan.

Section events.
Context `{Getopt} `{Locale} {world : Type}.
Implicit Types a : @application _ world.

(** Each event is given to the handler registered for its letter - the arguments that are left have
    the null character for one -, up to the first that answers false or throws. *)
Fixpoint run_events (es : list event) (last : outcome bool) (p : cmdline_parameter) a
    : outcome bool * application :=
  match es with
  | [] => (last, a)
  | e :: es' =>
      let p1 := event_param e p in
      match map_find char_less (match e with Option_event c _ => c | File_event _ => nul end) (_handlers a) with
      | None => run_events es' last p1 a
      | Some Help => (Ret false, cmdline_help_handler a)
      | Some (Handler f) =>
          let '(h, p2, w) := f p1 (ctx a) in
          match h with
          | Ret true => run_events es' last p2 (with_world w a)
          | _ => (h, with_world w a)
          end
      end
  end.

Lemma help_params c a :
  params c = params (_params a) → cmdline_help_handler (set_params c a) = set_params c (cmdline_help_handler a).
Proof.
  intros Hc. unfold cmdline_help_handler, print_cmdline_parameters_help, cout. cbn.
  destruct (_app_description a); cbn; by rewrite Hc.
Qed.

Lemma run_events_params c es last p a :
  params c = params (_params a) →
  run_events es last p (set_params c a)
  = (let '(o, a') := run_events es last p a in (o, set_params c a')).
Proof.
  revert p a. induction es as [| e es IH]; intros p a Hc; [done |]. cbn [run_events].
  change (_handlers (set_params c a)) with (_handlers a). change (ctx (set_params c a)) with (ctx a).
  destruct (map_find _ _ _) as [[| f] |]; [by rewrite help_params | | by apply IH].
  destruct (f (event_param e p) (ctx a)) as [[[[] | x |] p2] w]; [| done..].
  exact (IH p2 (with_world w a) Hc).
Qed.

Lemma init_loop_scan fuel argc p a es last :
  scan fuel argc (_params a) = Some (es, last) →
  ∃ c, params c = params (_params a) ∧
    init_loop fuel argc p a = (let '(o, a') := run_events es last p a in Some (o, set_params c a')).
Proof.
  revert p a es last. induction fuel as [| f IH]; intros p a es last; [done |].
  cbn [scan init_loop]. pose proof (parse_param argc p (_params a)) as Hp.
  pose proof (parse_event_params argc (_params a)) as Hc.
  destruct (parse_event argc (_params a)) as [[[e |] | x |] c]; rewrite Hp; cbn [snd] in Hc.
  - destruct (scan f argc c) as [[es' last'] |] eqn:Es; [| done]. intros [= <- <-]. cbn [run_events].
    assert (∀ q a1, a1 = set_params c a1 → params (_params a1) = params (_params a) →
      ∃ c', params c' = params (_params a) ∧
        init_loop f argc q a1 = (let '(o, a') := run_events es' last' q a1 in Some (o, set_params c' a'))) as Hgo.
    { intros q a1 Ha1 Hps. destruct (IH q a1 es' last') as (c' & Hc' & E); [by rewrite Ha1 |].
      exists c'. by rewrite Hc', Hps. }
    assert (∀ q w, ∃ c', params c' = params (_params a) ∧
      init_loop f argc q (with_world w (set_params c a))
      = (let '(o, a') := run_events es' last' q (with_world w a) in Some (o, set_params c' a'))) as Hrun.
    { intros q w. destruct (Hgo q (with_world w (set_params c a)) eq_refl Hc) as (c' & Hc' & ->).
      exists c'. split; [done |].
      change (with_world w (set_params c a)) with (set_params c (with_world w a)).
      rewrite run_events_params by done. by destruct (run_events es' last' q (with_world w a)). }
    unfold dispatch. change (_handlers (set_params c a)) with (_handlers a).
    change (ctx (set_params c a)) with (ctx a).
    assert (short_name (event_param e p) = match e with Option_event c _ => c | File_event _ => nul end) as ->
      by by destruct e.
    destruct (map_find _ _ _) as [[| g] |].
    + exists c. by rewrite help_params.
    + destruct (g (event_param e p) (ctx a)) as [[[[] | x |] q] w]; [apply Hrun | by exists c..].
    + pose proof (Hrun (event_param e p) (ctx a)) as Hr.
      assert (with_world (ctx a) a = a) as Ew by by destruct a.
      assert (with_world (ctx a) (set_params c a) = set_params c a) as Ec by by destruct a.
      by rewrite Ew, Ec in Hr.
  - intros [= <- <-]. by exists c.
  - intros [= <- <-]. by exists c.
  - intros [= <- <-]. by exists c.
Qed.

Lemma max_length_bound ps m p :
  m ≤ foldl (λ m p, if is_option p then m `max` char_length (option_text p) else m) m ps ∧
  (p ∈ ps → is_option p = true →
   char_length (option_text p)
   ≤ foldl (λ m p, if is_option p then m `max` char_length (option_text p) else m) m ps).
Proof.
  revert m. induction ps as [| q ps IH]; intros m; cbn [foldl]; [split; [done |]; by intros ?%elem_of_nil |].
  destruct (IH (if is_option q then m `max` char_length (option_text q) else m)) as [H1 H2].
  split; [destruct (is_option q); lia |]. intros [-> | Hin]%elem_of_cons Ho; [| by apply H2].
  rewrite Ho in *. lia.
Qed.
End events.

(** ** Properties *)

(** C17. On a command line without long options the loop of [init] ends.  getopt is given the
    letters of the registered options, with a colon for those that have a value; the handler
    registered for its letter is called for every option getopt finds, with the letter and the
    value, in order, and then the one for file names for every argument getopt leaves, in order,
    up to the first handler that answers false or throws; a syntax error comes after the handlers
    of the options before it, with its message.  (For a long option the index of its element is
    stored in [optind]: [longindex_rescans].) *)
Theorem application_dispatches `{GetoptLaws} `{Locale} {world : Type} fuel argc p
    (a : @application _ world) :
  pos (_params a) = 0 → length (getopt_argv (opts (_params a))) = argc →
  Forall (λ x, short_argument x = true) (getopt_argv (opts (_params a))) →
  remaining (opts (_params a)) + argc + 1 < fuel →
  ∃ o l es g last c,
    declares (params (_params a)) o l ∧ found (":"%char :: o) l (opts (_params a)) es g last ∧
    params c = params (_params a) ∧
    init_loop fuel argc p a
    = (let '(r, a') := run_events (es ++ left_over g last) last p a in Some (r, set_params c a')).
Proof.
  intros Hp Hl Hsh Hf. destruct (scan_finds fuel argc (_params a) Hp Hl Hsh Hf) as (es & g & last & Hs & He).
  destruct (init_loop_scan fuel argc p a _ last He) as (c & Hc & Hi).
  destruct (params_declared (params (_params a))) as (o & Ho & Hd). rewrite Ho in Hs.
  by exists o, (long_options (params (_params a))), es, g, last, c.
Qed.

(** The help page aligns the descriptions: on every option's line the text of the option
    and the blanks after it are together two characters wider than the widest option. *)
Theorem application_help_aligned `{Locale} ps p :
  p ∈ ps → is_option p = true → description p ≠ [] →
  ∃ blanks, option_line (max_length ps) p
    = option_text p ++ replicate blanks " "%char ++ description p ++ endl ∧
    2 ≤ blanks ∧ char_length (option_text p) + blanks = max_length ps + 2.
Proof.
  intros Hp Ho Hd. destruct (max_length_bound ps 0 p) as [_ Hm]. specialize (Hm Hp Ho).
  fold (max_length ps) in Hm. exists (max_length ps + 2 - char_length (option_text p)).
  split; [| lia]. unfold option_line, pad. destruct (description p) as [| c d]; [done |].
  f_equal. rewrite <- !app_assoc. 
  replace (max_length ps + 2 - char_length (option_text p))
    with ((max_length ps + 1 - char_length (option_text p) - 1) + 2) by lia.
  rewrite replicate_add, <- app_assoc. done.
Qed.

(** ** A getopt and a locale

    Short options only, each an argument of its own, up to the first argument that is none. *)
Record simple_state := Simple {
  s_argv : list str; s_ind : nat; s_opt : Z; s_arg : option str }.

Definition simple_step (o : str) (g : simple_state) : Z * simple_state :=
  let next n opt arg := Simple (s_argv g) n opt arg in
  match s_argv g !! s_ind g with
  | Some ["-"%char; c] =>
      match find_char c (drop 1 o) with
      | None => (ord "?", next (s_ind g + 1) (ord c) None)
      | Some i =>
          if bool_decide (o !! (i + 2) = Some ":"%char) then
            match s_argv g !! S (s_ind g) with
            | Some v => (ord c, next (s_ind g + 2) 0%Z (Some v))
            | None => (ord ":", next (s_ind g + 1) (ord c) None)
            end
          else (ord c, next (s_ind g + 1) 0%Z None)
      end
  | _ => ((-1)%Z, g)
  end.

#[export] Instance simple_getopt : Getopt := {
  optstate := simple_state; getopt_argv := s_argv; optind := s_ind; optopt := s_opt;
  optarg := s_arg; getopt_long o _ _ g := simple_step o g }.

#[export] Instance simple_getopt_laws : GetoptLaws.
Proof.
  refine {| remaining g := length (s_argv g) - s_ind g |}.
  intros o l lx g _. cbn. unfold simple_step.
  destruct (s_argv g !! s_ind g) as [[| c1 [| c [|]]] |] eqn:E; try done;
    try (destruct c1 as [[] [] [] [] [] [] [] []]; done).
  apply lookup_lt_Some in E. destruct c1 as [[] [] [] [] [] [] [] []]; try done.
  destruct (find_char c (drop 1 o)) as [i |]; [| cbn; split; [done | lia]].
  destruct (bool_decide _); [| cbn; split; [done | lia]]. destruct (_ !! S _); cbn; (split; [done | lia]).
Defined.

#[export] Instance byte_locale : Locale := {| decoded_length := length |}.

(** An application with an option and file names; its handlers note what they see. *)
Definition note (p : cmdline_parameter) (w : list str) : outcome bool * cmdline_parameter * list str :=
  (Ret true, p, w ++ [short_name p :: value p]).

Definition sample_argv : list str := [lit "/bin/prog"; lit "-i"; lit "in"; lit "-v"; lit "a"; lit "b"].

Definition sample_app (argv : list str) : @application simple_getopt (list str) :=
  register_cmdline_parameter (param_typed FILENAME) (Handler note)
    (register_cmdline_parameter (param_option "v"%char (lit "verbose") (lit "talk") [] OPTION) (Handler note)
      (register_cmdline_parameter
        (param_option "i"%char (lit "input") (lit "the input") (lit "FILE") OPTION_WITH_VALUE) (Handler note)
        (application_new (Simple argv 1 0 None) []))).

(** A getopt that knows long options without values, and stores the index of the one it finds
    after it has moved [optind] on. *)
Definition storing_step (l : list long_option) (i : longindex) (g : simple_state) : Z * simple_state :=
  match s_argv g !! s_ind g with
  | Some ("-"%char :: "-"%char :: n) =>
      match list_find (λ x, lo_name x = n) l with
      | Some (k, x) =>
          (ord (lo_val x),
           Simple (s_argv g) (match i with Address_of_optind => k | _ => S (s_ind g) end) 0 None)
      | None => (ord "?", Simple (s_argv g) (S (s_ind g)) 0 None)
      end
  | _ => ((-1)%Z, g)
  end.

Definition storing_getopt : Getopt := {|
  optstate := simple_state; getopt_argv := s_argv; optind := s_ind; optopt := s_opt;
  optarg := s_arg; getopt_long _ l i g := storing_step l i g |}.

(** With it the loop of [init] finds the second option of the application again and again: its
    index is the position of the argument. *)
Example longindex_rescans :
  let _ := storing_getopt in
  let a : application :=
    register_cmdline_parameter (param_option "v"%char (lit "verbose") (lit "talk") [] OPTION) (Handler note)
      (application_new (Simple [lit "/bin/prog"; lit "--verbose"] 1 0 None) []) in
  init_loop 1000 2 param_default a = None.
Proof. by vm_compute. Qed.

(** Every parameter after the first command is printed as a command. *)
Example help_lists_options_as_commands :
  print_help (lit "prog")
    [param_option nul (lit "run") [] [] COMMAND; param_option "v"%char (lit "verbose") [] [] COMMAND;
     param_option nul (lit "level") (lit "a file") [] FILENAME]
  = lit "Usage: prog run verbose level a file".
Proof. by vm_compute. Qed.

(** ** Witnesses *)
Lemma application_dispatches_witness :
  (let '(o, a') := default (Undef, sample_app sample_argv) (init 20 sample_argv (sample_app sample_argv)) in
   (o, ctx a')) = (Ret true, [lit "iin"; lit "v"; nul :: lit "a"; nul :: lit "b"]) ∧
  ∃ o l es g last c,
    declares (params (_params (sample_app sample_argv))) o l ∧
    found (":"%char :: o) l (opts (_params (sample_app sample_argv))) es g last ∧
    params c = params (_params (sample_app sample_argv)) ∧
    init_loop 20 6 param_default (sample_app sample_argv)
    = (let '(r, a') := run_events (es ++ left_over g last) last param_default (sample_app sample_argv) in
       Some (r, set_params c a')).
Proof.
  split; [by vm_compute |].
  assert (remaining (opts (_params (sample_app sample_argv))) + 6 + 1 < 20) as Hf by (cbn; lia).
  exact (application_dispatches 20 6 param_default (sample_app sample_argv) eq_refl eq_refl
    ltac:(repeat constructor) Hf).
Defined.

Lemma application_help_aligned_witness :
  let ps := params (_params (sample_app sample_argv)) in
  let p := param_option "v"%char (lit "verbose") (lit "talk") [] OPTION in
  ∃ blanks, option_line (max_length ps) p
    = option_text p ++ replicate blanks " "%char ++ description p ++ endl ∧
    2 ≤ blanks ∧ char_length (option_text p) + blanks = max_length ps + 2.
Proof.
  exact (application_help_aligned (params (_params (sample_app sample_argv)))
    (param_option "v"%char (lit "verbose") (lit "talk") [] OPTION)
    ltac:(right; right; left) eq_refl ltac:(discriminate)).
Defined.
