(* ===== verification/Process.v ===== *)
(** * [posix/process_impl.cpp]: the arguments of a child process

    [str2argv], a state machine over the characters of an argument string. *)
From S2P Require Export StrUtils.

Inductive argv_state : Set := SYMBOL | SKIP | SKIP_UNTIL.

#[global] Instance argv_state_eq_dec : EqDecision argv_state.
Proof. solve_decision. Defined.

(** One turn of the loop, on the state, the argument being read and the ones before it. *)
Definition argv_step (c : ascii) (st : argv_state * str * list str) : argv_state * str * list str :=
  let '(s, arg, argv) := st in
  if bool_decide (c = "\"%char) then (SKIP, arg, argv)
  else if bool_decide (c = chr 34) then
    ((if bool_decide (s = SKIP_UNTIL) then SYMBOL else SKIP_UNTIL), arg, argv)
  else if bool_decide (c = " "%char) then
    match s with
    | SKIP => (SYMBOL, arg ++ [c], argv)
    | SKIP_UNTIL => (SKIP_UNTIL, arg ++ [c], argv)
    | SYMBOL => (SYMBOL, [], argv ++ [arg])
    end
  else ((if bool_decide (s = SKIP) then SYMBOL else s), arg ++ [c], argv).

Definition argv_loop (src : str) (st : argv_state * str * list str) : argv_state * str * list str :=
  foldl (λ st c, argv_step c st) st src.

Definition str2argv (src : str) (argv : list str) : list str :=
  let '(_, arg, argv') := argv_loop src (SYMBOL, [], argv) in
  match arg with [] => argv' | _ => argv' ++ [arg] end.

(** ** Printing arguments *)

(** An argument in quotes, or with a backslash before each blank. *)
Definition print_arg (quoted : bool) (a : str) : str :=
  if quoted then chr 34 :: a ++ [chr 34]
  else concat ((λ c, if bool_decide (c = " "%char) then ["\"%char; c] else [c]) <$> a).

Fixpoint join_args (args : list (bool * str)) : str :=
  match args with
  | [] => []
  | [(q, a)] => print_arg q a
  | (q, a) :: args' => print_arg q a ++ lit " " ++ join_args args'
  end.

Definition no_meta (a : str) : Prop := Forall (λ c, c ≠ "\"%char ∧ c ≠ chr 34) a.

Lemma argv_loop_app s1 s2 st : argv_loop (s1 ++ s2) st = argv_loop s2 (argv_loop s1 st).
Proof. apply foldl_app. Qed.

Lemma argv_loop_quoted a arg argv :
  no_meta a → argv_loop a (SKIP_UNTIL, arg, argv) = (SKIP_UNTIL, arg ++ a, argv).
Proof.
  intros Ha. revert arg. induction Ha as [| c a [H1 H2] _ IH]; intros arg; [by rewrite app_nil_r |].
  change (c :: a) with ([c] ++ a). rewrite argv_loop_app, app_assoc, <- IH. unfold argv_loop at 2, argv_step.
  cbn [foldl]. do 2 rewrite bool_decide_false by done. by destruct (bool_decide (c = " "%char)).
Qed.

Lemma argv_loop_arg q a arg argv :
  no_meta a → argv_loop (print_arg q a) (SYMBOL, arg, argv) = (SYMBOL, arg ++ a, argv).
Proof.
  intros Ha. destruct q; cbn [print_arg].
  - change (chr 34 :: a ++ [chr 34]) with ([chr 34] ++ a ++ [chr 34]).
    rewrite !argv_loop_app. change (argv_loop [chr 34] (SYMBOL, arg, argv)) with (SKIP_UNTIL, arg, argv).
    by rewrite argv_loop_quoted.
  - revert arg. induction Ha as [| c a [H1 H2] _ IH]; intros arg; [by rewrite app_nil_r |].
    cbn [fmap list_fmap concat]. rewrite argv_loop_app.
    change (c :: a) with ([c] ++ a). rewrite app_assoc, <- IH.
    destruct (bool_decide (c = " "%char)) eqn:E; [by apply bool_decide_eq_true in E as -> |].
    unfold argv_loop at 2, argv_step. cbn [foldl]. do 2 rewrite bool_decide_false by done. by rewrite E.
Qed.

Lemma argv_loop_args args argv :
  Forall (λ e, no_meta e.2) args →
  argv_loop (join_args args) (SYMBOL, [], argv)
  = match last args with
    | Some e => (SYMBOL, e.2, argv ++ removelast (args.*2))
    | None => (SYMBOL, [], argv)
    end.
Proof.
  intros Ha. revert argv. induction Ha as [| [q a] args Hq Ht IH]; intros argv; [done |].
  destruct args as [| e args].
  - cbn. rewrite app_nil_r. by apply argv_loop_arg.
  - change (join_args ((q, a) :: e :: args)) with (print_arg q a ++ lit " " ++ join_args (e :: args)).
    rewrite argv_loop_app, argv_loop_arg, argv_loop_app by done.
    change (argv_loop (lit " ") (SYMBOL, [] ++ a, argv)) with (SYMBOL, [] : str, argv ++ [a]).
    rewrite IH. rewrite last_cons_cons. destruct (last (e :: args)) eqn:E; [| by apply last_None in E].
    f_equal. by rewrite <- app_assoc.
Qed.

(** Whatever the state machine reads, it never puts a backslash or a quote in an argument. *)
Lemma argv_loop_no_meta src s arg argv :
  no_meta arg → Forall no_meta argv →
  let '(_, arg', argv') := argv_loop src (s, arg, argv) in no_meta arg' ∧ Forall no_meta argv'.
Proof.
  revert s arg argv. induction src as [| c src IH]; intros s arg argv Ha Hv; [done |].
  change (argv_loop (c :: src) (s, arg, argv)) with (argv_loop src (argv_step c (s, arg, argv))).
  unfold argv_step. destruct (decide (c = "\"%char)) as [-> |]; [by apply IH |].
  rewrite bool_decide_false by done. destruct (decide (c = chr 34)) as [-> |]; [by apply IH |].
  rewrite bool_decide_false by done.
  assert (no_meta (arg ++ [c])) by (apply Forall_app_2; [done | by repeat constructor]).
  destruct (bool_decide (c = " "%char)); [| by apply IH].
  destruct s; apply IH; try done; [constructor |]. apply Forall_app_2; [done | by repeat constructor].
Qed.

(** ** Properties *)

(** A list of arguments written down with blanks between them, each in quotes or with its
    blanks escaped, is split into exactly these arguments, as long as the last one is not empty
    and none holds a quote or a backslash; and no text gives an argument that holds one. *)
Theorem str2argv_splits args :
  Forall (λ e, no_meta e.2) args → (∀ e, last args = Some e → e.2 ≠ []) →
  str2argv (join_args args) [] = args.*2 ∧ ∀ src, Forall no_meta (str2argv src []).
Proof.
  intros Ha Hl. unfold str2argv. split.
  - rewrite argv_loop_args by done. destruct (last args) as [e |] eqn:E.
    + specialize (Hl e eq_refl). apply last_Some in E as [l ->]. rewrite fmap_app. cbn [fmap list_fmap].
      rewrite removelast_last. by destruct e as [q [|]].
    + by apply last_None in E as ->.
  - intros src. pose proof (argv_loop_no_meta src SYMBOL [] [] (Forall_nil_2 _) (Forall_nil_2 _)) as H.
    destruct (argv_loop _ _) as [[s arg] argv]. destruct H as [H1 H2].
    destruct arg; [done |]. apply Forall_app_2; [done | by apply Forall_singleton].
Qed.

(** A backslash inside quotes ends the quotation. *)
Example backslash_in_quotes :
  str2argv [chr 34; "a"%char; "\"%char; "b"%char; " "%char; "c"%char; chr 34] []
  = [lit "ab"; lit "c"].
Proof. by vm_compute. Qed.

(** ** Witnesses *)
Lemma str2argv_splits_witness :
  str2argv (lit "-o my\ file x") [] = [lit "-o"; lit "my file"; lit "x"] ∧
  ∀ src, Forall no_meta (str2argv src []).
Proof.
  exact (str2argv_splits [(false, lit "-o"); (false, lit "my file"); (false, lit "x")]
    ltac:(repeat constructor; discriminate) ltac:(by intros e [= <-])).
Defined.
