(* ===== verification/Plugin.v ===== *)
(** * [src/src/dcl/plugin.cpp], [src/src/dcl/posix/plugin_impl.cpp]: plugins from dynamic
    libraries.

    The dynamic linker and the functions of the libraries are the class [Dl], whose answers may
    depend on the calls made before; the state of the linker is the list of these calls, the
    latest last.  A function pointer is the handle it was looked up in and the name; a call
    through a pointer that was never set, or into a library that is closed, is [Undef]. *)
From S2P Require Export StrUtils.

Inductive dl_call :=
  | Opened (file : str) (handle : nat) | OpenFailed (file : str)
  | Looked (handle : nat) (name : str) | Closed (handle : nat)
  | CallInit (handle : nat) (arg : nat) | CallCreate (handle : nat) (name : str)
  | CallDestroy (handle : nat) (object : nat) | CallFinalize (handle : nat).

Class Dl := {
  (** a handle, or the text [dlerror] gives *)
  dlopen : list dl_call → str → nat + str;
  (** the error of a lookup *)
  dlsym : list dl_call → nat → str → option str;
  (** the object the library's function returns, if any *)
  lib_create_object : list dl_call → nat → str → option nat }.

(** The handles that are open, one entry for each call that opened them. *)
Definition log_call (l : list nat) (c : dl_call) : list nat :=
  match c with
  | Opened _ h => h :: l
  | Closed h => match list_find (eq h) l with Some (i, _) => delete i l | None => l end
  | _ => l
  end.

Definition open_handles (log : list dl_call) : list nat := foldl log_call [] log.
#[global] Arguments open_handles : simpl never.

(** A pointer to a function of a library. *)
Abbreviation func := (option nat).

Record plugin_impl := PluginImpl {
  handle : option nat;
  _filename : str;
  _init : func;
  _create_object : func;
  _destroy_object : func;
  _finalize : func }.

(** The constructor leaves the pointers uninitialised. *)
Definition plugin_new : plugin_impl := PluginImpl None [] None None None None.

Definition dl_error {A} (msg : str) : outcome A := Throw (Exn plugin_exception (c_str msg)).

Section plugin.
Context `{Dl}.

Record plugin_state := PluginState { log : list dl_call; impl : plugin_impl }.

Abbreviation op := (stm plugin_state).

Definition call (c : dl_call) : op unit := λ s, (Ret (), PluginState (log s ++ [c]) (impl s)).

Definition change (f : plugin_impl → plugin_impl) : op unit := λ s,
  (Ret (), PluginState (log s) (f (impl s))).

Definition get {A} (f : plugin_impl → A) : op A := λ s, (Ret (f (impl s)), s).

(** [if (handle) dlclose(handle);] *)
Definition close_handle : op unit :=
  h ← get handle; match h with Some h => call (Closed h) | None => mret () end.

(** [dlsym] and the test of [dlerror]: the pointer is stored before the test. *)
Definition lookup_symbol (name : str) (store : func → plugin_impl → plugin_impl) : op unit := λ s,
  match handle (impl s) with
  | None => (Undef, s)
  | Some h =>
      let error := dlsym (log s) h name in
      (_ ← call (Looked h name);
       _ ← change (store (match error with None => Some h | Some _ => None end));
       match error with None => mret () | Some msg => lift (dl_error msg) end) s
  end.

Definition set_handle (h : option nat) (i : plugin_impl) : plugin_impl :=
  PluginImpl h (_filename i) (_init i) (_create_object i) (_destroy_object i) (_finalize i).

Definition set_filename (f : str) (i : plugin_impl) : plugin_impl :=
  PluginImpl (handle i) f (_init i) (_create_object i) (_destroy_object i) (_finalize i).

Definition set_init (f : func) (i : plugin_impl) : plugin_impl :=
  PluginImpl (handle i) (_filename i) f (_create_object i) (_destroy_object i) (_finalize i).

Definition set_create (f : func) (i : plugin_impl) : plugin_impl :=
  PluginImpl (handle i) (_filename i) (_init i) f (_destroy_object i) (_finalize i).

Definition set_destroy (f : func) (i : plugin_impl) : plugin_impl :=
  PluginImpl (handle i) (_filename i) (_init i) (_create_object i) f (_finalize i).

Definition set_finalize (f : func) (i : plugin_impl) : plugin_impl :=
  PluginImpl (handle i) (_filename i) (_init i) (_create_object i) (_destroy_object i) f.

(** The body of the [try]. *)
Definition open_library (file_name : str) : op unit := λ s,
  match dlopen (log s) (c_str file_name) with
  | inr msg =>
      (_ ← call (OpenFailed (c_str file_name)); _ ← change (set_handle None);
       lift (dl_error msg)) s
  | inl h =>
      (_ ← call (Opened (c_str file_name) h); _ ← change (set_handle (Some h));
       _ ← lookup_symbol (lit "init") set_init;
       _ ← lookup_symbol (lit "create_object") set_create;
       _ ← lookup_symbol (lit "destroy_object") set_destroy;
       lookup_symbol (lit "finalize") set_finalize) s
  end.

(** The [catch]: the exception goes on when the handle is closed. *)
Definition load (file_name : str) : op unit := λ s,
  let '(o, s') := (_ ← change (set_filename file_name); _ ← close_handle; open_library file_name) s in
  match o with
  | Throw e => (_ ← close_handle; _ ← change (set_handle None); lift (Throw e)) s'
  | _ => (o, s')
  end.

(** A call through a function pointer. *)
Definition through (f : plugin_impl → func) (c : nat → dl_call) : op nat := λ s,
  match f (impl s) with
  | Some h => if decide (h ∈ open_handles (log s)) then (_ ← call (c h); mret h) s else (Undef, s)
  | None => (Undef, s)
  end.

Definition init (data : nat) : op unit := _ ← through _init (λ h, CallInit h data); mret ().

Definition cannot_create (object_name : str) : op nat := λ s,
  (m ← format_str (Format (lit "Plugin '{0}' can't create object '{1}'")
                     [_filename (impl s); object_name]);
   Throw (Exn plugin_exception m), s).

(** What the library's function answers to the last call. *)
Definition created (h : nat) (object_name : str) : op (option nat) := λ s,
  (Ret (lib_create_object (log s) h (c_str object_name)), s).

Definition create_object (object_name : str) : op nat :=
  h ← through _create_object (λ h, CallCreate h (c_str object_name));
  rslt ← created h object_name;
  match rslt with Some rslt => mret rslt | None => cannot_create object_name end.

Definition destroy_object (object : nat) : op unit :=
  _ ← through _destroy_object (λ h, CallDestroy h object); mret ().

Definition finalize : op unit := _ ← through _finalize CallFinalize; mret ().

(** [~plugin]: [finalize], then the destructor of the implementation. *)
Definition plugin_destroy : op unit := _ ← finalize; close_handle.

(** ** The life of a plugin: any calls, whose exceptions the client takes, in any order *)
Inductive plugin_op :=
  | Load (file_name : str) | Init (data : nat) | Create (object_name : str) | Destroy (object : nat).

Definition plugin_run (o : plugin_op) : op unit :=
  match o with
  | Load f => load f
  | Init d => init d
  | Create n => _ ← create_object n; mret ()
  | Destroy x => destroy_object x
  end.

(** [None] when a call was [Undef]. *)
Fixpoint plugin_runs (ops : list plugin_op) (s : plugin_state) : option plugin_state :=
  match ops with
  | [] => Some s
  | o :: ops' =>
      match plugin_run o s with
      | (Undef, _) => None
      | (_, s') => plugin_runs ops' s'
      end
  end.
End plugin.

(** ** Lemmas *)
Ltac run_steps := unfold mbind, stm_bind, call, change, lift, mret, stm_ret; cbn.

Section lemmas.
Context `{Dl}.
Implicit Types s : plugin_state.

Lemma open_handles_snoc l c : open_handles (l ++ [c]) = log_call (open_handles l) c.
Proof. unfold open_handles. by rewrite foldl_app. Qed.

Definition own (i : plugin_impl) : list nat := match handle i with Some h => [h] | None => [] end.

(** Besides the handles of others, exactly the plugin's own one is open, and a plugin that holds
    a library has all four functions from it. *)
Definition plugin_ok (others : list nat) s : Prop :=
  open_handles (log s) = own (impl s) ++ others ∧
  ∀ h, handle (impl s) = Some h →
    _init (impl s) = Some h ∧ _create_object (impl s) = Some h ∧
    _destroy_object (impl s) = Some h ∧ _finalize (impl s) = Some h.

Lemma close_handle_spec others s :
  open_handles (log s) = own (impl s) ++ others →
  wp close_handle s (λ o s', o = Ret () ∧ impl s' = impl s ∧ open_handles (log s') = others).
Proof.
  unfold wp, close_handle, get, mbind, stm_bind, own. destruct (handle (impl s)) as [h |]; [| done].
  intros Ho. run_steps. rewrite open_handles_snoc, Ho. cbn. by rewrite decide_True.
Qed.

(** A lookup leaves the handles as they are, and stores the handle it looks in. *)
Lemma lookup_symbol_spec name store s h :
  handle (impl s) = Some h →
  wp (lookup_symbol name store) s (λ o s', open_handles (log s') = open_handles (log s) ∧
    (o = Ret () ∧ impl s' = store (Some h) (impl s) ∨
     ∃ e, o = Throw e ∧ exn_cls e = plugin_exception ∧ impl s' = store None (impl s))).
Proof.
  intros Hh. unfold wp, lookup_symbol. rewrite Hh.
  destruct (dlsym (log s) h name) as [msg |]; run_steps; (split; [by rewrite open_handles_snoc |]).
  - right. by eexists.
  - by left.
Qed.

(** What the body of the [try] leaves. *)
Definition tried (others : list nat) (o : outcome unit) s : Prop :=
  open_handles (log s) = own (impl s) ++ others ∧
  (o = Ret () ∧ is_Some (handle (impl s)) ∧ plugin_ok others s ∨
   ∃ e, o = Throw e ∧ exn_cls e = plugin_exception).

(** A lookup in the library just opened, and the rest when it succeeds. *)
Lemma lookup_bind name store (f : unit → stm plugin_state unit) h others s :
  (∀ v i, handle (store v i) = handle i) → handle (impl s) = Some h →
  open_handles (log s) = h :: others →
  (∀ s', impl s' = store (Some h) (impl s) → open_handles (log s') = h :: others →
         wp (f ()) s' (tried others)) →
  wp (lookup_symbol name store ≫= f) s (tried others).
Proof.
  intros Hst Hh Ho Hf. apply wp_bind. eapply wp_mono; [by apply (lookup_symbol_spec _ _ _ h) |].
  intros o s' (Ho' & [[-> Hi] | (e & -> & He & Hi)]); [apply Hf; congruence |].
  split; [| right; by exists e]. unfold own. rewrite Hi, Hst, Hh. cbn. congruence.
Qed.

Lemma open_library_spec file others s :
  open_handles (log s) = others → wp (open_library file) s (tried others).
Proof.
  intros Ho. unfold wp, open_library. destruct (dlopen (log s) (c_str file)) as [h | msg].
  2: { run_steps. unfold tried. cbn. split; [rewrite open_handles_snoc; cbn; by rewrite Ho | right; by eexists]. }
  match goal with |- let '(o, s') := ?m s in @?Q o s' => change (wp m s Q) end.
  apply wp_bind. unfold call, wp at 1. apply wp_bind. unfold change, wp at 1.
  assert (open_handles (log s ++ [Opened (c_str file) h]) = h :: others) as Ho'
    by (rewrite open_handles_snoc; cbn; by rewrite Ho).
  apply (lookup_bind _ _ _ h); [done.. | intros s1 Hi1 H1].
  apply (lookup_bind _ _ _ h); [done | by rewrite Hi1 | done | intros s2 Hi2 H2].
  apply (lookup_bind _ _ _ h); [done | by rewrite Hi2, Hi1 | done | intros s3 Hi3 H3].
  assert (∀ m : stm plugin_state unit, wp (m ≫= λ _, mret ()) s3 (tried others) → wp m s3 (tried others)) as Hret.
  { intros m. unfold wp, mbind, stm_bind. by destruct (m s3) as [[[] | |] ?]. }
  apply Hret, (lookup_bind _ _ _ h); [done | by rewrite Hi3, Hi2, Hi1 | done | intros s4 Hi4 H4].
  apply wp_ret. rewrite Hi3, Hi2, Hi1 in Hi4. unfold tried, plugin_ok, own. rewrite Hi4. cbn.
  split; [done |]. left. split; [done |]. split; [by eexists |]. split; [done |]. by intros h' [= ->].
Qed.

(** [load] ends with the library open and usable, or with the library's exception, nothing
    open and no handle. *)
Lemma load_spec file others s :
  plugin_ok others s →
  wp (load file) s (λ o s', plugin_ok others s' ∧
    (o = Ret () ∧ is_Some (handle (impl s')) ∨
     handle (impl s') = None ∧ ∃ e, o = Throw e ∧ exn_cls e = plugin_exception)).
Proof.
  intros [Ho Hp]. unfold wp, load.
  assert (wp (_ ← change (set_filename file); _ ← close_handle; open_library file) s (tried others)) as Ht.
  { apply wp_bind. unfold change, wp at 1. apply wp_bind.
    eapply wp_mono; [by apply (close_handle_spec others) |].
    intros o s1 (-> & _ & Ho1). by apply open_library_spec. }
  unfold wp in Ht. match type of Ht with let '(o, s') := ?m in _ => destruct m as [o s1] end.
  destruct Ht as [Ho1 Ht].
  destruct Ht as [(-> & Hs & Hok) | (e & -> & He)]; [auto |].
  match goal with |- let '(o, s') := ?m s1 in @?Q o s' => change (wp m s1 Q) end.
  apply wp_bind. eapply wp_mono; [by apply (close_handle_spec others) |].
  intros o s2 (-> & Hi2 & Ho2). apply wp_bind. unfold change, wp, lift. cbn.
  split; [| right; split; [done | by exists e]]. split; [done | by intros h].
Qed.

(** A call through a pointer: undefined, or made; always made when the plugin has its library. *)
Lemma through_spec f c others s :
  plugin_ok others s → (∀ h, handle (impl s) = Some h → f (impl s) = Some h) →
  (∀ l h, log_call l (c h) = l) →
  wp (through f c) s (λ o s', plugin_ok others s' ∧ impl s' = impl s ∧ (∀ e, o ≠ Throw e) ∧
    ∀ h, handle (impl s) = Some h → o = Ret h ∧ log s' = log s ++ [c h]).
Proof.
  intros [Ho Hp] Hf Hc. unfold wp, through. destruct (f (impl s)) as [h |] eqn:Hfi.
  - destruct (decide (h ∈ open_handles (log s))) as [Hin | Hin].
    + run_steps. split; [split; [cbn; by rewrite open_handles_snoc, Hc | done] |].
      split_and!; [done | done |]. intros h' Hh. apply Hf in Hh as [= ->]. done.
    + split_and!; [done | done | done |]. intros h' Hh. exfalso. apply Hin. rewrite Ho. unfold own.
      rewrite Hh. apply elem_of_cons. left. apply Hf in Hh. congruence.
  - split_and!; [done | done | done |]. intros h' Hh. apply Hf in Hh. done.
Qed.

Lemma through_none f c s :
  f (impl s) = None ∨ open_handles (log s) = [] → through f c s = (Undef, s).
Proof.
  unfold through. intros [-> | Ho]; [done |]. destruct (f (impl s)) as [h |]; [| done].
  rewrite decide_False; [done |]. rewrite Ho. apply not_elem_of_nil.
Qed.

Lemma create_failed file n : ∃ m,
  format_str (Format (lit "Plugin '{0}' can't create object '{1}'") [file; n]) = Ret m.
Proof. by eexists. Qed.

(** A call and what the plugin does with its answer. *)
Lemma through_bind {A} f c (g : nat → stm plugin_state A) others s :
  plugin_ok others s → (∀ h, handle (impl s) = Some h → f (impl s) = Some h) →
  (∀ l h, log_call l (c h) = l) →
  (∀ h s', plugin_ok others s' → impl s' = impl s →
     wp (g h) s' (λ o s'', plugin_ok others s'' ∧ impl s'' = impl s' ∧ o ≠ Undef)) →
  wp (through f c ≫= g) s (λ o s', plugin_ok others s' ∧ impl s' = impl s ∧
    (is_Some (handle (impl s)) → o ≠ Undef)).
Proof.
  intros Hok Hf Hc Hg. apply wp_bind. eapply wp_mono; [by apply (through_spec f c others) |].
  intros [h | e |] s' (Hok' & Hi & Hne & Hh).
  - eapply wp_mono; [by apply Hg |]. intros o s'' (? & Hi' & ?). rewrite Hi'. auto.
  - by destruct (Hne e).
  - split_and!; [done | done |]. intros [h Hs]. by destruct (Hh h Hs).
Qed.

(** Every operation keeps the invariant, and is undefined only on a plugin without library. *)
Lemma plugin_run_spec op others s :
  plugin_ok others s →
  wp (plugin_run op) s (λ o s', plugin_ok others s' ∧ (is_Some (handle (impl s)) → o ≠ Undef)).
Proof.
  intros Hok. destruct op as [f | d | n | x]; cbn [plugin_run].
  - eapply wp_mono; [by apply load_spec |]. intros o s' [Hs' [[-> _] | (_ & e & -> & _)]]; done.
  - eapply wp_mono; [apply (through_bind _ _ _ others); [done | apply Hok | done |] |];
      [| naive_solver]. intros h s' Hs' _. by apply wp_ret.
  - apply wp_bind. eapply wp_mono; [apply (through_bind _ _ _ others); [done | apply Hok | done |] |].
    + intros h s' Hs' _. apply wp_bind. unfold created, wp at 1.
      destruct (lib_create_object _ h (c_str n)); [by apply wp_ret |].
      unfold wp, cannot_create. by destruct (create_failed (_filename (impl s')) n) as [m ->].
    + intros [x | e |] s' (Hs' & _ & Hu); [by apply wp_ret | by split | split; [done | intros Hs; by destruct (Hu Hs)]].
  - eapply wp_mono; [apply (through_bind _ _ _ others); [done | apply Hok | done |] |];
      [| naive_solver]. intros h s' Hs' _. by apply wp_ret.
Qed.

(** The functions of a library are called while it is open. *)
Definition callee (c : dl_call) : option nat :=
  match c with
  | CallInit h _ | CallCreate h _ | CallDestroy h _ | CallFinalize h => Some h
  | _ => None
  end.

Fixpoint calls_open (opened : list nat) (l : list dl_call) : Prop :=
  match l with
  | [] => True
  | c :: l' => (∀ h, callee c = Some h → h ∈ opened) ∧ calls_open (log_call opened c) l'
  end.

Lemma calls_open_app opened l1 l2 :
  calls_open opened (l1 ++ l2) ↔ calls_open opened l1 ∧ calls_open (foldl log_call opened l1) l2.
Proof. revert opened. induction l1 as [| c l1 IH]; intros opened; cbn; [tauto |]. rewrite IH. tauto. Qed.

(** What an operation adds to the calls. *)
Definition adds s s' : Prop := ∃ l, log s' = log s ++ l ∧ calls_open (open_handles (log s)) l.

Lemma adds_refl s : adds s s.
Proof. exists []. by rewrite app_nil_r. Qed.

Lemma adds_trans s1 s2 s3 : adds s1 s2 → adds s2 s3 → adds s1 s3.
Proof.
  intros (l1 & E1 & H1) (l2 & E2 & H2). exists (l1 ++ l2). rewrite E2, E1, app_assoc. split; [done |].
  apply calls_open_app. split; [done |]. unfold open_handles in H2 |- *. by rewrite E1, foldl_app in H2.
Qed.

Abbreviation adding m := (∀ s, wp m s (λ _ s', adds s s')).

Lemma adding_bind {A B} (m : stm plugin_state A) (f : A → stm plugin_state B) :
  adding m → (∀ a, adding (f a)) → adding (m ≫= f).
Proof.
  intros Hm Hf s. apply wp_bind. eapply wp_mono; [apply Hm |]. intros [a | e |] s1 H1; [| done..].
  eapply wp_mono; [apply Hf |]. intros o s2 H2. by eapply adds_trans.
Qed.

Lemma adding_call c : callee c = None → adding (call c).
Proof. intros Hc s. exists [c]. split; [done |]. split; [by intros h; rewrite Hc | done]. Qed.

Lemma adding_same {A} (m : stm plugin_state A) : (∀ s, log (m s).2 = log s) → adding m.
Proof.
  intros Hm s. unfold wp. pose proof (Hm s) as Hs. destruct (m s) as [o s']. exists []. cbn in Hs.
  by rewrite Hs, app_nil_r.
Qed.

Lemma adding_close : adding close_handle.
Proof.
  apply adding_bind; [by apply adding_same |]. intros [h |]; [by apply adding_call | by apply adding_same].
Qed.

Lemma adding_lookup name store : adding (lookup_symbol name store).
Proof.
  intros s. unfold wp, lookup_symbol. destruct (handle (impl s)) as [h |]; [| apply adds_refl].
  match goal with |- let '(o, s') := ?m s in @?Q o s' => change (wp m s Q) end. revert s.
  intros s. generalize (dlsym (log s) h name). intros error. revert s.
  apply adding_bind; [by apply adding_call | intros _].
  apply adding_bind; [by apply adding_same | intros _]. destruct error; by apply adding_same.
Qed.

Lemma adding_open file : adding (open_library file).
Proof.
  intros s. unfold wp, open_library. destruct (dlopen (log s) (c_str file)) as [h | msg];
    match goal with |- let '(o, s') := ?m s in @?Q o s' => change (wp m s Q) end; revert s.
  all: repeat (apply adding_bind; [first [by apply adding_call | apply adding_lookup | by apply adding_same] | intros _]).
  - apply adding_lookup.
  - by apply adding_same.
Qed.

Lemma adding_load file : adding (load file).
Proof.
  intros s. unfold wp, load.
  assert (adding (_ ← change (set_filename file); _ ← close_handle; open_library file)) as Ht.
  { apply adding_bind; [by apply adding_same | intros _]. apply adding_bind; [apply adding_close | intros _].
    apply adding_open. }
  specialize (Ht s). unfold wp in Ht. match type of Ht with let '(o, s') := ?m in _ => destruct m as [[[] | e |] s1] end;
    [done | | done].
  assert (adding (_ ← close_handle; _ ← change (set_handle None); lift (Throw (A := unit) e))) as Hc.
  { apply adding_bind; [apply adding_close | intros _]. apply adding_bind; by (intros; apply adding_same). }
  specialize (Hc s1). unfold wp in Hc. match type of Hc with let '(o, s') := ?m in _ => destruct m as [o s2] end.
  by eapply adds_trans.
Qed.

Lemma adding_through f c : (∀ h, callee (c h) = Some h) → adding (through f c).
Proof.
  intros Hc s. unfold wp, through. destruct (f (impl s)) as [h |]; [| apply adds_refl].
  destruct (decide (h ∈ open_handles (log s))) as [Hin |]; [| apply adds_refl].
  exists [c h]. split; [done |]. split; [| done]. intros h'. rewrite Hc. by intros [= <-].
Qed.

Lemma adding_run op : adding (plugin_run op).
Proof.
  destruct op as [f | d | n | x]; cbn [plugin_run]; [apply adding_load | ..].
  all: repeat (apply adding_bind; [| intros ?]); try (by apply adding_through); try (by apply adding_same).
  destruct a0; by apply adding_same.
Qed.

(** A client that keeps to the answers of [load]: it calls the functions of a library only after
    a load that has returned.  [loaded] tells whether the last one has. *)
Definition is_load (op : plugin_op) : bool := match op with Load _ => true | _ => false end.

Definition loads (op : plugin_op) (o : outcome unit) (loaded : bool) : bool :=
  if is_load op then match o with Ret _ => true | _ => false end else loaded.

Fixpoint follows (loaded : bool) (ops : list plugin_op) s : bool :=
  match ops with
  | [] => true
  | op :: ops' =>
      (is_load op || loaded) && let '(o, s') := plugin_run op s in follows (loads op o loaded) ops' s'
  end.

Fixpoint loaded_after (loaded : bool) (ops : list plugin_op) s : bool :=
  match ops with
  | [] => loaded
  | op :: ops' => let '(o, s') := plugin_run op s in loaded_after (loads op o loaded) ops' s'
  end.

(** A call keeps the library. *)
Lemma plugin_run_handle op others s :
  plugin_ok others s → is_load op = false →
  wp (plugin_run op) s (λ _ s', impl s' = impl s).
Proof.
  intros Hok Hl. destruct op as [f | d | n | x]; [done | cbn [plugin_run]..].
  - eapply wp_mono; [apply (through_bind _ _ _ others); [done | apply Hok | done |] |]; [| naive_solver].
    intros h s' Hs' _. by apply wp_ret.
  - apply wp_bind. eapply wp_mono; [apply (through_bind _ _ _ others); [done | apply Hok | done |] |].
    + intros h s' Hs' _. apply wp_bind. unfold created, wp at 1.
      destruct (lib_create_object _ h (c_str n)); [by apply wp_ret |].
      unfold wp, cannot_create. by destruct (create_failed (_filename (impl s')) n) as [m ->].
    + intros [x | e |] s' (Hs' & Hi & _); [by apply wp_ret | done..].
  - eapply wp_mono; [apply (through_bind _ _ _ others); [done | apply Hok | done |] |]; [| naive_solver].
    intros h s' Hs' _. by apply wp_ret.
Qed.

Definition holds (b : bool) s : Prop := b = true ↔ is_Some (handle (impl s)).

Lemma plugin_run_holds op others loaded s :
  plugin_ok others s → holds loaded s → (is_load op = false → loaded = true) →
  wp (plugin_run op) s (λ o s', plugin_ok others s' ∧ o ≠ Undef ∧ holds (loads op o loaded) s').
Proof.
  intros Hok Hh Hl. pose proof (plugin_run_spec op others s Hok) as Hs.
  unfold loads. destruct (is_load op) eqn:El.
  - destruct op as [f | | |]; [| done..]. eapply wp_mono; [by apply load_spec |].
    intros o s' [Hs' [[-> Ho] | (Ho & e & -> & _)]]; (split; [done |]; split; [done |]); unfold holds.
    + done.
    + rewrite Ho. split; [done | by intros [? ?]].
  - pose proof (plugin_run_handle op others s Hok El) as Hi. unfold wp in Hs, Hi |- *.
    destruct (plugin_run op s) as [o s']. destruct Hs as [Hs' Hu].
    split; [done |]. split; [apply Hu, Hh, Hl; done |]. unfold holds. by rewrite Hi.
Qed.

Lemma follows_runs ops others loaded s :
  plugin_ok others s → holds loaded s → follows loaded ops s = true →
  ∃ s', plugin_runs ops s = Some s' ∧ plugin_ok others s' ∧ adds s s' ∧ holds (loaded_after loaded ops s) s'.
Proof.
  revert loaded s. induction ops as [| op ops IH]; intros loaded s Hok Hh Hf.
  { exists s. split; [done |]. split; [done |]. split; [apply adds_refl | done]. }
  cbn [follows plugin_runs loaded_after] in *. apply andb_true_iff in Hf as [Hl' Hf].
  assert (is_load op = false → loaded = true) as Hl by (destruct (is_load op); by intros).
  pose proof (plugin_run_holds op others loaded s Hok Hh Hl) as Hr. pose proof (adding_run op s) as Ha.
  unfold wp in Hr, Ha. destruct (plugin_run op s) as [o s1]. destruct Hr as (Hok1 & Hu & Hh1).
  destruct (IH _ s1 Hok1 Hh1 Hf) as (s' & Hrun & Hok' & Ha' & Hh').
  exists s'. split; [by destruct o |]. split; [done |]. split; [by eapply adds_trans | done].
Qed.

(** Without a library, and with no other one open, every function is out of reach. *)
Lemma unloaded_undefined s op :
  open_handles (log s) = [] → is_load op = false →
  (plugin_run op s).1 = Undef ∧ (plugin_destroy s).1 = Undef.
Proof.
  intros Ho Hl. split.
  - destruct op; [done | ..]; cbn; unfold init, create_object, destroy_object, mbind, stm_bind;
      by rewrite through_none by by right.
  - unfold plugin_destroy, finalize, mbind, stm_bind. by rewrite through_none by by right.
Qed.

Lemma plugin_destroy_spec others s h :
  plugin_ok others s → handle (impl s) = Some h →
  wp plugin_destroy s (λ o s', o = Ret () ∧ open_handles (log s') = others ∧
    log s' = log s ++ [CallFinalize h; Closed h]).
Proof.
  intros Hok Hh. apply wp_bind. apply wp_bind.
  eapply wp_mono; [apply (through_spec _ _ others); [done | apply Hok | done] |].
  intros o s1 (Hok1 & Hi1 & _ & Hr). destruct (Hr h Hh) as [-> Hl]. apply wp_ret.
  destruct s1 as [l1 i1]. cbn [impl log] in *. subst i1 l1. unfold wp, close_handle, get.
  unfold mbind, stm_bind. cbn [impl]. rewrite Hh. cbn. destruct Hok1 as [Ho _]. cbn in Ho.
  rewrite open_handles_snoc, Ho. unfold own. rewrite Hh. cbn. rewrite decide_True by done. split_and!; [done | done |].
  by rewrite <- app_assoc.
Qed.
End lemmas.

(** ** Properties *)

(** C19. A client that calls the functions of a plugin only after a [load] that returned - whatever
    loads, failed ones among them, and calls it makes, in any order - has only defined calls, each
    of them to a library that is open at that moment; at most one library is held open, closed
    when another one is loaded or when loading fails, which ends with the plugin's exception.
    When its last load returned, destroying the plugin runs the finalizer, closes the library
    and leaves nothing of it open.  When it did not, and no one else has a library open, any
    call, and destroying the plugin, goes through a pointer that is not set or left from a closed
    library. *)
Theorem plugin_libraries `{Dl} log0 ops :
  let s0 := PluginState log0 plugin_new in
  follows false ops s0 = true →
  ∃ s l, plugin_runs ops s0 = Some s ∧ log s = log0 ++ l ∧ calls_open (open_handles log0) l ∧
    open_handles (log s) = own (impl s) ++ open_handles log0 ∧
    (∀ file, let '(o, s') := load file s in
       o = Ret () ∧ is_Some (handle (impl s')) ∨
       handle (impl s') = None ∧ ∃ e, o = Throw e ∧ exn_cls e = plugin_exception) ∧
    if loaded_after false ops s0
    then ∃ h, handle (impl s) = Some h ∧
      let '(o, s') := plugin_destroy s in
      o = Ret () ∧ open_handles (log s') = open_handles log0 ∧ log s' = log s ++ [CallFinalize h; Closed h]
    else open_handles log0 = [] →
      (∀ op, is_load op = false → (plugin_run op s).1 = Undef) ∧ (plugin_destroy s).1 = Undef.
Proof.
  intros s0 Hf. assert (plugin_ok (open_handles log0) s0) as Hok0 by (split; [done | by intros h]).
  destruct (follows_runs ops (open_handles log0) false s0 Hok0) as (s & Hr & Hok & (l & El & Hl) & Hh);
    [split; [done | by intros [? ?]] | done |].
  exists s, l. split_and!; [done.. | apply Hok | |].
  - intros file. pose proof (load_spec file _ s Hok) as Hw. unfold wp in Hw.
    destruct (load file s). by destruct Hw.
  - destruct (loaded_after false ops s0).
    + destruct (proj1 Hh eq_refl) as [h Hhd]. exists h. split; [done |]. exact (plugin_destroy_spec _ s h Hok Hhd).
    + intros Ho. assert (open_handles (log s) = []) as Hs.
      { rewrite (proj1 Hok), Ho. unfold own. destruct (handle (impl s)) eqn:E; [| done].
        discriminate (proj2 Hh ltac:(by rewrite E)). }
      split; [intros op Hop; by apply unloaded_undefined |]. by apply (unloaded_undefined s (Init 0)).
Qed.

(** The destructor of a plugin that has no library, because none was loaded or the load failed,
    calls a finalizer that is not there. *)
Example plugin_destroyed_unloaded `{Dl} : fst (plugin_destroy (PluginState [] plugin_new)) = Undef.
Proof. reflexivity. Qed.

(** ** Witness *)
#[local] Instance one_library : Dl := {
  dlopen _ f := if str_eqb f (lit "a.so") then inl 7 else inr (lit "not found");
  dlsym _ _ _ := None;
  lib_create_object _ _ n := if str_eqb n (lit "thing") then Some 1 else None }.

Definition plugin_sample : list plugin_op :=
  [Load (lit "a.so"); Init 0; Create (lit "thing"); Create (lit "other"); Load (lit "b.so");
   Load (lit "a.so")].

Lemma plugin_sample_follows : follows false plugin_sample (PluginState [] plugin_new) = true.
Proof. vm_compute. reflexivity. Qed.

Lemma plugin_sample_loaded : loaded_after false plugin_sample (PluginState [] plugin_new) = true.
Proof. vm_compute. reflexivity. Qed.

Lemma plugin_libraries_witness :
  ∃ s h, plugin_runs plugin_sample (PluginState [] plugin_new) = Some s ∧ handle (impl s) = Some h ∧
    let '(o, s') := plugin_destroy s in
    o = Ret () ∧ open_handles (log s') = open_handles [] ∧ log s' = log s ++ [CallFinalize h; Closed h].
Proof.
  destruct (plugin_libraries (H := one_library) [] plugin_sample plugin_sample_follows)
    as (s & l & Hr & _ & _ & _ & _ & Hd).
  rewrite plugin_sample_loaded in Hd. destruct Hd as (h & Hh & Hd). exists s, h. exact (conj Hr (conj Hh Hd)).
Defined.
