(* ===== verification/DaemonApplication.v ===== *)
(** * [src/src/dcl/posix/daemon_application.cpp]: daemons on POSIX.

    [daemon] detaches the process, [daemon_execute] is what the application executes, and
    [deliver] is the arrival of a signal.  A process is the record [proc]; [boot] gives the
    answers of the system calls that may fail. *)
From S2P Require Export Logger StrUtils Steps.

(** The signals that are named in the source. *)
Inductive signal := SIGTSTP | SIGTTOU | SIGTTIN | SIGPIPE | SIGHUP | SIGQUIT | SIGTERM | SIGCHLD.

#[global] Instance signal_eq_dec : EqDecision signal.
Proof. solve_decision. Defined.

Inductive disposition := SIG_DFL | SIG_IGN | Handler.

Definition STDERR_FILENO : Z := 2.

(** What [fork] answers, and where. *)
Inductive forked := ForkFailed | InChild | InParent.

Record boot := Boot {
  fork_answer : forked;
  setsid_ok : bool;
  null_fd : option Z }.

Section daemon.
(** [W] is the state of the client, which its handlers change. *)
Context {W : Type}.

Record proc := Proc {
  cwd : str;
  fds : gmap Z str;
  leader : bool;
  syslog : list (Z * str);
  actions : signal → disposition;
  zombies : nat;
  client : W }.

Record daemon_application := Daemon {
  reload_configuration_handler : option (W → W);
  pause_handler : option (W → W);
  resume_handler : option (W → W);
  terminate_handler : option (W → W);
  execute_handler : option (proc → outcome Z * proc);
  exception_handler : option (exn → W → W) }.

Definition with_client (w : W) (p : proc) : proc :=
  Proc (cwd p) (fds p) (leader p) (syslog p) (actions p) (zombies p) w.

(** [daemon_logger] *)
Definition daemon_log (level : log_level) (message : str) (p : proc) : proc :=
  Proc (cwd p) (fds p) (leader p) (syslog p ++ [(level_code level, c_str message)]) (actions p) (zombies p)
    (client p).

#[export] Instance daemon_logger : Logger proc := daemon_log.

(** The descriptors at the end of [daemon]. *)
Definition redirect (fd : Z) (m : gmap Z str) : gmap Z str :=
  let m := dup2 fd 2 (dup2 fd 1 (dup2 fd 0 (<[fd := lit "/dev/null"]> m))) in
  if (STDERR_FILENO <? fd)%Z then delete fd m else m.

(** [daemon(nochdir, noclose)]: [None] when the process has left. *)
Definition daemon (b : boot) (nochdir noclose : bool) (p : proc) : option (Z * proc) :=
  match fork_answer b with
  | ForkFailed => Some ((-1)%Z, p)
  | InParent => None
  | InChild =>
      if setsid_ok b then
        let dir := if nochdir then cwd p else lit "/" in
        let m := if noclose then fds p
                 else match null_fd b with Some fd => redirect fd (fds p) | None => fds p end in
        Some (0%Z, Proc dir m true (syslog p) (actions p) (zombies p) (client p))
      else Some ((-1)%Z, p)
  end.

(** [signal(sig, action)] *)
Definition signal_ (sig : signal) (action : disposition) (p : proc) : proc :=
  Proc (cwd p) (fds p) (leader p) (syslog p) (λ x, if decide (x = sig) then action else actions p x)
    (zombies p) (client p).

Definition run_handler (h : option (W → W)) (p : proc) : proc :=
  match h with Some f => with_client (f (client p)) p | None => p end.

(** The loop of [waitpid] over the children that have ended. *)
Definition reap (p : proc) : proc :=
  Proc (cwd p) (fds p) (leader p) (syslog p) (actions p) 0 (client p).

Definition signal_handler (d : daemon_application) (sig : signal) (p : proc) : proc :=
  match sig with
  | SIGHUP =>
      match reload_configuration_handler d with
      | Some _ as h => log_info (lit "configuration file reloaded") (run_handler h p)
      | None => p
      end
  | SIGQUIT | SIGTERM => run_handler (terminate_handler d) p
  | SIGCHLD => reap p
  | _ => p
  end.

Definition install (p : proc) : proc :=
  signal_ SIGCHLD Handler (signal_ SIGTERM Handler (signal_ SIGQUIT Handler (signal_ SIGHUP Handler
    (signal_ SIGPIPE SIG_IGN (signal_ SIGTTIN SIG_IGN (signal_ SIGTTOU SIG_IGN (signal_ SIGTSTP SIG_IGN p))))))).

(** [daemon_exception]; the message goes through [format]. *)
Definition daemon_exception (e : exn) (p : proc) : outcome proc :=
  m ← format_str (Format (lit "Fatal error: {0}") [c_str (exn_what e)]); Ret (log_critical m p).

(** The end of [daemon_execute], after the handler. *)
Definition finish (d : daemon_application) (o : outcome Z) (p : proc) : outcome Z * proc :=
  let done_ rslt p := (Ret rslt, log_info (lit "successfully terminated") p) in
  match o with
  | Ret rslt => done_ rslt p
  | Throw e =>
      match exception_handler d with
      | Some g => done_ (-1)%Z (with_client (g e (client p)) p)
      | None =>
          match daemon_exception e p with
          | Ret p' => done_ (-1)%Z p'
          | Throw e' => (Throw e', p)
          | Undef => (Undef, p)
          end
      end
  | Undef => (Undef, p)
  end.

(** [daemon_execute]: [None] in the process that leaves. *)
Definition daemon_execute (b : boot) (d : daemon_application) (p : proc) : option (outcome Z * proc) :=
  match daemon b false false p with
  | None => None
  | Some (r, p1) =>
      if negb (r =? 0)%Z then Some (Ret (-1)%Z, p1)
      else
        let p2 := install (log_info (lit "successfully started") p1) in
        Some (match execute_handler d with
              | Some f => let '(o, p3) := f p2 in finish d o p3
              | None => finish d (Ret (-1)%Z) p2
              end)
  end.

(** ** Signals: [None] when the default action ends the process *)
Definition deliver (d : daemon_application) (sig : signal) (p : proc) : option proc :=
  match actions p sig with
  | SIG_IGN => Some p
  | Handler => Some (signal_handler d sig p)
  | SIG_DFL => if decide (sig = SIGCHLD) then Some p else None
  end.

(** What happens while the client's code runs: its own steps, the end of a child process, and
    signals; a child's end raises [SIGCHLD] at once or, when several end together, once. *)
Inductive event :=
  | Work (f : W → W)
  | ChildEnds (others : nat)
  | Arrives (sig : signal).

Definition happen (d : daemon_application) (e : event) (p : proc) : option proc :=
  match e with
  | Work f => Some (with_client (f (client p)) p)
  | ChildEnds n =>
      deliver d SIGCHLD
        (Proc (cwd p) (fds p) (leader p) (syslog p) (actions p) (zombies p + S n) (client p))
  | Arrives sig => deliver d sig p
  end.

Fixpoint happens (d : daemon_application) (es : list event) (p : proc) : option proc :=
  match es with
  | [] => Some p
  | e :: es' => match happen d e p with Some p' => happens d es' p' | None => None end
  end.

(** [on_execute], [on_reload_configuration] and [on_terminate]. *)
Definition on_execute (f : proc → outcome Z * proc) (d : daemon_application) : daemon_application :=
  Daemon (reload_configuration_handler d) (pause_handler d) (resume_handler d) (terminate_handler d)
    (Some f) (exception_handler d).

Definition on_reload_configuration (f : W → W) (d : daemon_application) : daemon_application :=
  Daemon (Some f) (pause_handler d) (resume_handler d) (terminate_handler d) (execute_handler d)
    (exception_handler d).

Definition on_terminate (f : W → W) (d : daemon_application) : daemon_application :=
  Daemon (reload_configuration_handler d) (pause_handler d) (resume_handler d) (Some f)
    (execute_handler d) (exception_handler d).

(** The client's code: some events, and how it ends. *)
Definition program (d : daemon_application) (es : list event) (o : outcome Z) (p : proc)
    : outcome Z * proc :=
  match happens d es p with Some p' => (o, p') | None => (Undef, p) end.
End daemon.
Arguments proc W : clear implicits.
Arguments daemon_application W : clear implicits.
Arguments event W : clear implicits.

(** ** Lemmas *)
Section lemmas.
Context {W : Type}.
Implicit Types (p : proc W) (d : daemon_application W).

(** What an event does to the client. *)
Definition effect d (e : event W) (w : W) : W :=
  match e with
  | Work f => f w
  | Arrives SIGHUP => default id (reload_configuration_handler d) w
  | Arrives SIGQUIT | Arrives SIGTERM => default id (terminate_handler d) w
  | _ => w
  end.

(** The messages an event leaves. *)
Definition messages d (e : event W) : list (Z * str) :=
  match e, reload_configuration_handler d with
  | Arrives SIGHUP, Some _ => [(level_code info, lit "configuration file reloaded")]
  | _, _ => []
  end.

(** The dispositions that [daemon_execute] sets. *)
Definition prepared p : Prop :=
  (∀ sig, sig ∈ [SIGTSTP; SIGTTOU; SIGTTIN; SIGPIPE] → actions p sig = SIG_IGN) ∧
  (∀ sig, sig ∈ [SIGHUP; SIGQUIT; SIGTERM; SIGCHLD] → actions p sig = Handler).

Lemma install_prepared p : prepared (install p).
Proof. split; intros sig Hs; repeat (apply elem_of_cons in Hs as [-> | Hs]; [done |]); by apply not_elem_of_nil in Hs. Qed.

Lemma prepared_actions p sig :
  prepared p → actions p sig = match sig with SIGHUP | SIGQUIT | SIGTERM | SIGCHLD => Handler | _ => SIG_IGN end.
Proof. intros [Hi Hh]. destruct sig; first [apply Hi; set_solver | apply Hh; set_solver]. Qed.

Lemma happen_prepared d e p :
  prepared p → zombies p = 0 →
  ∃ p', happen d e p = Some p' ∧ prepared p' ∧ zombies p' = 0 ∧
    client p' = effect d e (client p) ∧ syslog p' = syslog p ++ messages d e ∧
    cwd p' = cwd p ∧ fds p' = fds p ∧ leader p' = leader p.
Proof.
  intros Hp Hz. pose proof (λ sig, prepared_actions p sig Hp) as Ha.
  destruct e as [f | n | sig]; cbn [happen].
  - eexists. split; [done |]. by rewrite app_nil_r.
  - unfold deliver. cbn [actions]. rewrite Ha. eexists. split; [done |]. cbn. by rewrite app_nil_r.
  - unfold deliver. rewrite Ha. destruct sig; (eexists; split; [reflexivity |]); cbn; unfold run_handler;
      try destruct (reload_configuration_handler d); try destruct (terminate_handler d); cbn;
      rewrite ?app_nil_r; done.
Qed.

Lemma happens_prepared d es p :
  prepared p → zombies p = 0 →
  ∃ p', happens d es p = Some p' ∧ prepared p' ∧ zombies p' = 0 ∧
    client p' = foldl (λ w e, effect d e w) (client p) es ∧
    syslog p' = syslog p ++ concat (messages d <$> es) ∧
    cwd p' = cwd p ∧ fds p' = fds p ∧ leader p' = leader p.
Proof.
  revert p. induction es as [| e es IH]; intros p Hp Hz.
  { exists p. cbn. by rewrite app_nil_r. }
  destruct (happen_prepared d e p Hp Hz) as (p1 & H1 & Hp1 & Hz1 & Hc1 & Hl1 & Hd1 & Hf1 & Hs1).
  destruct (IH p1 Hp1 Hz1) as (p' & H' & Hp' & Hz' & Hc' & Hl' & Hd' & Hf' & Hs').
  exists p'. cbn [happens]. rewrite H1. split; [done |]. split; [done |]. split; [done |].
  cbn. rewrite Hc', Hc1, Hl', Hl1, <- app_assoc. split_and!; [done | done | congruence..].
Qed.

(** The three standard descriptors are the null device, no other one changes, and the new one is
    closed again. *)
Lemma redirect_lookup fd m k :
  (0 ≤ fd)%Z →
  redirect fd m !! k
  = if decide (0 ≤ k ≤ 2)%Z then Some (lit "/dev/null")
    else if decide (k = fd) then None else m !! k.
Proof.
  intros Hfd. unfold redirect, STDERR_FILENO. set (m1 := <[fd := lit "/dev/null"]> m).
  assert (∀ k, dup2 fd 2 (dup2 fd 1 (dup2 fd 0 m1)) !! k
    = if decide (0 ≤ k ≤ 2)%Z then Some (lit "/dev/null") else m1 !! k) as Hm.
  { assert (m1 !! fd = Some (lit "/dev/null")) as H1 by apply lookup_insert_eq.
    assert (dup2 fd 0 m1 !! fd = Some (lit "/dev/null")) as H2
      by (rewrite dup2_lookup by (by rewrite H1); by case_decide).
    assert (dup2 fd 1 (dup2 fd 0 m1) !! fd = Some (lit "/dev/null")) as H3
      by (rewrite dup2_lookup by (by rewrite H2); by case_decide).
    intros j. rewrite dup2_lookup, H3 by (by rewrite H3).
    rewrite dup2_lookup, H2 by (by rewrite H2). rewrite dup2_lookup, H1 by (by rewrite H1).
    repeat case_decide; (done || lia). }
  destruct (Z.ltb_spec 2 fd).
  - destruct (decide (k = fd)) as [-> | Hk].
    + rewrite lookup_delete_eq. case_decide; [lia | done].
    + rewrite lookup_delete_ne by done. rewrite Hm. subst m1. by rewrite lookup_insert_ne.
  - rewrite Hm. case_decide; [done |]. subst m1. rewrite lookup_insert_ne by lia.
    by rewrite decide_False by lia.
Qed.
End lemmas.

(** ** Properties *)

(** C22. A daemon runs detached - leader of its session, in the root directory, its three standard
    descriptors on the null device and no other one touched -, and survives every signal the
    source names, in any order and number: each SIGHUP reloads once and is logged, each SIGQUIT
    or SIGTERM calls the terminating handler once, the others change nothing, and no child that
    ended is left over.  When the client's code ends the daemon ends with its result, or with
    -1 after the handler of its exception, its start and end logged. *)
Theorem daemon_serves {W} fd d es o (p : proc W) :
  (0 ≤ fd)%Z → zombies p = 0 → o ≠ Undef → is_Some (exception_handler d) →
  ∃ rslt p',
    daemon_execute (Boot InChild true (Some fd)) (on_execute (program d es o) d) p = Some (Ret rslt, p') ∧
    cwd p' = lit "/" ∧ leader p' = true ∧ zombies p' = 0 ∧
    (∀ k, fds p' !! k = if decide (0 ≤ k ≤ 2)%Z then Some (lit "/dev/null")
                        else if decide (k = fd) then None else fds p !! k) ∧
    syslog p' = syslog p ++ [(level_code info, lit "successfully started")] ++ concat (messages d <$> es)
                  ++ [(level_code info, lit "successfully terminated")] ∧
    let w := foldl (λ w e, effect d e w) (client p) es in
    match o with
    | Ret z => rslt = z ∧ client p' = w
    | Throw e => rslt = (-1)%Z ∧ ∃ g, exception_handler d = Some g ∧ client p' = g e w
    | Undef => False
    end.
Proof.
  intros Hfd Hz Ho [g Hg]. unfold daemon_execute, daemon. cbn [fork_answer setsid_ok null_fd negb].
  change (negb (0 =? 0)%Z) with false. cbn iota. cbn [execute_handler on_execute].
  set (p2 := install _).
  destruct (happens_prepared d es p2 (install_prepared _) Hz)
    as (p3 & H3 & _ & Hz3 & Hc3 & Hl3 & Hd3 & Hf3 & Hs3).
  unfold program. rewrite H3.
  assert (∀ k, fds p3 !! k = if decide (0 ≤ k ≤ 2)%Z then Some (lit "/dev/null")
    else if decide (k = fd) then None else fds p !! k) as Hfds
    by (intros k; rewrite Hf3; by apply redirect_lookup).
  assert (syslog p3 = syslog p ++ [(level_code info, lit "successfully started")] ++ concat (messages d <$> es)) as Hl
    by (rewrite Hl3; cbn; by rewrite <- app_assoc).
  destruct o as [z | e |]; [| | done]; cbn [finish on_execute exception_handler]; rewrite ?Hg;
    (eexists _, _; split; [reflexivity |]); cbn [cwd leader zombies fds syslog client log_info log daemon_logger daemon_log with_client];
    rewrite Hd3, Hs3, Hl, Hc3; (split_and!; [done | done | done | exact Hfds | by rewrite <- !app_assoc | done |]).
  - done.
  - by exists g.
Qed.

(** The handlers of pausing and resuming are stored and never called. *)
Lemma daemon_never_pauses {W} (d : daemon_application W) f g sig p :
  signal_handler (Daemon (reload_configuration_handler d) f g (terminate_handler d) (execute_handler d)
    (exception_handler d)) sig p = signal_handler d sig p.
Proof. by destruct sig. Qed.

(** ** Witness: a counter of reloads *)
Definition counting : daemon_application nat :=
  on_terminate (λ n, n + 100) (on_reload_configuration S (Daemon None None None None None (Some (λ _ n, n)))).

Definition started_proc : proc nat :=
  Proc (lit "/home") {[0%Z := lit "tty"; 1%Z := lit "tty"; 2%Z := lit "tty"]} false [] (λ _, SIG_DFL) 0 0.

Lemma daemon_serves_witness :
  ∃ p', daemon_execute (Boot InChild true (Some 3%Z))
    (on_execute (program counting [Arrives SIGHUP; ChildEnds 2; Arrives SIGPIPE; Arrives SIGHUP; Arrives SIGTERM]
                   (Ret 0%Z)) counting) started_proc = Some (Ret 0%Z, p') ∧
    client p' = 102 ∧ fds p' !! 1%Z = Some (lit "/dev/null").
Proof.
  destruct (daemon_serves 3 counting
    [Arrives SIGHUP; ChildEnds 2; Arrives SIGPIPE; Arrives SIGHUP; Arrives SIGTERM] (Ret 0%Z) started_proc
    ltac:(lia) eq_refl ltac:(done) ltac:(by eexists))
    as (rslt & p' & Hrun & _ & _ & _ & Hfds & _ & Hr & Hc).
  exists p'. rewrite Hrun, Hr, Hfds. split; [done |]. split; [by rewrite Hc | done].
Defined.
