(* ===== verification/ProcessPipes.v ===== *)
(** * [process_impl::execute] of [posix/process_impl.cpp]: a child behind three pipes.

    The parent writes the whole input, closes it, waits for the child and only then reads what
    it wrote.  The child is any program that reads and writes bytes; a pipe holds [cap] bytes.
    The relation [pstep] interleaves the two. *)
From S2P Require Export Process Streams Steps.

Definition BUF_SIZE : nat := 4096.

(** ** The copying loops *)

(** The input: blocks of [BUF_SIZE - 1] bytes, each written up to its first NUL. *)
Fixpoint feed (fuel : nat) (s : stream) : option (str * stream) :=
  match fuel with
  | O => None
  | S f =>
      if good s then
        let '(buffer, s1) := read (BUF_SIZE - 1) s in
        '(l, s2) ← feed f s1; Some (c_str buffer ++ l, s2)
      else Some ([], s)
  end.

(** [fgets]: up to a newline, at most [BUF_SIZE - 1] bytes. *)
Definition fgets (data : str) : str * str :=
  let n := match find_char newline (take (BUF_SIZE - 1) data) with
           | Some i => i + 1
           | None => BUF_SIZE - 1
           end in
  (take n data, drop n data).

(** The output: lines up to their first NUL, while the stream is good. *)
Fixpoint drain (fuel : nat) (data : str) (out : stream) : option stream :=
  match fuel with
  | O => None
  | S f =>
      match data with
      | [] => Some out
      | _ =>
          let '(buffer, data') := fgets data in
          let out' := write (c_str buffer) out in
          if good out' then drain f data' out' else Some out'
      end
  end.

(** ** The pipes *)

(** What opening the pipes and forking leaves: descriptors 0-1, 2-3 and 4-5 are the pipes;
    [pipe i] tells whether the call for the pipe [i] succeeds. *)
Definition process_throw (msg : string) : outcome unit := Throw (Exn process_exception (lit msg)).

Definition close_fds (fds l : list nat) : list nat := filter (λ fd, fd ∉ fds) l.

Definition execute_open (pipe : nat → bool) (forks : bool) : outcome unit * list nat :=
  if negb (pipe 0) then (process_throw "pipe failed", [])
  else if negb (pipe 1) then (process_throw "pipe failed", close_fds [0; 1] [0; 1])
  else if negb (pipe 2) then
    (process_throw "pipe failed", close_fds [0; 1; 2; 3] [0; 1; 2; 3])
  else if negb forks then (process_throw "vfork failed", [0; 1; 2; 3; 4; 5])
  else (Ret (), [0; 1; 2; 3; 4; 5]).

(** ** The child before [execv]: its arguments and its descriptors, those of the three pipes being
    [(read end, write end)] *)
Definition child_argv (path args : str) : list str := c_str path :: (c_str <$> str2argv args []).

Definition child_table {F} (in_ out err : Z * Z) (m : gmap Z F) : gmap Z F :=
  let m := dup2 err.2 2 (dup2 out.2 1 (dup2 in_.1 0 m)) in
  close_all [out.1; out.2; err.1; err.2; in_.1; in_.2] m.

(** The standard streams are the pipes and no other end of a pipe stays open. *)
Lemma child_table_lookup {F} (in_ out err : Z * Z) (m : gmap Z F) k :
  Forall (λ fd, 2 < fd)%Z [in_.1; in_.2; out.1; out.2; err.1; err.2] →
  is_Some (m !! in_.1) → is_Some (m !! out.2) → is_Some (m !! err.2) →
  child_table in_ out err m !! k
  = if decide (k = 0)%Z then m !! in_.1
    else if decide (k = 1)%Z then m !! out.2
    else if decide (k = 2)%Z then m !! err.2
    else if decide (k ∈ [out.1; out.2; err.1; err.2; in_.1; in_.2]) then None
    else m !! k.
Proof.
  rewrite !Forall_cons. intros (H1 & H2 & H3 & H4 & H5 & H6 & _) Hi Ho He.
  unfold child_table. rewrite close_all_lookup.
  assert (dup2 in_.1 0 m !! out.2 = m !! out.2) as E1 by (rewrite dup2_lookup by done; by rewrite decide_False by lia).
  assert (dup2 out.2 1 (dup2 in_.1 0 m) !! err.2 = m !! err.2) as E2.
  { rewrite dup2_lookup by by rewrite E1. rewrite decide_False by lia.
    rewrite dup2_lookup by done. by rewrite decide_False by lia. }
  rewrite (dup2_lookup err.2 2 _ k), E2 by by rewrite E2.
  rewrite (dup2_lookup out.2 1 _ k), E1 by by rewrite E1. rewrite (dup2_lookup in_.1 0 _ k) by done.
  assert (∀ n, (n ≤ 2)%Z → n ∉ [out.1; out.2; err.1; err.2; in_.1; in_.2]) as Hn.
  { intros n Hn Hin. rewrite !elem_of_cons in Hin. destruct Hin as [? | [? | [? | [? | [? | [? | Hin]]]]]];
      [lia.. | by apply not_elem_of_nil in Hin]. }
  repeat case_decide; subst; try done; try lia; by exfalso; eapply Hn; [| eassumption].
Qed.

(** ** Parent and child *)
Inductive child_op (C : Type) :=
  | ChRead (k : option ascii → C)
  | ChOut (b : ascii) (c : C)
  | ChErr (b : ascii) (c : C)
  | ChExit (status : Z).
Arguments ChRead {C} k.
Arguments ChOut {C} b c.
Arguments ChErr {C} b c.
Arguments ChExit {C} status.

Inductive parent :=
  | PWrite (l : str)
  | PWait
  | PReadOut (status : Z)
  | PReadErr (status : Z) (out : str)
  | PDone (status : Z) (out err : str)
  | PKilled.

Section pipes.
Context {C : Type} (next : C → child_op C) (cap : nat).

Inductive child_state := Running (c : C) | Exited (status : Z).

Record pipes := Pipes {
  par : parent;
  child : child_state;
  inp : str;
  outp : str;
  errp : str }.

Definition execute_start (input : str) (c : C) : pipes := Pipes (PWrite input) (Running c) [] [] [].

Inductive pstep (s : pipes) : pipes → Prop :=
  | p_write b l c :
      par s = PWrite (b :: l) → child s = Running c → length (inp s) < cap →
      pstep s (Pipes (PWrite l) (child s) (inp s ++ [b]) (outp s) (errp s))
  (* no one reads the pipe any more: SIGPIPE *)
  | p_sigpipe b l st :
      par s = PWrite (b :: l) → child s = Exited st →
      pstep s (Pipes PKilled (child s) (inp s) (outp s) (errp s))
  | p_close :
      par s = PWrite [] → pstep s (Pipes PWait (child s) (inp s) (outp s) (errp s))
  | p_wait st :
      par s = PWait → child s = Exited st →
      pstep s (Pipes (PReadOut st) (child s) (inp s) (outp s) (errp s))
  | p_read_out st :
      par s = PReadOut st →
      pstep s (Pipes (PReadErr st (outp s)) (child s) (inp s) [] (errp s))
  | p_read_err st o :
      par s = PReadErr st o → pstep s (Pipes (PDone st o (errp s)) (child s) (inp s) (outp s) [])
  | c_read k c b l :
      child s = Running c → next c = ChRead k → inp s = b :: l →
      pstep s (Pipes (par s) (Running (k (Some b))) l (outp s) (errp s))
  (* the end of the input: the parent has closed it *)
  | c_read_end k c :
      child s = Running c → next c = ChRead k → inp s = [] → (∀ l, par s ≠ PWrite l) →
      pstep s (Pipes (par s) (Running (k None)) [] (outp s) (errp s))
  | c_out b c c' :
      child s = Running c → next c = ChOut b c' → length (outp s) < cap →
      pstep s (Pipes (par s) (Running c') (inp s) (outp s ++ [b]) (errp s))
  | c_err b c c' :
      child s = Running c → next c = ChErr b c' → length (errp s) < cap →
      pstep s (Pipes (par s) (Running c') (inp s) (outp s) (errp s ++ [b]))
  | c_exit c st :
      child s = Running c → next c = ChExit st →
      pstep s (Pipes (par s) (Exited st) (inp s) (outp s) (errp s)).

(** ** What a child does with an input

    The child alone, on the whole input, as long as the fuel: what it writes to its two outputs,
    its status, and what it leaves unread. *)
Fixpoint child_run (fuel : nat) (l : str) (c : C) : option (str * str * Z * str) :=
  match fuel with
  | O => None
  | S f =>
      match next c with
      | ChRead k => match l with b :: l' => child_run f l' (k (Some b)) | [] => child_run f [] (k None) end
      | ChOut b c' => '(o, e, st, u) ← child_run f l c'; Some (b :: o, e, st, u)
      | ChErr b c' => '(o, e, st, u) ← child_run f l c'; Some (o, b :: e, st, u)
      | ChExit st => Some ([], [], st, l)
      end
  end.

(** [W c n]: the child does not exit before it has written [n] bytes to its error output, or to
    its other one. *)
Definition insists_on (err : bool) (W : C → nat → Prop) : Prop :=
  ∀ c n, W c (S n) →
    match next c with
    | ChRead k => ∀ b, W (k b) (S n)
    | ChOut _ c' => W c' (if err then S n else n)
    | ChErr _ c' => W c' (if err then n else S n)
    | ChExit _ => False
    end.

Definition returned (s : pipes) : Prop := ∃ st o e, par s = PDone st o e.

(** ** Lemmas *)
Definition todo (p : parent) : str := match p with PWrite l => l | _ => [] end.

(** What is left to do, when the child alone has fuel for [f] steps. *)
Definition left_to_do (f : nat) (p : parent) : nat :=
  f + match p with
      | PWrite l => length l + 4
      | PWait => 3
      | PReadOut _ => 2
      | PReadErr _ _ => 1
      | PDone _ _ _ | PKilled => 0
      end.

Section run.
Context (o e : str) (st : Z) (u : str).

(** The child is on its way to the end of the run of [child_run], whose outputs are in the pipes
    or to come; or it is at the end. *)
Definition on_course (f : nat) (s : pipes) : Prop :=
  match child s with
  | Running c =>
      ((∃ l, par s = PWrite l) ∨ par s = PWait) ∧
      ∃ o' e', child_run f (inp s ++ todo (par s)) c = Some (o', e', st, u) ∧
        outp s ++ o' = o ∧ errp s ++ e' = e
  | Exited st' =>
      st' = st ∧
      match par s with
      | PWrite l => inp s ++ l = u ∧ outp s = o ∧ errp s = e
      | PWait => outp s = o ∧ errp s = e
      | PReadOut st1 => st1 = st ∧ outp s = o ∧ errp s = e
      | PReadErr st1 o1 => st1 = st ∧ o1 = o ∧ errp s = e
      | PDone st1 o1 e1 => st1 = st ∧ o1 = o ∧ e1 = e
      | PKilled => u ≠ []
      end
  end.

(** Every step, of the parent or of the child, brings the end nearer. *)
Lemma on_course_step f s s' :
  on_course f s → pstep s s' → ∃ f', on_course f' s' ∧ left_to_do f' (par s') < left_to_do f (par s).
Proof.
  intros Hf Hs. unfold on_course, left_to_do in *.
  destruct Hs as [b l c Hp Hc Hl | b l st' Hp Hc | Hp | st' Hp Hc | st' Hp | st' o' Hp
    | k c b l Hc Hn Hi | k c Hc Hn Hi Hp | b c c' Hc Hn Hl | b c c' Hc Hn Hl | c st' Hc Hn];
    cbn [child par inp outp errp]; try rewrite Hc in *; try rewrite Hp in *.
  - exists f. destruct Hf as [_ (o' & e' & Hr & Ho)]. cbn [todo length] in *. split; [| lia].
    split; [by left; eexists |]. exists o', e'. by rewrite <- app_assoc.
  - exists f. destruct Hf as (-> & Hu & _). split; [| lia]. split; [done |]. intros ->.
    by apply app_eq_nil in Hu as [_ [=]].
  - exists f. cbn [length]. split; [| lia]. destruct (child s); cbn [todo] in *.
    + split; [by right | by apply Hf].
    + by destruct Hf as (-> & _ & ?).
  - exists f. split; [| lia]. by destruct Hf as (-> & ? & ?).
  - exists f. split; [| lia]. destruct (child s); [by destruct Hf as [[[l [=]] | [=]] _] |]. naive_solver.
  - exists f. split; [| lia]. destruct (child s); [by destruct Hf as [[[l [=]] | [=]] _] |]. naive_solver.
  - destruct Hf as [Hp (o' & e' & Hr & Ho)]. destruct f as [| f]; [done |]. cbn [child_run] in Hr.
    rewrite Hn, Hi in Hr. exists f. split; [| lia]. split; [done |]. by exists o', e'.
  - destruct Hf as [[[l Hw] | Hw] (o' & e' & Hr & Ho)]; [by destruct (Hp l) |].
    destruct f as [| f]; [done |]. cbn [child_run] in Hr. rewrite Hn, Hi, Hw in Hr. cbn in Hr.
    exists f. split; [| lia]. rewrite Hw. split; [by right |]. by exists o', e'.
  - destruct Hf as [Hp (o' & e' & Hr & Ho & He)]. destruct f as [| f]; [done |]. cbn [child_run] in Hr.
    rewrite Hn in Hr. destruct (child_run f _ c') as [[[[o1 e1] st1] u1] |] eqn:E; [| done]. simplify_eq/=.
    exists f. split; [| lia]. split; [done |]. exists o1, e'. by rewrite <- app_assoc.
  - destruct Hf as [Hp (o' & e' & Hr & Ho & He)]. destruct f as [| f]; [done |]. cbn [child_run] in Hr.
    rewrite Hn in Hr. destruct (child_run f _ c') as [[[[o1 e1] st1] u1] |] eqn:E; [| done]. simplify_eq/=.
    exists f. split; [| lia]. split; [done |]. exists o', e1. by rewrite <- app_assoc.
  - destruct Hf as [Hp (o' & e' & Hr & Ho & He)]. destruct f as [| f]; [done |]. cbn [child_run] in Hr.
    rewrite Hn in Hr. simplify_eq/=. rewrite !app_nil_r. exists f. split; [| lia]. split; [done |].
    by destruct Hp as [[l ->] | ->].
Qed.

Lemma on_course_goes_on f s :
  0 < cap → length o ≤ cap → length e ≤ cap → on_course f s →
  returned s ∨ par s = PKilled ∨ ∃ s', pstep s s'.
Proof.
  intros Hcap Hlo Hle Hf. unfold on_course in Hf. destruct (child s) as [c | st'] eqn:Hc.
  - right; right. destruct Hf as [Hp (o' & e' & Hr & <- & <-)]. rewrite length_app in Hlo, Hle.
    destruct f as [| f]; [done |]. cbn [child_run] in Hr.
    destruct (next c) as [k | b c' | b c' | st'] eqn:Hn.
    + destruct (inp s) as [| b l] eqn:Hi; [| eexists; by eapply c_read].
      destruct Hp as [[[| b l] Hp] | Hp].
      * eexists. by apply p_close.
      * eexists. eapply p_write; [done.. |]. rewrite Hi. cbn. lia.
      * eexists. eapply c_read_end; [done.. |]. congruence.
    + destruct (child_run f _ c') as [[[[o1 e1] st1] u1] |]; [| done]. simplify_eq/=.
      eexists. eapply c_out; [done.. | lia].
    + destruct (child_run f _ c') as [[[[o1 e1] st1] u1] |]; [| done]. simplify_eq/=.
      eexists. eapply c_err; [done.. | lia].
    + eexists. by eapply c_exit.
  - destruct (par s) as [[| b l] | | st1 | st1 o1 | st1 o1 e1 |] eqn:Hp.
    + right; right. eexists. by apply p_close.
    + right; right. eexists. by eapply p_sigpipe.
    + right; right. eexists. by eapply p_wait.
    + right; right. eexists. by eapply p_read_out.
    + right; right. eexists. by eapply p_read_err.
    + left. by exists st1, o1, e1.
    + by right; left.
Qed.

Lemma on_course_ends f s : on_course f s → sn pstep s.
Proof.
  remember (left_to_do f (par s)) as n eqn:E. revert f s E.
  induction n as [n IH] using lt_wf_ind. intros f s -> Hf. constructor. intros s' Hs.
  destruct (on_course_step f s s' Hf Hs) as (f' & Hf' & Hlt). by eapply IH.
Qed.

Lemma on_course_rtc f s s' : rtc pstep s s' → on_course f s → ∃ f', on_course f' s'.
Proof.
  intros Hr. revert f. induction Hr as [| s s1 s2 Hs _ IH]; intros f Hf; [by exists f |].
  destruct (on_course_step f s s1 Hf Hs) as (f' & Hf' & _). by eapply IH.
Qed.

Lemma on_course_end f s :
  on_course f s → (par s = PKilled → u ≠ []) ∧ (returned s → par s = PDone st o e).
Proof.
  unfold on_course. intros Hf. split.
  - intros Hp. rewrite Hp in Hf. destruct (child s); [by destruct Hf as [[[l [=]] | [=]] _] | by destruct Hf].
  - intros (st1 & o1 & e1 & Hp). rewrite Hp in *. destruct (child s); [by destruct Hf as [[[l [=]] | [=]] _] |].
    naive_solver.
Qed.
End run.

(** The child has more to write than the pipe has room for. *)
Definition choking (err : bool) (W : C → nat → Prop) (s : pipes) : Prop :=
  ((∃ l, par s = PWrite l) ∨ par s = PWait) ∧
  let p := if err then errp s else outp s in
  length p ≤ cap ∧ ∃ c n, child s = Running c ∧ W c n ∧ cap < length p + n.

Lemma choking_preserved err W : insists_on err W → preserved pstep (choking err W).
Proof.
  intros HW s s' Hs (Hp & Ho & c & n & Hc & Hw & Hlt).
  assert (∃ n', n = S n') as [n' ->] by (exists (n - 1); lia). pose proof (HW _ _ Hw) as Hn.
  destruct Hs as [b l c' Hp' Hc' Hl | b l st Hp' Hc' | Hp' | st Hp' Hc' | st Hp' | st o Hp'
    | k c' b l Hc' Hn' Hi | k c' Hc' Hn' Hi Hp' | b c' c'' Hc' Hn' Hl | b c' c'' Hc' Hn' Hl | c' st Hc' Hn'];
    unfold choking; cbn [child par inp outp errp]; try congruence;
    try (destruct Hp as [[l' E] | E]; congruence);
    try (rewrite Hc in Hc'; injection Hc' as <-; rewrite Hn' in Hn).
  - split_and!; [eauto | done |]. by exists c, (S n').
  - split_and!; [auto | done |]. by exists c, (S n').
  - split_and!; [done | done |]. by exists (k (Some b)), (S n').
  - split_and!; [done | done |]. by exists (k None), (S n').
  - destruct err; rewrite ?length_app; cbn; (split_and!; [done | lia |]); eexists c'', _; (split_and!; [done | done | lia]).
  - destruct err; rewrite ?length_app; cbn; (split_and!; [done | lia |]); eexists c'', _; (split_and!; [done | done | lia]).
  - done.
Qed.
End pipes.

(** ** Lemmas: texts without NUL bytes are copied whole *)
Lemma c_str_take n s : nul ∉ s → c_str (take n s) = take n s.
Proof. intros Hn. apply c_str_id. intros Hin. apply Hn. rewrite <- (take_drop n s). set_solver. Qed.

Lemma BUF_SIZE_pos : 2 < BUF_SIZE.
Proof. apply Nat.ltb_lt. reflexivity. Qed.

#[local] Opaque BUF_SIZE.

Lemma feed_text fuel s :
  good s = true → nul ∉ rest s → length (rest s) < fuel → 2 ≤ fuel →
  ∃ s', feed fuel s = Some (rest s, s').
Proof.
  revert s. induction fuel as [| fuel IH]; intros s Hg Hn Hf Hf2; [lia |]. cbn [feed]. rewrite Hg.
  unfold read. rewrite Hg, c_str_take by done.
  destruct (Nat.ltb_spec (length (take (BUF_SIZE - 1) (rest s))) (BUF_SIZE - 1)) as [Hlt | Hge].
  - set (s1 := set_fail (set_eof _)). destruct fuel as [| fuel]; [lia |]. cbn [feed].
    assert (good s1 = false) as -> by done. cbn [mbind option_bind]. exists s1. rewrite length_take in Hlt.
    rewrite take_ge by lia. change (c_str []) with (@nil ascii). by rewrite app_nil_r.
  - set (s1 := set_gpos _ s). assert (rest s1 = drop (BUF_SIZE - 1) (rest s)) as Hr.
    { unfold s1. rewrite rest_advance. f_equal. rewrite length_take in *. lia. }
    destruct (IH s1) as [s' E].
    + done.
    + rewrite Hr. intros Hin. apply Hn. rewrite <- (take_drop (BUF_SIZE - 1) (rest s)). set_solver.
    + rewrite Hr, length_drop. pose proof BUF_SIZE_pos. rewrite length_take in Hge. lia.
    + pose proof BUF_SIZE_pos. rewrite length_take in Hge. lia.
    + rewrite E. cbn [mbind option_bind]. exists s'. by rewrite Hr, take_drop.
Qed.

Lemma fgets_spec data :
  data ≠ [] → fgets data = (take (length (fgets data).1) data, drop (length (fgets data).1) data) ∧
  0 < length (fgets data).1.
Proof.
  intros Hd. unfold fgets. cbn [fst].
  set (n := match find_char newline _ with Some i => i + 1 | None => BUF_SIZE - 1 end).
  assert (0 < n) as Hn by (pose proof BUF_SIZE_pos; subst n; destruct (find_char _ _); lia).
  assert (length data ≠ 0) by by destruct data.
  rewrite length_take. split; [| lia]. destruct (Nat.le_gt_cases n (length data)).
  - by rewrite Nat.min_l.
  - rewrite Nat.min_r, !firstn_all, !take_ge, !drop_ge by lia. done.
Qed.

Lemma drain_text fuel data out :
  at_end out → nul ∉ data → length data < fuel → drain fuel data out = Some (append data out).
Proof.
  revert data out. induction fuel as [| fuel IH]; intros data out Ho Hn Hf; [lia |]. cbn [drain].
  destruct data as [| b data]; [by rewrite append_nil |]. set (d := b :: data) in *.
  destruct (fgets_spec d) as [E Hlen]; [done |]. rewrite E. set (n := length (fgets d).1) in *.
  assert (length d ≠ 0) by done. rewrite c_str_take, write_at_end by done.
  assert (good (append (take n d) out) = true) as -> by (apply append_at_end, Ho).
  rewrite IH; [| by apply append_at_end | | rewrite length_drop; lia].
  - by rewrite append_append, take_drop.
  - intros Hin. apply Hn. rewrite <- (take_drop n d). set_solver.
Qed.

(** ** Properties *)

(** C29. [execute] depends on the room in the pipes.  When the child, on this input, ends after
    outputs that each fit in a pipe, [execute] ends whatever the scheduling: no run of the two is
    infinite, and as long as the parent has not come to its end a step is possible.  It then
    returns the child's status and its two outputs, or the parent is killed, which happens only if
    the child ended without reading its input to the end.  A child that insists on more output, or
    more errors, than its pipe holds makes [execute] hang: the parent waits for the child to end
    before it reads, and never returns, whatever the scheduling. *)
Theorem execute_needs_room {C} (next : C → child_op C) cap input c s :
  rtc (pstep next cap) (execute_start input c) s →
  (∀ fuel o e st u, child_run next fuel input c = Some (o, e, st, u) →
     0 < cap → length o ≤ cap → length e ≤ cap →
     sn (pstep next cap) s ∧
     (returned s ∨ par s = PKilled ∨ ∃ s', pstep next cap s s') ∧
     (returned s → par s = PDone st o e) ∧ (par s = PKilled → u ≠ [])) ∧
  (∀ err W n, insists_on next err W → W c n → cap < n → ¬ returned s).
Proof.
  intros Hr. split.
  - intros fuel o e st u Hrun Hcap Hlo Hle.
    destruct (on_course_rtc next cap o e st u fuel _ s Hr) as [f Hf].
    { split; [left; by eexists |]. by exists o, e. }
    split; [exact (on_course_ends next cap o e st u f s Hf) |].
    split; [exact (on_course_goes_on next cap o e st u f s Hcap Hlo Hle Hf) |].
    destruct (on_course_end next o e st u f s Hf) as [? ?]. by split.
  - intros err W n HW Hw Hlt (st & o & e & E).
    destruct (preserved_rtc _ _ _ _ (choking_preserved next cap err W HW) Hr) as ([[l El] | El] & _);
      [| congruence..].
    split; [left; by eexists |]. destruct err; cbn; (split; [lia |]); exists c, n; (split_and!; [done | done | lia]).
Qed.

(** The copying loops end, and a text without NUL bytes is copied byte for byte: the input
    goes to the child whole, and what the child wrote is appended to the stream. *)
Theorem execute_copies s data out :
  good s = true → nul ∉ rest s → at_end out → nul ∉ data →
  (∃ s', feed (2 + length (rest s)) s = Some (rest s, s')) ∧
  drain (1 + length data) data out = Some (append data out).
Proof.
  intros Hg Hs Ho Hd. split; [apply feed_text; (done || lia) | apply drain_text; (done || lia)].
Qed.

(** ** Witnesses: a child that reads to the end of its input, and then writes three bytes *)
Definition three_bytes (n : nat) : child_op nat :=
  match n with
  | O => ChExit 7
  | 4 => ChRead (λ b, match b with Some _ => 4 | None => 3 end)
  | S n' => ChOut "x"%char n'
  end.

Lemma three_bytes_insist : insists_on three_bytes false (λ c n, n ≤ 3 ∧ (c < 4 → n ≤ c) ∧ c ≤ 4).
Proof.
  intros [| [| [| [| [| c]]]]] n (H1 & H2 & H3); cbn; try lia. intros [b |]; lia.
Qed.

(** Behind a pipe of two bytes it hangs, behind one of four it ends. *)
Lemma execute_needs_room_witness :
  ¬ returned (Pipes PWait (Running 1) [] (lit "xx") []) ∧
  sn (pstep three_bytes 4) (execute_start (lit "ab") 4) ∧
  (∃ s', pstep three_bytes 4 (execute_start (lit "ab") 4) s').
Proof.
  assert (rtc (pstep three_bytes 2) (execute_start [] 4) (Pipes PWait (Running 1) [] (lit "xx") [])) as Hr.
  { eapply rtc_l; [exact (p_close three_bytes 2 (execute_start [] 4) eq_refl) |].
    eapply rtc_l; [exact (c_read_end three_bytes 2 (Pipes PWait (Running 4) [] [] []) _ 4 eq_refl eq_refl eq_refl
      ltac:(done)) |].
    eapply rtc_l; [exact (c_out three_bytes 2 (Pipes PWait (Running 3) [] [] []) "x"%char 3 2 eq_refl eq_refl
      ltac:(apply Nat.ltb_lt; reflexivity)) |].
    eapply rtc_l; [exact (c_out three_bytes 2 (Pipes PWait (Running 2) [] (lit "x") []) "x"%char 2 1 eq_refl eq_refl
      ltac:(apply Nat.ltb_lt; reflexivity)) |]. apply rtc_refl. }
  split.
  - exact (proj2 (execute_needs_room three_bytes 2 [] 4 _ Hr) false _ 3 three_bytes_insist
      ltac:(cbn; lia) ltac:(lia)).
  - destruct (proj1 (execute_needs_room three_bytes 4 (lit "ab") 4 _ (rtc_refl _ _)) 7 (lit "xxx") [] 7%Z []
      eq_refl ltac:(lia) ltac:(apply Nat.leb_le; reflexivity) ltac:(apply Nat.leb_le; reflexivity)) as (Hs & [(st & o & e & E) | [E | H]] & _);
      [discriminate E.. | exact (conj Hs H)].
Defined.

Lemma execute_copies_witness :
  drain 4 (lit "a" ++ [newline] ++ lit "b") (of_string []) = Some (append (lit "a" ++ [newline] ++ lit "b") (of_string [])).
Proof.
  assert (∀ l : str, Forall (λ c, c ≠ nul) l → nul ∉ l) as Hl.
  { intros l Hl Hin. rewrite Forall_forall in Hl. by apply (Hl nul). }
  apply (execute_copies (of_string (lit "in")) (lit "a" ++ [newline] ++ lit "b") (of_string []));
    [reflexivity | apply Hl; by repeat constructor | by split | apply Hl; by repeat constructor].
Defined.
