(* ===== verification/WebServer.v ===== *)
(** * [examples/web_server/src/]: the web server the library comes with.

    A daemon that serves the files below a directory: [www_server] is its data, [www_on_request] the
    handler it gives to the HTTP server, composed of [Url.normalize], the MIME table of [Config]
    and the responses of [HttpHeader].  The conversations of [HttpOverTcp] tell what its clients
    receive. *)
From S2P Require Import Url Config Application.
From S2P Require HttpServer.
From S2P Require Export HttpOverTcp.
Import HttpServer(parsed_request, wire_ok, content_length, request_text).

Record www_server := WwwServer {
  interfaces : str;
  root_dir : str;
  mime_table : mimetype }.

(** [www_server::www_server] *)
Definition www_server_new (m : mimetype) : www_server :=
  WwwServer (lit ":8000;:8443") (lit "/var/www") m.

(** [web_server_app::on_cmdline_parameter] *)
Definition on_cmdline_parameter (param : cmdline_parameter) (s : www_server) : bool * www_server :=
  match short_name param with
  | "l"%char => (true, WwwServer (value param) (root_dir s) (mime_table s))
  | "r"%char => (true, WwwServer (interfaces s) (value param) (mime_table s))
  | _ => (false, s)
  end.

(** [on_create_io_handler]: which kind of socket a connection gets, by the port of the listening
    one. *)
Inductive io_handler := PlainSocket | SslSocket (cert key : str).

Definition on_create_io_handler (port : Z) : io_handler :=
  if (port =? 8443)%Z
  then SslSocket (lit "/home/dennis/development/libdcl-0.1.0/examples/web_server/cert.pem")
         (lit "/home/dennis/development/libdcl-0.1.0/examples/web_server/pkey.pem")
  else PlainSocket.

#[export] Instance http_method_eq_dec : EqDecision http_method.http_method.
Proof. solve_decision. Defined.

Section handler.
Context `{Services} `{Posix} (dir : str) (s : www_server).

(** The path of the file a request is for. *)
Definition file_path (req : http_request) : str :=
  Url.path (normalize (root_dir s) (url_of_string (_path_info req))).

Definition with_text (text : str) (r : http_response) : outcome http_response :=
  h ← set_content text (resp_header r); Ret (HttpResponse h (_status r)).

(** [www_server::on_request] *)
Definition www_on_request (req : http_request) : outcome http_response :=
  let resp := http_response_new in
  if negb (bool_decide (_method req = http_method.get)) then
    r ← set_allow http_method.get (set_status http_error.method_not_allowed resp);
    with_text (lit "The POST requests are not supported yet.") r
  else
    let p := file_path req in
    match open_file dir (c_str p) with
    | Some text =>
        let r := on_response (set_content_type (mimetype_of (mime_table s) p)) resp in
        Ret (on_response (λ h, (add_content (of_string text) h).2) r)
    | None =>
        with_text (c_str (lit "File not found: " ++ p)) (set_status http_error.not_found resp)
    end.
End handler.

(** ** Lemmas: paths *)

(** A segment of a request's path: any text between two slashes. *)
Definition segment (w : str) : Prop := w ≠ [] ∧ free (lit "/") w.

Lemma proper_is_segment w : proper_segment w → segment w.
Proof. by intros (? & _ & _ & ? & _). Qed.

Lemma path_of_app a b : path_of (a ++ b) = path_of a ++ path_of b.
Proof. unfold path_of. by rewrite fmap_app, concat_app. Qed.

Lemma free_slash w i : free (lit "/") w → w !! i ≠ Some "/"%char.
Proof. intros Hw Hi. eapply Forall_lookup_1 in Hw; [| exact Hi]. done. Qed.

(** No two slashes follow each other in a path of segments. *)
Lemma path_of_slashes segs i :
  Forall segment segs → path_of segs !! i = Some "/"%char → path_of segs !! S i ≠ Some "/"%char.
Proof.
  intros H. revert i. induction H as [| w segs [Hne Hw] H IH]; intros i Hi; [done |].
  change (path_of (w :: segs)) with ("/"%char :: w ++ path_of segs) in Hi |- *. destruct i as [| i].
  - destruct w as [| c w]; [done |]. cbn. intros [=->]. inv Hw.
  - change ((w ++ path_of segs) !! i = Some "/"%char) in Hi.
    change ((w ++ path_of segs) !! S i ≠ Some "/"%char). destruct (decide (i < length w)) as [Hl | Hl].
    { rewrite lookup_app_l in Hi by done. by apply free_slash in Hi. }
    rewrite lookup_app_r in Hi by lia. rewrite lookup_app_r by lia.
    replace (S i - length w) with (S (i - length w)) by lia. by apply IH.
Qed.

(** A path has no scheme. *)
Lemma parse_scheme_path segs : Forall segment segs → parse_scheme (path_of segs) = ([], path_of segs).
Proof.
  intros H. unfold parse_scheme. destruct (find_char _ _) as [pos |]; [| done].
  case_match eqn:E; [| done]. rewrite !andb_true_iff in E. destruct E as [[_ E1] E2].
  apply bool_decide_eq_true in E1, E2. rewrite !Nat.add_1_r in *.
  replace (pos + 2) with (S (S pos)) in E2 by lia. by destruct (path_of_slashes segs (S pos) H E1).
Qed.

Lemma url_of_path `{Services} segs :
  Forall segment segs → segs ≠ [] → Url.path (url_of_string (path_of segs)) = path_of segs.
Proof.
  intros Hs Hne. unfold url_of_string, url_parse. rewrite parse_scheme_path by done. cbn.
  by destruct segs.
Qed.

Lemma tokenize_path segs :
  Forall segment segs → Forall trimmed segs → segs ≠ [] → tokenize (path_of segs) (lit "/") = [] :: segs.
Proof.
  intros Hs Ht Hne. rewrite path_of_join by done.
  change ("/"%char :: CxxString.join (lit "/") segs) with ([] ++ ["/"%char] ++ CxxString.join ["/"%char] segs).
  replace ([] ++ ["/"%char] ++ CxxString.join ["/"%char] segs) with (CxxString.join ["/"%char] ([] :: segs))
    by by destruct segs.
  apply tokenize_join; [done | | done | by intros [=->]].
  constructor; [split; [constructor | by left] |].
  apply Forall_and. split; [| done]. by eapply Forall_impl; [exact Hs | intros w [_ ?]].
Qed.

(** The path of a directory and a request's path are resolved as one list of segments. *)
Lemma normalize_path root segs u :
  Forall segment (root ++ segs) → Forall trimmed (root ++ segs) → segs ≠ [] →
  Url.path u = path_of segs →
  Url.path (normalize (path_of root ++ lit "/") u) = path_of (reverse (resolve (root ++ segs))).
Proof.
  intros Hs Ht Hne Hu. unfold normalize. rewrite Hu, (path_of_join segs) by done.
  assert ((path_of root ++ lit "/") ++ CxxString.join (lit "/") segs = path_of (root ++ segs)) as ->.
  { by rewrite path_of_app, (path_of_join segs), <- app_assoc. }
  cbn [Url.path Url.set_path]. rewrite normalize_loop_resolve, drop_0, app_nil_r.
  rewrite tokenize_path; [done.. |]. by destruct root.
Qed.

Lemma resolve_app a b : resolve (a ++ b) = foldl push_segment (resolve a) b.
Proof. apply foldl_app. Qed.

(** Proper segments only go down; a ".." for each goes up again. *)
Lemma resolve_up root :
  Forall proper_segment root → resolve (root ++ replicate (length root) (lit "..")) = [].
Proof.
  intros H. rewrite resolve_app, resolve_of_proper by done.
  assert (∀ st : list str, foldl push_segment st (replicate (length st) (lit "..")) = []) as Hup.
  { induction st as [| w st IH]; [done | exact IH]. }
  by rewrite <- (length_reverse root), Hup.
Qed.

(** A path that, read from its start, never leaves the directory it starts in, [n] directories
    being open already. *)
Fixpoint stays (n : nat) (segs : list str) : bool :=
  match segs with
  | [] => true
  | w :: segs' =>
      if str_eqb w (lit "..") then match n with O => false | S n' => stays n' segs' end
      else if str_eqb w (lit ".") then stays n segs'
      else stays (S n) segs'
  end.

Lemma stays_above t st segs :
  Forall segment segs → stays (length t) segs = true →
  foldl push_segment (t ++ st) segs = foldl push_segment t segs ++ st.
Proof.
  intros Hs. revert t. induction Hs as [| w segs [Hne _] _ IH]; intros t; [done |]. cbn [stays foldl].
  unfold push_segment at 2 4. destruct (str_eqb w (lit "..")); [by destruct t as [| x t]; [| apply IH] |].
  destruct (str_eqb w (lit ".")); [apply IH |]. rewrite (str_eqb_ne w []) by done.
  intros H. by apply (IH (w :: t)).
Qed.

(** ** Lemmas: answers *)
Definition file_headers (type text : str) : http_headers :=
  [(lit "Content-Length", print_dec (Z.of_nat (length text))); (lit "Content-Type", type)].

(** The answer to a request of version [v] for a file. *)
Definition file_answer (v type text : str) : str :=
  v ++ lit " 200 OK" ++ [newline] ++ concat ((λ e, header_line e ++ CRLF) <$> file_headers type text)
  ++ CRLF ++ text.

Lemma answer_of_file `{TimeLib} r h type text :
  headers h = file_headers type text → cookies h = [] → content h = text ++ [nul] →
  (Z.of_nat (length text) ≤ INT_MAX)%Z →
  answer_text r (HttpResponse h http_error.ok) = Ret (file_answer (http_version (req_header r)) type text).
Proof.
  intros Hh Hc Ht Hl. unfold answer_text. cbn [resp_header]. rewrite Hh, Hc.
  pose proof (get_content_size_spec h text Ht Hl) as Hsz. unfold content_text. rewrite Hsz, Ht.
  assert ((if (0 <? Z.of_nat (length text))%Z then take (Z.to_nat (Z.of_nat (length text))) (text ++ [nul])
           else []) = text) as ->; [| done].
  rewrite Nat2Z.id, take_app_length. destruct text; [done |]. by destruct (Z.ltb_spec 0 (Z.of_nat (length (a :: text)))); [| cbn in *; lia].
Qed.

(** ** The handler *)
Section serving.
Context `{Services} `{Posix} (dir : str) (s : www_server).

(** A file: its type, then its content, over the headers of a new response. *)
Definition file_response (type text : str) : http_response :=
  on_response (λ h, (add_content (of_string text) h).2)
    (on_response (set_content_type type) http_response_new).

Lemma file_response_answer `{TimeLib} r type text :
  text ≠ [] → (Z.of_nat (length text) ≤ INT_MAX)%Z →
  answer_text r (file_response type text) = Ret (file_answer (http_version (req_header r)) type text).
Proof.
  intros Hne Hl. unfold file_response.
  set (r1 := on_response (set_content_type type) http_response_new).
  pose proof (add_content_result (of_string text) (resp_header r1) [] eq_refl Hne) as Ha.
  unfold on_response. rewrite Ha; [| by left | exact Hl].
  apply answer_of_file; try done.
Qed.

Lemma www_get req :
  _method req = http_method.get →
  www_on_request dir s req
  = match open_file dir (c_str (file_path s req)) with
    | Some text => Ret (file_response (mimetype_of (mime_table s) (file_path s req)) text)
    | None => with_text (c_str (lit "File not found: " ++ file_path s req))
                (set_status http_error.not_found http_response_new)
    end.
Proof. intros Hm. unfold www_on_request. by rewrite Hm. Qed.
End serving.

(** ** Properties *)

(** C32. The file a request is for, provided that the root directory is set to a path that ends
    with a slash, whose segments, like those of the request, are trimmed: a path that stays below
    where it starts names a file below the root, whatever "." and ".." it has; but there is no
    file of the system that some path with enough ".." does not name.  The default root has no
    such slash, and the first segment is glued to it: [default_root_glued]. *)
Theorem www_paths `{Services} s root segs req :
  root_dir s = path_of root ++ lit "/" → Forall proper_segment root →
  Forall segment segs → Forall trimmed segs → segs ≠ [] →
  (_path_info req = path_of segs → stays 0 segs = true →
     file_path s req = path_of (root ++ reverse (resolve segs)) ∧ Forall proper_segment (resolve segs)) ∧
  (Forall proper_segment segs →
   _path_info req = path_of (replicate (length root) (lit "..") ++ segs) → file_path s req = path_of segs).
Proof.
  intros Hroot Hr Hs Ht Hne.
  assert (Forall segment root ∧ Forall trimmed root) as [Hrs Hrt].
  { split; (eapply Forall_impl; [exact Hr |]); [apply proper_is_segment | by intros w (_ & _ & _ & _ & ?)]. }
  split.
  - intros Hp Hst. unfold file_path. rewrite Hroot.
    rewrite (normalize_path root segs) by (done || (by apply Forall_app) || (rewrite Hp; by apply url_of_path)).
    rewrite resolve_app, resolve_of_proper by done.
    pose proof (stays_above [] (reverse root) segs Hs Hst) as Hab. cbn [app] in Hab. rewrite Hab.
    rewrite reverse_app, reverse_involutive. split; [done |].
    apply resolve_proper, Forall_and. split; [| done]. by eapply Forall_impl; [exact Hs | intros w [_ ?]].
  - intros Hps Hp. unfold file_path. rewrite Hroot. set (up := replicate (length root) (lit "..")).
    assert (Forall segment up ∧ Forall trimmed up) as [Hus Hut].
    { split; apply Forall_replicate; [split; [done | by repeat constructor] | exact (trim_trimmed (lit ".."))]. }
    rewrite (normalize_path root (up ++ segs)).
    + rewrite app_assoc, resolve_app. unfold up. rewrite resolve_up by done. fold (resolve segs).
      by rewrite resolve_of_proper, reverse_involutive.
    + by rewrite !Forall_app.
    + by rewrite !Forall_app.
    + by destruct up.
    + rewrite Hp. apply url_of_path; [by apply Forall_app | by destruct up].
Qed.

(** What a client receives: a request for a file that is there is an exchange whose answer is
    the file, with its type and length, so that [http_conversation] holds of it; a file that is
    not there is answered with 404 and its name, another method with 405. *)
Theorem www_serves {room : TcpServer.Stack} `{TimeLib} `{Services} `{Posix} dir s junk p v hs file text :
  let req := parsed_request junk (lit "GET") p v hs in
  wire_ok (lit "GET") p v hs → content_length hs 0 →
  (Z.of_nat (length (request_text (lit "GET") p v hs [])) ≤ INT_MAX)%Z →
  file_path s req = file → open_file dir (c_str file) = Some text → text ≠ [] →
  (Z.of_nat (length text) ≤ INT_MAX)%Z →
  (Z.of_nat (length (file_answer v (mimetype_of (mime_table s) file) text))
   ≤ Z.min INT_MAX TcpServer.stack_room)%Z →
  exchange_ok junk (www_on_request dir s)
    (Exchange (lit "GET") p v hs (file_answer v (mimetype_of (mime_table s) file) text)).
Proof.
  intros req Hw Hcl Hb Hf Ho Hne Hl Hfit. split; try done. unfold ex_request. cbn [ex_method ex_path ex_version ex_headers ex_answer].
  fold req. exists (file_response (mimetype_of (mime_table s) file) text). split.
  - rewrite www_get by done. by rewrite Hf, Ho.
  - by rewrite file_response_answer.
Qed.

Lemma c_str_length t : length (c_str t) ≤ length t.
Proof. induction t as [| c t IH]; [done |]. cbn [c_str]. case_match; cbn; lia. Qed.

Lemma www_refuses `{Services} `{Posix} dir s req :
  (_method req = http_method.get → open_file dir (c_str (file_path s req)) = None →
   (Z.of_nat (length (file_path s req)) < 1000)%Z →
   ∃ r, www_on_request dir s req = Ret r ∧ _status r = http_error.not_found ∧
     content (resp_header r) = c_str (lit "File not found: " ++ file_path s req) ++ [nul]) ∧
  (_method req ≠ http_method.get →
   ∃ r, www_on_request dir s req = Ret r ∧ _status r = http_error.method_not_allowed ∧
     get_allow r = http_method.get).
Proof.
  split.
  - intros Hm Ho Hl. rewrite www_get, Ho by done. unfold with_text.
    rewrite set_content_result; [by eexists |].
    pose proof (c_str_length (lit "File not found: " ++ file_path s req)) as Hc.
    rewrite length_app in Hc. change (length (lit "File not found: ")) with 16 in Hc. unfold INT_MAX. lia.
  - intros Hm. unfold www_on_request. rewrite bool_decide_eq_false_2 by done. cbn. by eexists.
Qed.

(** ** Witnesses and examples *)
Definition segment_b (w : str) : bool :=
  negb (str_eqb w []) && negb (in_set w "/"%char) && str_eqb (trim w) w.

Lemma segment_decided w : segment_b w = true → segment w ∧ trimmed w.
Proof.
  unfold segment_b. rewrite !andb_true_iff, !negb_true_iff. intros [[H1 H2] H3].
  apply str_eqb_spec in H3. split; [split; [by intros -> |] | rewrite <- H3; apply trim_trimmed].
  apply Forall_forall. intros c Hc. apply in_set_false. intros Hin.
  apply list_elem_of_singleton in Hin as ->. by apply in_set_false in H2.
Qed.

Lemma segments_decided ws : forallb segment_b ws = true → Forall segment ws ∧ Forall trimmed ws.
Proof.
  intros H. apply forallb_Forall in H. split; (eapply Forall_impl; [exact H |]); intros w Hw; by apply segment_decided in Hw as [? ?].
Qed.

Lemma proper_decided ws :
  forallb (λ w, segment_b w && negb (str_eqb w (lit ".")) && negb (str_eqb w (lit ".."))) ws = true →
  Forall proper_segment ws.
Proof.
  intros H. apply forallb_Forall in H. eapply Forall_impl; [exact H |]. intros w Hw.
  rewrite !andb_true_iff, !negb_true_iff in Hw. destruct Hw as [[Hs Hd] Hdd].
  apply segment_decided in Hs as [[Hne Hf] Ht].
  split; [done |]. split; [by intros -> |]. split; [by intros -> |]. by split.
Qed.

Section www_samples.
Local Instance www_services : Services := λ _, None.

(** A file system with two files. *)
Local Instance two_files : Posix := {|
  chdir := λ d _, d;
  glob := λ _ _, None;
  open_file := λ _ name,
    if str_eqb name (lit "/var/www/a/index.html") then Some (lit "hello")
    else if str_eqb name (lit "/etc/passwd") then Some (lit "root:x:0") else None |}.

Definition sample_mime : mimetype := Mimetype [(lit "html", lit "text/html")] (lit "text/plain").

Definition sample_www : www_server := WwwServer [] (lit "/var/www/") sample_mime.

Definition get_of (p : str) : http_request := parsed_request http_method.get (lit "GET") p (lit "HTTP/1.1") [].

Lemma www_paths_witness :
  root_dir sample_www = path_of (lit <$> ["var"; "www"]%string) ++ lit "/" ∧
  file_path sample_www (get_of (lit "/a/./x/../index.html")) = lit "/var/www/a/index.html" ∧
  file_path sample_www (get_of (lit "/../../etc/passwd")) = lit "/etc/passwd".
Proof.
  split; [reflexivity |].
  set (root := lit <$> ["var"; "www"]%string).
  set (inside := lit <$> ["a"; "."; "x"; ".."; "index.html"]%string).
  set (outside := lit <$> ["etc"; "passwd"]%string). split.
  - exact (proj1 (proj1 (www_paths sample_www root inside
      (get_of (lit "/a/./x/../index.html")) eq_refl (proper_decided root eq_refl)
      (proj1 (segments_decided inside eq_refl)) (proj2 (segments_decided inside eq_refl)) ltac:(done))
      eq_refl eq_refl)).
  - exact (proj2 (www_paths sample_www root outside
      (get_of (lit "/../../etc/passwd")) eq_refl (proper_decided root eq_refl)
      (proj1 (segments_decided outside eq_refl)) (proj2 (segments_decided outside eq_refl)) ltac:(done))
      (proper_decided outside eq_refl) eq_refl).
Defined.

(** The default root directory has no slash at its end: the first segment of a path is glued to
    it. *)
Example default_root_glued :
  file_path (www_server_new sample_mime) (get_of (lit "/index.html")) = lit "/var/wwwindex.html".
Proof. vm_compute. reflexivity. Qed.

Lemma www_serves_witness :
  let _ := flat_calendar in let _ := TcpServer.eight_megabytes in
  exchange_ok http_method.get (www_on_request [] sample_www)
    (Exchange (lit "GET") (lit "/a/index.html") (lit "HTTP/1.1") [] (lit "HTTP/1.1 200 OK" ++ [newline]
       ++ lit "Content-Length: 5" ++ CRLF ++ lit "Content-Type: text/html" ++ CRLF ++ CRLF ++ lit "hello")).
Proof.
  cbv zeta. assert (∀ w, trim w = w → trimmed w) as Ht by (intros w <-; apply trim_trimmed).
  assert (∀ c w, in_set w c = false → c ∉ w) as Hn by (intros c w; apply in_set_false).
  apply (www_serves (H := flat_calendar) [] sample_www http_method.get (lit "/a/index.html") (lit "HTTP/1.1") []
    (lit "/var/www/a/index.html") (lit "hello")).
  - split; [| by apply Hn | | by repeat constructor | constructor].
    + split; [by apply Ht |]. split; [by repeat constructor | by apply Hn].
    + split; [by apply Ht |]. split; [by repeat constructor | by apply Hn].
  - by left.
  - by vm_compute.
  - vm_compute. reflexivity.
  - reflexivity.
  - discriminate.
  - by vm_compute.
  - vm_compute. discriminate.
Defined.
End www_samples.
