(* ===== verification/WinSync.v ===== *)
(** * [win32/mutex_impl.cpp], [rwlock_impl.cpp], [semaphore_impl.cpp], [event_impl.cpp]: the
    synchronisation objects of the Windows port.

    The kernel's mutexes, semaphores and events are the class [Win32Sync]; a wait answers the
    object afterwards, or nothing when it would block (and a wait without time then fails).
    [Win32SyncLaws] states what the system documents of them.  The steps of the threads that use
    one reader-writer lock are [rw_step]. *)
From S2P Require Export Steps.

Class Win32Sync := {
  win_mutex : Type;
  CreateMutex : win_mutex;
  wait_mutex : nat → win_mutex → option win_mutex;
  ReleaseMutex : nat → win_mutex → bool * win_mutex;
  win_semaphore : Type;
  CreateSemaphore : Z → Z → win_semaphore;
  wait_semaphore : win_semaphore → option win_semaphore;
  ReleaseSemaphore : Z → win_semaphore → bool * win_semaphore }.

(** A mutex belongs to a thread, which may enter it again; a semaphore has a count and a maximum
    that it never exceeds: a release by too much fails and changes nothing. *)
Class Win32SyncLaws `{Win32Sync} := {
  owned : win_mutex → option (nat * nat);
  create_mutex_law : owned CreateMutex = None;
  wait_mutex_law : ∀ t m,
    match owned m with
    | None => ∃ m', wait_mutex t m = Some m' ∧ owned m' = Some (t, 1)
    | Some (u, n) => if decide (t = u) then ∃ m', wait_mutex t m = Some m' ∧ owned m' = Some (t, S n)
                     else wait_mutex t m = None
    end;
  release_mutex_law : ∀ t m,
    match owned m with
    | Some (u, n) => if decide (t = u)
                     then ∃ m', ReleaseMutex t m = (true, m') ∧
                            owned m' = match n with S (S n') => Some (t, S n') | _ => None end
                     else ReleaseMutex t m = (false, m)
    | None => ReleaseMutex t m = (false, m)
    end;
  count : win_semaphore → Z;
  maximum : win_semaphore → Z;
  create_semaphore_law : ∀ n k, (0 ≤ n ≤ k)%Z → (0 < k)%Z →
    count (CreateSemaphore n k) = n ∧ maximum (CreateSemaphore n k) = k;
  wait_semaphore_law : ∀ s,
    if (0 <? count s)%Z
    then ∃ s', wait_semaphore s = Some s' ∧ count s' = (count s - 1)%Z ∧ maximum s' = maximum s
    else wait_semaphore s = None;
  release_semaphore_law : ∀ k s, (0 < k)%Z →
    if (count s + k <=? maximum s)%Z
    then ∃ s', ReleaseSemaphore k s = (true, s') ∧ count s' = (count s + k)%Z ∧ maximum s' = maximum s
    else ReleaseSemaphore k s = (false, s) }.

(** ** The wrappers *)
Section wrappers.
Context `{Win32Sync}.

(** [WaitForSingleObject] without end, and without time. *)
Definition try_wait {A} (wait : option A) (x : A) : bool * A :=
  match wait with Some x' => (true, x') | None => (false, x) end.

Definition mutex_new : win_mutex := CreateMutex.

Definition enter (t : nat) (m : win_mutex) : option win_mutex := wait_mutex t m.

Definition try_enter (t : nat) (m : win_mutex) : bool * win_mutex := try_wait (wait_mutex t m) m.

Definition leave (t : nat) (m : win_mutex) : win_mutex := snd (ReleaseMutex t m).

Definition MAX_SEM_COUNT : Z := 0x7FFFFFFF.

Definition semaphore_new (initial_value : Z) : win_semaphore :=
  CreateSemaphore initial_value MAX_SEM_COUNT.

Definition lock (s : win_semaphore) : option win_semaphore := wait_semaphore s.

Definition trylock (s : win_semaphore) : bool * win_semaphore := try_wait (wait_semaphore s) s.

Definition unlock (s : win_semaphore) : win_semaphore := snd (ReleaseSemaphore 1 s).

(** ** [rwlock_impl] *)
Definition MAX_READERS : nat := 64.

Record rwlock_impl := Rwlock { _sem : win_semaphore; _mutex : win_mutex }.

Definition rwlock_new : rwlock_impl :=
  Rwlock (CreateSemaphore (Z.of_nat MAX_READERS) (Z.of_nat MAX_READERS)) CreateMutex.

Definition enter_read (l : rwlock_impl) : option rwlock_impl :=
  s ← wait_semaphore (_sem l); Some (Rwlock s (_mutex l)).

Definition try_enter_read (l : rwlock_impl) : bool * rwlock_impl := try_wait (enter_read l) l.

Definition leave_read (l : rwlock_impl) : rwlock_impl :=
  Rwlock (snd (ReleaseSemaphore 1 (_sem l))) (_mutex l).

(** [enter_write] in its three parts: the mutex, one turn of the loop, the end. *)
Definition write_begin (t : nat) (l : rwlock_impl) : option rwlock_impl :=
  m ← wait_mutex t (_mutex l); Some (Rwlock (_sem l) m).

Definition write_turn (l : rwlock_impl) : option rwlock_impl := enter_read l.

Definition write_end (t : nat) (l : rwlock_impl) : rwlock_impl :=
  Rwlock (_sem l) (snd (ReleaseMutex t (_mutex l))).

(** Undisturbed, the parts make up [enter_write]. *)
Definition enter_write (t : nat) (l : rwlock_impl) : option rwlock_impl :=
  l1 ← write_begin t l;
  l2 ← Nat.iter MAX_READERS (λ o, o ≫= write_turn) (Some l1);
  Some (write_end t l2).

Definition try_enter_write (t : nat) (l : rwlock_impl) : bool * rwlock_impl :=
  match write_begin t l with
  | None => (false, l)
  | Some l1 => try_wait (enter_read l1) l1
  end.

Definition leave_write (l : rwlock_impl) : rwlock_impl :=
  Rwlock (snd (ReleaseSemaphore (Z.of_nat MAX_READERS) (_sem l))) (_mutex l).

(** A thread outside, inside as a reader or as a writer, in the loop of [enter_write] with [n]
    turns behind it, inside by [try_enter_write]. *)
Inductive rw_thread := Outside | Reading | Taking (n : nat) | Writing | TryWriting.

Record rw_state := RwState { rwl : rwlock_impl; threads : list rw_thread }.

(** The method a step belongs to. *)
Inductive rw_method := EnterRead | TryEnterRead | LeaveRead | EnterWrite | TryEnterWrite | LeaveWrite.

(** Callers take the answer of a method that tries at its word, and leave what they entered. *)
Inductive rw_step (s : rw_state) : rw_method → rw_state → Prop :=
  | rw_enter_read t l :
      threads s !! t = Some Outside → enter_read (rwl s) = Some l →
      rw_step s EnterRead (RwState l (<[t := Reading]> (threads s)))
  | rw_try_enter_read t b l :
      threads s !! t = Some Outside → try_enter_read (rwl s) = (b, l) →
      rw_step s TryEnterRead (RwState l (<[t := if b then Reading else Outside]> (threads s)))
  | rw_leave_read t :
      threads s !! t = Some Reading →
      rw_step s LeaveRead (RwState (leave_read (rwl s)) (<[t := Outside]> (threads s)))
  | rw_write_begin t l :
      threads s !! t = Some Outside → write_begin t (rwl s) = Some l →
      rw_step s EnterWrite (RwState l (<[t := Taking 0]> (threads s)))
  | rw_write_turn t n l :
      threads s !! t = Some (Taking n) → n < MAX_READERS → write_turn (rwl s) = Some l →
      rw_step s EnterWrite (RwState l (<[t := Taking (S n)]> (threads s)))
  | rw_write_end t :
      threads s !! t = Some (Taking MAX_READERS) →
      rw_step s EnterWrite (RwState (write_end t (rwl s)) (<[t := Writing]> (threads s)))
  | rw_try_enter_write t b l :
      threads s !! t = Some Outside → try_enter_write t (rwl s) = (b, l) →
      rw_step s TryEnterWrite (RwState l (<[t := if b then TryWriting else Outside]> (threads s)))
  | rw_leave_write t :
      threads s !! t = Some Writing ∨ threads s !! t = Some TryWriting →
      rw_step s LeaveWrite (RwState (leave_write (rwl s)) (<[t := Outside]> (threads s))).

(** A run, with the methods whose steps it is made of. *)
Inductive rw_run : rw_state → list rw_method → rw_state → Prop :=
  | rw_run_nil s : rw_run s [] s
  | rw_run_cons s m ms s1 s2 : rw_step s m s1 → rw_run s1 ms s2 → rw_run s (m :: ms) s2.

(** ** [event_impl] *)

(** The kernel's event that resets itself: the threads that wait for it.  A pulse lets one of
    them go. *)
Context {win_event : Type} (CreateEvent : win_event) (SignalWait : nat → win_event → win_event)
  (PulseEvent : win_event → option nat * win_event).

(** The event with its mutex, and the threads a pulse let go, which have to take the mutex again. *)
Record event_impl := Event { _event : win_event; _m : win_mutex; woken : list nat }.

(** [SignalObjectAndWait] releases the mutex once and waits; when the thread does not own the
    mutex it fails and the thread goes on to the second wait. *)
Definition event_wait (t : nat) (e : event_impl) : event_impl :=
  match ReleaseMutex t (_m e) with
  | (true, m) => Event (SignalWait t (_event e)) m (woken e)
  | (false, m) => Event (_event e) m (t :: woken e)
  end.

(** The second wait, for the mutex. *)
Definition event_resume (t : nat) (e : event_impl) : option event_impl :=
  match list_find (eq t) (woken e) with
  | Some (i, _) => m ← wait_mutex t (_m e); Some (Event (_event e) m (delete i (woken e)))
  | None => None
  end.

Definition event_raise (e : event_impl) : event_impl :=
  let '(o, ev) := PulseEvent (_event e) in
  Event ev (_m e) (match o with Some t => t :: woken e | None => woken e end).
End wrappers.

(** ** Lemmas: the permits *)
Section laws.
Context `{Win32SyncLaws}.

(** The permits of a thread. *)
Definition held (p : rw_thread) : Z :=
  match p with
  | Outside => 0
  | Reading | TryWriting => 1
  | Taking n => Z.of_nat n
  | Writing => Z.of_nat MAX_READERS
  end.

Fixpoint all_held (l : list rw_thread) : Z :=
  match l with [] => 0 | p :: l' => held p + all_held l' end.

Lemma held_nonneg p : (0 ≤ held p)%Z.
Proof. destruct p; cbn; lia. Qed.

Lemma all_held_nonneg l : (0 ≤ all_held l)%Z.
Proof. induction l as [| p l IH]; cbn; [lia |]. pose proof (held_nonneg p). lia. Qed.

Lemma all_held_insert l t p p' :
  l !! t = Some p → all_held (<[t := p']> l) = (all_held l - held p + held p')%Z.
Proof.
  revert t. induction l as [| q l IH]; intros [| t] Ht; [done | done | |].
  - injection Ht as ->. cbn. lia.
  - change (held q + all_held (<[t := p']> l) = held q + all_held l - held p + held p')%Z.
    rewrite (IH t Ht). lia.
Qed.

Lemma all_held_two l t u p q :
  l !! t = Some p → l !! u = Some q → t ≠ u → (held p + held q ≤ all_held l)%Z.
Proof.
  intros Ht Hu Hne. pose proof (all_held_insert l t p Outside Ht) as E1.
  pose proof (all_held_insert (<[t := Outside]> l) u q Outside
    ltac:(by rewrite list_lookup_insert_ne)) as E2.
  pose proof (all_held_nonneg (<[u := Outside]> (<[t := Outside]> l))). cbn in *. lia.
Qed.

(** When others hold permits, one of them is there. *)
Lemma all_held_some l : (0 < all_held l)%Z → ∃ t p, l !! t = Some p ∧ (0 < held p)%Z.
Proof.
  induction l as [| p l IH]; cbn; [lia |]. intros Hl.
  destruct (Z.ltb_spec 0 (held p)); [by exists 0, p |]. destruct IH as (t & q & Hq & Hp); [lia |].
  by exists (S t), q.
Qed.

(** Between steps every permit is either free or held, and the mutex belongs to the thread in the
    loop of [enter_write]. *)
Record rw_ok (s : rw_state) : Prop := {
  ok_total : (count (_sem (rwl s)) + all_held (threads s) = Z.of_nat MAX_READERS)%Z;
  ok_count : (0 ≤ count (_sem (rwl s)))%Z;
  ok_maximum : maximum (_sem (rwl s)) = Z.of_nat MAX_READERS;
  ok_taking : ∀ t n, threads s !! t = Some (Taking n) → n ≤ MAX_READERS ∧ owned (_mutex (rwl s)) = Some (t, 1);
  ok_owned : ∀ t n, owned (_mutex (rwl s)) = Some (t, n) → n = 1 ∧ ∃ k, threads s !! t = Some (Taking k) }.

Lemma wait_semaphore_spec s s' :
  wait_semaphore s = Some s' →
  (0 < count s)%Z ∧ count s' = (count s - 1)%Z ∧ maximum s' = maximum s.
Proof.
  intros Hw. pose proof (wait_semaphore_law s) as Hl. destruct (Z.ltb_spec 0 (count s)); [| congruence].
  destruct Hl as (s'' & Hs & ? & ?). rewrite Hw in Hs. injection Hs as <-. by split_and!.
Qed.

Lemma enter_read_spec l l' :
  enter_read l = Some l' →
  (0 < count (_sem l))%Z ∧ count (_sem l') = (count (_sem l) - 1)%Z ∧
  maximum (_sem l') = maximum (_sem l) ∧ _mutex l' = _mutex l.
Proof.
  unfold enter_read. destruct (wait_semaphore (_sem l)) as [s |] eqn:E; [| done]. intros [= <-].
  by destruct (wait_semaphore_spec _ _ E) as (? & ? & ?).
Qed.

Lemma release_spec k s :
  (0 < k)%Z → (count s + k ≤ maximum s)%Z →
  count (snd (ReleaseSemaphore k s)) = (count s + k)%Z ∧
  maximum (snd (ReleaseSemaphore k s)) = maximum s.
Proof.
  intros Hk Hm. pose proof (release_semaphore_law k s Hk) as Hl.
  rewrite (proj2 (Z.leb_le _ _) Hm) in Hl. by destruct Hl as (s' & -> & ? & ?).
Qed.

Lemma write_begin_spec t l l' :
  write_begin t l = Some l' →
  _sem l' = _sem l ∧
  ((owned (_mutex l) = None ∧ owned (_mutex l') = Some (t, 1)) ∨
   ∃ n, owned (_mutex l) = Some (t, n) ∧ owned (_mutex l') = Some (t, S n)).
Proof.
  unfold write_begin. pose proof (wait_mutex_law t (_mutex l)) as Hl.
  destruct (owned (_mutex l)) as [[u n] |] eqn:E; [case_decide as Hd; [subst u |] |].
  - destruct Hl as (m & -> & Hm). intros [= <-]. split; [done |]. right. by exists n.
  - by rewrite Hl.
  - destruct Hl as (m & -> & Hm). intros [= <-]. split; [done |]. by left.
Qed.

(** A step that changes one thread and keeps it away from the mutex. *)
Lemma rw_ok_update s t p p' sem :
  rw_ok s → threads s !! t = Some p →
  (∀ n, p = Taking n → ∃ k, p' = Taking k ∧ k ≤ MAX_READERS) → (∀ n, p' = Taking n → ∃ k, p = Taking k) →
  maximum sem = maximum (_sem (rwl s)) → (0 ≤ count sem)%Z →
  (count sem + held p' = count (_sem (rwl s)) + held p)%Z →
  rw_ok (RwState (Rwlock sem (_mutex (rwl s))) (<[t := p']> (threads s))).
Proof.
  intros [Ht Hc Hm Htk Ho] Hp Hpp Hpp' Hmax Hn Hh. pose proof (lookup_lt_Some _ _ _ Hp) as Hlt.
  split; cbn [rwl _sem _mutex threads].
  - rewrite (all_held_insert _ _ _ _ Hp). lia.
  - done.
  - congruence.
  - intros u n. destruct (decide (t = u)) as [<- | Hne].
    + rewrite list_lookup_insert_eq by done. intros [= ->]. destruct (Hpp' n eq_refl) as [k ->].
      split; [| by apply (Htk t k)]. by destruct (Hpp k eq_refl) as (k' & [= ->] & ?).
    + rewrite list_lookup_insert_ne by done. apply Htk.
  - intros u n (Hn1 & k & Hk)%Ho. split; [done |]. destruct (decide (t = u)) as [<- | Hne].
    + rewrite list_lookup_insert_eq by done. rewrite Hp in Hk. injection Hk as ->.
      destruct (Hpp k eq_refl) as (k' & -> & _). by eexists.
    + rewrite list_lookup_insert_ne by done. by eexists.
Qed.

Lemma held_at s t p :
  rw_ok s → threads s !! t = Some p → (held p + count (_sem (rwl s)) ≤ Z.of_nat MAX_READERS)%Z.
Proof.
  intros [Ht _ _ _ _] Hp. pose proof (all_held_insert _ _ _ Outside Hp).
  pose proof (all_held_nonneg (<[t := Outside]> (threads s))). cbn [held] in *. lia.
Qed.

(** A wait for a permit. *)
Lemma rw_ok_permit s t p p' l :
  rw_ok s → threads s !! t = Some p → enter_read (rwl s) = Some l →
  (∀ n, p = Taking n → ∃ k, p' = Taking k ∧ k ≤ MAX_READERS) → (∀ n, p' = Taking n → ∃ k, p = Taking k) →
  held p' = (held p + 1)%Z → rw_ok (RwState l (<[t := p']> (threads s))).
Proof.
  intros Hok Hp He H1 H2 Hh. destruct l as [sem m].
  destruct (enter_read_spec _ _ He) as (Hc & Hc' & Hm & Hmu). cbn [_sem _mutex] in *. subst m.
  apply (rw_ok_update s t p); auto; lia.
Qed.

(** A release of all the permits of a thread. *)
Lemma rw_ok_release s t p k :
  rw_ok s → threads s !! t = Some p → p ≠ Outside → (∀ n, p ≠ Taking n) → held p = k →
  rw_ok (RwState (Rwlock (snd (ReleaseSemaphore k (_sem (rwl s)))) (_mutex (rwl s)))
    (<[t := Outside]> (threads s))).
Proof.
  intros Hok Hp Ho Ht Hh. pose proof (held_at _ _ _ Hok Hp) as Hle.
  assert (0 < k)%Z as Hk by (destruct p; cbn [held] in Hh; subst k; [done | done | by destruct (Ht n) | done | done]).
  destruct (release_spec k (_sem (rwl s)) Hk) as [Hc Hm]; [rewrite (ok_maximum _ Hok); lia |].
  apply (rw_ok_update s t p); auto.
  - intros n ->. by destruct (Ht n).
  - done.
  - rewrite Hc. pose proof (ok_count _ Hok). lia.
  - rewrite Hc. cbn [held]. lia.
Qed.

Lemma rw_ok_begin s t l :
  rw_ok s → threads s !! t = Some Outside → write_begin t (rwl s) = Some l →
  rw_ok (RwState l (<[t := Taking 0]> (threads s))).
Proof.
  intros [Htot Hc Hm Htk Ho] Hp Hb. destruct (write_begin_spec _ _ _ Hb) as (Hs & Hmu).
  destruct Hmu as [[Hn Hn'] | (n & Hn & _)]; [| destruct (Ho _ _ Hn) as (_ & k & Hk); congruence].
  pose proof (lookup_lt_Some _ _ _ Hp) as Hlt. split; cbn [rwl threads]; rewrite ?Hs; [| done | done | |].
  - rewrite (all_held_insert _ _ _ _ Hp). cbn [held]. lia.
  - intros u n. destruct (decide (t = u)) as [<- | Hne].
    + rewrite list_lookup_insert_eq by done. intros [= <-]. split; [lia | done].
    + rewrite list_lookup_insert_ne by done. intros Hu. destruct (Htk u n Hu) as [_ E]. congruence.
  - intros u n. rewrite Hn'. intros [= <- <-]. split; [done |]. exists 0. by rewrite list_lookup_insert_eq.
Qed.

Lemma rw_ok_end s t :
  rw_ok s → threads s !! t = Some (Taking MAX_READERS) →
  rw_ok (RwState (write_end t (rwl s)) (<[t := Writing]> (threads s))).
Proof.
  intros [Htot Hc Hm Htk Ho] Hp. destruct (Htk _ _ Hp) as [_ Hown].
  pose proof (release_mutex_law t (_mutex (rwl s))) as Hl. rewrite Hown, decide_True in Hl by done.
  destruct Hl as (m & Hr & Hm'). unfold write_end. rewrite Hr. cbn [snd].
  pose proof (lookup_lt_Some _ _ _ Hp) as Hlt. split; cbn [rwl threads _sem _mutex]; [| done | done | |].
  - rewrite (all_held_insert _ _ _ _ Hp). cbn [held]. lia.
  - intros u n. destruct (decide (t = u)) as [<- | Hne].
    + by rewrite list_lookup_insert_eq.
    + rewrite list_lookup_insert_ne by done. intros Hu. destruct (Htk u n Hu) as [_ E]. congruence.
  - intros u n. by rewrite Hm'.
Qed.

(** A thread that stays outside. *)
Lemma rw_ok_stay s t : rw_ok s → threads s !! t = Some Outside → rw_ok (RwState (rwl s) (<[t := Outside]> (threads s))).
Proof. intros Hok Hp. rewrite list_insert_id by done. by destruct s. Qed.

(** The methods but [try_enter_write]. *)
Lemma rw_preserved s m s' :
  rw_step s m s' → m ≠ TryEnterWrite → rw_ok s → TryWriting ∉ threads s → rw_ok s'.
Proof.
  intros Hs Hm Hok Hn. destruct Hs as [t l Hp He | t b l Hp He | t Hp | t l Hp He | t n l Hp Hlt He | t Hp
    | t b l Hp He | t Hp]; [| | | | | | done |].
  - by apply (rw_ok_permit s t Outside).
  - unfold try_enter_read, try_wait in He. destruct (enter_read (rwl s)) as [l' |] eqn:E;
      injection He as <- <-; [by apply (rw_ok_permit s t Outside) | by apply rw_ok_stay].
  - by apply (rw_ok_release s t Reading).
  - by apply rw_ok_begin.
  - apply (rw_ok_permit s t (Taking n)); [done.. | | |].
    + intros k _. exists (S n). split; [done | lia].
    + intros k _. by exists n.
    + cbn [held]. lia.
  - by apply rw_ok_end.
  - destruct Hp as [Hp | Hp]; [by apply (rw_ok_release s t Writing) | by apply list_elem_of_lookup_2 in Hp].
Qed.

(** No thread comes to be inside by [try_enter_write] in these steps. *)
Lemma no_try_preserved s m s' :
  rw_step s m s' → m ≠ TryEnterWrite → TryWriting ∉ threads s → TryWriting ∉ threads s'.
Proof.
  assert (∀ (l : list rw_thread) t p, TryWriting ∉ l → p ≠ TryWriting → TryWriting ∉ <[t := p]> l) as Hi.
  { intros l t p Hl Hp Hin. apply list_elem_of_lookup in Hin as [u Hu].
    apply list_lookup_insert_Some in Hu as [(_ & ? & _) | (_ & Hu)]; [done |].
    apply Hl. by eapply list_elem_of_lookup_2. }
  intros Hs Hm Hn. destruct Hs as [| t [] | | | | | |]; first [done | by apply Hi].
Qed.

(** The lock as it is made, and threads that are outside. *)
Lemma rw_ok_new n : rw_ok (RwState rwlock_new (replicate n Outside)).
Proof.
  destruct (create_semaphore_law (Z.of_nat MAX_READERS) (Z.of_nat MAX_READERS)) as [Hc Hm]; [unfold MAX_READERS; lia.. |].
  assert (all_held (replicate n Outside) = 0%Z) as Ha by (induction n as [| n IH]; [done | exact IH]).
  split; cbn [rwl threads rwlock_new _sem _mutex]; rewrite ?Hc, ?Ha; [lia | lia | done | |].
  - intros t k Ht. apply lookup_replicate in Ht as [Ht _]. done.
  - intros t k. by rewrite create_mutex_law.
Qed.

(** What holds after a run without [try_enter_write]. *)
Lemma rw_run_ok n ms s :
  rw_run (RwState rwlock_new (replicate n Outside)) ms s → TryEnterWrite ∉ ms →
  rw_ok s ∧ TryWriting ∉ threads s.
Proof.
  assert (TryWriting ∉ replicate n Outside) as Hn by by intros [? _]%elem_of_replicate.
  pose proof (rw_ok_new n) as Hok. intros Hr.
  assert (TryWriting ∉ threads (RwState rwlock_new (replicate n Outside))) as Hn' by exact Hn. clear Hn.
  revert Hok Hn'. induction Hr as [s | s m ms s1 s2 Hs _ IH]; [done |]. intros Hok Hn Hms.
  apply not_elem_of_cons in Hms as [Hm Hms]. apply not_eq_sym in Hm.
  apply IH; [by eapply rw_preserved | by eapply no_try_preserved | done].
Qed.

Lemma rw_run_rtc s ms s' : rw_run s ms s' → rtc (λ a b, ∃ m, rw_step a m b) s s'.
Proof. induction 1; [done |]. eapply rtc_l; [by eexists | done]. Qed.
End laws.

(** ** Properties *)

(** C40. As long as no thread calls [try_enter_write], the readers and writers of a Windows lock
    exclude each other: a thread that writes is alone, no more than one writes, at most 64 read,
    and no thread is stuck while permits are in use - the one that collects them waits only for
    threads that are inside.  After a call of [try_enter_write] this is lost: a writer may then be
    beside readers ([win_try_write_with_readers]), or no other thread writes again
    ([win_try_write_starves]). *)
Theorem win_rwlock_exclusive `{Win32SyncLaws} n ms s :
  rw_run (RwState rwlock_new (replicate n Outside)) ms s → TryEnterWrite ∉ ms →
  (∀ t u, threads s !! t = Some Writing → t ≠ u →
     threads s !! u ≠ Some Reading ∧ threads s !! u ≠ Some Writing) ∧
  (∀ t u i j, threads s !! t = Some (Taking i) → threads s !! u = Some (Taking j) → t = u) ∧
  (all_held (threads s) ≤ 64)%Z ∧
  ∀ t i, threads s !! t = Some (Taking i) → i < MAX_READERS →
    (∃ s', rw_step s EnterWrite s' ∧ threads s' = <[t := Taking (S i)]> (threads s)) ∨
    ∃ u, u ≠ t ∧ (threads s !! u = Some Reading ∨ threads s !! u = Some Writing).
Proof.
  intros Hr Hms. destruct (rw_run_ok _ _ _ Hr Hms) as [Hok Hnt]. pose proof (ok_total _ Hok) as Htot. pose proof (ok_count _ Hok) as Hc.
  split; [| split; [| split]].
  - intros t u Ht Hne. split; intros Hu; pose proof (all_held_two _ _ _ _ _ Ht Hu Hne); cbn [held] in *;
      unfold MAX_READERS in *; lia.
  - intros t u i j Ht Hu. destruct (ok_taking _ Hok _ _ Ht) as [_ E1], (ok_taking _ Hok _ _ Hu) as [_ E2].
    congruence.
  - unfold MAX_READERS in *. lia.
  - intros t i Ht Hi. destruct (Z.ltb_spec 0 (count (_sem (rwl s)))) as [Hpos | Hz].
    + left. pose proof (wait_semaphore_law (_sem (rwl s))) as Hl. rewrite (proj2 (Z.ltb_lt _ _) Hpos) in Hl.
      destruct Hl as (sem & Hw & _). eexists. split; [eapply (rw_write_turn s t i); [done | done |] |].
      * unfold write_turn, enter_read. by rewrite Hw.
      * done.
    + right. pose proof (all_held_insert _ _ _ Outside Ht) as Hins. cbn [held] in Hins.
      destruct (all_held_some (<[t := Outside]> (threads s))) as (u & p & Hu & Hp); [unfold MAX_READERS in *; lia |].
      assert (t ≠ u) as Hne.
      { intros <-. rewrite list_lookup_insert_eq in Hu by by eapply lookup_lt_Some. by injection Hu as <-. }
      rewrite list_lookup_insert_ne in Hu by done. exists u. split; [done |].
      destruct p as [| | k | |]; [done | by left | | by right | by apply list_elem_of_lookup_2 in Hu].
      destruct (ok_taking _ Hok _ _ Ht) as [_ E1], (ok_taking _ Hok _ _ Hu) as [_ E2]. congruence.
Qed.

(** ** [try_enter_write] *)
Section try.
Context `{Win32SyncLaws}.

(** Thread [t] keeps the mutex, and no other thread is on its way to write or writes. *)
Definition mutex_kept (t : nat) (s : rw_state) : Prop :=
  (∃ n, owned (_mutex (rwl s)) = Some (t, S n) ∧ ((∃ k, threads s !! t = Some (Taking k)) → n ≠ 0)) ∧
  ∀ u, u ≠ t → threads s !! u = Some Outside ∨ threads s !! u = Some Reading ∨ threads s !! u = None.

Lemma try_enter_write_spec t l b l' :
  try_enter_write t l = (b, l') →
  (b = false ∧ l' = l) ∨
  ∃ l1, write_begin t l = Some l1 ∧ _mutex l' = _mutex l1 ∧
    (b = true → (0 < count (_sem l))%Z ∧ count (_sem l') = (count (_sem l) - 1)%Z).
Proof.
  unfold try_enter_write. destruct (write_begin t l) as [l1 |] eqn:E; [| intros [= <- <-]; by left].
  destruct (write_begin_spec _ _ _ E) as [Hs _]. unfold try_wait.
  destruct (enter_read l1) as [l2 |] eqn:E2; intros [= <- <-]; right; exists l1.
  - destruct (enter_read_spec _ _ E2) as (Hc & Hc' & _ & Hm). rewrite Hs in *. by split_and!.
  - by split_and!.
Qed.

(** What keeps the mutex with [t]: the thread that moves is [t], or the mutex is not touched and
    the thread does not start to write. *)
Lemma kept_insert t s l u p :
  mutex_kept t s → (u ≠ t → p = Outside ∨ p = Reading) →
  (∃ n, owned (_mutex l) = Some (t, S n) ∧ ((∃ k, <[u := p]> (threads s) !! t = Some (Taking k)) → n ≠ 0)) →
  mutex_kept t (RwState l (<[u := p]> (threads s))).
Proof.
  intros [_ Hu] Hp Ho. split; [exact Ho |]. cbn [threads]. intros v Hv.
  destruct (decide (u = v)) as [<- | Hne]; [| rewrite list_lookup_insert_ne by done; auto].
  destruct (lt_dec u (length (threads s))).
  - rewrite list_lookup_insert_eq by done. destruct (Hp Hv) as [-> | ->]; auto.
  - rewrite list_insert_ge by lia. auto.
Qed.

(** A step that leaves the mutex alone. *)
Lemma kept_same t s l u p q :
  mutex_kept t s → threads s !! u = Some q → (u ≠ t → p = Outside ∨ p = Reading) →
  _mutex l = _mutex (rwl s) → ((∃ k, p = Taking k) → ∃ k, q = Taking k) →
  mutex_kept t (RwState l (<[u := p]> (threads s))).
Proof.
  intros Hk Hq Hp Hm Ht. apply kept_insert; [done | done |]. destruct Hk as [(n & Hn & Hnk) _].
  exists n. rewrite Hm. split; [done |]. intros [k Hin]. apply Hnk.
  destruct (decide (u = t)) as [-> | Hne].
  - rewrite list_lookup_insert_eq in Hin by by eapply lookup_lt_Some. injection Hin as ->.
    destruct Ht as [k' ->]; [by eexists | by eexists].
  - rewrite list_lookup_insert_ne in Hin by done. by eexists.
Qed.

(** The thread that has the mutex takes it once more. *)
Lemma kept_begin t s l u p :
  mutex_kept t s → write_begin u (rwl s) = Some l →
  u = t ∧ ∀ l', _mutex l' = _mutex l → mutex_kept t (RwState l' (<[u := p]> (threads s))).
Proof.
  intros Hk Hb. destruct (write_begin_spec _ _ _ Hb) as [_ [[Hn _] | (n & Hn & Hn')]];
    destruct (proj1 Hk) as (m & Hm & _); [congruence |].
  rewrite Hm in Hn. injection Hn as <- <-. split; [done |]. intros l' Hl'. apply kept_insert; [done | done |].
  exists (S m). by rewrite Hl', Hn'.
Qed.

Lemma kept_rw t : preserved (λ a b, ∃ m, rw_step a m b) (mutex_kept t).
Proof.
  intros s s' [meth Hs] Hk. pose proof Hk as [(n & Hn & Hnk) Hu].
  destruct Hs as [u l Hp He | u b l Hp He | u Hp | u l Hp He | u i l Hp Hi He | u Hp | u b l Hp He | u Hp].
  - destruct (enter_read_spec _ _ He) as (_ & _ & _ & Hm). apply (kept_same t s l u _ Outside); auto.
    by intros [k [=]].
  - unfold try_enter_read, try_wait in He. destruct (enter_read (rwl s)) as [l' |] eqn:E; injection He as <- <-;
      [destruct (enter_read_spec _ _ E) as (_ & _ & _ & Hm) |];
      apply (kept_same t s _ u _ Outside); auto; by intros [k [=]].
  - apply (kept_same t s _ u _ Reading); auto. by intros [k [=]].
  - destruct (kept_begin t s l u (Taking 0) Hk He) as [-> Hl]. by apply Hl.
  - destruct (enter_read_spec _ _ He) as (_ & _ & _ & Hm).
    apply (kept_same t s l u _ (Taking i)); auto; [| by exists i]. intros Hne. by destruct (Hu u Hne) as [E | [E | E]]; congruence.
  - assert (u = t) as -> by (destruct (decide (u = t)) as [| Hne]; [done |]; destruct (Hu u Hne) as [E | [E | E]]; congruence).
    destruct n as [| n]; [destruct Hnk; by eexists |]. apply kept_insert; [done | done |].
    pose proof (release_mutex_law t (_mutex (rwl s))) as Hl. rewrite Hn, decide_True in Hl by done.
    destruct Hl as (m & Hr & Hm). exists n. unfold write_end. rewrite Hr. cbn [snd _mutex]. split; [exact Hm |].
    rewrite list_lookup_insert_eq by by eapply lookup_lt_Some. by intros [k [=]].
  - destruct (try_enter_write_spec _ _ _ _ He) as [[-> ->] | (l1 & Hb & Hm & _)].
    + apply (kept_same t s _ u _ Outside); auto.
    + destruct (kept_begin t s l1 u (if b then TryWriting else Outside) Hk Hb) as [-> Hl]. by apply Hl.
  - destruct Hp as [Hp | Hp]; (eapply kept_same; [done | exact Hp | auto | done | by intros [k [=]]]).
Qed.
End try.

(** One successful [try_enter_write] is the end of writing: whatever the threads do then -
    the lock left again or not -, no other thread ever gets to write, because the mutex is never
    released. *)
Theorem win_try_write_starves `{Win32SyncLaws} n ms s t l ms' s' :
  rw_run (RwState rwlock_new (replicate n Outside)) ms s → TryEnterWrite ∉ ms →
  threads s !! t = Some Outside → try_enter_write t (rwl s) = (true, l) →
  rw_run (RwState l (<[t := TryWriting]> (threads s))) ms' s' →
  ∀ u p, u ≠ t → threads s' !! u = Some p → p = Outside ∨ p = Reading.
Proof.
  intros Hr Hms Ht He Hrtc%rw_run_rtc. destruct (rw_run_ok _ _ _ Hr Hms) as [Hok Hnt].
  assert (mutex_kept t (RwState l (<[t := TryWriting]> (threads s)))) as Hk.
  { destruct (try_enter_write_spec _ _ _ _ He) as [[? _] | (l1 & Hb & Hm & Hc)]; [done |].
    destruct (Hc eq_refl) as [Hpos _]. destruct (write_begin_spec _ _ _ Hb) as [_ Hown]. split; cbn [rwl threads].
    - destruct Hown as [[_ Ho] | (k & Hn & Ho)]; rewrite Hm.
      + exists 0. split; [done |]. rewrite list_lookup_insert_eq by by eapply lookup_lt_Some. by intros [k [=]].
      + destruct (ok_owned _ Hok _ _ Hn) as (_ & i & Hi). congruence.
    - intros u Hu. rewrite list_lookup_insert_ne by done.
      destruct (threads s !! u) as [[| | k | |] |] eqn:E; auto.
      + exfalso. destruct (ok_taking _ Hok _ _ E) as [_ Ho].
        destruct Hown as [[Hn _] | (i & Hn & _)]; rewrite Hn in Ho; [done |].
        destruct (ok_owned _ Hok _ _ Hn) as (_ & j & Hj). congruence.
      + exfalso. pose proof (held_at _ _ _ Hok E). cbn [held] in *. lia.
      + exfalso. by apply list_elem_of_lookup_2 in E. }
  assert (mutex_kept t s') as [_ Hu].
  { exact (preserved_rtc _ _ _ _ (kept_rw t) Hrtc Hk). }
  intros u p Hne Hp. destruct (Hu u Hne) as [E | [E | E]]; rewrite E in Hp; [| | done]; injection Hp as <-; auto.
Qed.

(** ** Waiting for an event *)
Section event.
Context `{Win32SyncLaws} {win_event : Type} (SignalWait : nat → win_event → win_event)
  (PulseEvent : win_event → option nat * win_event) (waiting : win_event → list nat).
(** A pulse lets one of the threads that wait go; without one it is lost. *)
Hypothesis signal_wait_law : ∀ t e, waiting (SignalWait t e) = waiting e ++ [t].
Hypothesis pulse_law : ∀ e,
  match waiting e with
  | [] => PulseEvent e = (None, e)
  | _ => ∃ l1 t l2 e', waiting e = l1 ++ t :: l2 ∧ PulseEvent e = (Some t, e') ∧ waiting e' = l1 ++ l2
  end.

(** The owner that waits gives the mutex up if it entered once, and waits. *)
Lemma event_wait_spec t e :
  owned (_m e) = Some (t, 1) →
  let e' := event_wait SignalWait t e in
  owned (_m e') = None ∧ waiting (_event e') = waiting (_event e) ++ [t] ∧ woken e' = woken e.
Proof.
  intros Ho. unfold event_wait. pose proof (release_mutex_law t (_m e)) as Hl.
  rewrite Ho, decide_True in Hl by done. destruct Hl as (m & -> & Hm). cbn. split_and!; [exact Hm | apply signal_wait_law | done].
Qed.

(** [raise] wakes one thread however many wait: the others keep waiting, and with no thread
    waiting it has no effect. *)
Lemma event_raise_wakes_one e :
  let e' := event_raise PulseEvent e in
  length (waiting (_event e')) = length (waiting (_event e)) - 1 ∧
  length (woken e') = length (woken e) + (match waiting (_event e) with [] => 0 | _ => 1 end) ∧
  (∀ t, t ∈ waiting (_event e') → t ∈ waiting (_event e)).
Proof.
  unfold event_raise. pose proof (pulse_law (_event e)) as Hl. destruct (waiting (_event e)) as [| t0 ts] eqn:E.
  - rewrite Hl. cbn. rewrite E. split_and!; [done | lia | done].
  - destruct Hl as (l1 & t & l2 & e' & Hw & -> & He'). cbn [_event woken]. rewrite He', Hw.
    split_and!; [rewrite !length_app; cbn; lia | cbn; lia |]. intros u. rewrite !elem_of_app, elem_of_cons. tauto.
Qed.
End event.

(** ** Mutexes: the same thread may enter again, and [try_enter] answers whether it is in *)
Lemma win_try_enter_spec `{Win32SyncLaws} t m :
  let '(b, m') := try_enter t m in
  if b then (owned m = None ∧ owned m' = Some (t, 1)) ∨ ∃ n, owned m = Some (t, n) ∧ owned m' = Some (t, S n)
  else m' = m ∧ ∃ u n, owned m = Some (u, n) ∧ u ≠ t.
Proof.
  unfold try_enter, try_wait. pose proof (wait_mutex_law t m) as Hl.
  destruct (owned m) as [[u n] |] eqn:E; [case_decide as Hd; [subst u |] |].
  - destruct Hl as (m' & -> & Hm'). right. by exists n.
  - rewrite Hl. split; [done |]. exists u, n. by split.
  - destruct Hl as (m' & -> & Hm'). by left.
Qed.

(** ** Objects that satisfy the laws *)
#[global] Instance win_objects : Win32Sync := {|
  win_mutex := option (nat * nat);
  CreateMutex := None;
  wait_mutex t m := match m with
                    | None => Some (Some (t, 1))
                    | Some (u, n) => if decide (t = u) then Some (Some (t, S n)) else None
                    end;
  ReleaseMutex t m := match m with
                      | Some (u, n) => if decide (t = u)
                          then (true, match n with S (S n') => Some (t, S n') | _ => None end) else (false, m)
                      | None => (false, m)
                      end;
  win_semaphore := Z * Z;
  CreateSemaphore n k := (n, k);
  wait_semaphore s := if (0 <? s.1)%Z then Some (s.1 - 1, s.2)%Z else None;
  ReleaseSemaphore k s := if (s.1 + k <=? s.2)%Z then (true, (s.1 + k, s.2)%Z) else (false, s) |}.

#[global] Instance win_objects_laws : Win32SyncLaws (H := win_objects).
Proof.
  refine (@Build_Win32SyncLaws win_objects (λ m, m) eq_refl _ _ fst snd _ _ _).
  - intros t [[u n] |]; cbn; [case_decide; [by eexists | done] | by eexists].
  - intros t [[u n] |]; cbn; [case_decide; [by eexists | done] | done].
  - intros n k _ _. done.
  - intros [c k]; cbn. case_match; [by eexists | done].
  - intros k [c m] _; cbn. case_match; [by eexists | done].
Defined.

(** Sixty-three readers, a try and a release: the counter forgets the readers, and the thread that
    tried, which still has the mutex, writes beside them. *)
Definition readers_and_one : rw_state :=
  RwState (Rwlock (1, 64)%Z None) (Outside :: replicate 63 Reading).

Example win_try_write_with_readers :
  let '(b, l) := try_enter_write 0 (rwl readers_and_one) in
  b = true ∧ ∃ l', enter_write 0 (leave_write l) = Some l' ∧ count (_sem l') = 0%Z.
Proof. split; [reflexivity |]. eexists. split; vm_compute; reflexivity. Qed.

(** A failed try keeps the mutex too. *)
Example win_try_write_failed :
  let '(b, l) := try_enter_write 1 (Rwlock (0, 64)%Z None) in
  b = false ∧ enter_write 2 (Rwlock (64, 64)%Z (_mutex l)) = None.
Proof. split; vm_compute; reflexivity. Qed.

(** ** Witnesses *)
Definition two_outside : rw_state := RwState rwlock_new (replicate 2 Outside).

Definition one_collects : rw_state := RwState (Rwlock (64, 64)%Z (Some (0, 1))) [Taking 0; Outside].

Lemma win_rwlock_exclusive_witness :
  (∃ s', rw_step one_collects EnterWrite s' ∧ threads s' = [Taking 1; Outside]) ∨
  ∃ u, u ≠ 0 ∧ (threads one_collects !! u = Some Reading ∨ threads one_collects !! u = Some Writing).
Proof.
  assert (rw_run two_outside [EnterWrite] one_collects) as Hr
    by (eapply rw_run_cons; [exact (rw_write_begin two_outside 0 (Rwlock (64, 64)%Z (Some (0, 1))) eq_refl eq_refl) | constructor]).
  assert (TryEnterWrite ∉ [EnterWrite]) as Hn by by intros ?%list_elem_of_singleton.
  exact (proj2 (proj2 (proj2 (win_rwlock_exclusive 2 _ one_collects Hr Hn))) 0 0 eq_refl ltac:(apply Nat.ltb_lt; reflexivity)).
Defined.

Definition one_tried : rw_state := RwState (Rwlock (63, 64)%Z (Some (0, 1))) [TryWriting; Outside].

Lemma win_try_write_starves_witness :
  ∀ p, threads one_tried !! 1 = Some p → p = Outside ∨ p = Reading.
Proof.
  intros p. exact (win_try_write_starves 2 [] two_outside 0 (Rwlock (63, 64)%Z (Some (0, 1))) [] one_tried
    (rw_run_nil _) (not_elem_of_nil _) eq_refl eq_refl (rw_run_nil _) 1 p ltac:(done)).
Defined.
