(* ===== verification/WinFilesys.v ===== *)
(** * [win32/filefs_impl.cpp]: files and directories on Windows.

    The searches of the system are the class [Win32Search]; the directories it names are
    arguments.  The iterator is the one of [Filesys]. *)
From S2P Require Export Filesys StrUtils.

(** A search under way; each answer is one name. *)
Class Win32Search := {
  search : Type;
  FindFirstFile : str → option (search * str);
  FindNextFile : search → option (search * str) }.

(** The names a search still has, after the one that came with it. *)
Class Win32SearchLaws `{Win32Search} (found : str → list str) := {
  remaining : search → list str;
  find_first_law : ∀ pattern,
    match found pattern with
    | [] => FindFirstFile pattern = None
    | x :: xs => ∃ s, FindFirstFile pattern = Some (s, x) ∧ remaining s = xs
    end;
  find_next_law : ∀ s,
    match remaining s with
    | [] => FindNextFile s = None
    | x :: xs => ∃ s', FindNextFile s = Some (s', x) ∧ remaining s' = xs
    end }.

Section filefs.
Context `{Win32Search}.

Definition win_path_delimiter : str := lit "\".

(** The handle, the directory part of the pattern, and the name in [find_data]. *)
Record win_filefs := WinFilefs { h : option search; find_data_path : str; find_data : str }.

Definition win_filefs_new (uninit : str) : win_filefs := WinFilefs None [] uninit.

Definition win_find_first (pattern : str) (fs : win_filefs) : option str * win_filefs :=
  let '(dir, _) := tokenize_pair pattern (find_data_path fs) [] true (lit "/\") in
  let path := match dir with [] => [] | _ => dir ++ win_path_delimiter end in
  match FindFirstFile (c_str pattern) with
  | Some (s, name) => (Some (path ++ c_str name), WinFilefs (Some s) path (c_str name))
  | None => (None, WinFilefs None path (find_data fs))
  end.

(** The name is taken before the search goes on: the answer, the name stored, the state. *)
Definition win_find_next (fs : win_filefs) : bool * str * win_filefs :=
  let filename := find_data_path fs ++ find_data fs in
  match h fs ≫= FindNextFile with
  | Some (s, name) => (true, filename, WinFilefs (Some s) (find_data_path fs) (c_str name))
  | None => (false, filename, fs)
  end.

(** [find] and [operator++] of the iterator, over this file system. *)
Definition win_find (pattern : str) (fs : win_filefs) : const_iterator * win_filefs :=
  match win_find_first pattern fs with
  | (Some name, fs') => (Iter 1 name, fs')
  | (None, fs') => (Iter 0 [], fs')
  end.

Definition win_iter_next (i : const_iterator) (fs : win_filefs) : const_iterator * win_filefs :=
  let '(more, name, fs') := win_find_next fs in
  (Iter (if more then S (rownum i) else 0) name, fs').

Fixpoint win_search_loop (fuel : nat) (i : const_iterator) (fs : win_filefs) : option (list str) :=
  match fuel with
  | O => None
  | S f =>
      if iter_eq i iter_end then Some []
      else let '(i', fs') := win_iter_next i fs in cons (filename i) <$> win_search_loop f i' fs'
  end.

(** [get_root_dir]: the directory of the program, without a last [bin]. *)
Definition get_root_dir (module_file_name : str) : str :=
  let '(dir, fname) := tokenize_pair (c_str module_file_name) [] [] true (lit "/\") in
  let '(s, fname) := tokenize_pair dir [] fname true (lit "/\") in
  if str_eqb fname (lit "bin") then s else dir.

Definition get_locale_dir (m : str) : str := get_root_dir m ++ lit "\share\locale".

Definition get_system_config_dir (m : str) : str := get_root_dir m ++ lit "\etc".

Definition get_data_dir (m : str) : str := get_root_dir m ++ lit "\share".
End filefs.

(** ** Lemmas *)
Section lemmas.
Context `{Win32SearchLaws}.

(** What the loop visits from a row on: the row's own name, then the names one place late. *)
Lemma win_search_loop_spec s path cur k x f :
  S (length (remaining s)) < f →
  win_search_loop f (Iter (S k) x) (WinFilefs (Some s) path cur)
  = Some (x :: ((λ n, path ++ n) <$> take (length (remaining s)) (cur :: (c_str <$> remaining s)))).
Proof.
  revert s cur k x. induction f as [| f IH]; intros s cur k x Hf; [lia |].
  cbn [win_search_loop iter_eq rownum iter_end Nat.eqb]. unfold win_iter_next, win_find_next.
  cbn [find_data_path find_data filename mbind option_bind h].
  pose proof (find_next_law s) as Hn. destruct (remaining s) as [| y ys] eqn:E.
  - rewrite Hn. destruct f as [| f]; [cbn in Hf; lia | done].
  - destruct Hn as (s' & -> & Hs'). rewrite IH by (rewrite Hs'; cbn in *; lia). rewrite Hs'. reflexivity.
Qed.
End lemmas.

(** The directory part that is put before each name. *)
Definition search_path (pattern : str) : str :=
  match fst (tokenize_pair pattern [] [] true (lit "/\")) with
  | [] => []
  | dir => dir ++ win_path_delimiter
  end.

(** ** Properties *)

(** A search on Windows visits as many rows as there are names, but the first name twice and the
    last one, of several, never. *)
Theorem win_search_shifted `{Win32SearchLaws} pattern uninit f :
  S (length (found (c_str pattern))) < f →
  let '(i, fs) := win_find pattern (win_filefs_new uninit) in
  win_search_loop f i fs
  = Some ((λ n, search_path pattern ++ c_str n) <$>
          match found (c_str pattern) with [] => [] | x :: xs => x :: take (length xs) (x :: xs) end).
Proof.
  intros Hf. unfold win_find, win_find_first, search_path. cbn [find_data_path win_filefs_new].
  destruct (tokenize_pair pattern [] [] true (lit "/\")) as [dir f_name]. cbn [fst].
  pose proof (find_first_law (c_str pattern)) as Hl. destruct (found (c_str pattern)) as [| x xs].
  - rewrite Hl. destruct f as [| f]; [lia | done].
  - destruct Hl as (s & -> & Hs). rewrite win_search_loop_spec by (rewrite Hs; cbn in *; lia).
    rewrite Hs. cbn [fmap list_fmap]. do 2 f_equal; [by destruct dir |].
    change (c_str x :: (c_str <$> xs)) with (c_str <$> x :: xs).
    rewrite <- fmap_take, <- list_fmap_compose. by destruct dir.
Qed.

(** The root is the directory above [bin], or the program's own directory. *)
Lemma get_root_dir_bin : get_root_dir (lit "C:\app\bin\a.exe") = lit "C:\app" ∧
  get_root_dir (lit "C:\app\a.exe") = lit "C:\app" ∧
  get_data_dir (lit "C:\app\bin\a.exe") = lit "C:\app\share".
Proof. split_and!; reflexivity. Qed.

(** ** A directory of three files *)
Definition three_files (pattern : str) : list str :=
  if str_eqb pattern (lit "d\*") then lit <$> ["a"; "b"; "c"]%string else [].

#[global] Instance three_files_search : Win32Search := {
  search := list str;
  FindFirstFile p := match three_files p with [] => None | x :: xs => Some (xs, x) end;
  FindNextFile s := match s with [] => None | x :: xs => Some (xs, x) end }.

#[global] Instance three_files_laws : Win32SearchLaws three_files.
Proof.
  refine (@Build_Win32SearchLaws three_files_search three_files (λ s, s) _ _).
  - intros p. cbn. destruct (three_files p); [done | by eexists].
  - intros [| x xs]; [done | by eexists].
Defined.

Lemma win_search_shifted_witness :
  let '(i, fs) := win_find (lit "d\*") (win_filefs_new []) in
  win_search_loop 5 i fs = Some (lit <$> ["d\a"; "d\a"; "d\b"]%string).
Proof. exact (win_search_shifted (lit "d\*") [] 5 ltac:(apply Nat.ltb_lt; reflexivity)). Defined.
