(* ===== verification/WinPlugin.v ===== *)
(** * [win32/plugin_impl.cpp]: plugins on Windows.

    The state, its setters and the calls through pointers are those of [Plugin]; what differs is
    [load], and the functions of the system, which are the class [Win32Dl]. *)
From S2P Require Export Plugin.

Class Win32Dl := {
  LoadLibrary : list dl_call → str → option nat;
  GetProcAddress : list dl_call → nat → str → bool;
  dll_create_object : list dl_call → nat → str → option nat }.

Section plugin.
Context `{Win32Dl}.

Abbreviation op := (stm plugin_state).

Definition throw_format (pattern : string) : op unit := λ s,
  (m ← format_str (Format (lit pattern) [_filename (impl s)]); Throw (Exn plugin_exception m), s).

(** [GetProcAddress] and its test. *)
Definition win_lookup (name : str) (store : func → plugin_impl → plugin_impl) (missing : string)
    : op unit := λ s,
  match handle (impl s) with
  | None => (Undef, s)
  | Some h =>
      let found := GetProcAddress (log s) h name in
      (_ ← call (Looked h name); _ ← change (store (if found then Some h else None));
       if found then mret () else throw_format missing) s
  end.

Definition win_load_library (file_name : str) : op unit := λ s,
  match LoadLibrary (log s) (c_str file_name) with
  | None => (_ ← call (OpenFailed (c_str file_name)); _ ← change (set_handle None);
             throw_format "Can't load dynamic library '{0}'") s
  | Some h => (_ ← call (Opened (c_str file_name) h); change (set_handle (Some h))) s
  end.

Definition win_load (file_name : str) : op unit :=
  _ ← change (set_filename file_name);
  _ ← win_load_library file_name;
  _ ← win_lookup (lit "init") set_init
        "void init(void*) function is not found in the library '{0}'";
  _ ← win_lookup (lit "create_object") set_create
        "disposable* create_object(const char*) function is not found in the library '{0}'";
  _ ← win_lookup (lit "destroy_object") set_destroy
        "void destroy_object(disposable*) function is not found in the library '{0}'";
  win_lookup (lit "finalize") set_finalize
    "void finalize() function is not found in the library '{0}'".

Definition win_create_object (object_name : str) : op nat :=
  h ← through _create_object (λ h, CallCreate h (c_str object_name));
  rslt ← (λ s, (Ret (dll_create_object (log s) h (c_str object_name)), s));
  match rslt with Some rslt => mret rslt | None => cannot_create object_name end.

(** [init], [destroy_object], [finalize] and the destructors read as on POSIX. *)
Definition win_plugin_run (o : plugin_op) : op unit :=
  match o with
  | Load f => win_load f
  | Init d => init d
  | Create n => _ ← win_create_object n; mret ()
  | Destroy x => destroy_object x
  end.

Fixpoint win_plugin_runs (ops : list plugin_op) (s : plugin_state) : option plugin_state :=
  match ops with
  | [] => Some s
  | o :: ops' =>
      match win_plugin_run o s with
      | (Undef, _) => None
      | (_, s') => win_plugin_runs ops' s'
      end
  end.
End plugin.

(** ** Lemmas *)

(** The libraries a log has opened; nothing but [Closed] takes one back. *)
Definition opened (l : list dl_call) : list nat :=
  omap (λ c, match c with Opened _ h => Some h | _ => None end) l.

Definition closes (c : dl_call) : bool := match c with Closed _ => true | _ => false end.

Lemma open_handles_unclosed l l' :
  Forall (λ c, closes c = false) l' → open_handles (l ++ l') = reverse (opened l') ++ open_handles l.
Proof.
  intros Hl. revert l. induction Hl as [| c l' Hc _ IH]; intros l.
  - by rewrite app_nil_r.
  - change (l ++ c :: l') with (l ++ [c] ++ l'). rewrite app_assoc, IH, open_handles_snoc.
    destruct c; try discriminate Hc; cbn [opened omap list_omap log_call]; try done.
    fold (opened l'). rewrite reverse_cons, <- app_assoc. done.
Qed.

Section lemmas.
Context `{Win32Dl}.
Implicit Types s : plugin_state.

(** An operation only adds calls to the log, none of which closes a library. *)
Definition adds {A} (m : stm plugin_state A) : Prop :=
  ∀ s, ∃ l, log (m s).2 = log s ++ l ∧ Forall (λ c, closes c = false) l.

Lemma adds_none {A} (m : stm plugin_state A) : (∀ s, log (m s).2 = log s) → adds m.
Proof. intros Hm s. exists []. rewrite Hm, app_nil_r. by split. Qed.

Lemma adds_call c : closes c = false → adds (call c).
Proof. intros Hc s. exists [c]. split; [done | by constructor]. Qed.

Lemma adds_bind {A B} (m : stm plugin_state A) (f : A → stm plugin_state B) :
  adds m → (∀ a, adds (f a)) → adds (m ≫= f).
Proof.
  intros Hm Hf s. destruct (Hm s) as (l & Hl & Hc). unfold mbind, stm_bind.
  destruct (m s) as [[a | e |] s']; cbn in Hl; [| by exists l..].
  destruct (Hf a s') as (l' & Hl' & Hc'). exists (l ++ l'). rewrite Hl', Hl, app_assoc.
  split; [done | by apply Forall_app].
Qed.

Lemma adds_change f : adds (change f).
Proof. by apply adds_none. Qed.

Lemma adds_ret {A} (a : A) : adds (mret a : stm plugin_state A).
Proof. by apply adds_none. Qed.

Lemma adds_throw p : adds (throw_format p).
Proof. by apply adds_none. Qed.

Lemma adds_lookup name store missing : adds (win_lookup name store missing).
Proof.
  intros s. unfold win_lookup. destruct (handle (impl s)) as [h |]; [| by apply (adds_none (λ s, (Undef, s)))].
  generalize (GetProcAddress (log s) h name). intros found. revert s.
  apply adds_bind; [by apply adds_call | intros _]. apply adds_bind; [apply adds_change | intros _].
  destruct found; [apply adds_ret | apply adds_throw].
Qed.

Lemma adds_load_library file : adds (win_load_library file).
Proof.
  intros s. unfold win_load_library. destruct (LoadLibrary (log s) (c_str file)) as [h |]; revert s;
    (apply adds_bind; [by apply adds_call | intros _]); [apply adds_change |].
  apply adds_bind; [apply adds_change | intros _; apply adds_throw].
Qed.

Lemma adds_load file : adds (win_load file).
Proof.
  unfold win_load. apply adds_bind; [apply adds_change | intros _].
  apply adds_bind; [apply adds_load_library | intros _].
  repeat (apply adds_bind; [apply adds_lookup | intros _]). apply adds_lookup.
Qed.

Lemma adds_through f c : (∀ h, closes (c h) = false) → adds (through f c).
Proof.
  intros Hc s. unfold through. destruct (f (impl s)) as [h |]; [case_decide |];
    [| by exists []; rewrite app_nil_r; split..]. exists [c h]. split; [done | by constructor].
Qed.

Lemma adds_run op : adds (win_plugin_run op).
Proof.
  destruct op as [f | d | n | x]; cbn [win_plugin_run]; [apply adds_load | ..];
    (apply adds_bind; [| intros ?; apply adds_ret]).
  - by apply adds_through.
  - unfold win_create_object. apply adds_bind; [by apply adds_through |]. intros h.
    apply adds_bind; [by apply adds_none |]. intros [x |]; [apply adds_ret | by apply adds_none].
  - by apply adds_through.
Qed.

Lemma adds_runs ops s s' :
  win_plugin_runs ops s = Some s' → ∃ l, log s' = log s ++ l ∧ Forall (λ c, closes c = false) l.
Proof.
  revert s. induction ops as [| op ops IH]; intros s; cbn [win_plugin_runs].
  - intros [= ->]. exists []. rewrite app_nil_r. by split.
  - destruct (adds_run op s) as (l & Hl & Hc). destruct (win_plugin_run op s) as [[[] | e |] s1]; [| | done];
      intros Hr; destruct (IH _ Hr) as (l' & Hl' & Hc'); exists (l ++ l'); cbn in Hl;
      rewrite Hl', Hl, app_assoc; (split; [done | by apply Forall_app]).
Qed.

#[local] Arguments format_str : simpl never.

(** The lookups of [load] in the library [h]. *)
Lemma win_lookup_spec name store missing s h :
  handle (impl s) = Some h →
  wp (win_lookup name store missing) s (λ o s', ∀ u, o = Ret u →
    impl s' = store (Some h) (impl s) ∧ ∃ c, closes c = false ∧ opened [c] = [] ∧ log s' = log s ++ [c]).
Proof.
  intros Hh. unfold wp, win_lookup. rewrite Hh. run_steps.
  destruct (GetProcAddress (log s) h name); cbn.
  - intros u _. split; [done |]. by exists (Looked h name).
  - intros u. unfold throw_format. cbn.
    match goal with |- context [format_str ?x] => by destruct (format_str x) end.
Qed.

(** A lookup that succeeds, and the rest. *)
Lemma win_lookup_bind name store missing (f : unit → stm plugin_state unit) h s Q :
  handle (impl s) = Some h →
  (∀ s', impl s' = store (Some h) (impl s) → open_handles (log s') = open_handles (log s) →
     wp (f ()) s' (λ o s'', o = Ret () → Q s'')) →
  wp (win_lookup name store missing ≫= f) s (λ o s'', o = Ret () → Q s'').
Proof.
  intros Hh Hf. apply wp_bind. eapply wp_mono; [by apply (win_lookup_spec _ _ _ _ h) |].
  intros [[] | e |] s' Hs; [| done..]. destruct (Hs () eq_refl) as (Hi & c & Hc & Ho & Hl).
  apply Hf; [done |]. rewrite Hl, open_handles_unclosed by by constructor. by rewrite Ho.
Qed.

(** A load that succeeds opens one library and takes all four functions from it. *)
Lemma win_load_spec file s :
  wp (win_load file) s (λ o s', o = Ret () → ∃ h, handle (impl s') = Some h ∧
    _init (impl s') = Some h ∧ _create_object (impl s') = Some h ∧
    _destroy_object (impl s') = Some h ∧ _finalize (impl s') = Some h ∧
    open_handles (log s') = h :: open_handles (log s)).
Proof.
  unfold win_load. apply wp_bind. unfold wp at 1, change at 1. apply wp_bind.
  unfold wp at 1, win_load_library. cbn [log impl].
  destruct (LoadLibrary (log s) (c_str file)) as [h |]; run_steps.
  2: { unfold throw_format. cbn. match goal with |- context [format_str ?x] => by destruct (format_str x) end. }
  apply (win_lookup_bind _ _ _ _ h); [done |]. intros s1 Hi1 Ho1.
  apply (win_lookup_bind _ _ _ _ h); [by rewrite Hi1 |]. intros s2 Hi2 Ho2.
  apply (win_lookup_bind _ _ _ _ h); [by rewrite Hi2, Hi1 |]. intros s3 Hi3 Ho3.
  eapply wp_mono; [apply (win_lookup_spec _ _ _ _ h); by rewrite Hi3, Hi2, Hi1 |].
  intros [[] | e |] s4 Hs; [| done..]. intros _. destruct (Hs () eq_refl) as (Hi4 & c & Hc & Ho & Hl).
  exists h. rewrite Hi4, Hi3, Hi2, Hi1. split_and!; [done.. |].
  rewrite Hl, open_handles_unclosed, Ho, Ho3, Ho2, Ho1 by by constructor.
  cbn [log]. by rewrite open_handles_snoc.
Qed.
End lemmas.

(** ** Properties *)

(** On Windows no load closes a library: whatever a program does with a plugin, every library it
    ever opened is still open, a load that succeeds takes its functions from the new one, and the
    destruction closes that one only. *)
Theorem win_plugin_libraries `{Win32Dl} log0 ops s file s' :
  win_plugin_runs ops (PluginState log0 plugin_new) = Some s → win_load file s = (Ret (), s') →
  ∃ l h, log s = log0 ++ l ∧ open_handles (log s) = reverse (opened l) ++ open_handles log0 ∧
    handle (impl s') = Some h ∧ open_handles (log s') = h :: open_handles (log s) ∧
    let '(o, s'') := plugin_destroy s' in
    o = Ret () ∧ log s'' = log s' ++ [CallFinalize h; Closed h] ∧
    open_handles (log s'') = reverse (opened l) ++ open_handles log0.
Proof.
  intros Hr Hl. destruct (adds_runs _ _ _ Hr) as (l & Hlog & Hc). cbn [log] in Hlog.
  pose proof (win_load_spec file s) as Hs. unfold wp in Hs. rewrite Hl in Hs.
  destruct (Hs eq_refl) as (h & Hh & Hi & Hcr & Hd & Hf & Ho).
  assert (open_handles (log s) = reverse (opened l) ++ open_handles log0) as Hos
    by by rewrite Hlog, open_handles_unclosed.
  exists l, h. split_and!; [done.. |].
  unfold plugin_destroy, finalize, through. run_steps. rewrite Hf. rewrite decide_True by (rewrite Ho; set_solver).
  unfold close_handle, get. run_steps. rewrite Hh. cbn. split_and!; [done | by rewrite <- app_assoc |].
  rewrite !open_handles_snoc, Ho, Hos. cbn. by rewrite decide_True.
Qed.

(** ** Libraries *)

(** Two libraries; the second lacks [create_object]. *)
#[local] Instance two_libraries : Win32Dl := {
  LoadLibrary _ f := if str_eqb f (lit "a.dll") then Some 1 else if str_eqb f (lit "b.dll") then Some 2 else None;
  GetProcAddress _ h n := negb ((h =? 2) && str_eqb n (lit "create_object"));
  dll_create_object _ _ _ := Some 9 }.

(** A load that fails leaves the functions of both libraries mixed. *)
Example win_load_mixes :
  let '(o, s) := (_ ← win_load (lit "a.dll"); win_load (lit "b.dll")) (PluginState [] plugin_new) in
  (∃ e, o = Throw e) ∧ handle (impl s) = Some 2 ∧ _init (impl s) = Some 2 ∧
  _create_object (impl s) = None ∧ _destroy_object (impl s) = Some 1.
Proof. vm_compute. split; [by eexists | done]. Qed.

(** ** Witness *)
Definition win_loaded : plugin_state :=
  snd (win_load (lit "a.dll") (PluginState [] plugin_new)).

Lemma win_plugin_libraries_witness :
  let '(o, s'') := plugin_destroy (snd (win_load (lit "a.dll") win_loaded)) in
  o = Ret () ∧ open_handles (log s'') = [1].
Proof.
  destruct (win_plugin_libraries (H := two_libraries) [] [Load (lit "a.dll")] win_loaded (lit "a.dll")
    (snd (win_load (lit "a.dll") win_loaded)) ltac:(vm_compute; reflexivity) ltac:(vm_compute; reflexivity))
    as (l & h & Hl & Ho & _ & _ & Hd).
  destruct (plugin_destroy (snd (win_load (lit "a.dll") win_loaded))) as [o s'']. destruct Hd as (-> & _ & Hopen).
  split; [done |]. rewrite Hopen, <- Ho. vm_compute. reflexivity.
Defined.
