(* ===== verification/WinStrptime.v ===== *)
(** * [win32/strptime.h]: reading dates on Windows.

    On Windows [datetime.cpp] includes its own [strptime].  It is translated here, and
    [windows_time] is the class [TimeLib] with it in place of a library function.  A null pointer
    is [None]; [tm] is changed in place, so that every answer comes with it.  Recursion for the
    composed conversions is three deep: [strptime_level] has the function for them as an
    argument. *)
From S2P Require Export DateTime.

Local Open Scope Z_scope.

(** ** Tables *)
Definition abday : list str := lit <$> ["Sun"; "Mon"; "Tue"; "Wed"; "Thu"; "Fri"; "Sat"]%string.

Definition day : list str :=
  lit <$> ["Sunday"; "Monday"; "Tuesday"; "Wednesday"; "Thursday"; "Friday"; "Saturday"]%string.

Definition abmon : list str :=
  lit <$> ["Jan"; "Feb"; "Mar"; "Apr"; "May"; "Jun"; "Jul"; "Aug"; "Sep"; "Oct"; "Nov"; "Dec"]%string.

Definition mon : list str :=
  lit <$> ["January"; "February"; "March"; "April"; "May"; "June"; "July"; "August"; "September";
           "October"; "November"; "December"]%string.

Definition am_pm : list str := lit <$> ["AM"; "PM"]%string.

Definition d_t_fmt : str := lit "%a %Ef %T %Y".

Definition t_fmt_ampm : str := lit "%I:%M:%S %p".

Definition t_fmt : str := lit "%H:%M:%S".

Definition d_fmt : str := lit "%m/%d/%y".

Definition TM_YEAR_BASE : Z := 1900.

Definition ALT_E : Z := 1.

Definition ALT_O : Z := 2.

(** [LEGAL_ALT(x)] lets the conversion go on. *)
Definition legal_alt (alt_format x : Z) : bool := (Z.land alt_format (Z.lnot x) =? 0).

(** ** Numbers and names *)

(** The loop of [conv_num]: [rulim] is the limit with a digit taken off per turn.  The values are
    below 100,000. *)
Fixpoint conv_loop (buf : str) (result rulim ulim : Z) : Z * str :=
  match buf with
  | ch :: buf' =>
      if (result * 10 <=? ulim) && negb (rulim =? 0) && isdigit ch
      then conv_loop buf' (result * 10 + (ord ch - 48)) (rulim / 10) ulim
      else (result, buf)
  | [] => (result, [])
  end.

(** [conv_num]: the number and the rest of the text. *)
Definition conv_num (buf : str) (llim ulim : Z) : option (Z * str) :=
  match buf with
  | ch :: buf' =>
      if isdigit ch then
        let '(result, rest) := conv_loop buf' (ord ch - 48) (ulim / 10) ulim in
        if (result <? llim) || (ulim <? result) then None else Some (result, rest)
      else None
  | [] => None
  end.

(** [strncasecmp(name, bp, strlen(name)) == 0] *)
Definition has_prefix_nocase (name bp : str) : bool :=
  str_eqb (tolower <$> name) (tolower <$> take (length name) bp).

Fixpoint find_name (bp : str) (i : Z) (names : list str) : option (Z * str) :=
  match names with
  | [] => None
  | n :: names' =>
      if has_prefix_nocase n bp then Some (i, drop (length n) bp) else find_name bp (i + 1) names'
  end.

(** [find_string]: the full names, then the abbreviations. *)
Definition find_string (bp : str) (n1 n2 : list str) : option (Z * str) :=
  match find_name bp 0 n1 with Some r => Some r | None => find_name bp 0 n2 end.

(** ** Fields *)
Definition set_sec v m := Tm v (tm_min m) (tm_hour m) (tm_mday m) (tm_mon m) (tm_year m) (tm_rest m).

Definition set_min v m := Tm (tm_sec m) v (tm_hour m) (tm_mday m) (tm_mon m) (tm_year m) (tm_rest m).

Definition set_hour v m := Tm (tm_sec m) (tm_min m) v (tm_mday m) (tm_mon m) (tm_year m) (tm_rest m).

Definition set_mday v m := Tm (tm_sec m) (tm_min m) (tm_hour m) v (tm_mon m) (tm_year m) (tm_rest m).

Definition set_mon v m := Tm (tm_sec m) (tm_min m) (tm_hour m) (tm_mday m) v (tm_year m) (tm_rest m).

Definition set_year v m := Tm (tm_sec m) (tm_min m) (tm_hour m) (tm_mday m) (tm_mon m) v (tm_rest m).

Definition tm_wday (m : tm) : Z := (tm_rest m).1.1.

Definition tm_yday (m : tm) : Z := (tm_rest m).1.2.

Definition tm_isdst (m : tm) : Z := (tm_rest m).2.

Definition set_wday v m :=
  Tm (tm_sec m) (tm_min m) (tm_hour m) (tm_mday m) (tm_mon m) (tm_year m) (v, tm_yday m, tm_isdst m).

Definition set_yday v m :=
  Tm (tm_sec m) (tm_min m) (tm_hour m) (tm_mday m) (tm_mon m) (tm_year m) (tm_wday m, v, tm_isdst m).

(** ** Conversions *)

(** How a conversion ends: it goes on from a position, which may be null, or returns null. *)
Inductive scan :=
  | Go (bp : option str) (m : tm) (split_year : bool)
  | Null (m : tm).

(** [LEGAL_ALT(x)], then [continue]. *)
Definition legal (alt_format x : Z) (bp : option str) (m : tm) (split_year : bool) : scan :=
  if legal_alt alt_format x then Go bp m split_year else Null m.

(** [bp = conv_num(bp, &field, ...)] or [find_string]: a field keeps its value when nothing is
    found. *)
Definition store (set : Z → tm → tm) (r : option (Z * str)) (m : tm) : option str * tm :=
  match r with Some (v, bp) => (Some bp, set v m) | None => (None, m) end.

(** The same for the local variable [i]. *)
Definition local (i : Z) (r : option (Z * str)) : Z * option str :=
  match r with Some (v, bp) => (v, Some bp) | None => (i, None) end.

(** A field, then the test of the modifiers. *)
Definition field (alt_format x : Z) (split_year : bool) (r : option str * tm) : scan :=
  legal alt_format x r.1 r.2 split_year.

(** [%C]: the century; [i] is 20 when there is no number. *)
Definition century (alt_format : Z) (bp : str) (m : tm) (split_year : bool) : scan :=
  let '(i, bp') := local 20 (conv_num bp 0 99) in
  let i := (i * 100 - TM_YEAR_BASE) in
  let i := if split_year then (i + Z.rem (tm_year m) 100) else i in
  legal alt_format ALT_E bp' (set_year i m) true.

(** [%y]: the year of the century; there is no test of the modifiers. *)
Definition year_of_century (bp : str) (m : tm) (split_year : bool) : scan :=
  let '(i, bp') := local 0 (conv_num bp 0 99) in
  if split_year then Go bp' (set_year (i + Z.quot (tm_year m) 100 * 100) m) true
  else if (i <=? 68) then Go bp' (set_year (i + 2000 - TM_YEAR_BASE) m) true
  else Go bp' (set_year (i + 1900 - TM_YEAR_BASE) m) true.

(** [%I]: twelve is zero; the test is of the field, whether it was set or not. *)
Definition hour12 (alt_format : Z) (bp : str) (m : tm) (split_year : bool) : scan :=
  let '(bp', m') := store set_hour (conv_num bp 1 12) m in
  legal alt_format ALT_O bp' (if (tm_hour m' =? 12) then set_hour 0 m' else m') split_year.

Definition half_day (alt_format : Z) (bp : str) (m : tm) (split_year : bool) : scan :=
  let '(i, bp') := local 0 (find_string bp am_pm []) in
  if (11 <? tm_hour m) then Null m
  else legal alt_format 0 bp' (set_hour (tm_hour m + i * 12) m) split_year.

(** A number stored less an offset, as [%j], [%m] and [%Y] do; without one the local variable is
    stored. *)
Definition offset_field (set : Z → tm → tm) (off i lo hi alt_format x : Z) (bp : str) (m : tm)
    (split_year : bool) : scan :=
  let '(i, bp') := local i (conv_num bp lo hi) in
  legal alt_format x bp' (set (i - off) m) split_year.

Section level.
(** The call of [strptime] by a composed conversion. *)
Context (recurse : str → str → tm → option str * tm).

Definition composed (alt_format : Z) (new_fmt bp : str) (m : tm) (split_year : bool) : scan :=
  field alt_format ALT_E split_year (recurse bp new_fmt m).

(** [LEGAL_ALT(0)] before a conversion. *)
Definition unmodified (alt_format : Z) (m : tm) (k : scan) : scan :=
  if legal_alt alt_format 0 then k else Null m.

(** The switch, for every character but the two modifiers. *)
Definition conversion (c : ascii) (alt_format : Z) (bp : str) (m : tm) (split_year : bool) : scan :=
  let number set lo hi x := field alt_format x split_year (store set (conv_num bp lo hi) m) in
  match c with
  | "%"%char =>
      match bp with
      | ch :: bp' => if bool_decide (ch = c) then legal alt_format 0 (Some bp') m split_year else Null m
      | [] => Null m
      end
  | "c"%char => composed alt_format d_t_fmt bp m split_year
  | "D"%char => unmodified alt_format m (composed alt_format (lit "%m/%d/%y") bp m split_year)
  | "R"%char => unmodified alt_format m (composed alt_format (lit "%H:%M") bp m split_year)
  | "r"%char => unmodified alt_format m (composed alt_format t_fmt_ampm bp m split_year)
  | "T"%char => unmodified alt_format m (composed alt_format (lit "%H:%M:%S") bp m split_year)
  | "X"%char => composed alt_format t_fmt bp m split_year
  | "x"%char => composed alt_format d_fmt bp m split_year
  | "A"%char | "a"%char => field alt_format 0 split_year (store set_wday (find_string bp day abday) m)
  | "B"%char | "b"%char | "h"%char =>
      field alt_format 0 split_year (store set_mon (find_string bp mon abmon) m)
  | "C"%char => century alt_format bp m split_year
  | "d"%char | "e"%char => number set_mday 1 31 ALT_O
  | "k"%char => unmodified alt_format m (number set_hour 0 23 ALT_O)
  | "H"%char => number set_hour 0 23 ALT_O
  | "l"%char => unmodified alt_format m (hour12 alt_format bp m split_year)
  | "I"%char => hour12 alt_format bp m split_year
  | "j"%char => offset_field set_yday 1 1 1 366 alt_format 0 bp m split_year
  | "M"%char => number set_min 0 59 ALT_O
  | "m"%char => offset_field set_mon 1 1 1 12 alt_format ALT_O bp m split_year
  | "p"%char => half_day alt_format bp m split_year
  | "S"%char => number set_sec 0 61 ALT_O
  | "U"%char | "W"%char => legal alt_format ALT_O (local 0 (conv_num bp 0 53)).2 m split_year
  | "w"%char => number set_wday 0 6 ALT_O
  | "Y"%char => offset_field set_year TM_YEAR_BASE TM_YEAR_BASE 0 9999 alt_format ALT_E bp m split_year
  | "y"%char => year_of_century bp m split_year
  | "n"%char | "t"%char => legal alt_format 0 (Some (drop_while isspace bp)) m split_year
  | _ => Null m
  end.

(** The loop, by the format: [pending] holds the modifiers between a percent sign and its
    conversion.  A format that ends there meets the terminator, which is no conversion. *)
Fixpoint strptime_level (fmt : str) (pending : option Z) (bp : option str) (m : tm) (split_year : bool)
    : option str * tm :=
  match fmt with
  | [] => match pending with Some _ => (None, m) | None => (bp, m) end
  | c :: fmt' =>
      match bp with
      | None => (None, m)
      | Some p =>
          match pending with
          | None =>
              if isspace c then strptime_level fmt' None (Some (drop_while isspace p)) m split_year
              else if bool_decide (c = "%"%char) then strptime_level fmt' (Some 0) bp m split_year
              else match p with
                   | ch :: p' =>
                       if bool_decide (ch = c) then strptime_level fmt' None (Some p') m split_year
                       else (None, m)
                   | [] => (None, m)
                   end
          | Some alt_format =>
              if bool_decide (c = "E"%char) || bool_decide (c = "O"%char) then
                if legal_alt alt_format 0 then
                  strptime_level fmt'
                    (Some (Z.lor alt_format (if bool_decide (c = "E"%char) then ALT_E else ALT_O))) bp m
                    split_year
                else (None, m)
              else match conversion c alt_format p m split_year with
                   | Go bp' m' split' => strptime_level fmt' None bp' m' split'
                   | Null m' => (None, m')
                   end
          end
      end
  end.
End level.

(** The levels: the formats of the composed conversions use those of the next level only, and
    the last formats use none. *)
Definition unused_level (bp fmt : str) (m : tm) : option str * tm := (None, m).

Definition strptime_simple (bp fmt : str) (m : tm) : option str * tm :=
  strptime_level unused_level fmt None (Some bp) m false.

Definition strptime_composed (bp fmt : str) (m : tm) : option str * tm :=
  strptime_level strptime_simple fmt None (Some bp) m false.

Definition win_strptime (buf fmt : str) (m : tm) : option str * tm :=
  strptime_level strptime_composed fmt None (Some buf) m false.

(** The time library of the Windows build: [datetime] does not look at what [strptime] returns. *)
Definition windows_time (base : TimeLib) : TimeLib := {|
  strptime := λ buf fmt m, (win_strptime buf fmt m).2;
  mktime := mktime;
  localtime := localtime;
  gmtime := gmtime;
  strftime := strftime |}.

(** ** Lemmas: the recursion *)

(** The format a composed conversion hands to [strptime]. *)
Definition new_fmt (c : ascii) : option str :=
  match c with
  | "c"%char => Some d_t_fmt
  | "D"%char | "x"%char => Some d_fmt
  | "R"%char => Some (lit "%H:%M")
  | "r"%char => Some t_fmt_ampm
  | "T"%char | "X"%char => Some t_fmt
  | _ => None
  end.

(** Two functions for the recursion that do the same with the formats a format may use. *)
Definition agree (rec1 rec2 : str → str → tm → option str * tm) (fmt : str) : Prop :=
  ∀ c f bp m, c ∈ fmt → new_fmt c = Some f → rec1 bp f m = rec2 bp f m.

Lemma conversion_agree rec1 rec2 c alt bp m split :
  (∀ f, new_fmt c = Some f → rec1 bp f m = rec2 bp f m) →
  conversion rec1 c alt bp m split = conversion rec2 c alt bp m split.
Proof.
  intros H. destruct c as [[|] [|] [|] [|] [|] [|] [|] [|]]; try reflexivity; cbn [conversion];
    unfold composed; match goal with |- context [rec1 bp ?f m] => by rewrite (H f eq_refl) end.
Qed.

Lemma level_agree rec1 rec2 fmt pending bp m split :
  agree rec1 rec2 fmt →
  strptime_level rec1 fmt pending bp m split = strptime_level rec2 fmt pending bp m split.
Proof.
  revert pending bp m split. induction fmt as [| c fmt IH]; intros pending bp m split Ha; [done |].
  assert (agree rec1 rec2 fmt) as Ha' by (intros d f b n Hd; apply Ha; by right).
  cbn [strptime_level]. destruct bp as [p |]; [| done]. destruct pending as [alt |].
  - rewrite (conversion_agree rec1 rec2) by (intros f Hf; eapply Ha; [by left | done]).
    repeat case_match; auto.
  - repeat case_match; auto.
Qed.

(** Formats without composed conversions. *)
Lemma agree_simple rec1 rec2 fmt : Forall (λ c, new_fmt c = None) fmt → agree rec1 rec2 fmt.
Proof. intros H c f bp m Hc. rewrite Forall_forall in H. by rewrite (H c Hc). Qed.

Lemma simple_level rec bp fmt m :
  Forall (λ c, new_fmt c = None) fmt →
  strptime_level rec fmt None (Some bp) m false = strptime_simple bp fmt m.
Proof. intros H. by apply level_agree, agree_simple. Qed.

Lemma new_fmt_cases c f :
  new_fmt c = Some f → f = d_t_fmt ∨ Forall (λ d, new_fmt d = None) f.
Proof.
  intros H. destruct c as [[|] [|] [|] [|] [|] [|] [|] [|]]; cbn in H; simplify_eq;
    first [by left | right; by repeat constructor].
Qed.

(** The formats of the composed conversions are done by the level below. *)
Lemma composed_level c f bp m : new_fmt c = Some f → strptime_composed bp f m = win_strptime bp f m.
Proof.
  intros H. unfold strptime_composed, win_strptime. destruct (new_fmt_cases c f H) as [-> | Hs].
  - apply level_agree. intros d g b n Hd Hg.
    assert (Forall (λ e, new_fmt e = None) g) as Hg'.
    { apply new_fmt_cases in Hg as Hg'. destruct Hg' as [-> | ?]; [| done].
      exfalso. revert Hd Hg. unfold d_t_fmt at 1. intros Hd.
      assert (d ∈ lit "%a %Ef%TY") as Hd' by (cbn in *; set_solver). clear Hd.
      cbn in Hd'. repeat (apply elem_of_cons in Hd' as [-> | Hd']; [done |]). by apply not_elem_of_nil in Hd'. }
    symmetry. by apply simple_level.
  - by rewrite !simple_level.
Qed.

(** ** Lemmas: safety *)

(** Fields the time functions accept; a leap second may follow, and [%S] allows two. *)
Definition tm_ok (m : tm) : Prop :=
  0 ≤ tm_sec m ≤ 61 ∧ 0 ≤ tm_min m ≤ 59 ∧ 0 ≤ tm_hour m ≤ 23 ∧ 1 ≤ tm_mday m ≤ 31 ∧
  0 ≤ tm_mon m ≤ 11 ∧ -1999 ≤ tm_year m ≤ 8099 ∧ 0 ≤ tm_wday m ≤ 6 ∧ 0 ≤ tm_yday m ≤ 365.

(** A position in the text, or null. *)
Definition within (buf : str) (bp : option str) : Prop :=
  match bp with Some p => p `suffix_of` buf | None => True end.

Lemma within_trans buf p bp : p `suffix_of` buf → within p bp → within buf bp.
Proof. destruct bp as [q |]; [| done]. intros H1 H2. cbn in *. by etrans. Qed.

Lemma conv_loop_suffix buf result rulim ulim :
  0 ≤ result → let '(v, rest) := conv_loop buf result rulim ulim in 0 ≤ v ∧ rest `suffix_of` buf.
Proof.
  revert result rulim. induction buf as [| ch buf IH]; intros result rulim Hr; cbn [conv_loop]; [done |].
  destruct (_ && isdigit ch) eqn:E; [| done]. apply andb_true_iff in E as [_ Hd].
  unfold isdigit, in_range in Hd. apply andb_true_iff in Hd as [Hd _]. apply Z.leb_le in Hd.
  specialize (IH (result * 10 + (ord ch - 48)) (rulim / 10) ltac:(lia)).
  destruct (conv_loop _ _ _ _). destruct IH. split; [done |]. by apply suffix_cons_r.
Qed.

Lemma conv_num_within buf lo hi v bp :
  conv_num buf lo hi = Some (v, bp) → lo ≤ v ≤ hi ∧ 0 ≤ v ∧ bp `suffix_of` buf.
Proof.
  unfold conv_num. destruct buf as [| ch buf]; [done |]. destruct (isdigit ch) eqn:E; [| done].
  unfold isdigit, in_range in E. apply andb_true_iff in E as [Hd _]. apply Z.leb_le in Hd.
  pose proof (conv_loop_suffix buf (ord ch - 48) (hi / 10) hi ltac:(lia)) as Hc.
  destruct (conv_loop _ _ _ _) as [w r]. destruct Hc as [Hw Hr].
  destruct (Z.ltb_spec w lo), (Z.ltb_spec hi w); cbn; intros Heq; simplify_eq.
  split; [lia |]. split; [done |]. by apply suffix_cons_r.
Qed.

Lemma find_name_within bp i names v r :
  find_name bp i names = Some (v, r) → i ≤ v < i + Z.of_nat (length names) ∧ r `suffix_of` bp.
Proof.
  revert i. induction names as [| n names IH]; intros i; [done |]. cbn [find_name length].
  destruct (has_prefix_nocase n bp).
  - intros H. simplify_eq. split; [lia |]. exists (take (length n) bp). by rewrite take_drop.
  - intros H%IH. destruct H. split; [lia | done].
Qed.

Lemma find_string_within bp n1 n2 v r :
  find_string bp n1 n2 = Some (v, r) → (length n2 ≤ length n1)%nat →
  0 ≤ v < Z.of_nat (length n1) ∧ r `suffix_of` bp.
Proof.
  unfold find_string. intros H Hl. destruct (find_name bp 0 n1) as [[w s] |] eqn:E; simplify_eq.
  - apply find_name_within in E. split; [lia | apply E].
  - apply find_name_within in H. split; [lia | apply H].
Qed.

Lemma drop_while_suffix {A} (p : A → bool) s : drop_while p s `suffix_of` s.
Proof. induction s as [| c s IH]; [done |]. cbn. destruct (p c); [by apply suffix_cons_r | done]. Qed.

(** What a conversion that starts at [bp] may answer. *)
Definition scan_ok (bp : str) (s : scan) : Prop :=
  match s with Go q m _ => within bp q ∧ tm_ok m | Null m => tm_ok m end.

Lemma legal_ok alt x buf q m split : within buf q → tm_ok m → scan_ok buf (legal alt x q m split).
Proof. intros. unfold legal. by destruct (legal_alt alt x). Qed.

Lemma store_ok set lo hi bp r m alt x split :
  (∀ v q, r = Some (v, q) → lo ≤ v ≤ hi ∧ q `suffix_of` bp) →
  (∀ v, lo ≤ v ≤ hi → tm_ok (set v m)) → tm_ok m →
  scan_ok bp (field alt x split (store set r m)).
Proof.
  intros Hr Hset Hm. unfold field, store. destruct r as [[v q] |]; cbn [fst snd].
  - destruct (Hr v q eq_refl). apply legal_ok; auto.
  - by apply legal_ok.
Qed.

Lemma local_ok i lo hi bp r :
  (∀ v q, r = Some (v, q) → lo ≤ v ≤ hi ∧ q `suffix_of` bp) → lo ≤ i ≤ hi →
  lo ≤ (local i r).1 ≤ hi ∧ within bp (local i r).2.
Proof. intros Hr Hi. destruct r as [[v q] |]; cbn; [by apply Hr | done]. Qed.

Lemma num_within bp lo hi v q : conv_num bp lo hi = Some (v, q) → lo ≤ v ≤ hi ∧ q `suffix_of` bp.
Proof. intros H%conv_num_within. tauto. Qed.

Lemma rem_bound a : -99 ≤ Z.rem a 100 ≤ 99.
Proof. pose proof (Z.rem_bound_abs a 100 ltac:(lia)). lia. Qed.

Lemma quot_bound a : -1999 ≤ a ≤ 8099 → -1900 ≤ Z.quot a 100 * 100 ≤ 8000.
Proof.
  intros H. pose proof (Z.quot_rem' a 100). destruct (Z.le_ge_cases 0 a).
  - pose proof (Z.rem_bound_pos a 100 ltac:(lia) ltac:(lia)). lia.
  - pose proof (Z.rem_bound_pos_neg a 100 ltac:(lia) ltac:(lia)). lia.
Qed.

Ltac tm_lia := unfold tm_ok, set_wday, set_yday, TM_YEAR_BASE, tm_wday, tm_yday, tm_isdst in *; cbn in *; lia.

Lemma century_ok alt bp m split : tm_ok m → scan_ok bp (century alt bp m split).
Proof.
  intros Hm. unfold century. destruct (local_ok 20 0 99 bp _ (num_within bp 0 99)) as [Hi Hq]; [lia |].
  destruct (local 20 _) as [i q]. apply legal_ok; [done |]. pose proof (rem_bound (tm_year m)).
  destruct split; tm_lia.
Qed.

Lemma year_of_century_ok bp m split : tm_ok m → scan_ok bp (year_of_century bp m split).
Proof.
  intros Hm. unfold year_of_century. destruct (local_ok 0 0 99 bp _ (num_within bp 0 99)) as [Hi Hq]; [lia |].
  destruct (local 0 _) as [i q]. cbn [fst snd] in *.
  assert (-1900 ≤ Z.quot (tm_year m) 100 * 100 ≤ 8000) by (apply quot_bound, Hm).
  destruct split; [| destruct (i <=? 68)]; (split; [done | tm_lia]).
Qed.

Lemma hour12_ok alt bp m split : tm_ok m → scan_ok bp (hour12 alt bp m split).
Proof.
  intros Hm. unfold hour12, store. destruct (conv_num bp 1 12) as [[v q] |] eqn:E.
  - apply num_within in E as [Hv Hq]. apply legal_ok; [done |]. case_match; tm_lia.
  - apply legal_ok; [done |]. case_match; tm_lia.
Qed.

Lemma half_day_ok alt bp m split : tm_ok m → scan_ok bp (half_day alt bp m split).
Proof.
  intros Hm. unfold half_day.
  destruct (local_ok 0 0 1 bp (find_string bp am_pm [])) as [Hi Hq]; [| lia |].
  { intros v q H. apply find_string_within in H; cbn in *; [intuition lia | lia]. }
  destruct (local 0 _) as [i q]. cbn [fst snd] in *. destruct (Z.ltb_spec 11 (tm_hour m)); [done |].
  apply legal_ok; [done | tm_lia].
Qed.

Lemma offset_field_ok set off i lo hi alt x bp m split :
  (∀ v, lo ≤ v ≤ hi → tm_ok (set (v - off) m)) → lo ≤ i ≤ hi →
  scan_ok bp (offset_field set off i lo hi alt x bp m split).
Proof.
  intros Hset Hi. unfold offset_field. destruct (local_ok i lo hi bp _ (num_within bp lo hi) Hi) as [Hv Hq].
  destruct (local i _) as [v q]. apply legal_ok; auto.
Qed.

Lemma unmodified_ok alt bp m k : tm_ok m → scan_ok bp k → scan_ok bp (unmodified alt m k).
Proof. intros. unfold unmodified. by destruct (legal_alt alt 0). Qed.

(** A level is safe when the one below is. *)
Definition level_ok (rec : str → str → tm → option str * tm) : Prop :=
  ∀ bp fmt m, tm_ok m → within bp (rec bp fmt m).1 ∧ tm_ok (rec bp fmt m).2.

Section level_safe.
Context (recurse : str → str → tm → option str * tm) (Hrec : level_ok recurse).

Lemma composed_ok alt fmt bp m split : tm_ok m → scan_ok bp (composed recurse alt fmt bp m split).
Proof. intros Hm. unfold composed, field. destruct (Hrec bp fmt m Hm). by apply legal_ok. Qed.

Lemma name_ok set n1 n2 alt bp m split :
  tm_ok m → (length n2 ≤ length n1)%nat → (∀ v, 0 ≤ v < Z.of_nat (length n1) → tm_ok (set v m)) →
  scan_ok bp (field alt 0 split (store set (find_string bp n1 n2) m)).
Proof.
  intros Hm Hl Hset. apply (store_ok _ 0 (Z.of_nat (length n1) - 1)); [| | done].
  - intros v q H. apply find_string_within in H; [intuition lia | done].
  - intros v Hv. apply Hset. lia.
Qed.

Lemma number_ok set lo hi alt x bp m split :
  tm_ok m → (∀ v, lo ≤ v ≤ hi → tm_ok (set v m)) →
  scan_ok bp (field alt x split (store set (conv_num bp lo hi) m)).
Proof. intros Hm Hset. by apply (store_ok _ lo hi); [apply num_within | |]. Qed.

Lemma conversion_ok c alt bp m split : tm_ok m → scan_ok bp (conversion recurse c alt bp m split).
Proof.
  intros Hm. assert (∀ k, scan_ok bp k → scan_ok bp (unmodified alt m k)) as Hun.
  { intros k. by apply unmodified_ok. }
  destruct c as [[|] [|] [|] [|] [|] [|] [|] [|]]; try exact Hm; cbn [conversion]; cbv zeta;
    try apply Hun;
    first [ by apply composed_ok | by apply century_ok | by apply year_of_century_ok
          | by apply hour12_ok | by apply half_day_ok
          | apply name_ok; [done | done | cbn; intros; tm_lia]
          | apply number_ok; [done | intros; tm_lia]
          | apply offset_field_ok; [intros; tm_lia | tm_lia]
          | idtac ].
  all: try (apply legal_ok; [| done]; exact (proj2 (local_ok 0 0 53 bp _ (num_within bp 0 53) ltac:(lia)))).
  all: try (split; [apply drop_while_suffix | exact Hm]).
  destruct bp as [| ch bp]; [exact Hm |]. case_match; [| exact Hm].
  apply legal_ok; [by apply suffix_cons_r | exact Hm].
Qed.

Lemma strptime_level_ok buf fmt pending bp m split :
  within buf bp → tm_ok m →
  within buf (strptime_level recurse fmt pending bp m split).1 ∧
  tm_ok (strptime_level recurse fmt pending bp m split).2.
Proof.
  revert pending bp m split. induction fmt as [| c fmt IH]; intros pending bp m split Hb Hm.
  { by destruct pending. }
  cbn [strptime_level]. destruct bp as [p |]; [| done]. destruct pending as [alt |].
  - case_match; [case_match; [by apply IH | done] |].
    pose proof (conversion_ok c alt p m split Hm) as Hc. destruct (conversion _ _ _ _ _ _); [| done].
    destruct Hc as [Hq Hm']. apply IH; [by eapply within_trans | done].
  - case_match; [apply IH; [| done]; cbn in *; etrans; [apply drop_while_suffix | done] |].
    case_match; [by apply IH |]. destruct p as [| ch p]; [done |]. case_match; [| done].
    apply IH; [| done]. cbn in *. etrans; [| exact Hb]. by apply suffix_cons_r.
Qed.
End level_safe.

Lemma level_level_ok rec : level_ok rec → level_ok (λ bp fmt m, strptime_level rec fmt None (Some bp) m false).
Proof. intros H bp fmt m Hm. apply (strptime_level_ok rec H); [by exists [] | done]. Qed.

(** ** Lemmas: reading what is printed *)

(** A decimal digit, and the two- and four-digit fields of a date. *)
Definition dig (d : Z) : ascii := chr (48 + d).

Definition print2 (n : Z) : str := [dig (n / 10); dig (n mod 10)].

Definition print4 (n : Z) : str := print2 (n / 100) ++ print2 (n mod 100).

Definition nth_name (names : list str) (i : Z) : str := default [] (names !! Z.to_nat i).

(** What [strftime] makes of a date for "%a, %d %b %Y %H:%M:%S GMT" in the C locale. *)
Definition http_date (m : tm) : str :=
  nth_name abday (tm_wday m) ++ lit ", " ++ print2 (tm_mday m) ++ lit " " ++ nth_name abmon (tm_mon m)
  ++ lit " " ++ print4 (tm_year m + 1900) ++ lit " " ++ print2 (tm_hour m) ++ lit ":"
  ++ print2 (tm_min m) ++ lit ":" ++ print2 (tm_sec m) ++ lit " GMT".

Lemma dig_spec d : 0 ≤ d ≤ 9 → isdigit (dig d) = true ∧ ord (dig d) - 48 = d.
Proof.
  intros H. unfold dig, isdigit, in_range. rewrite ord_chr_small by lia.
  split; [apply andb_true_iff; split; apply Z.leb_le; lia | lia].
Qed.

Lemma conv_loop_digit d buf result rulim ulim :
  0 ≤ d ≤ 9 → result * 10 ≤ ulim → 0 < rulim →
  conv_loop (dig d :: buf) result rulim ulim = conv_loop buf (result * 10 + d) (rulim / 10) ulim.
Proof.
  intros Hd Hr Hu. cbn [conv_loop]. destruct (dig_spec d Hd) as [-> ->].
  destruct (Z.leb_spec (result * 10) ulim); [| lia]. by destruct (Z.eqb_spec rulim 0); [lia |].
Qed.

Lemma conv_loop_full buf result ulim : conv_loop buf result 0 ulim = (result, buf).
Proof. destruct buf; [done |]. cbn [conv_loop]. by rewrite Z.eqb_refl, andb_false_r. Qed.

Lemma conv_num_digit d buf lo hi :
  0 ≤ d ≤ 9 →
  conv_num (dig d :: buf) lo hi
  = let '(v, rest) := conv_loop buf d (hi / 10) hi in
    if (v <? lo) || (hi <? v) then None else Some (v, rest).
Proof. intros Hd. unfold conv_num. by destruct (dig_spec d Hd) as [-> ->]. Qed.

Lemma in_limits {A} v lo hi (x : A) : lo ≤ v ≤ hi → (if (v <? lo) || (hi <? v) then None else Some x) = Some x.
Proof. intros H. destruct (Z.ltb_spec v lo), (Z.ltb_spec hi v); done || lia. Qed.

Lemma conv_print2 n buf lo hi :
  0 ≤ n → lo ≤ n ≤ hi → 10 ≤ hi ≤ 99 → conv_num (print2 n ++ buf) lo hi = Some (n, buf).
Proof.
  intros H0 Hn Hh. pose proof (Z.div_mod n 10 ltac:(lia)). pose proof (Z.mod_pos_bound n 10 ltac:(lia)).
  assert (0 ≤ n / 10 ≤ 9) by lia. cbn [print2 app]. rewrite conv_num_digit by done.
  rewrite conv_loop_digit by (done || lia || div_lia).
  replace (hi / 10 / 10) with 0 by (rewrite Z.div_div by lia; symmetry; apply Z.div_small; lia).
  rewrite conv_loop_full. replace (n / 10 * 10 + n mod 10) with n by lia. by apply in_limits.
Qed.

Lemma conv_print4 n buf : 0 ≤ n ≤ 9999 → conv_num (print4 n ++ buf) 0 9999 = Some (n, buf).
Proof.
  intros Hn. unfold print4, print2. cbn [app].
  set (a := n / 100 / 10). set (b := (n / 100) mod 10). set (c := n mod 100 / 10). set (d := (n mod 100) mod 10).
  assert (n = a * 1000 + b * 100 + c * 10 + d ∧ 0 ≤ a ≤ 9 ∧ 0 ≤ b ≤ 9 ∧ 0 ≤ c ≤ 9 ∧ 0 ≤ d ≤ 9)
    as (Hd & Ha & Hb & Hc & He) by (subst a b c d; div_lia).
  clearbody a b c d. rewrite conv_num_digit by done. rewrite !conv_loop_digit by (done || lia).
  replace (9999 / 10 / 10 / 10 / 10) with 0 by done. rewrite conv_loop_full.
  replace (((a * 10 + b) * 10 + c) * 10 + d) with n by lia. apply in_limits. lia.
Qed.

(** Comparing names by characters. *)
Fixpoint same_start (name bp : str) : bool :=
  match name, bp with
  | [], _ => true
  | a :: name', b :: bp' => bool_decide (tolower a = tolower b) && same_start name' bp'
  | _, [] => false
  end.

Lemma has_prefix_same_start name bp : has_prefix_nocase name bp = same_start name bp.
Proof.
  revert bp. unfold has_prefix_nocase, str_eqb. induction name as [| a name IH]; intros bp; [done |].
  destruct bp as [| b bp]; [done |]. cbn [length take fmap list_fmap same_start]. rewrite <- IH.
  rewrite <- bool_decide_and. apply bool_decide_ext. split; [by intros [= ] | by intros [-> ->]].
Qed.

Ltac name_case :=
  unfold find_string, day, mon; cbn [fmap list_fmap find_name]; rewrite !has_prefix_same_start; reflexivity.

Lemma find_abday i r :
  0 ≤ i ≤ 6 → find_string (nth_name abday i ++ ","%char :: r) day abday = Some (i, ","%char :: r).
Proof.
  intros Hi. assert (i = 0 ∨ i = 1 ∨ i = 2 ∨ i = 3 ∨ i = 4 ∨ i = 5 ∨ i = 6) as Hc by lia.
  destruct_or! Hc; rewrite Hc; name_case.
Qed.

Lemma find_abmon i r :
  0 ≤ i ≤ 11 → find_string (nth_name abmon i ++ " "%char :: r) mon abmon = Some (i, " "%char :: r).
Proof.
  intros Hi. assert (i = 0 ∨ i = 1 ∨ i = 2 ∨ i = 3 ∨ i = 4 ∨ i = 5 ∨ i = 6 ∨ i = 7 ∨ i = 8 ∨ i = 9 ∨ i = 10 ∨ i = 11)
    as Hc by lia.
  destruct_or! Hc; rewrite Hc; name_case.
Qed.

(** ** Lemmas: a format read conversion by conversion *)
Section reading.
Context (recurse : str → str → tm → option str * tm).

Abbreviation level := (strptime_level recurse).

Lemma level_conversion c fmt bp m split :
  bool_decide (c = "E"%char) || bool_decide (c = "O"%char) = false →
  level ("%"%char :: c :: fmt) None (Some bp) m split
  = match conversion recurse c 0 bp m split with
    | Go bp' m' split' => level fmt None bp' m' split'
    | Null m' => (None, m')
    end.
Proof. intros Hc. cbn [strptime_level]. rewrite Hc. reflexivity. Qed.

Lemma level_literal c fmt bp m split :
  isspace c = false → c ≠ "%"%char →
  level (c :: fmt) None (Some (c :: bp)) m split = level fmt None (Some bp) m split.
Proof.
  intros Hs Hp. cbn [strptime_level]. rewrite Hs, bool_decide_eq_false_2, bool_decide_eq_true_2 by done. done.
Qed.

(** White space of the format, and one blank of the text before something else. *)
Lemma level_blank fmt c bp m split :
  isspace c = false →
  level (" "%char :: fmt) None (Some (" "%char :: c :: bp)) m split = level fmt None (Some (c :: bp)) m split.
Proof. intros Hs. cbn. by rewrite Hs. Qed.

Lemma field_go split v bp set m x : legal_alt 0 x = true →
  field 0 x split (store set (Some (v, bp)) m) = Go (Some bp) (set v m) split.
Proof. intros Hx. unfold field, legal. cbn. by rewrite Hx. Qed.

Lemma dig_nonblank d : 0 ≤ d ≤ 9 → isspace (dig d) = false.
Proof.
  intros H. unfold isspace, in_range, dig. rewrite ord_chr_small by lia.
  destruct (Z.eqb_spec (48 + d) 32), (Z.leb_spec 9 (48 + d)), (Z.leb_spec (48 + d) 13); done || lia.
Qed.

(** What reading leaves of the fields that are not in the text. *)
Definition read_back (m junk : tm) : tm :=
  Tm (tm_sec m) (tm_min m) (tm_hour m) (tm_mday m) (tm_mon m) (tm_year m) (tm_wday m, tm_yday junk, tm_isdst junk).

Lemma reads_number c set lo hi x n fmt p m split :
  bool_decide (c = "E"%char) || bool_decide (c = "O"%char) = false → legal_alt 0 x = true →
  0 ≤ n → lo ≤ n ≤ hi → 10 ≤ hi ≤ 99 →
  (∀ bp, conversion recurse c 0 bp m split = field 0 x split (store set (conv_num bp lo hi) m)) →
  level ("%"%char :: c :: fmt) None (Some (print2 n ++ p)) m split = level fmt None (Some p) (set n m) split.
Proof. intros Hc Hx ? ? ? Hconv. by rewrite level_conversion, Hconv, conv_print2, field_go by done. Qed.

Lemma level_blank_digits fmt n p m split :
  0 ≤ n ≤ 99 →
  level (" "%char :: fmt) None (Some (" "%char :: print2 n ++ p)) m split
  = level fmt None (Some (print2 n ++ p)) m split.
Proof. intros Hn. unfold print2. cbn [app]. apply level_blank, dig_nonblank. div_lia. Qed.

Lemma level_blank_month fmt i p m split :
  0 ≤ i ≤ 11 →
  level (" "%char :: fmt) None (Some (" "%char :: nth_name abmon i ++ p)) m split
  = level fmt None (Some (nth_name abmon i ++ p)) m split.
Proof.
  intros Hi. assert (i = 0 ∨ i = 1 ∨ i = 2 ∨ i = 3 ∨ i = 4 ∨ i = 5 ∨ i = 6 ∨ i = 7 ∨ i = 8 ∨ i = 9 ∨ i = 10 ∨ i = 11)
    as Hc by lia.
  destruct_or! Hc; rewrite Hc; by apply level_blank.
Qed.

(** The day of the week and the date. *)
Lemma reads_day fmt wd md mo p junk :
  0 ≤ wd ≤ 6 → 1 ≤ md ≤ 31 → 0 ≤ mo ≤ 11 →
  level (lit "%a, %d %b" ++ fmt) None
    (Some (nth_name abday wd ++ lit ", " ++ print2 md ++ lit " " ++ nth_name abmon mo ++ " "%char :: p)) junk false
  = level fmt None (Some (" "%char :: p)) (set_mon mo (set_mday md (set_wday wd junk))) false.
Proof.
  intros Hw Hd Hm. unfold lit. cbn [String.list_ascii_of_string app].
  rewrite level_conversion by done. cbn [conversion]. rewrite find_abday, field_go by done.
  rewrite level_literal, level_blank_digits by (done || lia).
  rewrite (reads_number "d" set_mday 1 31 ALT_O) by (done || lia).
  rewrite level_blank_month by done.
  rewrite level_conversion by done. cbn [conversion]. by rewrite find_abmon, field_go.
Qed.

Lemma reads_year fmt y p m split :
  0 ≤ y ≤ 9999 →
  level (lit " %Y" ++ fmt) None (Some (" "%char :: print4 y ++ p)) m split
  = level fmt None (Some p) (set_year (y - 1900) m) split.
Proof.
  intros Hy. unfold lit. cbn [String.list_ascii_of_string app].
  unfold print4. rewrite <- app_assoc, level_blank_digits, app_assoc by div_lia. fold (print4 y).
  rewrite level_conversion by done. cbn [conversion]. unfold offset_field. by rewrite conv_print4.
Qed.

Lemma reads_time fmt h mi s p m split :
  0 ≤ h ≤ 23 → 0 ≤ mi ≤ 59 → 0 ≤ s ≤ 61 →
  level (lit " %H:%M:%S" ++ fmt) None
    (Some (lit " " ++ print2 h ++ lit ":" ++ print2 mi ++ lit ":" ++ print2 s ++ p)) m split
  = level fmt None (Some p) (set_sec s (set_min mi (set_hour h m))) split.
Proof.
  intros Hh Hm Hs. unfold lit. cbn [String.list_ascii_of_string app].
  rewrite level_blank_digits by lia.
  rewrite (reads_number "H" set_hour 0 23 ALT_O), level_literal by (done || lia).
  rewrite (reads_number "M" set_min 0 59 ALT_O), level_literal by (done || lia).
  by rewrite (reads_number "S" set_sec 0 61 ALT_O) by (done || lia).
Qed.

Lemma reads_date fmt m junk :
  tm_ok m → 0 ≤ tm_year m + 1900 ≤ 9999 →
  level (lit "%a, %d %b %Y %H:%M:%S" ++ fmt) None (Some (http_date m)) junk false
  = level fmt None (Some (lit " GMT")) (read_back m junk) false.
Proof.
  intros (Hs & Hmi & Hh & Hd & Hmo & _ & Hw & _) Hy. unfold http_date.
  change (lit "%a, %d %b %Y %H:%M:%S" ++ fmt)
    with (lit "%a, %d %b" ++ lit " %Y" ++ lit " %H:%M:%S" ++ fmt).
  change (lit " " ++ print4 (tm_year m + 1900) ++ ?x) with (" "%char :: print4 (tm_year m + 1900) ++ x).
  rewrite reads_day, reads_year, reads_time by done.
  unfold read_back, set_mon, set_mday, set_wday, set_year, set_hour, set_min, set_sec, tm_yday, tm_isdst. cbn.
  by replace (tm_year m + 1900 - 1900) with (tm_year m) by lia.
Qed.
End reading.

(** The text of a date is a C string. *)
Lemma print2_nul n : 0 ≤ n ≤ 99 → nul ∉ print2 n.
Proof.
  intros Hn. assert (∀ d, 0 ≤ d ≤ 9 → nul ≠ dig d) as Hd.
  { intros d Hd Heq. apply (f_equal ord) in Heq. unfold dig, nul in Heq. rewrite !ord_chr_small in Heq by lia. lia. }
  assert (0 ≤ n / 10 ≤ 9 ∧ 0 ≤ n mod 10 ≤ 9) as [H1 H2] by div_lia.
  unfold print2. rewrite !not_elem_of_cons. auto using not_elem_of_nil.
Qed.

Lemma nth_name_nul names i : Forall (λ n, nul ∉ n) names → nul ∉ nth_name names i.
Proof.
  intros H. unfold nth_name. destruct (names !! Z.to_nat i) eqn:E; [| by apply not_elem_of_nil].
  by eapply Forall_lookup_1 in H.
Qed.

Lemma http_date_nul m : tm_ok m → 0 ≤ tm_year m + 1900 ≤ 9999 → nul ∉ http_date m.
Proof.
  intros (Hs & Hmi & Hh & Hd & Hmo & _) Hy. unfold http_date, print4. rewrite !not_elem_of_app.
  repeat match goal with |- _ ∧ _ => split end;
    first [ by apply print2_nul; div_lia | by apply nth_name_nul; repeat constructor; apply in_set_false
          | by apply in_set_false ].
Qed.

(** The laws of the time library do not mention [strptime]. *)
#[export] Instance windows_time_laws (base : TimeLib) (valid : tm → Prop) :
  TimeLaws (H := base) valid → TimeLaws (H := windows_time base) valid.
Proof. intros [H1 H2 H3]. by split. Qed.

(** ** Properties *)

(** The recursion equation: the three levels are the function the source has, which calls
    itself for the composed conversions. *)
Theorem win_strptime_recursive buf fmt m :
  win_strptime buf fmt m = strptime_level win_strptime fmt None (Some buf) m false.
Proof. apply level_agree. intros c f bp n _ Hf. by eapply composed_level. Qed.

(** C35. Whatever the text, the format and the modifiers, no position but one of the text is
    answered, the terminator included, and no field leaves its range. *)
Theorem win_strptime_safe buf fmt m :
  tm_ok m → within buf (win_strptime buf fmt m).1 ∧ tm_ok (win_strptime buf fmt m).2.
Proof.
  assert (level_ok strptime_composed) as H.
  { apply level_level_ok. apply level_level_ok. by intros bp f n Hn. }
  intros Hm. by apply (level_level_ok _ H).
Qed.

(** C38. A date printed as [as_gmt] prints it is read back, on Windows, by the format it was
    printed with, and by the default format, although that ends in a conversion that is not
    supported: the answer is then null, which [datetime] does not look at.  The day of the year
    and the daylight saving flag keep what the uninitialised structure held. *)
Theorem win_datetime_roundtrip (base : TimeLib) m junk :
  tm_ok m → 0 ≤ tm_year m + 1900 ≤ 9999 →
  win_strptime (http_date m) (lit "%a, %d %b %Y %H:%M:%S GMT") junk = (Some [], read_back m junk) ∧
  win_strptime (http_date m) default_datetime_format junk = (None, read_back m junk) ∧
  datetime_parse (H := windows_time base) junk (http_date m) default_datetime_format
    = mktime (read_back m junk).
Proof.
  intros Hm Hy. pose proof (λ f, reads_date strptime_composed f m junk Hm Hy) as Hr.
  pose proof (Hr (lit " GMT")) as Hg. pose proof (Hr (lit " %Z")) as Hz.
  split; [exact Hg |]. split; [exact Hz |].
  unfold datetime_parse. rewrite c_str_id by by apply http_date_nul.
  exact (f_equal (λ r, mktime r.2) Hz).
Qed.

(** The format of [%c] has the conversion [%Ef], which does not exist: [%c] always fails. *)
Theorem win_date_time_never_read buf m : (win_strptime buf (lit "%c") m).1 = None.
Proof.
  rewrite win_strptime_recursive. unfold lit. cbn [String.list_ascii_of_string].
  rewrite level_conversion by done. cbn [conversion]. unfold composed, field. cbn [legal legal_alt].
  assert (∀ p n, (win_strptime p d_t_fmt n).1 = None) as Hn.
  { intros p n. unfold win_strptime, d_t_fmt, lit. cbn [String.list_ascii_of_string].
    rewrite level_conversion by done. cbn [conversion]. unfold field, legal.
    destruct (find_string p day abday) as [[v q] |]; reflexivity. }
  specialize (Hn buf m). destruct (win_strptime buf d_t_fmt m) as [q n]. cbn in *. by subst q.
Qed.

(** ** Witnesses and examples *)

(** The first of September 2000, a Friday, in the middle of the night. *)
Definition sample_tm : tm := Tm 4 3 2 1 8 100 (5, 244, 0).

Definition junk_tm : tm := Tm 7 7 7 7 7 7 (3, 99, 42).

Example sample_date : http_date sample_tm = lit "Fri, 01 Sep 2000 02:03:04 GMT".
Proof. reflexivity. Qed.

Lemma sample_tm_ok : tm_ok sample_tm ∧ tm_ok junk_tm.
Proof. split; vm_compute; intuition congruence. Qed.

Lemma win_strptime_safe_witness :
  tm_ok junk_tm ∧ tm_ok (win_strptime (lit "12:61 PM") (lit "%r") junk_tm).2.
Proof.
  split; [apply sample_tm_ok |].
  apply (win_strptime_safe (lit "12:61 PM") (lit "%r") junk_tm), sample_tm_ok.
Defined.

Lemma win_datetime_roundtrip_witness :
  tm_ok sample_tm ∧
  win_strptime (lit "Fri, 01 Sep 2000 02:03:04 GMT") default_datetime_format junk_tm
    = (None, Tm 4 3 2 1 8 100 (5, 99, 42)).
Proof.
  split; [apply sample_tm_ok |].
  apply (win_datetime_roundtrip flat_calendar sample_tm junk_tm); [apply sample_tm_ok | cbn; lia].
Defined.

(** The fields of a text that does not fit the format keep what they held. *)
Example win_strptime_partial :
  win_strptime (lit "Fri, 32 Sep 2000") (lit "%a, %d %b %Y") junk_tm = (None, Tm 7 7 7 7 7 7 (5, 99, 42)).
Proof. vm_compute. reflexivity. Qed.

(** Twelve-hour times, names in full and in any case, and a century apart from its year. *)
Example win_strptime_forms :
  win_strptime (lit "12:30:00 pm") (lit "%r") junk_tm = (Some [], Tm 0 30 12 7 7 7 (3, 99, 42)) ∧
  win_strptime (lit "MONDAY january 20/07") (lit "%A %B %C/%y") junk_tm
    = (Some [], Tm 7 7 7 7 0 107 (1, 99, 42)) ∧
  win_strptime (lit "1") (lit "%OE") junk_tm = (None, junk_tm) ∧
  win_strptime (lit "1") (lit "%") junk_tm = (None, junk_tm).
Proof. vm_compute. done. Qed.
