(* ===== verification/WinThread.v ===== *)
(** * [win32/thread_impl.cpp]: the threads of the Windows port.

    What the system knows of its threads is in [win_world]: the handles that are open, how often
    each thread is suspended, which were ended by force, and the handlers threads entered.
    [CreateThread] answers a new handle or nothing; its answer is part of the operation. *)
From S2P Require Export Prelude.

Section thread.
Context {H : Type}.

Record thread_impl := ThreadImpl { _handle : option nat; _handler : option H }.

Record win_world := WinWorld {
  impls : gmap nat thread_impl;
  open_threads : gset nat;
  suspended : gmap nat nat;
  terminated : gset nat;
  entered : list (nat * H) }.

Inductive win_thread_op :=
  | ThreadNew (i : nat) | OnExecute (i : nat) (h : H) | Start (i : nat) (answer : option nat)
  | Stop (i : nat) | Pause (i : nat) | Resume (i : nat) | WaitFor (i : nat) | ThreadDelete (i : nat).

Definition thread_impl_new : thread_impl := ThreadImpl None None.

Definition put (i : nat) (x : thread_impl) (w : win_world) : win_world :=
  WinWorld (<[i := x]> (impls w)) (open_threads w) (suspended w) (terminated w) (entered w).

Definition on_execute (h : H) (x : thread_impl) : thread_impl := ThreadImpl (_handle x) (Some h).

(** [ResumeThread]: a thread that was never let go before enters [execute]. *)
Definition ResumeThread (n : nat) (x : thread_impl) (first : bool) (w : win_world) : win_world :=
  WinWorld (impls w) (open_threads w) (alter pred n (suspended w)) (terminated w)
    (entered w ++ match _handler x with Some h => if first then [(n, h)] else [] | None => [] end).

Definition SuspendThread (n : nat) (w : win_world) : win_world :=
  WinWorld (impls w) (open_threads w) (alter S n (suspended w)) (terminated w) (entered w).

(** The thread is created suspended and resumed; the handle is stored before the test. *)
Definition start (i : nat) (answer : option nat) (x : thread_impl) (w : win_world)
    : outcome unit * win_world :=
  let x' := ThreadImpl answer (_handler x) in
  let w := put i x' w in
  match answer with
  | None => (Throw (Exn thread_exception (lit "The system lacked the necessary resources to create another thread, or the system-imposed limit on the total number of threads in a process would be exceeded")), w)
  | Some n =>
      let w := WinWorld (impls w) ({[n]} ∪ open_threads w) (<[n := 1]> (suspended w)) (terminated w)
                 (entered w) in
      (Ret (), ResumeThread n x' true w)
  end.

(** [if (_handle) ...] *)
Definition with_handle (x : thread_impl) (f : nat → win_world → win_world) (w : win_world)
    : outcome unit * win_world :=
  (Ret (), match _handle x with Some n => f n w | None => w end).

Definition stop (x : thread_impl) : win_world → outcome unit * win_world :=
  with_handle x (λ n w, WinWorld (impls w) (open_threads w) (suspended w) ({[n]} ∪ terminated w) (entered w)).

Definition pause (x : thread_impl) : win_world → outcome unit * win_world := with_handle x SuspendThread.

Definition resume (x : thread_impl) : win_world → outcome unit * win_world :=
  with_handle x (λ n, ResumeThread n x false).

(** Once the thread has ended. *)
Definition wait_for (x : thread_impl) : win_world → outcome unit * win_world := with_handle x (λ _ w, w).

Definition destroy (i : nat) (x : thread_impl) (w : win_world) : outcome unit * win_world :=
  with_handle x (λ n w, WinWorld (impls w) (open_threads w ∖ {[n]}) (suspended w) (terminated w) (entered w))
    (WinWorld (delete i (impls w)) (open_threads w) (suspended w) (terminated w) (entered w)).

Definition with_impl (i : nat) (f : thread_impl → win_world → outcome unit * win_world) (w : win_world)
    : outcome unit * win_world :=
  match impls w !! i with Some x => f x w | None => (Undef, w) end.

Definition win_thread_run (op : win_thread_op) (w : win_world) : outcome unit * win_world :=
  match op with
  | ThreadNew i => (Ret (), put i thread_impl_new w)
  | OnExecute i h => with_impl i (λ x w, (Ret (), put i (on_execute h x) w)) w
  | Start i answer => with_impl i (start i answer) w
  | Stop i => with_impl i stop w
  | Pause i => with_impl i pause w
  | Resume i => with_impl i resume w
  | WaitFor i => with_impl i wait_for w
  | ThreadDelete i => with_impl i (destroy i) w
  end.

Fixpoint win_thread_runs (ops : list win_thread_op) (w : win_world) : outcome unit * win_world :=
  match ops with
  | [] => (Ret (), w)
  | op :: ops' =>
      match win_thread_run op w with
      | (Undef, w') => (Undef, w')
      | (_, w') => win_thread_runs ops' w'
      end
  end.

Definition win_world_new : win_world := WinWorld ∅ ∅ ∅ ∅ [].
End thread.
Arguments thread_impl H : clear implicits.
Arguments win_world H : clear implicits.
Arguments win_thread_op H : clear implicits.

(** ** Properties *)

(** Starting an object whose handler is set enters the handler in the new thread, which is not
    suspended; pausing and resuming act on that thread alone and undo each other; when the system
    refuses, there is an exception, and the handle of the thread started before is forgotten. *)
Lemma win_thread_starts {H} i x answer (w : win_world H) :
  impls w !! i = Some x →
  let '(o, w1) := win_thread_run (Start i answer) w in
  match answer with
  | Some n =>
      o = Ret () ∧ entered w1 = entered w ++ (match _handler x with Some h => [(n, h)] | None => [] end) ∧
      suspended w1 !! n = Some 0 ∧ open_threads w1 = {[n]} ∪ open_threads w ∧
      let '(o2, w2) := win_thread_run (Pause i) w1 in
      o2 = Ret () ∧ suspended w2 = <[n := 1]> (suspended w1) ∧
      let '(o3, w3) := win_thread_run (Resume i) w2 in
      o3 = Ret () ∧ suspended w3 = suspended w1 ∧ entered w3 = entered w1
  | None => (∃ msg, o = Throw (Exn thread_exception msg)) ∧ open_threads w1 = open_threads w ∧
            impls w1 !! i = Some (ThreadImpl None (_handler x))
  end.
Proof.
  intros Hx. cbn [win_thread_run]. unfold with_impl. rewrite Hx. destruct answer as [n |]; cbn.
  2: { rewrite lookup_insert_eq. split; [by eexists | done]. }
  split_and!; [done | done | by rewrite lookup_alter_eq, lookup_insert_eq | done |].
  rewrite lookup_insert_eq. unfold pause, with_handle. cbn. split_and!; [done | |].
  - apply map_eq. intros m. destruct (decide (n = m)) as [<- | Hne].
    + by rewrite !lookup_alter_eq, !lookup_insert_eq.
    + by rewrite !lookup_alter_ne, !lookup_insert_ne, lookup_alter_ne, lookup_insert_ne by done.
  - rewrite lookup_insert_eq. cbn. split_and!; [done | |].
    + apply map_eq. intros m. destruct (decide (n = m)) as [<- | Hne].
      * by rewrite !lookup_alter_eq, !lookup_insert_eq.
      * by rewrite !lookup_alter_ne by done.
    + by destruct (_handler x); rewrite ?app_nil_r.
Qed.

(** A second start leaves the handle of the first thread open for good. *)
Example win_thread_restart_leaks {H} (h : H) :
  open_threads (snd (win_thread_runs
    [ThreadNew 0; OnExecute 0 h; Start 0 (Some 4); Start 0 (Some 5); ThreadDelete 0] win_world_new)) = {[4]}.
Proof. apply (bool_decide_unpack _). vm_compute. exact I. Qed.
