(* ===== verification/WinProcess.v ===== *)
(** * [process_impl::execute] of [win32/process_impl.cpp]: a child behind three pipes, on Windows.

    The parent writes the whole input, closes it, asks for the exit code without waiting, and then
    reads the output and the errors to their ends.  It keeps its own copy of the end from which
    the child reads, so that a pipe without a reader is not broken.  Children are those of
    [ProcessPipes]; [wstep] interleaves the two. *)
From S2P Require Export ProcessPipes.

(** ** The copying loops *)

(** The input, in blocks of [BUF_SIZE] bytes; a null stream is undefined. *)
Fixpoint win_feed_loop (fuel : nat) (s : stream) : option (str * stream) :=
  match fuel with
  | O => None
  | S f =>
      if good s then
        let '(buffer, s1) := read BUF_SIZE s in
        '(l, s2) ← win_feed_loop f s1; Some (buffer ++ l, s2)
      else Some ([], s)
  end.

Definition win_feed (fuel : nat) (in_ : option stream) : option (outcome (str * stream)) :=
  match in_ with
  | None => Some Undef
  | Some s => Ret <$> win_feed_loop fuel s
  end.

(** The blocks [ReadFile] gives until its end, while the stream is good. *)
Fixpoint win_drain_loop (blocks : list str) (out : stream) : stream :=
  match blocks with
  | [] => out
  | b :: blocks' => let out' := write b out in if good out' then win_drain_loop blocks' out' else out'
  end.

Definition win_drain (blocks : list str) (out : option stream) : outcome (option stream) :=
  match out, blocks with
  | Some o, _ => Ret (Some (win_drain_loop blocks o))
  | None, [] => Ret None
  | None, _ => Undef
  end.

Definition command_line (path args : str) : str :=
  match args with [] => path | _ => path ++ lit " " ++ args end.

(** ** The handles *)

(** [exception_system::what]: the text is that of a local string, or there is none; [text] is what
    [FormatMessage] answers. *)
Definition exception_system_what (message : str) (text : option str) : char_ptr :=
  match text with Some m => Dangling | None => Null end.

(** The calls before the first byte is written: the handles each opens and the message of its
    exception. *)
Definition win_calls : list (list nat * string) :=
  [([0; 1], "CreatePipe failed"); ([], "SetHandleInformation failed");
   ([2; 3], "CreatePipe failed"); ([], "SetHandleInformation failed");
   ([4; 5], "CreatePipe failed"); ([], "SetHandleInformation failed");
   ([6; 7], "CreateProcess failed")]%string.

(** The handles that are closed at the end; those that are null are not open. *)
Definition all_handles : list nat := [6; 7; 4; 5; 0; 1; 2; 3].

(** [ok i] tells whether the [i]-th call succeeds.  The exception is translated by its text. *)
Fixpoint win_open (ok : nat → bool) (text : option str) (i : nat) (calls : list (list nat * string))
    (opened : list nat) : outcome unit * list nat :=
  match calls with
  | [] => (Ret (), opened)
  | (hs, msg) :: calls' =>
      if ok i then win_open ok text (S i) calls' (opened ++ hs)
      else ((what ← deref (exception_system_what (lit msg) text); Throw (Exn process_exception what)),
            close_fds all_handles opened)
  end.

(** ** Parent and child *)
Definition STILL_ACTIVE : Z := 259.

Inductive wparent :=
  | WWrite (l : str)
  | WClosed
  | WReadOut (status : Z) (out : str)
  | WReadErr (status : Z) (out err : str)
  | WDone (status : Z) (out err : str).

Section pipes.
Context {C : Type} (next : C → child_op C) (cap : nat).

Record wpipes := WPipes {
  wpar : wparent;
  wchild : @child_state C;
  winp : str;
  woutp : str;
  werrp : str }.

Definition win_start (input : str) (c : C) : wpipes := WPipes (WWrite input) (Running c) [] [] [].

(** What [GetExitCodeProcess] answers. *)
Definition exit_code (c : @child_state C) : Z :=
  match c with Running _ => STILL_ACTIVE | Exited st => st end.

Inductive wstep (s : wpipes) : wpipes → Prop :=
  | w_write b l :
      wpar s = WWrite (b :: l) → length (winp s) < cap →
      wstep s (WPipes (WWrite l) (wchild s) (winp s ++ [b]) (woutp s) (werrp s))
  | w_close :
      wpar s = WWrite [] → wstep s (WPipes WClosed (wchild s) (winp s) (woutp s) (werrp s))
  | w_exit_code :
      wpar s = WClosed →
      wstep s (WPipes (WReadOut (exit_code (wchild s)) []) (wchild s) (winp s) (woutp s) (werrp s))
  | w_read_out st o b l :
      wpar s = WReadOut st o → woutp s = b :: l →
      wstep s (WPipes (WReadOut st (o ++ [b])) (wchild s) (winp s) l (werrp s))
  (* the end of the output: the child, which has the only other copy of the end, is gone *)
  | w_out_end st st' o :
      wpar s = WReadOut st o → woutp s = [] → wchild s = Exited st' →
      wstep s (WPipes (WReadErr st o []) (wchild s) (winp s) (woutp s) (werrp s))
  | w_read_err st o e b l :
      wpar s = WReadErr st o e → werrp s = b :: l →
      wstep s (WPipes (WReadErr st o (e ++ [b])) (wchild s) (winp s) (woutp s) l)
  | w_err_end st st' o e :
      wpar s = WReadErr st o e → werrp s = [] → wchild s = Exited st' →
      wstep s (WPipes (WDone st o e) (wchild s) (winp s) (woutp s) (werrp s))
  | wc_read k c b l :
      wchild s = Running c → next c = ChRead k → winp s = b :: l →
      wstep s (WPipes (wpar s) (Running (k (Some b))) l (woutp s) (werrp s))
  | wc_read_end k c :
      wchild s = Running c → next c = ChRead k → winp s = [] → (∀ l, wpar s ≠ WWrite l) →
      wstep s (WPipes (wpar s) (Running (k None)) [] (woutp s) (werrp s))
  | wc_out b c c' :
      wchild s = Running c → next c = ChOut b c' → length (woutp s) < cap →
      wstep s (WPipes (wpar s) (Running c') (winp s) (woutp s ++ [b]) (werrp s))
  | wc_err b c c' :
      wchild s = Running c → next c = ChErr b c' → length (werrp s) < cap →
      wstep s (WPipes (wpar s) (Running c') (winp s) (woutp s) (werrp s ++ [b]))
  | wc_exit c st :
      wchild s = Running c → next c = ChExit st →
      wstep s (WPipes (wpar s) (Exited st) (winp s) (woutp s) (werrp s)).

Definition wreturned (s : wpipes) : Prop := ∃ st o e, wpar s = WDone st o e.

(** [E c m]: the child writes at most [m] bytes to its errors from here on. *)
Definition errors_bounded (E : C → nat → Prop) : Prop :=
  ∀ c m, E c m →
    match next c with
    | ChRead k => ∀ b, E (k b) m
    | ChOut _ c' => E c' m
    | ChErr _ c' => ∃ m', m = S m' ∧ E c' m'
    | ChExit _ => True
    end.

(** [V c n]: the child does not exit before it has written [n] bytes to its errors. *)
Definition errors_insist (V : C → nat → Prop) : Prop :=
  ∀ c n, V c (S n) →
    match next c with
    | ChRead k => ∀ b, V (k b) (S n)
    | ChOut _ c' => V c' (S n)
    | ChErr _ c' => V c' n
    | ChExit _ => False
    end.

(** ** Lemmas *)

(** The input fits in its pipe, and the errors of a running child in theirs. *)
Definition wfits (E : C → nat → Prop) (s : wpipes) : Prop :=
  (∀ l, wpar s = WWrite l → length (winp s) + length l ≤ cap) ∧
  match wchild s with
  | Running c => (∃ m, E c m ∧ length (werrp s) + m ≤ cap) ∧
      (∀ st o e, wpar s ≠ WReadErr st o e ∧ wpar s ≠ WDone st o e)
  | Exited _ => True
  end.

Lemma wfits_preserved E : errors_bounded E → preserved wstep (wfits E).
Proof.
  intros HE s s' Hs [Hw Hf]. unfold wfits.
  destruct Hs as [b l Hp Hl | Hp | Hp | st o b l Hp Ho | st st' o Hp Ho Hc | st o e b l Hp He
    | st st' o e Hp He Hc | k c b l Hc Hn Hi | k c Hc Hn Hi Hp | b c c' Hc Hn Hl | b c c' Hc Hn Hl | c st Hc Hn];
    cbn [wchild wpar winp woutp werrp]; try rewrite Hc in *.
  - split; [intros l' [= <-]; specialize (Hw _ Hp); rewrite length_app; cbn in *; lia |].
    destruct (wchild s); [| done]. by destruct Hf.
  - split; [done |]. destruct (wchild s); [| done]. by destruct Hf.
  - split; [done |]. destruct (wchild s); [| done]. by destruct Hf.
  - split; [done |]. destruct (wchild s); [| done]. by destruct Hf.
  - split; done.
  - split; [done |]. destruct (wchild s); [| done]. destruct Hf as [_ Hf]. by destruct (Hf st o e).
  - split; done.
  - split.
    + intros l' Hl'. specialize (Hw _ Hl'). rewrite Hi in Hw. cbn in Hw. lia.
    + destruct Hf as [(m & Hm & ?) ?]. apply HE in Hm. rewrite Hn in Hm. split; [| done]. by exists m.
  - split; [intros l' Hl'; by destruct (Hp l') |].
    destruct Hf as [(m & Hm & ?) ?]. apply HE in Hm. rewrite Hn in Hm. split; [| done]. by exists m.
  - split; [done |]. destruct Hf as [(m & Hm & ?) ?]. apply HE in Hm. rewrite Hn in Hm. split; [| done]. by exists m.
  - split; [done |]. destruct Hf as [(m & Hm & ?) ?]. apply HE in Hm. rewrite Hn in Hm.
    destruct Hm as (m' & -> & Hm). split; [| done]. exists m'. rewrite length_app. cbn. split; [done | lia].
  - done.
Qed.

(** Errors that do not fit keep the child from ending, and the parent from getting to them. *)
Definition wchoking (V : C → nat → Prop) (s : wpipes) : Prop :=
  ((∃ l, wpar s = WWrite l) ∨ wpar s = WClosed ∨ ∃ st o, wpar s = WReadOut st o) ∧ length (werrp s) ≤ cap ∧
  ∃ c n, wchild s = Running c ∧ V c n ∧ cap < length (werrp s) + n.

Lemma wchoking_preserved V : errors_insist V → preserved wstep (wchoking V).
Proof.
  intros HV s s' Hs (Hp & Ho & c & n & Hc & Hw & Hlt).
  assert (∃ n', n = S n') as [n' ->] by (exists (n - 1); lia). pose proof (HV _ _ Hw) as Hn.
  destruct Hs as [b l Hp' Hl | Hp' | Hp' | st o b l Hp' Ho' | st st' o Hp' Ho' Hc' | st o e b l Hp' He
    | st st' o e Hp' He Hc' | k c' b l Hc' Hn' Hi | k c' Hc' Hn' Hi Hp' | b c' c'' Hc' Hn' Hl
    | b c' c'' Hc' Hn' Hl | c' st Hc' Hn'];
    unfold wchoking; cbn [wchild wpar winp woutp werrp]; try congruence;
    try (destruct Hp as [[l' E] | [E | (st1 & o1 & E)]]; congruence);
    try (rewrite Hc in Hc'; injection Hc' as <-; rewrite Hn' in Hn).
  - split_and!; [eauto | done |]. by exists c, (S n').
  - split_and!; [auto | done |]. by exists c, (S n').
  - split_and!; [eauto | done |]. by exists c, (S n').
  - split_and!; [eauto | done |]. by exists c, (S n').
  - split_and!; [done | done |]. by exists (k (Some b)), (S n').
  - split_and!; [done | done |]. by exists (k None), (S n').
  - split_and!; [done | done |]. by exists c'', (S n').
  - rewrite length_app. cbn. split_and!; [done | lia |]. exists c'', n'. split_and!; [done | done | lia].
  - done.
Qed.

(** The code that is returned is the child's, or that of a child still running. *)
Definition code_ok (s : wpipes) : Prop :=
  ∀ st, (∃ o, wpar s = WReadOut st o) ∨ (∃ o e, wpar s = WReadErr st o e) ∨ (∃ o e, wpar s = WDone st o e) →
  st = STILL_ACTIVE ∨ wchild s = Exited st.

Lemma code_preserved : preserved wstep code_ok.
Proof.
  intros s s' Hs Hc st. specialize (Hc st).
  destruct Hs as [| | Hp | | | | | | | | | c' st' Hch Hn]; cbn [wpar wchild];
    try (intros H'; destruct Hc; [naive_solver | by left | naive_solver]; fail);
    try (intros H'; destruct (Hc H') as [-> | ?]; [by left | congruence]).
  intros [[o [= <-]] | [(o & e & [=]) | (o & e & [=])]]. unfold exit_code.
  destruct (wchild s); [by left | by right].
Qed.

(** A state that fits has a step. *)
Lemma wfits_goes_on E s :
  errors_bounded E → 0 < cap → wfits E s → wreturned s ∨ ∃ s', wstep s s'.
Proof.
  intros HE Hcap [Hw Hf]. destruct (wpar s) as [[| b l] | | st o | st o e | st o e] eqn:Hp.
  - right. eexists. by apply w_close.
  - right. eexists. apply (w_write s b l); [done |]. specialize (Hw _ eq_refl). cbn in Hw. lia.
  - right. eexists. by apply w_exit_code.
  - right. destruct (woutp s) as [| b l] eqn:Ho; [| eexists; by eapply w_read_out].
    destruct (wchild s) as [c | st'] eqn:Hc; [| eexists; by eapply w_out_end].
    destruct Hf as [(m & Hm & Hl) _]. apply HE in Hm.
    destruct (next c) as [k | b c' | b c' | st'] eqn:Hn.
    + destruct (winp s) as [| b l] eqn:Hi; [| eexists; by eapply wc_read].
      eexists. eapply wc_read_end; [done.. |]. congruence.
    + eexists. eapply wc_out; [done.. |]. by rewrite Ho.
    + destruct Hm as (m' & -> & _). eexists. eapply wc_err; [done.. | lia].
    + eexists. by eapply wc_exit.
  - right. destruct (werrp s) as [| b l] eqn:He; [| eexists; by eapply w_read_err].
    destruct (wchild s) as [c | st'] eqn:Hc; [| eexists; by eapply w_err_end].
    destruct Hf as [_ Hf]. by destruct (Hf st o e).
  - left. by exists st, o, e.
Qed.
End pipes.

(** ** Lemmas: every byte is copied *)
#[local] Opaque BUF_SIZE.

Lemma win_feed_text fuel s :
  good s = true → length (rest s) < fuel → 2 ≤ fuel → ∃ s', win_feed_loop fuel s = Some (rest s, s').
Proof.
  revert s. induction fuel as [| fuel IH]; intros s Hg Hf Hf2; [lia |]. cbn [win_feed_loop]. rewrite Hg.
  unfold read. rewrite Hg. pose proof BUF_SIZE_pos.
  destruct (Nat.ltb_spec (length (take BUF_SIZE (rest s))) BUF_SIZE) as [Hlt | Hge].
  - set (s1 := set_fail (set_eof _)). destruct fuel as [| fuel]; [lia |]. cbn [win_feed_loop].
    assert (good s1 = false) as -> by done. cbn [mbind option_bind]. exists s1. rewrite length_take in Hlt.
    rewrite take_ge by lia. by rewrite app_nil_r.
  - set (s1 := set_gpos _ s). assert (rest s1 = drop BUF_SIZE (rest s)) as Hr.
    { unfold s1. rewrite rest_advance. f_equal. rewrite length_take in *. lia. }
    rewrite length_take in Hge. destruct (IH s1) as [s' E]; [done | | lia |].
    + rewrite Hr, length_drop. lia.
    + rewrite E. cbn [mbind option_bind]. exists s'. by rewrite Hr, take_drop.
Qed.

Lemma win_drain_text blocks out : at_end out → win_drain_loop blocks out = append (concat blocks) out.
Proof.
  revert out. induction blocks as [| b blocks IH]; intros out Ho; cbn [win_drain_loop concat].
  - by rewrite append_nil.
  - rewrite write_at_end by done.
    assert (good (append b out) = true) as -> by (apply append_at_end, Ho).
    rewrite IH by by apply append_at_end. by rewrite append_append.
Qed.

(** When a call before the copying fails no handle stays open, but the exception is made from a
    text that is not there. *)
Lemma win_open_fails ok text i :
  (∀ j, j < i → ok j = true) → ok i = false → i < 7 →
  win_open ok text 0 win_calls [] = (Undef, []).
Proof.
  intros Hok Hi Hlt. unfold win_calls.
  do 7 (destruct i as [| i];
    [repeat (cbn [win_open]; rewrite Hok by lia); cbn [win_open]; rewrite Hi; by destruct text |]).
  lia.
Qed.

(** ** Properties *)

(** On Windows the length of the output does not matter: with an input that fits in its pipe
    and errors that fit in theirs, [execute] can always go on until it returns.  Errors that do not
    fit, of a child that does not end without them, make it hang for ever.  What it returns is the
    code of the child, or that of a child that was still running. *)
Theorem win_execute_needs_room {C} (next : C → child_op C) cap input c s :
  rtc (wstep next cap) (win_start input c) s →
  (∀ E m, errors_bounded next E → E c m → 0 < cap → m ≤ cap → length input ≤ cap →
     wreturned s ∨ ∃ s', wstep next cap s s') ∧
  (∀ V n, errors_insist next V → V c n → cap < n → ¬ wreturned s) ∧
  (∀ st o e, wpar s = WDone st o e → st = STILL_ACTIVE ∨ wchild s = Exited st).
Proof.
  intros Hr. split_and!.
  - intros E m HE Hb Hcap Hm Hi. apply (wfits_goes_on next cap E); [done.. |].
    apply (preserved_rtc _ _ _ _ (wfits_preserved next cap E HE) Hr). split; cbn.
    + intros l [= <-]. lia.
    + split; [exists m; split; [done | lia] | done].
  - intros V n HV Hw Hlt (st & o & e & E).
    destruct (preserved_rtc _ _ _ _ (wchoking_preserved next cap V HV) Hr) as ([[l El] | [El | (? & ? & El)]] & _);
      [| congruence..].
    split_and!; [left; by eexists | cbn; lia |]. exists c, n. cbn. split_and!; [done | done | lia].
  - intros st o e E. assert (code_ok s) as Hc.
    { refine (preserved_rtc _ _ _ _ (code_preserved next cap) Hr _). intros st'. cbn. naive_solver. }
    apply Hc. right. right. by exists o, e.
Qed.

(** The loops copy every byte, zeros included: the input whole, and all blocks in order. *)
Lemma win_execute_copies s blocks out :
  good s = true → at_end out →
  (∃ s', win_feed (2 + length (rest s)) (Some s) = Some (Ret (rest s, s'))) ∧
  win_drain blocks (Some out) = Ret (Some (append (concat blocks) out)).
Proof.
  intros Hg Ho. split.
  - destruct (win_feed_text (2 + length (rest s)) s Hg ltac:(lia) ltac:(lia)) as [s' E]. exists s'.
    unfold win_feed. by rewrite E.
  - unfold win_drain. by rewrite win_drain_text.
Qed.

(** A process made without streams cannot be executed. *)
Example win_feed_null fuel : win_feed fuel None = Some Undef.
Proof. reflexivity. Qed.

(** ** A child that ends at once *)
Definition ends_at_once (n : nat) : child_op nat := ChExit 7.

(** The exit code is asked for before the child ends: 259 is returned for it, though it answers 7. *)
Example win_execute_still_active :
  rtc (wstep ends_at_once 1) (win_start [] 0) (WPipes (WDone STILL_ACTIVE [] []) (Exited 7) [] [] []).
Proof.
  eapply rtc_l; [exact (w_close ends_at_once 1 (win_start [] 0) eq_refl) |].
  eapply rtc_l; [exact (w_exit_code ends_at_once 1 (WPipes WClosed (Running 0) [] [] []) eq_refl) |].
  eapply rtc_l; [exact (wc_exit ends_at_once 1 (WPipes (WReadOut STILL_ACTIVE []) (Running 0) [] [] []) 0 7 eq_refl eq_refl) |].
  eapply rtc_l; [exact (w_out_end ends_at_once 1 (WPipes (WReadOut STILL_ACTIVE []) (Exited 7) [] [] []) STILL_ACTIVE 7 [] eq_refl eq_refl eq_refl) |].
  apply rtc_once.
  exact (w_err_end ends_at_once 1 (WPipes (WReadErr STILL_ACTIVE [] []) (Exited 7) [] [] []) STILL_ACTIVE 7 [] [] eq_refl eq_refl eq_refl).
Qed.

(** Two bytes for a child that has gone, behind a pipe for one: no step is possible, because the
    parent itself keeps the pipe alive. *)
Definition unread : @wpipes nat := WPipes (WWrite (lit "b")) (Exited 7) (lit "a") [] [].

Example win_execute_unread : ∀ s, ¬ wstep ends_at_once 1 unread s.
Proof.
  intros s Hs. unfold unread in Hs. inversion Hs; cbn in *; try discriminate.
  change (length (lit "a")) with 1 in *. lia.
Qed.

(** ** Witness: three bytes of errors *)
Definition three_errors (n : nat) : child_op nat :=
  match n with O => ChExit 0 | S n' => ChErr "x"%char n' end.

Lemma three_errors_bound : errors_bounded three_errors (λ c n, c ≤ n).
Proof. intros [| c] n H; [done |]. cbn. exists (n - 1). split; lia. Qed.

Lemma three_errors_insist : errors_insist three_errors (λ c n, n ≤ c).
Proof. intros [| c] n H; cbn in *; lia. Qed.

(** Behind a pipe of two bytes it hangs, behind one of four it does not. *)
Lemma win_execute_needs_room_witness :
  let s := WPipes (WReadOut STILL_ACTIVE []) (Running 1) [] [] (lit "xx") in
  rtc (wstep three_errors 2) (win_start [] 3) s ∧ ¬ wreturned s ∧
  (∃ s', wstep three_errors 4 (win_start [] 3) s').
Proof.
  intros s. assert (rtc (wstep three_errors 2) (win_start [] 3) s) as Hr.
  { eapply rtc_l; [exact (w_close three_errors 2 (win_start [] 3) eq_refl) |].
    eapply rtc_l; [exact (w_exit_code three_errors 2 (WPipes WClosed (Running 3) [] [] []) eq_refl) |].
    eapply rtc_l; [exact (wc_err three_errors 2 (WPipes (WReadOut STILL_ACTIVE []) (Running 3) [] [] [])
      "x"%char 3 2 eq_refl eq_refl ltac:(apply Nat.ltb_lt; reflexivity)) |].
    apply rtc_once. exact (wc_err three_errors 2 (WPipes (WReadOut STILL_ACTIVE []) (Running 2) [] [] (lit "x"))
      "x"%char 2 1 eq_refl eq_refl ltac:(apply Nat.ltb_lt; reflexivity)). }
  split; [exact Hr |]. split.
  - exact (proj1 (proj2 (win_execute_needs_room three_errors 2 [] 3 s Hr)) (λ c n, n ≤ c) 3 three_errors_insist
      ltac:(cbn; lia) ltac:(lia)).
  - destruct (proj1 (win_execute_needs_room three_errors 4 [] 3 _ (rtc_refl _ _)) (λ c n, c ≤ n) 3
      three_errors_bound ltac:(cbn; lia) ltac:(lia) ltac:(lia) (Nat.le_0_l _)) as [(st & o & e & E) | H];
      [discriminate E | exact H].
Defined.
