(* ===== verification/WinDaemon.v ===== *)
(** * [win32/daemon_application.cpp]: Windows services.

    The service manager starts the program, which reports its states, runs the client's handler and
    is told controls meanwhile; [service] is what the program and the system know of it.  The
    second part is the installation, with the service database and the registry.  The exceptions are
    [exception_system]; [exn_what] is their message. *)
From S2P Require Export Logger StrUtils.

(** ** Statuses *)
Definition SERVICE_STOPPED : Z := 1.
Definition SERVICE_START_PENDING : Z := 2.
Definition SERVICE_STOP_PENDING : Z := 3.
Definition SERVICE_RUNNING : Z := 4.
Definition SERVICE_ACCEPT_STOP : Z := 1.
Definition SERVICE_CONTROL_STOP : Z := 1.
Definition NO_ERROR : Z := 0.

Record SERVICE_STATUS := ServiceStatus {
  dwCurrentState : Z;
  dwWin32ExitCode : Z;
  dwControlsAccepted : Z;
  dwCheckPoint : Z;
  dwWaitHint : Z }.

Definition EVENTLOG_ERROR_TYPE : Z := 1.
Definition EVENTLOG_WARNING_TYPE : Z := 2.
Definition EVENTLOG_INFORMATION_TYPE : Z := 4.

(** The numbers of the texts, from the message compiler. *)
Class Messages := { MSG_ERROR : Z; MSG_WARNING : Z; MSG_INFO : Z }.

Section service.
Context {W : Type} `{Messages}.

(** [check_point] is the static variable, [_status] the handle; a status set without one is refused,
    and an event reported without a log is lost. *)
Record service := Service {
  client : W;
  _status : bool;
  _event_log : bool;
  check_point : Z;
  statuses : list SERVICE_STATUS;
  events : list (Z * Z * str);
  console : str }.

Record daemon_application := Daemon {
  terminate_handler : option (W → W);
  execute_handler : option (service → outcome Z * service) }.

Definition with_client (w : W) (s : service) : service :=
  Service w (_status s) (_event_log s) (check_point s) (statuses s) (events s) (console s).

Definition with_status (b : bool) (s : service) : service :=
  Service (client s) b (_event_log s) (check_point s) (statuses s) (events s) (console s).

Definition with_event_log (b : bool) (s : service) : service :=
  Service (client s) (_status s) b (check_point s) (statuses s) (events s) (console s).

(** [report_service_status] *)
Definition report_service_status (state code : Z) (s : service) : service :=
  let quiet := (state =? SERVICE_RUNNING)%Z || (state =? SERVICE_STOPPED)%Z in
  let ss := ServiceStatus state code
    (if (state =? SERVICE_START_PENDING)%Z then 0 else SERVICE_ACCEPT_STOP)
    (if quiet then 0 else check_point s) 3000 in
  Service (client s) (_status s) (_event_log s)
    (if quiet then check_point s else s32 (check_point s + 1))
    (if _status s then statuses s ++ [ss] else statuses s) (events s) (console s).

(** [log]: a level that is not named is an error without a text. *)
Definition event_of (level : log_level) : Z * Z :=
  match level with
  | error => (EVENTLOG_ERROR_TYPE, MSG_ERROR)
  | warning => (EVENTLOG_WARNING_TYPE, MSG_WARNING)
  | info => (EVENTLOG_INFORMATION_TYPE, MSG_INFO)
  | _ => (EVENTLOG_ERROR_TYPE, 0%Z)
  end.

Definition service_log (level : log_level) (message : str) (s : service) : service :=
  Service (client s) (_status s) (_event_log s) (check_point s) (statuses s)
    (if _event_log s then events s ++ [(event_of level, c_str message)] else events s) (console s).

#[export] Instance service_logger : Logger service := service_log.

(** [daemon_exception] *)
Definition daemon_exception (e : exn) (s : service) : outcome service :=
  m ← format_str (Format (lit "Fatal error: {0}") [c_str (exn_what e)]);
  Ret (if _event_log s then log_error m s
       else Service (client s) (_status s) (_event_log s) (check_point s) (statuses s) (events s)
              (console s ++ m ++ [chr 10])).

(** [svc_ctrl_handler] *)
Definition svc_ctrl_handler (d : daemon_application) (ctrl : Z) (s : service) : service :=
  if (ctrl =? SERVICE_CONTROL_STOP)%Z then
    let s := report_service_status SERVICE_STOP_PENDING NO_ERROR s in
    match terminate_handler d with Some f => with_client (f (client s)) s | None => s end
  else s.

(** [svc_main]; [registers] tells whether the control handler could be registered. *)
Definition svc_main (registers : bool) (d : daemon_application) (s : service) : outcome unit * service :=
  let s := with_status registers s in
  if negb registers then
    (Throw (Exn dbp_exception (lit "can't register Windows service control handler")), s)
  else
    let s := log_info (lit "successfully started") (report_service_status SERVICE_RUNNING NO_ERROR s) in
    let '(o, s) := match execute_handler d with Some f => f s | None => (Ret 0%Z, s) end in
    match o with
    | Ret _ =>
        (Ret (), report_service_status SERVICE_STOPPED NO_ERROR
                   (log_info (lit "successfully terminated") s))
    | Throw e => (Throw e, s)
    | Undef => (Undef, s)
    end.

(** [daemon_execute]: [dispatches] tells whether the program was started by the service manager,
    which then runs [svc_main]. *)
Definition daemon_execute (registers_log dispatches registers : bool) (d : daemon_application)
    (s : service) : outcome Z * service :=
  let s := report_service_status SERVICE_START_PENDING NO_ERROR (with_event_log registers_log s) in
  if negb dispatches then (Throw (Exn dbp_exception (lit "can't start Windows service")), s)
  else let '(o, s) := svc_main registers d s in ((λ _, 0%Z) <$> o, s).

(** While the client's code runs: its own steps and controls. *)
Inductive event := Work (f : W → W) | Control (ctrl : Z).

Definition happen (d : daemon_application) (e : event) (s : service) : service :=
  match e with
  | Work f => with_client (f (client s)) s
  | Control c => svc_ctrl_handler d c s
  end.

Definition happens (d : daemon_application) (es : list event) (s : service) : service :=
  foldl (λ s e, happen d e s) s es.

Definition service_new (w : W) : service := Service w false false 1 [] [] [].
End service.
Arguments service W : clear implicits.
Arguments daemon_application W : clear implicits.
Arguments event W : clear implicits.

(** ** Installation *)

(** A value in the registry. *)
Inductive reg_value := REG_EXPAND_SZ (s : str) | REG_DWORD (z : Z).

(** The services with their programs and descriptions, the keys with their values, what the
    program has printed, and its own handles: the service, and a key. *)
Record machine := Machine {
  services : gmap str (str * str);
  registry : gmap str (gmap str reg_value);
  printed : str;
  service_handle : bool;
  key_open : bool }.

Section install.
(** [ok i] tells whether the [i]-th call succeeds; the names are those of the application. *)
Context (ok : nat → bool) (name path description dllname : str).

Definition log_key : str :=
  lit "SYSTEM\CurrentControlSet\Services\EventLog\Application\" ++ name.

Definition throw_system {A} (msg : string) (m : machine) : outcome A * machine :=
  (Throw (Exn dbp_exception (lit msg)), m).

Definition set_key (open : bool) (values : gmap str reg_value) (m : machine) : machine :=
  Machine (services m) (<[log_key := values]> (registry m)) (printed m) (service_handle m) open.

(** The values in the order they are written. *)
Definition log_values : list (str * reg_value) :=
  [(lit "EventMessageFile", REG_EXPAND_SZ (c_str dllname));
   (lit "TypesSupported", REG_DWORD (EVENTLOG_ERROR_TYPE + EVENTLOG_WARNING_TYPE + EVENTLOG_INFORMATION_TYPE));
   (lit "CategoryMessageFile", REG_EXPAND_SZ (c_str dllname));
   (lit "CategoryCount", REG_DWORD 1)].

(** One [RegSetValueEx] after the other. *)
Fixpoint set_values (i : nat) (l : list (str * reg_value)) (m : machine) : outcome unit * machine :=
  let values := default ∅ (registry m !! log_key) in
  match l with
  | [] => (Ret (), set_key false values m)
  | (k, v) :: l' =>
      if ok i then set_values (S i) l' (set_key true (<[k := v]> values) m)
      else throw_system "can't write a value into the Windows registry key" (set_key false values m)
  end.

Definition print_line (msg : string) (m : machine) : machine :=
  Machine (services m) (registry m) (printed m ++ lit msg ++ [chr 10]) (service_handle m) (key_open m).

Definition on_install_service (m : machine) : outcome bool * machine :=
  if ok 0 then
    let m := Machine (<[name := (c_str path, c_str description)]> (services m)) (registry m) (printed m)
               true (key_open m) in
    if ok 1 then
      match set_values 2 log_values (set_key true (default ∅ (registry m !! log_key)) m) with
      | (Ret _, m) => (Ret false, print_line "Windows service installed successfully." m)
      | (Throw e, m) => (Throw e, m)
      | (Undef, m) => (Undef, m)
      end
    else throw_system "can't create a Windows registry key" m
  else throw_system "can't create Windows service"
    (Machine (services m) (registry m) (printed m) false (key_open m)).

(** The registry key is deleted if it can be; a service that was installed by this program is
    not opened again. *)
Definition on_uninstall_service (m : machine) : outcome bool * machine :=
  if negb (service_handle m) && negb (ok 0) then throw_system "can't open Windows service" m
  else
    let m := Machine (services m) (registry m) (printed m) true (key_open m) in
    if ok 1 then
      (Ret false,
       print_line "Windows service uninstalled successfully."
         (Machine (delete name (services m)) (if ok 2 then delete log_key (registry m) else registry m)
            (printed m) true (key_open m)))
    else throw_system "can't delete Windows service" m.
End install.

(** ** Lemmas *)
Section lemmas.
Context {W : Type} `{Messages}.
Implicit Types (s : service W) (d : daemon_application W).

(** What an event does to the client, and the controls that stop. *)
Definition effect d (e : event W) (w : W) : W :=
  match e with
  | Work f => f w
  | Control c => if (c =? SERVICE_CONTROL_STOP)%Z then from_option (λ f, f w) w (terminate_handler d) else w
  end.

Definition stops (es : list (event W)) : nat :=
  length (List.filter (λ e, match e with Control c => (c =? SERVICE_CONTROL_STOP)%Z | _ => false end) es).

Definition stop_pending (k : Z) (i : nat) : SERVICE_STATUS :=
  ServiceStatus SERVICE_STOP_PENDING NO_ERROR SERVICE_ACCEPT_STOP (k + Z.of_nat i) 3000.

(** The events while the handler runs: one pending status per stop, numbered upwards. *)
Lemma happens_spec d es s :
  _status s = true → (0 ≤ check_point s)%Z → (check_point s + Z.of_nat (length es) ≤ INT_MAX)%Z →
  happens d es s
  = Service (foldl (λ w e, effect d e w) (client s) es) true (_event_log s)
      (check_point s + Z.of_nat (stops es))
      (statuses s ++ (stop_pending (check_point s) <$> seq 0 (stops es))) (events s) (console s).
Proof.
  revert s. induction es as [| e es IH]; intros s Hs Hc Hl.
  - unfold happens, stops. cbn. rewrite Z.add_0_r, app_nil_r. destruct s. cbn in *. by subst.
  - cbn [length] in Hl. unfold happens in *. cbn [foldl]. destruct e as [f | c]; cbn [happen effect].
    + rewrite IH; [done | done | done | cbn; lia].
    + unfold svc_ctrl_handler, stops. cbn [List.filter]. destruct (c =? SERVICE_CONTROL_STOP)%Z eqn:E.
      * set (s1 := match terminate_handler d with Some f => _ | None => _ end).
        assert (s1 = Service (from_option (λ f, f (client s)) (client s) (terminate_handler d)) true (_event_log s)
          (check_point s + 1) (statuses s ++ [stop_pending (check_point s) 0]) (events s) (console s)) as ->.
        { subst s1. unfold report_service_status, with_client, stop_pending. cbn. rewrite Hs, Z.add_0_r.
          rewrite s32_small by (unfold INT_MIN, INT_MAX in *; lia). by destruct (terminate_handler d). }
        rewrite IH; [| done | cbn; lia | cbn; lia]. cbn [client check_point statuses _event_log events console length].
        fold (stops es). f_equal; [lia |]. rewrite <- app_assoc. f_equal. cbn [seq fmap list_fmap app].
        f_equal. rewrite <- fmap_S_seq, <- list_fmap_compose. apply list_fmap_ext. intros _ i _.
        unfold stop_pending. cbn. f_equal. lia.
      * rewrite IH by (done || lia). done.
Qed.
End lemmas.

Lemma set_values_ok name i l m :
  set_values (λ _, true) name i l m
  = (Ret (), set_key name false (foldl (λ vs e, <[e.1 := e.2]> vs) (default ∅ (registry m !! log_key name)) l) m).
Proof.
  revert i m. induction l as [| [k v] l IH]; intros i m; cbn [set_values foldl]; [done |]. rewrite IH.
  unfold set_key. cbn. by rewrite lookup_insert_eq, insert_insert_eq.
Qed.

(** ** Properties *)

(** A service started by the manager reports that it is running, then for each stop control a
    pending status with a number greater than the one before - and runs the client's handler of
    termination once -, and, when the client's code returns, that it has stopped; controls of any
    other kind change nothing.  Code that ends with an exception leaves the service running for the
    manager. *)
Theorem win_service_reports {W} `{Messages} d es o (w : W) :
  (Z.of_nat (length es) < INT_MAX - 2)%Z →
  let d' := Daemon (terminate_handler d) (Some (λ s, (o, happens d es s))) in
  let '(r, s) := daemon_execute true true true d' (service_new w) in
  client s = foldl (λ w e, effect d e w) w es ∧
  let reported := ServiceStatus SERVICE_RUNNING NO_ERROR SERVICE_ACCEPT_STOP 0 3000
                  :: (stop_pending 2 <$> seq 0 (stops es)) in
  let started := (event_of info, lit "successfully started") in
  match o with
  | Ret _ => r = Ret 0%Z ∧ events s = [started; (event_of info, lit "successfully terminated")] ∧
      statuses s = reported ++ [ServiceStatus SERVICE_STOPPED NO_ERROR SERVICE_ACCEPT_STOP 0 3000]
  | Throw e => r = Throw e ∧ events s = [started] ∧ statuses s = reported
  | Undef => r = Undef
  end.
Proof.
  intros Hl d'. unfold daemon_execute, svc_main. cbn [negb execute_handler d'].
  set (s1 := log_info (lit "successfully started") _).
  assert (s1 = Service w true true 2 [ServiceStatus SERVICE_RUNNING NO_ERROR SERVICE_ACCEPT_STOP 0 3000]
    [(event_of info, lit "successfully started")] []) as -> by reflexivity.
  rewrite happens_spec; [| done | cbn; lia | cbn; unfold INT_MAX in *; lia].
  cbn [client check_point statuses events console _event_log].
  destruct o as [z | e |]; cbn; split_and!; try done.
Qed.

(** What the program reports first, before it has a handle, is lost, and so is a failure to
    register. *)
Example win_service_unregistered {W} `{Messages} d (w : W) :
  let '(o, s) := daemon_execute true true false d (service_new w) in
  (∃ e, o = Throw e) ∧ statuses s = [] ∧ check_point s = 2%Z.
Proof. split_and!; [by eexists | reflexivity | reflexivity]. Qed.

(** Installing registers the service and the four values of its event source, closes the key, and
    uninstalling it in the same program takes back exactly what was registered. *)
Lemma win_install_roundtrip name path description dllname m :
  services m !! name = None → registry m !! log_key name = None → key_open m = false →
  let '(o, m') := on_install_service (λ _, true) name path description dllname m in
  o = Ret false ∧ services m' !! name = Some (c_str path, c_str description) ∧
  registry m' !! log_key name = Some (list_to_map (log_values dllname)) ∧
  key_open m' = false ∧ service_handle m' = true ∧
  let '(o, m'') := on_uninstall_service (λ _, true) name m' in
  o = Ret false ∧ services m'' = services m ∧ registry m'' = registry m.
Proof.
  intros Hs Hr Hk. unfold on_install_service. rewrite set_values_ok. unfold set_key. cbn [registry services].
  rewrite lookup_insert_eq, Hr, insert_insert_eq. cbn -[log_values log_key].
  split_and!; [done | by rewrite lookup_insert_eq | | done | done | done
    | by apply delete_insert_id | by apply delete_insert_id].
  rewrite lookup_insert_eq. reflexivity.
Qed.

(** A value that cannot be written leaves the service installed. *)
Example win_install_half m :
  let '(o, m') := on_install_service (λ i, i <? 3) (lit "d") (lit "d.exe") [] (lit "d.dll") m in
  (∃ e, o = Throw e) ∧ is_Some (services m' !! lit "d") ∧ key_open m' = false.
Proof. cbn. split_and!; [by eexists | rewrite lookup_insert_eq; by eexists | done]. Qed.

(** ** Witness *)
Definition sample_messages : Messages := {| MSG_ERROR := 1; MSG_WARNING := 2; MSG_INFO := 3 |}.

Definition counting : daemon_application nat := Daemon (Some (λ n, n + 10)) None.

Lemma win_service_reports_witness :
  let '(r, s) := daemon_execute (H := sample_messages) true true true
    (Daemon (Some (λ n, n + 10)) (Some (λ s, (Ret 0%Z, happens counting [Work S; Control 1; Control 2; Control 1] s))))
    (service_new 0) in
  r = Ret 0%Z ∧ client s = 21 ∧ map dwCheckPoint (statuses s) = [0; 2; 3; 0]%Z.
Proof.
  pose proof (win_service_reports (H := sample_messages) counting [Work S; Control 1; Control 2; Control 1] (Ret 0%Z) 0
    ltac:(vm_compute; reflexivity)) as Hr. cbv zeta in Hr.
  destruct (daemon_execute _ _ _ _ _) as [r s]. destruct Hr as (Hc & -> & _ & Hs).
  split; [done |]. split; [rewrite Hc; reflexivity | rewrite Hs; reflexivity].
Defined.
