(* ===== verification/Tests.v ===== *)
(** * [tests/]: the unit tests of the repository, evaluated on the models.

    Each example is one program of [tests/] that needs no network, database, thread or child
    process: its calls, on the values it uses, with the results it compares them to.  The
    arguments of the environment - the services, the files, the clock, random numbers - are
    those of the test or fixed here. *)
From S2P Require Import Strtod Base64 Md5 Uuid Url HttpContentParser Config WinStrptime.

(** ** [test_url.cpp] *)
Section url.
Local Instance test_services : Services :=
  λ s, if str_eqb s (lit "http") then Some 80%Z else if str_eqb s (lit "https") then Some 443%Z else None.

Definition url_of (text : string) : url := url_of_string (lit text).

Definition set_scheme (s : string) (u : url) : url :=
  Url (lit s) (user u) (password u) (host u) (port u) (Url.path u) (query u) (fragment u) (parameters u).

Definition special : string := "This!@#$%^&*()%01%02is a test".

Definition koi8 : str := chr <$> [0xD5; 0xC3; 0xC9]%Z.

Example test_url :
  let u1 := url_of "http://www.test.com:8080/~path/script?param=value#here" in
  let u2 := url_of "http://www.test.com/~path/?param=value2" in
  url_str (url_of "http://clickhouse:8123/?database=bg") = lit "http://clickhouse:8123/?database=bg" ∧
  scheme u1 = scheme u2 ∧ host u1 = host u2 ∧ Url.path u1 = Url.path u2 ++ lit "script" ∧
  url_str u2 = lit "http://www.test.com/~path/?param=value2" ∧ Url.path u2 = lit "/~path/" ∧
  Url.encode koi8 = lit "%D5%C3%C9" ∧ Url.decode (lit "%D5%C3%C9") = koi8 ∧
  Url.decode (Url.encode (lit special)) = lit special ∧ (port u1 - port u2 = 8000)%Z.
Proof. vm_compute. done. Qed.

Example test_url_files :
  let u3 := normalize (lit "/some/path/to/set/") (set_scheme "file" (url_of "../../.././file.txt")) in
  let u4 := set_path (lit "/some/file.txt") (set_scheme "file" url_new) in
  let u6 := url_of "file://www.test.com/~path/" in
  url_str u4 = lit "file:///some/file.txt" ∧ Url.path u3 = Url.path u4 ∧
  url_str (set_scheme "file" (url_of "C:/Program Files/dbPager Server/bin/libdbp_isapi-3.dll"))
    = lit "file:///C:/Program Files/dbPager Server/bin/libdbp_isapi-3.dll" ∧
  host u6 = lit "www.test.com" ∧ Url.path u6 = lit "/~path/" ∧
  url_str (url_of "https://google.com") = lit "https://google.com/".
Proof. vm_compute. done. Qed.
End url.

(** ** [test_strutils.cpp] *)
Example test_strutils :
  compare (lit "Keep-Alive") (lit "Set-Cookie") = false ∧ compare (lit "aaa") (lit "AAA") = true ∧
  compare (lit "sss") (lit "ssS") = true ∧ compare [] [] = true ∧
  compare (lit "   ") (lit "   ") = true ∧
  to_string_ptr 0xb79d9f80 = lit "0xb79d9f80" ∧ from_string_ptr (lit "0xb79d9f80") = 0xb79d9f80%Z.
Proof. vm_compute. done. Qed.

(** ** [test_uuid.cpp] *)

(** Two identifiers made in the same second from different random numbers. *)
Example test_uuid :
  let u2 := uuid_generate 1251763384 (λ i, Z.of_nat i) in
  let u3 := uuid_generate 1251763384 (λ i, Z.of_nat i * 7)%Z in
  let text := lit "f81d4fae-7dec-11d0-a765-00a0c91e6bf6" in
  uuid_bool u2 = true ∧ uuid_bool uuid_clear = false ∧ uuid_ne u2 uuid_clear = true ∧ uuid_ne u2 u3 = true ∧
  uuid_assign text = uuid_of_cstr (Some text) ∧ uuid_str <$> uuid_assign text = Ret text.
Proof. vm_compute. done. Qed.

(** ** [test_codec_base64.cpp] *)
Example test_codec_base64 :
  (r ← encode_loop 14 [nul; nul; nul] (of_string (lit "Test String!")) [];
   decode_loop 18 [0; 0; 0; 0]%Z (of_string r) [])
  = Some (lit "Test String!").
Proof. vm_compute. reflexivity. Qed.

(** ** [test_encode_md5.cpp] *)

(** The second digest is written over the first. *)
Example test_encode_md5 :
  (out ← md5_encode 3 [] (of_string []) (of_string []);
   out2 ← md5_encode 3 [] (of_string (lit "The quick brown fox jumps over the lazy dog")) (Stream (sbuf out.2) 0 0 false false false);
   Some (sbuf out.2, sbuf out2.2))
  = Some (lit "d41d8cd98f00b204e9800998ecf8427e", lit "9e107d9d372bb6826bd81d3542a419d6").
Proof. vm_compute. reflexivity. Qed.

(** ** [test_factory.cpp] *)

(** The numbers are what [foo] answers. *)
Example test_factory :
  (f ← register_class (lit "son_one") 1%Z ∅;
   f ← register_class (lit "son_two") 2%Z f;
   f ← register_class (lit "first_son_child") 4%Z f;
   p1 ← create (lit "son_one") f; p2 ← create (lit "son_two") f; p3 ← create (lit "first_son_child") f;
   Ret (7 - (p3 + p2 + p1))%Z)
  = Ret 0%Z.
Proof. vm_compute. reflexivity. Qed.

(** ** [test_http_content_parser.cpp] *)
Definition parsed (type content : string) : outcome (list http_content_element) :=
  h ← set_content (lit content) (put_header (lit "Content-Type") (lit type) http_header_new); content_parse h.

(** The third part expects three elements of a multipart form, whose parser has no body: here
    the program fails. *)
Example test_http_content_parser :
  parsed "application/x-www-form-urlencoded; charset=utf-8"
         "ascii=ascii_value&encoded=%25+value&utf=%D0%AA%D0%AC%25"
  = Ret [Element (lit "ascii") (lit "ascii_value"); Element (lit "encoded") (lit "% value");
         Element (lit "utf") (chr <$> [0xD0; 0xAA; 0xD0; 0xAC; 37]%Z)] ∧
  parsed "text/plain" "test %25 test" = Ret [Element (lit "content") (lit "test %25 test")] ∧
  length <$> parsed "multipart/form-data; boundary=AaB03x" "--AaB03x--" = Ret 0.
Proof. vm_compute. done. Qed.

(** ** [test_mimetype.cpp], [test_config.cpp] *)
Definition file_of (ls : list string) : str := unlines (lit <$> ls).

Definition tab : string := String (chr 9) EmptyString.

Definition test_conf : str :=
  file_of ["; Comment"; "# comment"; "[test]"; "digital_value=0.10"; "boolean_value = Yes";
           " string_value" ++ tab ++ "=" ++ tab ++ "Test"; ""; "@include = test_*.co?f"]%string.

Definition test_include_conf : str :=
  file_of ["http://dbpager.org.ru/schemas/dbp/3.0/odbc = /home/dennis/development/tmp/lib/dbpager/libdbp_odbc.so";
           "; Comment"; "# comment"; "[test]";
           "http://dbpager.org.ru/schemas/dbp/3.0/odbc = /home/dennis/development/tmp/lib/dbpager/libdbp_odbc.so";
           "digital_value_2 =" ++ tab ++ "5"; "boolean_value_2 =" ++ tab ++ "TRUE";
           "string_value_2 =" ++ tab ++ "Test"; ""; "[test_2]"; "string_value =" ++ tab ++ tab ++ "Test"]%string.

(** The directory of the tests; the system has no table of types. *)
Local Instance tests_dir : Posix := {|
  chdir := λ d _, d;
  glob := λ _ p, if str_eqb p (lit "test_*.co?f") then Some [lit "test_include.conf"] else None;
  open_file := λ _ n,
    if str_eqb n (lit "test.conf") then Some test_conf
    else if str_eqb n (lit "test_include.conf") then Some test_include_conf else None |}.

Example test_mimetype :
  (m ← mimetype_new (lit "/tests") (lit "/etc"); Some (mimetype_of m (lit "./test.conf"))) = Some (lit "text/plain").
Proof. vm_compute. reflexivity. Qed.

Definition one : double := of_int 1.

Example test_config :
  match load_from_file 2 (lit "test.conf") (Config.Config [] (lit "/tests")) with
  | Some (Ret _, c) =>
      let o := options c in
      let string_of sec n d := value_string (lit sec) (lit n) (lit d) o in
      length (get_section (lit "test") o) = 7 ∧
      string_of "test" "string_value" "FAIL" ++ string_of "test" "string_value_2" "FAIL_2"
        ++ string_of "test" "string_value_3" "Test" ++ string_of "test_2" "string_value" "FAIL_3"
      = lit "TestTestTestTest" ∧
      (λ d, dmul d (of_int 50)) <$> value_double (lit "test") (lit "digital_value") one o
      = value_double (lit "test") (lit "digital_value_2") one o ∧
      value_bool (lit "test") (lit "boolean_value") false o
      = value_bool (lit "test") (lit "boolean_value_2") true o
  | _ => False
  end.
Proof. vm_compute. done. Qed.

(** ** [test_datetime.cpp] *)

(** On Windows, and in a calendar of equal months: the fields set one by one give the date the
    text is read as. *)
Example test_datetime :
  let H := windows_time flat_calendar in
  dt_set_second 4 (dt_set_minute 3 (dt_set_hour 2 (dt_set_day 1 (dt_set_month 9 (dt_set_year 2000 datetime_zero)))))
  = datetime_parse (Tm 0 0 0 0 0 0 (0, 0, 0)%Z) (lit "Fri, 01 Sep 2000 02:03:04 GMT") default_datetime_format.
Proof. vm_compute. reflexivity. Qed.
